(** * MockMatch: interview sessions, their manager and their storage codec

    A shallow embedding of [src/lib/session-manager.ts] (class
    [SessionManager]) and of the storage module that follows it in the same
    file ([serializeSession], [deserializeSession], [saveSessionToHistory],
    [getSessionHistory]), with the types of [src/types/index.ts].

    Modelling conventions.
    - A JavaScript string is a [string]: a sequence of code units, here the
      code units 0..255.
    - A JavaScript number is kept in the decimal form that
      [Number.prototype.toString] is specified on: an integer mantissa and a
      power of ten ([number]).  The value is exact and finite; binary
      rounding, NaN, the infinities and the sign of zero are not
      represented.  So a property of a typed session is a property of the
      sessions whose numbers are finite: JSON has neither NaN nor the
      infinities, and [JSON.stringify] writes [null] for them.
    - The cursor of a session, an index and a length are integers ([Z]),
      as in the data model and in the tests of the repository.  The guard
      of [setCurrentQuestionIndex] and the indexing of
      [getCurrentQuestion], which do no arithmetic, are given a second
      time for every number, NaN, the infinities and the fractions among
      them ([Numeric]).
    - [JSON.parse] keeps the decimal that the text writes for a number,
      where the source rounds it to the nearest double, and reads the
      escapes [\u0000] to [\u00FF]: the texts that [JSON.stringify] writes
      for the values of this development are read as the source reads
      them.
    - A value of a parsed text is made a primitive value by [ToPrimitive],
      which throws for an object with a property [toString] of its own:
      [new Date(v)] and a template literal can throw ([Date_construct],
      [ToString_or_throw]).
    - A [Date] is its time value in milliseconds since the epoch, or the
      invalid date.
    - A [Map] is the list of its entries in insertion order.
    - A function that can throw returns a [result]: the value, or the
      exception with its class and message.
    - [new Date()] and [uuidv4()] read the environment: the functions that
      call them take the clock reading and the fresh identifier as
      arguments.
    - Objects are values.  The two methods that call a mutating method are
      given a second time on a store of objects ([Store]), where what they
      write is explicit.
    - What ECMA-262 leaves to the implementation (the messages of the
      exceptions of built-in functions, the date formats other than the
      ISO format) is a parameter ([Engine]). *)

From Stdlib Require Import ZArith List String Ascii Bool Lia.
Import ListNotations.

Local Open Scope string_scope.
Local Open Scope Z_scope.

(** ** Exceptions *)

Inductive ErrorClass := Error | TypeError | SyntaxError | RangeError.

Record Exn := mkExn { exn_class : ErrorClass; message : string }.

Inductive result (A : Type) :=
| Ok (a : A)
| Throw (e : Exn).
Arguments Ok {A} a.
Arguments Throw {A} e.

Definition bind {A B} (r : result A) (k : A -> result B) : result B :=
  match r with
  | Ok a => k a
  | Throw e => Throw e
  end.

Notation "'let*' x ':=' r 'in' k" := (bind r (fun x => k))
  (at level 10, x pattern, r at level 100, k at level 200).

Definition throw_new {A} (c : ErrorClass) (msg : string) : result A :=
  Throw (mkExn c msg).

(** ** Strings *)

(** [hay.includes(needle)]. *)
Fixpoint includes (needle hay : string) : bool :=
  prefix needle hay ||
  match hay with
  | EmptyString => false
  | String _ rest => includes needle rest
  end.

Fixpoint zeros (n : nat) : string :=
  match n with
  | O => ""
  | S k => String "0" (zeros k)
  end.

(** ** Decimal digits *)

Definition digit_char (d : Z) : ascii := ascii_of_nat (48 + Z.to_nat d).

Definition is_digit (c : ascii) : bool :=
  ((48 <=? nat_of_ascii c) && (nat_of_ascii c <=? 57))%nat.

Definition digit_val (c : ascii) : Z := Z.of_nat (nat_of_ascii c) - 48.

(** The [n] low decimal digits of [x], most significant first. *)
Fixpoint pad_digits (n : nat) (x : Z) : string :=
  match n with
  | O => ""
  | S k => pad_digits k (x / 10) ++ String (digit_char (x mod 10)) ""
  end.

(** Horner evaluation of a digit string. *)
Fixpoint digits_value (acc : Z) (s : string) : Z :=
  match s with
  | EmptyString => acc
  | String c rest => digits_value (10 * acc + digit_val c) rest
  end.

Fixpoint ndigits_fuel (fuel : nat) (x : Z) : nat :=
  match fuel with
  | O => 1
  | S f => if x <? 10 then 1%nat else S (ndigits_fuel f (x / 10))
  end.

(** Number of decimal digits of [x >= 0] (1 for 0). *)
Definition ndigits (x : Z) : nat := ndigits_fuel (Z.to_nat (Z.log2 x)) x.

(** Decimal digits of [x >= 0] without leading zeros. *)
Definition Z_digits (x : Z) : string := pad_digits (ndigits x) x.

(** ** Numbers *)

(** The number [mant * 10 ^ expo]. *)
Record number := mkNumber { mant : Z; expo : Z }.

(** The form with the fewest digits: no trailing zero in the mantissa. *)
Definition canonical (x : number) : bool :=
  if mant x =? 0 then expo x =? 0 else negb (mant x mod 10 =? 0).

Fixpoint strip10 (fuel : nat) (m e : Z) : number :=
  match fuel with
  | O => mkNumber m e
  | S f => if m mod 10 =? 0 then strip10 f (m / 10) (e + 1) else mkNumber m e
  end.

Definition normalize (m e : Z) : number :=
  if m =? 0 then mkNumber 0 0
  else strip10 (S (Z.to_nat (Z.log2 (Z.abs m)))) m e.

Definition number_of_Z (z : Z) : number := normalize z 0.

Definition number_eqb (x y : number) : bool :=
  (mant x =? mant y) && (expo x =? expo y).

(** The integer a number denotes, when it denotes one. *)
Definition Z_of_number (x : number) : option Z :=
  if 0 <=? expo x then Some (mant x * 10 ^ expo x) else None.

(** [Number::toString] (radix 10) of ECMA-262 for a positive number, on
    its digits [s], their count [k] and the position [n] of the decimal
    point. *)
Definition digits_toString (s e : Z) : string :=
  let k := Z.of_nat (ndigits s) in
  let n := e + k in
  if (k <=? n) && (n <=? 21) then
    Z_digits s ++ zeros (Z.to_nat (n - k))
  else if (0 <? n) && (n <=? 21) then
    Z_digits (s / 10 ^ (k - n)) ++ "." ++ pad_digits (Z.to_nat (k - n)) s
  else if (-6 <? n) && (n <=? 0) then
    "0." ++ zeros (Z.to_nat (- n)) ++ Z_digits s
  else
    let x := n - 1 in
    let xs := (if x <? 0 then "-" else "+") ++ Z_digits (Z.abs x) in
    if k =? 1 then Z_digits s ++ "e" ++ xs
    else Z_digits (s / 10 ^ (k - 1)) ++ "." ++
         pad_digits (Z.to_nat (k - 1)) s ++ "e" ++ xs.

Definition Number_toString (x : number) : string :=
  if mant x =? 0 then "0"
  else (if mant x <? 0 then "-" else "") ++
       digits_toString (Z.abs (mant x)) (expo x).

(** [`${i}`] for an integer. *)
Definition Z_toString (i : Z) : string := Number_toString (number_of_Z i).

(** ** Dates *)

Inductive Date :=
| TimeValue (t : Z)
| InvalidDate.

(** [isNaN(d.getTime())]. *)
Definition isNaN_getTime (d : Date) : bool :=
  match d with
  | TimeValue _ => false
  | InvalidDate => true
  end.

(** ** Maps *)

Section MapModel.
Context {K V : Type}.
Variable key_eqb : K -> K -> bool.

Definition Map := list (K * V).

Fixpoint Map_get (k : K) (m : Map) : option V :=
  match m with
  | [] => None
  | (k', v) :: rest => if key_eqb k' k then Some v else Map_get k rest
  end.

Definition Map_has (k : K) (m : Map) : bool :=
  match Map_get k m with
  | Some _ => true
  | None => false
  end.

(** [m.set(k, v)]: an existing key keeps its place, a new one goes last. *)
Fixpoint Map_set (k : K) (v : V) (m : Map) : Map :=
  match m with
  | [] => [(k, v)]
  | (k', v') :: rest =>
      if key_eqb k' k then (k', v) :: rest
      else (k', v') :: Map_set k v rest
  end.

(** [new Map(entries)]. *)
Definition Map_new (entries : list (K * V)) : Map :=
  fold_left (fun m kv => Map_set (fst kv) (snd kv) m) entries [].

(** [Array.from(m.entries())]. *)
Definition Map_entries (m : Map) : list (K * V) := m.

Definition Map_size (m : Map) : Z := Z.of_nat (List.length m).

Definition Map_keys (m : Map) : list K := map fst m.
End MapModel.

Arguments Map : clear implicits.

(** ** The types of [src/types/index.ts] *)

Inductive RoleType := software | devops | security.
Inductive QuestionType := behavioral | technical | system_design.
Inductive ExperienceLevel := junior | mid | senior | staff.

Record ParsedJobDescription := mkParsedJobDescription {
  roleType : RoleType;
  skills : list string;
  experienceLevel : ExperienceLevel;
  technologies : list string;
  responsibilities : list string;
  rawDescription : string
}.

Record InterviewQuestion := mkInterviewQuestion {
  q_id : string;
  q_type : QuestionType;
  question : string;
  difficulty : ExperienceLevel;
  relatedSkills : list string
}.

Record AnswerFeedback := mkAnswerFeedback {
  questionId : string;
  score : number;
  strengths : list string;
  improvements : list string;
  timestamp : Date
}.

Record PerformanceSummary := mkPerformanceSummary {
  ps_behavioral : number;
  ps_technical : number;
  ps_systemDesign : number
}.

Record SessionFeedback := mkSessionFeedback {
  overallScore : number;
  performanceSummary : PerformanceSummary;
  strongestAreas : list string;
  improvementAreas : list string;
  recommendations : list string
}.

Record InterviewSession := mkInterviewSession {
  id : string;
  parsedJD : ParsedJobDescription;
  questions : list InterviewQuestion;
  answers : Map string string;
  feedback : Map string AnswerFeedback;
  sessionFeedback : option SessionFeedback;
  currentQuestionIndex : Z;
  isComplete : bool;
  createdAt : Date;
  completedAt : option Date
}.

(** Object spread with one field replaced: [{ ...session, answers }] and
    the like. *)
Definition with_answers (s : InterviewSession) (a : Map string string) :=
  mkInterviewSession (id s) (parsedJD s) (questions s) a (feedback s)
    (sessionFeedback s) (currentQuestionIndex s) (isComplete s) (createdAt s)
    (completedAt s).

Definition with_feedback (s : InterviewSession) (f : Map string AnswerFeedback) :=
  mkInterviewSession (id s) (parsedJD s) (questions s) (answers s) f
    (sessionFeedback s) (currentQuestionIndex s) (isComplete s) (createdAt s)
    (completedAt s).

Definition with_sessionFeedback (s : InterviewSession) (f : option SessionFeedback) :=
  mkInterviewSession (id s) (parsedJD s) (questions s) (answers s) (feedback s)
    f (currentQuestionIndex s) (isComplete s) (createdAt s) (completedAt s).

Definition with_currentQuestionIndex (s : InterviewSession) (i : Z) :=
  mkInterviewSession (id s) (parsedJD s) (questions s) (answers s) (feedback s)
    (sessionFeedback s) i (isComplete s) (createdAt s) (completedAt s).

Definition with_completion (s : InterviewSession) (c : bool) (d : option Date) :=
  mkInterviewSession (id s) (parsedJD s) (questions s) (answers s) (feedback s)
    (sessionFeedback s) (currentQuestionIndex s) c (createdAt s) d.

(** [questions.length]. *)
Definition length_of {A} (l : list A) : Z := Z.of_nat (List.length l).

(** [l[i]]: [undefined] out of range. *)
Definition array_get {A} (l : list A) (i : Z) : option A :=
  if i <? 0 then None else nth_error l (Z.to_nat i).

(** ** SessionManager *)

Module SessionManager.

Definition createSession (uuid : string) (now : Z)
    (parsedJD : ParsedJobDescription) (questions : list InterviewQuestion)
    : InterviewSession :=
  {| id := uuid;
     parsedJD := parsedJD;
     questions := questions;
     answers := Map_new String.eqb [];
     feedback := Map_new String.eqb [];
     sessionFeedback := None;
     currentQuestionIndex := 0;
     isComplete := false;
     createdAt := TimeValue now;
     completedAt := None |}.

Definition storeAnswer (session : InterviewSession) (questionId answer : string)
    : result InterviewSession :=
  let questionExists :=
    existsb (fun q => String.eqb (q_id q) questionId) (questions session) in
  if negb questionExists then
    throw_new Error ("Question with ID " ++ questionId ++ " not found in session")
  else
    let updatedAnswers := Map_new String.eqb (Map_entries (answers session)) in
    let updatedAnswers := Map_set String.eqb questionId answer updatedAnswers in
    Ok (with_answers session updatedAnswers).

Definition getAnswer (session : InterviewSession) (questionId : string)
    : option string :=
  Map_get String.eqb questionId (answers session).

Definition storeFeedback (session : InterviewSession) (feedback0 : AnswerFeedback)
    : InterviewSession :=
  let updatedFeedback := Map_new String.eqb (Map_entries (feedback session)) in
  let updatedFeedback :=
    Map_set String.eqb (questionId feedback0) feedback0 updatedFeedback in
  with_feedback session updatedFeedback.

Definition getFeedback (session : InterviewSession) (questionId : string)
    : option AnswerFeedback :=
  Map_get String.eqb questionId (feedback session).

Definition setCurrentQuestionIndex (session : InterviewSession) (index : Z)
    : result InterviewSession :=
  if (index <? 0) || (index >=? length_of (questions session)) then
    throw_new Error
      ("Invalid question index: " ++ Z_toString index ++
       ". Must be between 0 and " ++
       Z_toString (length_of (questions session) - 1))
  else
    Ok (with_currentQuestionIndex session index).

Definition completeSession (now : Z) (session : InterviewSession)
    : InterviewSession :=
  with_completion session true (Some (TimeValue now)).

Definition areAllQuestionsAnswered (session : InterviewSession) : bool :=
  Map_size (answers session) =? length_of (questions session).

Definition storeSessionFeedback (session : InterviewSession)
    (sessionFeedback : SessionFeedback) : InterviewSession :=
  with_sessionFeedback session (Some sessionFeedback).

(** [session.questions[session.currentQuestionIndex]]: no bounds check,
    [None] is JavaScript's [undefined]. *)
Definition getCurrentQuestion (session : InterviewSession)
    : option InterviewQuestion :=
  array_get (questions session) (currentQuestionIndex session).

Definition nextQuestion (session : InterviewSession) : result InterviewSession :=
  let nextIndex := currentQuestionIndex session + 1 in
  if nextIndex >=? length_of (questions session) then
    throw_new Error "Already at the last question"
  else setCurrentQuestionIndex session nextIndex.

Definition previousQuestion (session : InterviewSession) : result InterviewSession :=
  let prevIndex := currentQuestionIndex session - 1 in
  if prevIndex <? 0 then
    throw_new Error "Already at the first question"
  else setCurrentQuestionIndex session prevIndex.

End SessionManager.

(** ** The writing methods on a store of Map objects

    [storeAnswer] and [storeFeedback] are the methods that call a mutating
    method, [Map.prototype.set].  Here the Map objects live in a store and
    a session holds their addresses, as a JavaScript object holds
    references; the spread [...session] copies the addresses, so the
    session returned shares with the session given every Map that was not
    replaced.  A call returns the store it leaves together with its result
    or exception.  The functions of [SessionManager] are what these
    compute on the contents of the objects. *)
Module Store.

Definition loc := nat.

Record store := mkStore {
  answer_maps : list (Map string string);
  feedback_maps : list (Map string AnswerFeedback)
}.

(** A session object: the addresses of its two Maps, and its other fields
    (the maps of [fields] are not read). *)
Record SessionObject := mkSessionObject {
  answers_at : loc;
  feedback_at : loc;
  fields : InterviewSession
}.

(** The session value that a session object stands for in a store. *)
Definition contents (st : store) (o : SessionObject) : option InterviewSession :=
  match nth_error (answer_maps st) (answers_at o),
        nth_error (feedback_maps st) (feedback_at o) with
  | Some a, Some f => Some (with_feedback (with_answers (fields o) a) f)
  | _, _ => None
  end.

Fixpoint write {A : Type} (l : list A) (i : nat) (x : A) : list A :=
  match l, i with
  | [], _ => []
  | _ :: rest, O => x :: rest
  | y :: rest, S j => y :: write rest j x
  end.

(** [new Map(m)] for the Map at address [m]: a new object, after the
    others.  (An address with no object is not a JavaScript state; the
    store is then left as it is.) *)
Definition new_Map {V : Type} (maps : list (Map string V)) (m : loc)
    : list (Map string V) * loc :=
  match nth_error maps m with
  | Some old => ((maps ++ [Map_new String.eqb (Map_entries old)])%list, List.length maps)
  | None => (maps, m)
  end.

(** [m.set(k, v)]: the object at address [m] is written. *)
Definition Map_prototype_set {V : Type} (maps : list (Map string V)) (m : loc)
    (k : string) (v : V) : list (Map string V) :=
  match nth_error maps m with
  | Some old => write maps m (Map_set String.eqb k v old)
  | None => maps
  end.

Definition storeAnswer (st : store) (session : SessionObject)
    (questionId answer : string) : store * result SessionObject :=
  let questionExists :=
    existsb (fun q => String.eqb (q_id q) questionId)
      (questions (fields session)) in
  if negb questionExists then
    (st, throw_new Error ("Question with ID " ++ questionId ++ " not found in session"))
  else
    let (maps, updatedAnswers) := new_Map (answer_maps st) (answers_at session) in
    let maps := Map_prototype_set maps updatedAnswers questionId answer in
    (mkStore maps (feedback_maps st),
     Ok (mkSessionObject updatedAnswers (feedback_at session) (fields session))).

Definition storeFeedback (st : store) (session : SessionObject)
    (feedback0 : AnswerFeedback) : store * SessionObject :=
  let (maps, updatedFeedback) := new_Map (feedback_maps st) (feedback_at session) in
  let maps := Map_prototype_set maps updatedFeedback (questionId feedback0) feedback0 in
  (mkStore (answer_maps st) maps,
   mkSessionObject (answers_at session) updatedFeedback (fields session)).

(** Every object of [st] is in [st'], at its address and with its
    content. *)
Definition preserved (st st' : store) : Prop :=
  (forall l m, nth_error (answer_maps st) l = Some m ->
               nth_error (answer_maps st') l = Some m) /\
  (forall l m, nth_error (feedback_maps st) l = Some m ->
               nth_error (feedback_maps st') l = Some m).

End Store.

(** ** The cursor as a number

    The source gives the cursor and the index the type [number], and
    [SessionManager] above takes them as integers.  NaN, the infinities
    and the fractions are numbers too.  The two methods that read the cursor or the index without
    arithmetic are given here for every number; on an integer they are the
    methods above.  A finite number is its decimal value; a comparison is
    false when an operand is NaN. *)
Module Numeric.

Inductive Number :=
| NaN
| Infinity (negative : bool)
| Finite (x : number).

Definition of_Z (z : Z) : Number := Finite (number_of_Z z).

(** [x < y] for two finite numbers. *)
Definition number_ltb (x y : number) : bool :=
  let e := Z.min (expo x) (expo y) in
  mant x * 10 ^ (expo x - e) <? mant y * 10 ^ (expo y - e).

(** [a < b]. *)
Definition lt (a b : Number) : bool :=
  match a, b with
  | NaN, _ => false
  | _, NaN => false
  | Infinity n, Infinity m => n && negb m
  | Infinity n, Finite _ => n
  | Finite _, Infinity m => negb m
  | Finite x, Finite y => number_ltb x y
  end.

(** [a >= b]. *)
Definition ge (a b : Number) : bool :=
  match a, b with
  | NaN, _ => false
  | _, NaN => false
  | _, _ => negb (lt a b)
  end.

(** [`${a}`]. *)
Definition toString (a : Number) : string :=
  match a with
  | NaN => "NaN"
  | Infinity true => "-Infinity"
  | Infinity false => "Infinity"
  | Finite x => Number_toString x
  end.

(** The integer a number is, when it is one. *)
Definition integer (a : Number) : option Z :=
  match a with
  | Finite x => Z_of_number (normalize (mant x) (expo x))
  | _ => None
  end.

(** A session object whose cursor is any number: [fields] gives the other
    properties (its own cursor is not read). *)
Record Session := mkSession {
  fields : InterviewSession;
  cursor : Number
}.

Definition setCurrentQuestionIndex (session : Session) (index : Number)
    : result Session :=
  let length := length_of (questions (fields session)) in
  if lt index (of_Z 0) || ge index (of_Z length) then
    throw_new Error
      ("Invalid question index: " ++ toString index ++
       ". Must be between 0 and " ++ Z_toString (length - 1))
  else
    Ok (mkSession (fields session) index).

(** [session.questions[session.currentQuestionIndex]]: a list has an
    element at an integer of its range, and [undefined] at every other
    number. *)
Definition getCurrentQuestion (session : Session) : option InterviewQuestion :=
  match integer (cursor session) with
  | Some i => array_get (questions (fields session)) i
  | None => None
  end.

End Numeric.

(** ** JSON values *)

(** The values [JSON.parse] builds.  [undefined] is not one of them: a
    value that may be [undefined] is an [option JSValue], [None] being
    [undefined]. *)
#[local] Unset Elimination Schemes.
Inductive JSValue :=
| JNull
| JBool (b : bool)
| JNumber (n : number)
| JString (s : string)
| JArray (elems : list JSValue)
| JObject (props : list (string * JSValue)).
#[local] Set Elimination Schemes.

Definition jsval := option JSValue.
Definition undefined : jsval := None.

(** ** The engine

    What ECMA-262 leaves to the implementation and the code below runs
    into: the date formats [Date.parse] accepts besides the ISO one, and the
    wording of the messages of the exceptions the engine itself throws
    ([syntax_error_message text rest] is given the text and the part of it
    the parser stopped at). *)

Inductive TypeErrorKind :=
| ReadPropertyOfNull (name : string)
| ReadPropertyOfUndefined (name : string)
| NotIterable (v : jsval)
| NotAnEntryObject (v : JSValue)
| NotAFunction (callee : string)
| NoPrimitiveValue.

Record Engine := mkEngine {
  legacy_date_parse : string -> Date;
  type_error_message : TypeErrorKind -> string;
  syntax_error_message : string -> string -> string
}.

(** ** JSON.stringify *)

(** The quotation mark. *)
Definition dquote : ascii := "034"%char.

Definition hex_char (d : nat) : ascii :=
  if (d <? 10)%nat then ascii_of_nat (48 + d) else ascii_of_nat (87 + d).

(** One code unit of [QuoteJSONString]. *)
Definition escape_char (c : ascii) : string :=
  let n := nat_of_ascii c in
  if (n =? 8)%nat then "\b"
  else if (n =? 9)%nat then "\t"
  else if (n =? 10)%nat then "\n"
  else if (n =? 12)%nat then "\f"
  else if (n =? 13)%nat then "\r"
  else if (n =? 34)%nat then String "\" (String dquote "")
  else if (n =? 92)%nat then "\\"
  else if (n <? 32)%nat then
    "\u00" ++ String (hex_char (n / 16)) (String (hex_char (n mod 16)) "")
  else String c "".

Fixpoint escape_string (s : string) : string :=
  match s with
  | EmptyString => ""
  | String c rest => escape_char c ++ escape_string rest
  end.

Definition QuoteJSONString (s : string) : string :=
  String dquote (escape_string s ++ String dquote "").

Definition stringify_member (f : JSValue -> string) (kv : string * JSValue) : string :=
  QuoteJSONString (fst kv) ++ ":" ++ f (snd kv).

(** [JSON.stringify(v)] without replacer and indentation. *)
Fixpoint JSON_stringify (v : JSValue) : string :=
  match v with
  | JNull => "null"
  | JBool true => "true"
  | JBool false => "false"
  | JNumber n => Number_toString n
  | JString s => QuoteJSONString s
  | JArray elems => "[" ++ concat "," (map JSON_stringify elems) ++ "]"
  | JObject props =>
      "{" ++ concat "," (map (stringify_member JSON_stringify) props) ++ "}"
  end.

(** ** JSON.parse *)

Inductive presult (A : Type) :=
| POk (a : A) (rest : string)
| PErr (rest : string).
Arguments POk {A} a rest.
Arguments PErr {A} rest.

Definition is_ws (c : ascii) : bool :=
  let n := nat_of_ascii c in
  ((n =? 32) || (n =? 9) || (n =? 10) || (n =? 13))%nat.

Fixpoint skip_ws (s : string) : string :=
  match s with
  | EmptyString => ""
  | String c rest => if is_ws c then skip_ws rest else s
  end.

Definition hex_val (c : ascii) : option nat :=
  let n := nat_of_ascii c in
  if ((48 <=? n) && (n <=? 57))%nat then Some (n - 48)%nat
  else if ((97 <=? n) && (n <=? 102))%nat then Some (n - 87)%nat
  else if ((65 <=? n) && (n <=? 70))%nat then Some (n - 55)%nat
  else None.

(** The code unit of [\uXXXX]; code units above 255 are outside the
    string model and are reported as a failure. *)
Definition hex4 (a b c d : ascii) : option ascii :=
  match hex_val a, hex_val b, hex_val c, hex_val d with
  | Some x, Some y, Some z, Some w =>
      if ((x =? 0) && (y =? 0))%nat then Some (ascii_of_nat (16 * z + w)) else None
  | _, _, _, _ => None
  end.

Definition unescape (c : ascii) : option ascii :=
  match c with
  | "034"%char => Some dquote
  | "\"%char => Some "\"%char
  | "/"%char => Some "/"%char
  | "b"%char => Some (ascii_of_nat 8)
  | "f"%char => Some (ascii_of_nat 12)
  | "n"%char => Some (ascii_of_nat 10)
  | "r"%char => Some (ascii_of_nat 13)
  | "t"%char => Some (ascii_of_nat 9)
  | _ => None
  end.

(** The characters of a string literal after its opening quote, up to and
    including the closing quote. *)
Fixpoint parse_string_body (s : string) : presult string :=
  match s with
  | EmptyString => PErr ""
  | String c rest =>
      if (nat_of_ascii c =? 34)%nat then POk "" rest
      else if (nat_of_ascii c =? 92)%nat then
        match rest with
        | String "u" (String a (String b (String x (String y rest')))) =>
            match hex4 a b x y with
            | Some u =>
                match parse_string_body rest' with
                | POk t r => POk (String u t) r
                | PErr r => PErr r
                end
            | None => PErr rest
            end
        | String e rest' =>
            match unescape e with
            | Some u =>
                match parse_string_body rest' with
                | POk t r => POk (String u t) r
                | PErr r => PErr r
                end
            | None => PErr rest
            end
        | EmptyString => PErr ""
        end
      else if (nat_of_ascii c <? 32)%nat then PErr s
      else
        match parse_string_body rest with
        | POk t r => POk (String c t) r
        | PErr r => PErr r
        end
  end.

(** The longest prefix of digits, and what follows it. *)
Fixpoint span_digits (s : string) : string * string :=
  match s with
  | EmptyString => ("", "")
  | String c rest =>
      if is_digit c then
        let (d, r) := span_digits rest in (String c d, r)
      else ("", s)
  end.

(** [0], or a non-zero digit and more digits. *)
Definition parse_int_part (s : string) : option (string * string) :=
  match s with
  | EmptyString => None
  | String c rest =>
      if (nat_of_ascii c =? 48)%nat then Some ("0", rest)
      else if is_digit c then Some (span_digits s)
      else None
  end.

(** A point and at least one digit, or nothing. *)
Definition parse_frac_part (s : string) : presult string :=
  match s with
  | String "." rest =>
      match span_digits rest with
      | (EmptyString, r) => PErr r
      | (d, r) => POk d r
      end
  | _ => POk "" s
  end.

Definition parse_exp_digits (sign : Z) (s : string) : presult Z :=
  match span_digits s with
  | (EmptyString, r) => PErr r
  | (d, r) => POk (sign * digits_value 0 d) r
  end.

(** [e] or [E], an optional sign and at least one digit, or nothing. *)
Definition parse_exp_part (s : string) : presult Z :=
  match s with
  | String c rest =>
      if ((nat_of_ascii c =? 101) || (nat_of_ascii c =? 69))%nat then
        match rest with
        | String "+" r => parse_exp_digits 1 r
        | String "-" r => parse_exp_digits (-1) r
        | _ => parse_exp_digits 1 rest
        end
      else POk 0 s
  | EmptyString => POk 0 ""
  end.

(** Mantissa and exponent of an unsigned JSON number. *)
Definition parse_unsigned (s : string) : presult (Z * Z) :=
  match parse_int_part s with
  | None => PErr s
  | Some (i, s1) =>
      match parse_frac_part s1 with
      | PErr r => PErr r
      | POk f s2 =>
          match parse_exp_part s2 with
          | PErr r => PErr r
          | POk e s3 =>
              POk (digits_value 0 (i ++ f), e - Z.of_nat (String.length f)) s3
          end
      end
  end.

Definition parse_number (s : string) : presult number :=
  match s with
  | String "-" rest =>
      match parse_unsigned rest with
      | POk (m, e) r => POk (normalize (- m) e) r
      | PErr r => PErr r
      end
  | _ =>
      match parse_unsigned s with
      | POk (m, e) r => POk (normalize m e) r
      | PErr r => PErr r
      end
  end.

(** [expect_word w s]: [s] without its prefix [w]. *)
Fixpoint expect_word (w s : string) : option string :=
  match w with
  | EmptyString => Some s
  | String c w' =>
      match s with
      | String c' s' => if Ascii.eqb c c' then expect_word w' s' else None
      | EmptyString => None
      end
  end.

Definition parse_word {A} (w : string) (a : A) (s : string) : presult A :=
  match expect_word w s with
  | Some r => POk a r
  | None => PErr s
  end.

(** [CreateDataProperty] for each member in turn: a repeated key keeps its
    first place and takes the last value.  Properties are kept in
    insertion order. *)
Definition object_of_members (ms : list (string * JSValue)) : JSValue :=
  JObject (Map_new String.eqb ms).

(** Recursive descent; [fuel] bounds the number of nested calls.  The
    parser of a list spends one unit on each value and the parser of a
    value one unit on each bracket, so twice the length of the text and one
    more is fuel that does not run out (lemma [parse_value_fuel]). *)
Fixpoint parse_value (fuel : nat) (s : string) {struct fuel} : presult JSValue :=
  match fuel with
  | O => PErr s
  | S f =>
      match skip_ws s with
      | EmptyString => PErr ""
      | String c rest as s' =>
          match c with
          | "n"%char => parse_word "null" JNull s'
          | "t"%char => parse_word "true" (JBool true) s'
          | "f"%char => parse_word "false" (JBool false) s'
          | "034"%char =>
              match parse_string_body rest with
              | POk str r => POk (JString str) r
              | PErr r => PErr r
              end
          | "["%char =>
              match skip_ws rest with
              | String "]" r => POk (JArray []) r
              | _ =>
                  match parse_elements f rest with
                  | POk vs r => POk (JArray vs) r
                  | PErr r => PErr r
                  end
              end
          | "{"%char =>
              match skip_ws rest with
              | String "}" r => POk (JObject []) r
              | _ =>
                  match parse_members f rest with
                  | POk ms r => POk (object_of_members ms) r
                  | PErr r => PErr r
                  end
              end
          | _ =>
              match parse_number s' with
              | POk n r => POk (JNumber n) r
              | PErr r => PErr r
              end
          end
      end
  end

with parse_elements (fuel : nat) (s : string) {struct fuel} : presult (list JSValue) :=
  match fuel with
  | O => PErr s
  | S f =>
      match parse_value f s with
      | PErr r => PErr r
      | POk v r =>
          match skip_ws r with
          | String "," r' =>
              match parse_elements f r' with
              | POk vs r'' => POk (v :: vs) r''
              | PErr e => PErr e
              end
          | String "]" r' => POk [v] r'
          | other => PErr other
          end
      end
  end

with parse_members (fuel : nat) (s : string) {struct fuel}
    : presult (list (string * JSValue)) :=
  match fuel with
  | O => PErr s
  | S f =>
      match skip_ws s with
      | String "034" r0 =>
          match parse_string_body r0 with
          | PErr e => PErr e
          | POk k r1 =>
              match skip_ws r1 with
              | String ":" r2 =>
                  match parse_value f r2 with
                  | PErr e => PErr e
                  | POk v r3 =>
                      match skip_ws r3 with
                      | String "," r4 =>
                          match parse_members f r4 with
                          | POk ms r5 => POk ((k, v) :: ms) r5
                          | PErr e => PErr e
                          end
                      | String "}" r4 => POk [(k, v)] r4
                      | other => PErr other
                      end
                  end
              | other => PErr other
              end
          end
      | other => PErr other
      end
  end.

Definition JSON_parse (E : Engine) (text : string) : result JSValue :=
  match parse_value (S (2 * String.length text)) text with
  | PErr r => throw_new SyntaxError (syntax_error_message E text r)
  | POk v r =>
      match skip_ws r with
      | EmptyString => Ok v
      | r' => throw_new SyntaxError (syntax_error_message E text r')
      end
  end.

(** ** Date: time values and the calendar *)

Definition msPerDay := 86400000.
Definition maxTime := 8640000000000000.

Definition Day (t : Z) : Z := t / msPerDay.
Definition TimeWithinDay (t : Z) : Z := t mod msPerDay.

(** Year, month (1..12) and day of the month of day [doe] of the 400-year
    era [era]; eras start on March 1st of the years divisible by 400, and
    [doe] counts from 0. *)
Definition civil_of_era (era doe : Z) : Z * Z * Z :=
  let yoe := (doe - doe / 1460 + doe / 36524 - doe / 146096) / 365 in
  let doy := doe - (365 * yoe + yoe / 4 - yoe / 100) in
  let mp := (5 * doy + 2) / 153 in
  let d := doy - (153 * mp + 2) / 5 + 1 in
  let m := if mp <? 10 then mp + 3 else mp - 9 in
  (yoe + era * 400 + (if m <=? 2 then 1 else 0), m, d).

(** Year, month and day of the month of a day number (days since
    1970-01-01) in the proleptic Gregorian calendar. *)
Definition civil_from_days (days : Z) : Z * Z * Z :=
  let z := days + 719468 in
  civil_of_era (z / 146097) (z mod 146097).

Definition days_from_civil (y m d : Z) : Z :=
  let y' := if m <=? 2 then y - 1 else y in
  let era := y' / 400 in
  let yoe := y' mod 400 in
  let mp := if m <=? 2 then m + 9 else m - 3 in
  let doy := (153 * mp + 2) / 5 + d - 1 in
  let doe := yoe * 365 + yoe / 4 - yoe / 100 + doy in
  era * 146097 + doe - 719468.

Definition InLeapYear (y : Z) : bool :=
  ((y mod 4 =? 0) && negb (y mod 100 =? 0)) || (y mod 400 =? 0).

Definition DaysInMonth (y m : Z) : Z :=
  if m =? 2 then (if InLeapYear y then 29 else 28)
  else if (m =? 4) || (m =? 6) || (m =? 9) || (m =? 11) then 30
  else 31.

Definition MakeTime (hour min sec ms : Z) : Z :=
  hour * 3600000 + min * 60000 + sec * 1000 + ms.

Definition MakeDate (day time : Z) : Z := day * msPerDay + time.

Definition TimeClip (t : Z) : Date :=
  if (- maxTime <=? t) && (t <=? maxTime) then TimeValue t else InvalidDate.

(** The year of the ISO format: four digits, or a sign and six. *)
Definition iso_year (y : Z) : string :=
  if (0 <=? y) && (y <=? 9999) then pad_digits 4 y
  else (if y <? 0 then "-" else "+") ++ pad_digits 6 (Z.abs y).

(** [d.toISOString()]. *)
Definition Date_toISOString (d : Date) : result string :=
  match d with
  | InvalidDate => throw_new RangeError "Invalid time value"
  | TimeValue t =>
      let '(y, m, dd) := civil_from_days (Day t) in
      let tw := TimeWithinDay t in
      Ok (iso_year y ++ "-" ++ pad_digits 2 m ++ "-" ++ pad_digits 2 dd ++
          "T" ++ pad_digits 2 (tw / 3600000) ++
          ":" ++ pad_digits 2 (tw / 60000 mod 60) ++
          ":" ++ pad_digits 2 (tw / 1000 mod 60) ++
          "." ++ pad_digits 3 (tw mod 1000) ++ "Z")
  end.

Definition obind {A B} (o : option A) (k : A -> option B) : option B :=
  match o with
  | Some a => k a
  | None => None
  end.

Notation "'let?' x ':=' o 'in' k" := (obind o (fun x => k))
  (at level 10, x pattern, o at level 100, k at level 200).

(** Exactly [n] digits: their value, and what follows them. *)
Fixpoint take_digits (n : nat) (acc : Z) (s : string) : option (Z * string) :=
  match n with
  | O => Some (acc, s)
  | S k =>
      match s with
      | String c rest =>
          if is_digit c then take_digits k (10 * acc + digit_val c) rest else None
      | EmptyString => None
      end
  end.

Definition parse_iso_year (s : string) : option (Z * string) :=
  match s with
  | String "+" rest => take_digits 6 0 rest
  | String "-" rest =>
      let? (y, r) := take_digits 6 0 rest in
      if y =? 0 then None else Some (- y, r)
  | _ => take_digits 4 0 s
  end.

(** The time value of a string in the complete ISO format
    [YYYY-MM-DDTHH:mm:ss.sssZ] (or [+YYYYYY-...], [-YYYYYY-...]) with every
    element in range; [None] for any other string. *)
Definition parse_iso (s : string) : option Z :=
  let? (y, s) := parse_iso_year s in
  let? s := expect_word "-" s in
  let? (mo, s) := take_digits 2 0 s in
  let? s := expect_word "-" s in
  let? (d, s) := take_digits 2 0 s in
  let? s := expect_word "T" s in
  let? (h, s) := take_digits 2 0 s in
  let? s := expect_word ":" s in
  let? (mi, s) := take_digits 2 0 s in
  let? s := expect_word ":" s in
  let? (se, s) := take_digits 2 0 s in
  let? s := expect_word "." s in
  let? (ms, s) := take_digits 3 0 s in
  match s with
  | "Z" =>
      if (1 <=? mo) && (mo <=? 12) && (1 <=? d) && (d <=? DaysInMonth y mo) &&
         (h <=? 24) && (mi <=? 59) && (se <=? 59) &&
         ((h <? 24) || ((mi =? 0) && (se =? 0) && (ms =? 0)))
      then Some (MakeDate (days_from_civil y mo d) (MakeTime h mi se ms))
      else None
  | _ => None
  end.

(** [Date.parse]: the ISO format, then whatever else the engine accepts. *)
Definition Date_parse (E : Engine) (s : string) : Date :=
  match parse_iso s with
  | Some t => TimeClip t
  | None => legacy_date_parse E s
  end.

(** ** Typed values as JavaScript objects

    The object a value of each interface of [src/types/index.ts] is at run
    time, with its properties in the order of the interface. *)

Definition RoleType_string (r : RoleType) : string :=
  match r with
  | software => "software"
  | devops => "devops"
  | security => "security"
  end.

Definition QuestionType_string (t : QuestionType) : string :=
  match t with
  | behavioral => "behavioral"
  | technical => "technical"
  | system_design => "system-design"
  end.

Definition ExperienceLevel_string (l : ExperienceLevel) : string :=
  match l with
  | junior => "junior"
  | mid => "mid"
  | senior => "senior"
  | staff => "staff"
  end.

Definition js_strings (l : list string) : JSValue := JArray (map JString l).

Definition js_ParsedJobDescription (jd : ParsedJobDescription) : JSValue :=
  JObject
    [("roleType", JString (RoleType_string (roleType jd)));
     ("skills", js_strings (skills jd));
     ("experienceLevel", JString (ExperienceLevel_string (experienceLevel jd)));
     ("technologies", js_strings (technologies jd));
     ("responsibilities", js_strings (responsibilities jd));
     ("rawDescription", JString (rawDescription jd))].

Definition js_InterviewQuestion (q : InterviewQuestion) : JSValue :=
  JObject
    [("id", JString (q_id q));
     ("type", JString (QuestionType_string (q_type q)));
     ("question", JString (question q));
     ("difficulty", JString (ExperienceLevel_string (difficulty q)));
     ("relatedSkills", js_strings (relatedSkills q))].

Definition js_PerformanceSummary (p : PerformanceSummary) : JSValue :=
  JObject
    [("behavioral", JNumber (ps_behavioral p));
     ("technical", JNumber (ps_technical p));
     ("systemDesign", JNumber (ps_systemDesign p))].

Definition js_SessionFeedback (f : SessionFeedback) : JSValue :=
  JObject
    [("overallScore", JNumber (overallScore f));
     ("performanceSummary", js_PerformanceSummary (performanceSummary f));
     ("strongestAreas", js_strings (strongestAreas f));
     ("improvementAreas", js_strings (improvementAreas f));
     ("recommendations", js_strings (recommendations f))].

(** ** Storage: the codec *)

Fixpoint map_result {A B} (f : A -> result B) (l : list A) : result (list B) :=
  match l with
  | [] => Ok []
  | a :: rest =>
      let* b := f a in
      let* bs := map_result f rest in
      Ok (b :: bs)
  end.

(** One entry of the [feedback] pair-list of [SerializableSession]. *)
Definition serializable_feedback_entry (entry : string * AnswerFeedback)
    : result JSValue :=
  let (id0, feedback0) := entry in
  let* ts := Date_toISOString (timestamp feedback0) in
  Ok (JArray
        [JString id0;
         JObject
           [("questionId", JString (questionId feedback0));
            ("score", JNumber (score feedback0));
            ("strengths", js_strings (strengths feedback0));
            ("improvements", js_strings (improvements feedback0));
            ("timestamp", JString ts)]]).

Definition serializable_answer_entry (entry : string * string) : JSValue :=
  JArray [JString (fst entry); JString (snd entry)].

(** An object with the properties of the interface [SerializableSession],
    in its order. *)
Definition SerializableSession
    (id0 parsedJD0 questions0 answers0 feedback0 sessionFeedback0
       currentQuestionIndex0 isComplete0 createdAt0 completedAt0 : JSValue)
    : JSValue :=
  JObject
    [("id", id0);
     ("parsedJD", parsedJD0);
     ("questions", questions0);
     ("answers", answers0);
     ("feedback", feedback0);
     ("sessionFeedback", sessionFeedback0);
     ("currentQuestionIndex", currentQuestionIndex0);
     ("isComplete", isComplete0);
     ("createdAt", createdAt0);
     ("completedAt", completedAt0)].

(** The [serializable] object of [serializeSession]. *)
Definition serializable_session (session : InterviewSession) : result JSValue :=
  let* feedback0 :=
    map_result serializable_feedback_entry (Map_entries (feedback session)) in
  let* createdAt0 := Date_toISOString (createdAt session) in
  let* completedAt0 :=
    match completedAt session with
    | Some d => let* iso := Date_toISOString d in Ok (JString iso)
    | None => Ok JNull
    end in
  Ok (SerializableSession
        (JString (id session))
        (js_ParsedJobDescription (parsedJD session))
        (JArray (map js_InterviewQuestion (questions session)))
        (JArray (map serializable_answer_entry (Map_entries (answers session))))
        (JArray feedback0)
        match sessionFeedback session with
        | Some f => js_SessionFeedback f
        | None => JNull
        end
        (JNumber (number_of_Z (currentQuestionIndex session)))
        (JBool (isComplete session))
        (JString createdAt0)
        completedAt0).

Definition serializeSession (session : InterviewSession) : result string :=
  let* serializable := serializable_session session in
  Ok (JSON_stringify serializable).

(** *** What [deserializeSession] returns at run time

    The declared type is [InterviewSession]; the fields hold whatever the
    text held. *)

Record RawAnswerFeedback := mkRawAnswerFeedback {
  raw_questionId : jsval;
  raw_score : jsval;
  raw_strengths : jsval;
  raw_improvements : jsval;
  raw_timestamp : Date
}.

Record RawSession := mkRawSession {
  raw_id : jsval;
  raw_parsedJD : jsval;
  raw_questions : jsval;
  raw_answers : Map jsval jsval;
  raw_feedback : Map jsval RawAnswerFeedback;
  raw_sessionFeedback : jsval;
  raw_currentQuestionIndex : jsval;
  raw_isComplete : jsval;
  raw_createdAt : Date;
  raw_completedAt : option Date
}.

(** *** The JavaScript operations the codec applies to parsed data *)

(** [!!v]. *)
Definition truthy (v : jsval) : bool :=
  match v with
  | None => false
  | Some JNull => false
  | Some (JBool b) => b
  | Some (JNumber n) => negb (mant n =? 0)
  | Some (JString s) => negb (s =? "")%string
  | Some (JArray _) => true
  | Some (JObject _) => true
  end.

(** [a || b]. *)
Definition js_or (a b : jsval) : jsval := if truthy a then a else b.

(** [a ?? b]. *)
Definition js_nullish (a b : jsval) : jsval :=
  match a with
  | None => b
  | Some JNull => b
  | _ => a
  end.

(** [v.name], for the property names of this module: none of them is an
    array index, [length] or a member of a prototype, so only an object
    with the key has the property. *)
Definition get_property (E : Engine) (v : jsval) (name : string) : result jsval :=
  match v with
  | None => throw_new TypeError (type_error_message E (ReadPropertyOfUndefined name))
  | Some JNull => throw_new TypeError (type_error_message E (ReadPropertyOfNull name))
  | Some (JObject props) => Ok (Map_get String.eqb name props)
  | Some _ => Ok undefined
  end.

Definition isArray (v : jsval) : bool :=
  match v with
  | Some (JArray _) => true
  | _ => false
  end.

(** [SameValueZero], the equality of [Map] keys.  Every array and object
    of parsed data is an object of its own. *)
Definition same_value_zero (a b : jsval) : bool :=
  match a, b with
  | None, None => true
  | Some JNull, Some JNull => true
  | Some (JBool x), Some (JBool y) => Bool.eqb x y
  | Some (JNumber x), Some (JNumber y) => number_eqb x y
  | Some (JString x), Some (JString y) => (x =? y)%string
  | _, _ => false
  end.

(** [ToString] of a JSON value ([Array.prototype.join] for arrays). *)
Fixpoint ToString (v : JSValue) : string :=
  match v with
  | JNull => "null"
  | JBool true => "true"
  | JBool false => "false"
  | JNumber n => Number_toString n
  | JString s => s
  | JArray elems =>
      concat ","
        (map (fun x => match x with JNull => "" | _ => ToString x end) elems)
  | JObject _ => "[object Object]"
  end.

(** The integral part of a number. *)
Definition truncate (n : number) : Z :=
  if 0 <=? expo n then mant n * 10 ^ expo n
  else Z.quot (mant n) (10 ^ (- expo n)).

(** [ToPrimitive] of a value of a parsed text returns: it throws for an
    object that has a property [toString] of its own (the property holds
    no function, and [Object.prototype.valueOf] returns the object, which
    is no primitive value), and for a list one of whose elements it throws
    for ([Array.prototype.join] converts the elements). *)
Fixpoint converts (v : JSValue) : bool :=
  match v with
  | JArray elems => forallb converts elems
  | JObject props => negb (Map_has String.eqb "toString" props)
  | _ => true
  end.

(** [ToString(v)] where an exception can leave: in a template literal,
    and for the key and the value that [setItem] is given. *)
Definition ToString_or_throw (E : Engine) (v : JSValue) : result string :=
  if converts v then Ok (ToString v)
  else throw_new TypeError (type_error_message E NoPrimitiveValue).

(** The date that [new Date(v)] makes.  Where the conversion of [v] to a
    primitive value throws no date is made: [new_Date] is the invalid date
    there, and [Date_construct] is the expression with its exception. *)
Definition new_Date (E : Engine) (v : jsval) : Date :=
  match v with
  | None => InvalidDate
  | Some JNull => TimeValue 0
  | Some (JBool b) => TimeValue (if b then 1 else 0)
  | Some (JNumber n) => TimeClip (truncate n)
  | Some (JString s) => Date_parse E s
  | Some (JArray elems) =>
      if converts (JArray elems) then Date_parse E (ToString (JArray elems))
      else InvalidDate
  | Some (JObject props) =>
      if converts (JObject props) then Date_parse E (ToString (JObject props))
      else InvalidDate
  end.

(** [new Date(v)]. *)
Definition Date_construct (E : Engine) (v : jsval) : result Date :=
  match v with
  | Some x =>
      if converts x then Ok (new_Date E v)
      else throw_new TypeError (type_error_message E NoPrimitiveValue)
  | None => Ok (new_Date E v)
  end.

(** The first two elements an iterator over [v] yields: the pattern
    [[id, fb]]. *)
Definition destructure_pair (E : Engine) (v : JSValue) : result (jsval * jsval) :=
  match v with
  | JArray elems => Ok (nth_error elems 0, nth_error elems 1)
  | JString s =>
      Ok (match s with
          | EmptyString => (undefined, undefined)
          | String a EmptyString => (Some (JString (String a "")), undefined)
          | String a (String b _) =>
              (Some (JString (String a "")), Some (JString (String b "")))
          end)
  | _ => throw_new TypeError (type_error_message E (NotIterable (Some v)))
  end.

(** The key and the value [new Map(iterable)] takes from one item. *)
Definition entry_of_item (E : Engine) (item : JSValue) : result (jsval * jsval) :=
  match item with
  | JArray elems => Ok (nth_error elems 0, nth_error elems 1)
  | JObject props => Ok (Map_get String.eqb "0" props, Map_get String.eqb "1" props)
  | _ => throw_new TypeError (type_error_message E (NotAnEntryObject item))
  end.

(** [new Map(iterable)] for parsed data. *)
Definition Map_of_iterable (E : Engine) (iterable : jsval) : result (Map jsval jsval) :=
  match iterable with
  | Some (JArray items) =>
      let* entries := map_result (entry_of_item E) items in
      Ok (Map_new same_value_zero entries)
  | Some (JString EmptyString) => Ok (Map_new same_value_zero [])
  | Some (JString (String c _)) =>
      throw_new TypeError
        (type_error_message E (NotAnEntryObject (JString (String c ""))))
  | _ => throw_new TypeError (type_error_message E (NotIterable iterable))
  end.

(** The callback of [(data.feedback || []).map(...)]. *)
Definition deserialize_feedback_entry (E : Engine) (item : JSValue)
    : result (jsval * RawAnswerFeedback) :=
  let* (id0, fb) := destructure_pair E item in
  let* questionId0 := get_property E fb "questionId" in
  let* score0 := get_property E fb "score" in
  let* strengths0 := get_property E fb "strengths" in
  let* improvements0 := get_property E fb "improvements" in
  let* timestamp0 := get_property E fb "timestamp" in
  let* timestamp1 := Date_construct E timestamp0 in
  Ok (id0,
      mkRawAnswerFeedback questionId0 score0 strengths0 improvements0 timestamp1).

(** [new Map(data.answers || [])]. *)
Definition deserialize_answers (E : Engine) (data : jsval)
    : result (Map jsval jsval) :=
  let* answers0 := get_property E data "answers" in
  Map_of_iterable E (js_or answers0 (Some (JArray []))).

(** [new Map((data.feedback || []).map(...))]. *)
Definition deserialize_feedback (E : Engine) (data : jsval)
    : result (Map jsval RawAnswerFeedback) :=
  let* feedback0 := get_property E data "feedback" in
  let* feedback1 :=
    match js_or feedback0 (Some (JArray [])) with
    | Some (JArray items) => map_result (deserialize_feedback_entry E) items
    | _ =>
        throw_new TypeError
          (type_error_message E (NotAFunction "(data.feedback || []).map"))
    end in
  Ok (Map_new same_value_zero feedback1).

(** The [try] block of [deserializeSession] after [JSON.parse] has
    returned [data]. *)
Definition deserialize_data (E : Engine) (data : JSValue) : result RawSession :=
  let data := Some data in
  let missing := throw_new Error "Invalid session data: missing required fields" in
  let* id0 := get_property E data "id" in
  if negb (truthy id0) then missing else
  let* parsedJD0 := get_property E data "parsedJD" in
  if negb (truthy parsedJD0) then missing else
  let* questions0 := get_property E data "questions" in
  if negb (truthy questions0) then missing else
  if negb (isArray questions0) then missing else
  let* answers0 := deserialize_answers E data in
  let* feedback0 := deserialize_feedback E data in
  let* createdAt0 := get_property E data "createdAt" in
  let* createdAt1 := Date_construct E createdAt0 in
  let* completedAt0 := get_property E data "completedAt" in
  let* completedAt1 :=
    if truthy completedAt0 then
      let* d := Date_construct E completedAt0 in Ok (Some d)
    else Ok None in
  if isNaN_getTime createdAt1 then
    throw_new Error "Invalid session data: createdAt is not a valid date"
  else if
    truthy completedAt0 &&
    match completedAt1 with
    | Some d => isNaN_getTime d
    | None => false
    end
  then throw_new Error "Invalid session data: completedAt is not a valid date"
  else
    let* sessionFeedback0 := get_property E data "sessionFeedback" in
    let* currentQuestionIndex0 := get_property E data "currentQuestionIndex" in
    let* isComplete0 := get_property E data "isComplete" in
    Ok {| raw_id := id0;
          raw_parsedJD := parsedJD0;
          raw_questions := questions0;
          raw_answers := answers0;
          raw_feedback := feedback0;
          raw_sessionFeedback := sessionFeedback0;
          raw_currentQuestionIndex :=
            js_nullish currentQuestionIndex0 (Some (JNumber (mkNumber 0 0)));
          raw_isComplete := js_nullish isComplete0 (Some (JBool false));
          raw_createdAt := createdAt1;
          raw_completedAt := completedAt1 |}.

(** The [try] block of [deserializeSession]. *)
Definition deserialize_try (E : Engine) (json : string) : result RawSession :=
  let* data := JSON_parse E json in
  deserialize_data E data.

(** Every exception of the [try] block is an [Error]; the [catch] clause
    rewraps it. *)
Definition deserializeSession_catch (r : result RawSession) : result RawSession :=
  match r with
  | Ok session => Ok session
  | Throw error =>
      match exn_class error with
      | SyntaxError =>
          throw_new Error
            ("Failed to deserialize session: Invalid JSON format - " ++ message error)
      | _ => throw_new Error ("Failed to deserialize session: " ++ message error)
      end
  end.

Definition deserializeSession (E : Engine) (json : string) : result RawSession :=
  deserializeSession_catch (deserialize_try E json).

(** *** The typed reading of run-time values

    The cast [as InterviewSession], checked: the typed value a run-time
    value is, when it has the shape of its interface. *)

Fixpoint map_option {A B} (f : A -> option B) (l : list A) : option (list B) :=
  match l with
  | [] => Some []
  | a :: rest =>
      let? b := f a in
      let? bs := map_option f rest in
      Some (b :: bs)
  end.

Definition field (v : JSValue) (name : string) : jsval :=
  match v with
  | JObject props => Map_get String.eqb name props
  | _ => None
  end.

Definition as_string (v : jsval) : option string :=
  match v with
  | Some (JString s) => Some s
  | _ => None
  end.

Definition as_number (v : jsval) : option number :=
  match v with
  | Some (JNumber n) => Some n
  | _ => None
  end.

Definition as_boolean (v : jsval) : option bool :=
  match v with
  | Some (JBool b) => Some b
  | _ => None
  end.

Definition as_strings (v : jsval) : option (list string) :=
  match v with
  | Some (JArray elems) => map_option (fun x => as_string (Some x)) elems
  | _ => None
  end.

Definition as_RoleType (v : jsval) : option RoleType :=
  let? s := as_string v in
  if (s =? "software")%string then Some software
  else if (s =? "devops")%string then Some devops
  else if (s =? "security")%string then Some security
  else None.

Definition as_QuestionType (v : jsval) : option QuestionType :=
  let? s := as_string v in
  if (s =? "behavioral")%string then Some behavioral
  else if (s =? "technical")%string then Some technical
  else if (s =? "system-design")%string then Some system_design
  else None.

Definition as_ExperienceLevel (v : jsval) : option ExperienceLevel :=
  let? s := as_string v in
  if (s =? "junior")%string then Some junior
  else if (s =? "mid")%string then Some mid
  else if (s =? "senior")%string then Some senior
  else if (s =? "staff")%string then Some staff
  else None.

Definition as_ParsedJobDescription (v : jsval) : option ParsedJobDescription :=
  let? o := v in
  let? roleType0 := as_RoleType (field o "roleType") in
  let? skills0 := as_strings (field o "skills") in
  let? experienceLevel0 := as_ExperienceLevel (field o "experienceLevel") in
  let? technologies0 := as_strings (field o "technologies") in
  let? responsibilities0 := as_strings (field o "responsibilities") in
  let? rawDescription0 := as_string (field o "rawDescription") in
  Some (mkParsedJobDescription roleType0 skills0 experienceLevel0 technologies0
          responsibilities0 rawDescription0).

Definition as_InterviewQuestion (v : jsval) : option InterviewQuestion :=
  let? o := v in
  let? id0 := as_string (field o "id") in
  let? type0 := as_QuestionType (field o "type") in
  let? question0 := as_string (field o "question") in
  let? difficulty0 := as_ExperienceLevel (field o "difficulty") in
  let? relatedSkills0 := as_strings (field o "relatedSkills") in
  Some (mkInterviewQuestion id0 type0 question0 difficulty0 relatedSkills0).

Definition as_PerformanceSummary (v : jsval) : option PerformanceSummary :=
  let? o := v in
  let? behavioral0 := as_number (field o "behavioral") in
  let? technical0 := as_number (field o "technical") in
  let? systemDesign0 := as_number (field o "systemDesign") in
  Some (mkPerformanceSummary behavioral0 technical0 systemDesign0).

Definition as_SessionFeedback (v : jsval) : option SessionFeedback :=
  let? o := v in
  let? overallScore0 := as_number (field o "overallScore") in
  let? performanceSummary0 := as_PerformanceSummary (field o "performanceSummary") in
  let? strongestAreas0 := as_strings (field o "strongestAreas") in
  let? improvementAreas0 := as_strings (field o "improvementAreas") in
  let? recommendations0 := as_strings (field o "recommendations") in
  Some (mkSessionFeedback overallScore0 performanceSummary0 strongestAreas0
          improvementAreas0 recommendations0).

Definition as_AnswerFeedback (f : RawAnswerFeedback) : option AnswerFeedback :=
  let? questionId0 := as_string (raw_questionId f) in
  let? score0 := as_number (raw_score f) in
  let? strengths0 := as_strings (raw_strengths f) in
  let? improvements0 := as_strings (raw_improvements f) in
  Some (mkAnswerFeedback questionId0 score0 strengths0 improvements0 (raw_timestamp f)).

Definition as_answer_entry (e : jsval * jsval) : option (string * string) :=
  let? k := as_string (fst e) in
  let? v := as_string (snd e) in
  Some (k, v).

Definition as_feedback_entry (e : jsval * RawAnswerFeedback)
    : option (string * AnswerFeedback) :=
  let? k := as_string (fst e) in
  let? v := as_AnswerFeedback (snd e) in
  Some (k, v).

Definition as_InterviewSession (r : RawSession) : option InterviewSession :=
  let? id0 := as_string (raw_id r) in
  let? parsedJD0 := as_ParsedJobDescription (raw_parsedJD r) in
  let? questions0 :=
    match raw_questions r with
    | Some (JArray elems) => map_option (fun x => as_InterviewQuestion (Some x)) elems
    | _ => None
    end in
  let? answers0 := map_option as_answer_entry (raw_answers r) in
  let? feedback0 := map_option as_feedback_entry (raw_feedback r) in
  let? sessionFeedback0 :=
    match raw_sessionFeedback r with
    | Some JNull => Some None
    | Some v => let? f := as_SessionFeedback (Some v) in Some (Some f)
    | None => None
    end in
  let? currentQuestionIndex0 :=
    (let? n := as_number (raw_currentQuestionIndex r) in Z_of_number n) in
  let? isComplete0 := as_boolean (raw_isComplete r) in
  Some (mkInterviewSession id0 parsedJD0 questions0 answers0 feedback0
          sessionFeedback0 currentQuestionIndex0 isComplete0 (raw_createdAt r)
          (raw_completedAt r)).

(** The run-time value of a typed session. *)
Definition raw_of_AnswerFeedback (f : AnswerFeedback) : RawAnswerFeedback :=
  mkRawAnswerFeedback (Some (JString (questionId f))) (Some (JNumber (score f)))
    (Some (js_strings (strengths f))) (Some (js_strings (improvements f)))
    (timestamp f).

Definition raw_of_session (s : InterviewSession) : RawSession :=
  {| raw_id := Some (JString (id s));
     raw_parsedJD := Some (js_ParsedJobDescription (parsedJD s));
     raw_questions := Some (JArray (map js_InterviewQuestion (questions s)));
     raw_answers :=
       map (fun e => (Some (JString (fst e)), Some (JString (snd e)))) (answers s);
     raw_feedback :=
       map (fun e => (Some (JString (fst e)), raw_of_AnswerFeedback (snd e)))
         (feedback s);
     raw_sessionFeedback :=
       Some match sessionFeedback s with
            | Some f => js_SessionFeedback f
            | None => JNull
            end;
     raw_currentQuestionIndex := Some (JNumber (number_of_Z (currentQuestionIndex s)));
     raw_isComplete := Some (JBool (isComplete s));
     raw_createdAt := createdAt s;
     raw_completedAt := completedAt s |}.

(** ** Storage: the history in local storage *)

Definition SESSION_HISTORY : string := "mockmatch:session-history".

(** The browser as the storage functions see it: whether [window] is
    defined, the contents of [localStorage], and which writes the store
    refuses for lack of room ([console.error] only writes to the console
    and is not part of the state). *)
Record Browser := mkBrowser {
  window_defined : bool;
  localStorage : Map string string;
  quota_exceeded : Map string string -> string -> string -> bool
}.

Definition getItem (b : Browser) (key : string) : option string :=
  Map_get String.eqb key (localStorage b).

(** [localStorage.setItem(key, value)]; the exception is the
    [QuotaExceededError] of the DOM. *)
Definition setItem (b : Browser) (key value : string) : result Browser :=
  if quota_exceeded b (localStorage b) key value then
    throw_new Error "The quota has been exceeded."
  else
    Ok (mkBrowser (window_defined b)
          (Map_set String.eqb key value (localStorage b)) (quota_exceeded b)).

(** The parsed text is returned as it is: the cast to
    [SessionHistoryEntry[]] checks nothing. *)
Definition getSessionHistory (E : Engine) (b : Browser) : JSValue :=
  if negb (window_defined b) then JArray []
  else
    match getItem b SESSION_HISTORY with
    | None => JArray []
    | Some historyJson =>
        if (historyJson =? "")%string then JArray []
        else
          match JSON_parse E historyJson with
          | Ok v => v
          | Throw _ => JArray []
          end
    end.

(** [history.findIndex((entry) => entry.id === session.id)] on a list. *)
Fixpoint findIndex_id (E : Engine) (sid : string) (entries : list JSValue) (i : Z)
    : result Z :=
  match entries with
  | [] => Ok (-1)
  | entry :: rest =>
      let* entry_id := get_property E (Some entry) "id" in
      match entry_id with
      | Some (JString s) =>
          if (s =? sid)%string then Ok i else findIndex_id E sid rest (i + 1)
      | _ => findIndex_id E sid rest (i + 1)
      end
  end.

(** [history[i] = entry] for [0 <= i < history.length]. *)
Fixpoint array_set {A} (l : list A) (i : nat) (a : A) : list A :=
  match l, i with
  | [], _ => []
  | _ :: rest, O => a :: rest
  | x :: rest, S j => x :: array_set rest j a
  end.

Definition historyEntry (session : InterviewSession) : result JSValue :=
  let* createdAt0 := Date_toISOString (createdAt session) in
  let* completedAt0 :=
    match completedAt session with
    | Some d => let* iso := Date_toISOString d in Ok (JString iso)
    | None => Ok JNull
    end in
  Ok (JObject
        [("id", JString (id session));
         ("roleType", JString (RoleType_string (roleType (parsedJD session))));
         ("experienceLevel",
          JString (ExperienceLevel_string (experienceLevel (parsedJD session))));
         ("createdAt", JString createdAt0);
         ("completedAt", completedAt0);
         ("overallScore",
          match sessionFeedback session with
          | Some f => JNumber (overallScore f)
          | None => JNull
          end)]).

(** The [try] block of [saveSessionToHistory]. *)
Definition saveSessionToHistory_try (E : Engine) (b : Browser)
    (session : InterviewSession) : result Browser :=
  match getSessionHistory E b with
  | JArray history =>
      let* existingIndex := findIndex_id E (id session) history 0 in
      let* entry := historyEntry session in
      let history' :=
        if existingIndex >=? 0 then array_set history (Z.to_nat existingIndex) entry
        else (history ++ [entry])%list in
      setItem b SESSION_HISTORY (JSON_stringify (JArray history'))
  | JNull =>
      throw_new TypeError (type_error_message E (ReadPropertyOfNull "findIndex"))
  | _ => throw_new TypeError (type_error_message E (NotAFunction "history.findIndex"))
  end.

(** An exception is logged and nothing is written. *)
Definition saveSessionToHistory (E : Engine) (b : Browser)
    (session : InterviewSession) : Browser :=
  if negb (window_defined b) then b
  else
    match saveSessionToHistory_try E b session with
    | Ok b' => b'
    | Throw _ => b
    end.

(** ** A reference engine

    The wording of V8 for the messages, and no date format besides the ISO
    one.  It is used for the concrete runs only; the theorems hold for
    every engine. *)

Definition v8_type_error_message (k : TypeErrorKind) : string :=
  match k with
  | ReadPropertyOfNull name =>
      "Cannot read properties of null (reading '" ++ name ++ "')"
  | ReadPropertyOfUndefined name =>
      "Cannot read properties of undefined (reading '" ++ name ++ "')"
  | NotIterable v =>
      match v with
      | None => "undefined"
      | Some JNull => "object null"
      | Some (JBool b) => "boolean " ++ ToString (JBool b)
      | Some (JNumber n) => "number " ++ ToString (JNumber n)
      | Some (JString s) => "string " ++ QuoteJSONString s
      | Some _ => "object"
      end ++ " is not iterable (cannot read property Symbol(Symbol.iterator))"
  | NotAnEntryObject v => "Iterator value " ++ ToString v ++ " is not an entry object"
  | NotAFunction callee => callee ++ " is not a function"
  | NoPrimitiveValue => "Cannot convert object to primitive value"
  end.

Definition v8_syntax_error_message (text rest : string) : string :=
  match rest with
  | EmptyString => "Unexpected end of JSON input"
  | String c _ =>
      "Unexpected token " ++ String c "" ++ " in JSON at position " ++
      Z_toString (Z.of_nat (String.length text - String.length rest))
  end.

Definition reference_engine : Engine :=
  mkEngine (fun _ => InvalidDate) v8_type_error_message v8_syntax_error_message.

(** ** Vocabulary of the properties *)

(** The operations of the manager that return a session, as data. *)
Inductive Op :=
| OpStoreAnswer (questionId answer : string)
| OpStoreFeedback (feedback : AnswerFeedback)
| OpSetCurrentQuestionIndex (index : Z)
| OpCompleteSession (now : Z)
| OpStoreSessionFeedback (sessionFeedback : SessionFeedback)
| OpNextQuestion
| OpPreviousQuestion.

Definition apply_op (s : InterviewSession) (op : Op) : result InterviewSession :=
  match op with
  | OpStoreAnswer q a => SessionManager.storeAnswer s q a
  | OpStoreFeedback f => Ok (SessionManager.storeFeedback s f)
  | OpSetCurrentQuestionIndex i => SessionManager.setCurrentQuestionIndex s i
  | OpCompleteSession now => Ok (SessionManager.completeSession now s)
  | OpStoreSessionFeedback f => Ok (SessionManager.storeSessionFeedback s f)
  | OpNextQuestion => SessionManager.nextQuestion s
  | OpPreviousQuestion => SessionManager.previousQuestion s
  end.

(** [steps s ops s']: the calls [ops], each applied to the session the
    previous one returned, lead from [s] to [s']. *)
Inductive steps : InterviewSession -> list Op -> InterviewSession -> Prop :=
| steps_nil s : steps s [] s
| steps_cons s op s1 ops s2 :
    apply_op s op = Ok s1 -> steps s1 ops s2 -> steps s (op :: ops) s2.

(** A session is reachable when calls of the manager lead to it from a
    session [createSession] returned. *)
Definition reachable (s : InterviewSession) : Prop :=
  exists uuid now jd qs ops,
    steps (SessionManager.createSession uuid now jd qs) ops s.

Definition question_ids (s : InterviewSession) : list string :=
  map q_id (questions s).

Definition cursor_in_range (s : InterviewSession) : Prop :=
  0 <= currentQuestionIndex s < length_of (questions s).

Definition answer_keys_valid (s : InterviewSession) : Prop :=
  forall k, In k (Map_keys (answers s)) -> In k (question_ids s).

Definition feedback_keys_valid (s : InterviewSession) : Prop :=
  forall k, In k (Map_keys (feedback s)) -> In k (question_ids s).

Definition completion_flag_consistent (s : InterviewSession) : Prop :=
  completedAt s <> None <-> isComplete s = true.

(** [completedAt >= createdAt] when both are set. *)
Definition completion_after_creation (s : InterviewSession) : Prop :=
  forall t c,
    createdAt s = TimeValue t -> completedAt s = Some (TimeValue c) -> t <= c.

(** A map holds each key once. *)
Definition Map_wf {K V} (m : Map K V) : Prop := NoDup (Map_keys m).

(** A date object that holds a time value: a valid date. *)
Definition valid_date (d : Date) : Prop :=
  exists t, d = TimeValue t /\ - maxTime <= t <= maxTime.

(** The clock never reads less than [t0] in the calls [ops]. *)
Definition clock_from (t0 : Z) (ops : list Op) : Prop :=
  Forall (fun op => match op with
                    | OpCompleteSession now => t0 <= now
                    | _ => True
                    end) ops.

(** Every feedback stored by [ops] is about one of the questions [ids]. *)
Definition feedback_about (ids : list string) (ops : list Op) : Prop :=
  Forall (fun op => match op with
                    | OpStoreFeedback f => In (questionId f) ids
                    | _ => True
                    end) ops.

(** The session the calls [ops] lead to, when none of them throws. *)
Fixpoint run (s : InterviewSession) (ops : list Op) : result InterviewSession :=
  match ops with
  | [] => Ok s
  | op :: rest => let* s1 := apply_op s op in run s1 rest
  end.

(** ** Sample data, from the unit tests of the repository *)

Definition mockParsedJD : ParsedJobDescription :=
  {| roleType := software;
     skills := ["JavaScript"; "React"; "Node.js"];
     experienceLevel := mid;
     technologies := ["TypeScript"; "Next.js"];
     responsibilities := ["Build web applications"; "Write tests"];
     rawDescription :=
       "A software engineer position requiring JavaScript and React experience." |}.

Definition mockQuestions : list InterviewQuestion :=
  [ {| q_id := "550e8400-e29b-41d4-a716-446655440001";
       q_type := technical;
       question := "Explain closures in JavaScript";
       difficulty := mid;
       relatedSkills := ["JavaScript"] |};
    {| q_id := "550e8400-e29b-41d4-a716-446655440002";
       q_type := behavioral;
       question := "Describe a challenging project";
       difficulty := mid;
       relatedSkills := ["React"] |};
    {| q_id := "550e8400-e29b-41d4-a716-446655440003";
       q_type := system_design;
       question := "Design a URL shortener";
       difficulty := mid;
       relatedSkills := ["Node.js"] |} ].

(** A list of five questions, the least the schema of the question
    generator lets through. *)
Definition fiveQuestions : list InterviewQuestion :=
  (mockQuestions ++
   [ {| q_id := "550e8400-e29b-41d4-a716-446655440004";
        q_type := technical;
        question := "Explain the event loop";
        difficulty := mid;
        relatedSkills := ["Node.js"] |};
     {| q_id := "550e8400-e29b-41d4-a716-446655440005";
        q_type := behavioral;
        question := "Describe a conflict in a team";
        difficulty := mid;
        relatedSkills := ["React"] |} ])%list.

Definition mockFeedback : AnswerFeedback :=
  {| questionId := "550e8400-e29b-41d4-a716-446655440001";
     score := mkNumber 8 0;
     strengths := ["Good explanation"; "Clear examples"];
     improvements := ["Could add more detail"; "Mention use cases"];
     timestamp := TimeValue 1768471200000 |}.

Definition mockSessionFeedback : SessionFeedback :=
  {| overallScore := mkNumber 75 (-1);
     performanceSummary :=
       {| ps_behavioral := mkNumber 8 0;
          ps_technical := mkNumber 7 0;
          ps_systemDesign := mkNumber 75 (-1) |};
     strongestAreas := ["Communication"; "Problem solving"];
     improvementAreas := ["System design depth"; "Code optimization"];
     recommendations := ["Practice more system design"; "Study algorithms"] |}.

(** A session created on 2026-01-15 at 09:00 UTC. *)
Definition mockSession : InterviewSession :=
  SessionManager.createSession "550e8400-e29b-41d4-a716-446655440000"
    1768467600000 mockParsedJD mockQuestions.

(** The sample session as an object of a store that holds its two Maps. *)
Definition mockStore : Store.store :=
  Store.mkStore [answers mockSession] [feedback mockSession].

Definition mockObject : Store.SessionObject :=
  Store.mkSessionObject 0%nat 0%nat mockSession.

(** Feedback about a question the session does not have. *)
Definition foreignFeedback : AnswerFeedback :=
  {| questionId := "550e8400-e29b-41d4-a716-446655440999";
     score := mkNumber 8 0;
     strengths := ["Good explanation"; "Clear examples"];
     improvements := ["Could add more detail"; "Mention use cases"];
     timestamp := TimeValue 1768471200000 |}.

(** ** Vocabulary of the codec proofs *)

Fixpoint all_digits (s : string) : bool :=
  match s with
  | EmptyString => true
  | String c rest => is_digit c && all_digits rest
  end.

(** What can follow a value inside a JSON text that [JSON_stringify]
    wrote: the end of the text, a comma or a closing bracket. *)
Definition delimited (rest : string) : bool :=
  match rest with
  | EmptyString => true
  | String c _ =>
      ((nat_of_ascii c =? 44) || (nat_of_ascii c =? 93) || (nat_of_ascii c =? 125))%nat
  end.

(** A text that does not go on with a digit. *)
Definition no_digit_ahead (rest : string) : bool :=
  match rest with
  | EmptyString => true
  | String c _ => negb (is_digit c)
  end.

(** The strings of [l] are pairwise different. *)
Fixpoint distinct (l : list string) : bool :=
  match l with
  | [] => true
  | x :: rest => negb (existsb (String.eqb x) rest) && distinct rest
  end.

(** The values [JSON.parse] returns: every number in its canonical form,
    every object with each key once. *)
Fixpoint json_wf (v : JSValue) : bool :=
  match v with
  | JNull => true
  | JBool _ => true
  | JNumber n => canonical n
  | JString _ => true
  | JArray elems => forallb json_wf elems
  | JObject props =>
      distinct (map fst props) && forallb (fun kv => json_wf (snd kv)) props
  end.

(** A bound on the nested calls the parser makes for a value. *)
Fixpoint json_size (v : JSValue) : nat :=
  match v with
  | JArray elems => S (list_sum (map (fun x => S (json_size x)) elems))
  | JObject props => S (list_sum (map (fun kv => S (json_size (snd kv))) props))
  | _ => 1
  end.

(** One level of the three parsers, with the parsers of the next level
    as arguments. *)
Definition value_step (pe : string -> presult (list JSValue))
    (pm : string -> presult (list (string * JSValue))) (s : string)
    : presult JSValue :=
  match skip_ws s with
  | EmptyString => PErr ""
  | String c rest as s' =>
      match c with
      | "n"%char => parse_word "null" JNull s'
      | "t"%char => parse_word "true" (JBool true) s'
      | "f"%char => parse_word "false" (JBool false) s'
      | "034"%char =>
          match parse_string_body rest with
          | POk str r => POk (JString str) r
          | PErr r => PErr r
          end
      | "["%char =>
          match skip_ws rest with
          | String "]" r => POk (JArray []) r
          | _ =>
              match pe rest with
              | POk vs r => POk (JArray vs) r
              | PErr r => PErr r
              end
          end
      | "{"%char =>
          match skip_ws rest with
          | String "}" r => POk (JObject []) r
          | _ =>
              match pm rest with
              | POk ms r => POk (object_of_members ms) r
              | PErr r => PErr r
              end
          end
      | _ =>
          match parse_number s' with
          | POk n r => POk (JNumber n) r
          | PErr r => PErr r
          end
      end
  end.

Definition elements_step (pv : string -> presult JSValue)
    (pe : string -> presult (list JSValue)) (s : string)
    : presult (list JSValue) :=
  match pv s with
  | PErr r => PErr r
  | POk v r =>
      match skip_ws r with
      | String "," r' =>
          match pe r' with
          | POk vs r'' => POk (v :: vs) r''
          | PErr e => PErr e
          end
      | String "]" r' => POk [v] r'
      | other => PErr other
      end
  end.

Definition members_step (pv : string -> presult JSValue)
    (pm : string -> presult (list (string * JSValue))) (s : string)
    : presult (list (string * JSValue)) :=
  match skip_ws s with
  | String "034" r0 =>
      match parse_string_body r0 with
      | PErr e => PErr e
      | POk k r1 =>
          match skip_ws r1 with
          | String ":" r2 =>
              match pv r2 with
              | PErr e => PErr e
              | POk v r3 =>
                  match skip_ws r3 with
                  | String "," r4 =>
                      match pm r4 with
                      | POk ms r5 => POk ((k, v) :: ms) r5
                      | PErr e => PErr e
                      end
                  | String "}" r4 => POk [(k, v)] r4
                  | other => PErr other
                  end
              end
          | other => PErr other
          end
      end
  | other => PErr other
  end.

(** A parser leaves no more than it was given. *)
Definition consumes {A : Type} (p : string -> presult A) : Prop :=
  forall s a r, p s = POk a r -> (String.length r <= String.length s)%nat.

(** The characters a JSON value can start with. *)
Definition value_start (c : ascii) : bool :=
  is_digit c ||
  existsb (Ascii.eqb c) ["-"; "n"; "t"; "f"; "034"; "["; "{"]%char.

(** [f] holds of [lo], ..., [lo + n - 1]. *)
Fixpoint check_from (f : Z -> bool) (lo : Z) (n : nat) : bool :=
  match n with
  | O => true
  | S k => f lo && check_from f (lo + 1) k
  end.

(** The calendar date of day [doe] of era 0 is a date of the calendar, and
    [days_from_civil] gives its day number back. *)
Definition civil_ok (doe : Z) : bool :=
  let '(y, m, d) := civil_of_era 0 doe in
  (days_from_civil y m d =? doe - 719468) &&
  (1 <=? m) && (m <=? 12) && (1 <=? d) && (d <=? DaysInMonth y m) &&
  (0 <=? y) && (y <=? 400).

(** A JSON text written with apostrophes for its quotation marks. *)
Fixpoint quoted (s : string) : string :=
  match s with
  | EmptyString => ""
  | String c rest =>
      String (if (nat_of_ascii c =? 39)%nat then dquote else c) (quoted rest)
  end.

(** *** The history *)

(** [entry.id === sid]. *)
Definition has_id (sid : string) (entry : JSValue) : bool :=
  match field entry "id" with
  | Some (JString s) => (s =? sid)%string
  | _ => false
  end.

(** The number of entries of a history with the id [sid]. *)
Definition count_id (sid : string) (history : list JSValue) : nat :=
  List.length (filter (has_id sid) history).

(** The upsert of the specification: the first entry with the id [sid]
    replaced where it is, or the new entry appended. *)
Fixpoint upsert (sid : string) (entry : JSValue) (history : list JSValue)
    : list JSValue :=
  match history with
  | [] => [entry]
  | e :: rest =>
      if has_id sid e then entry :: rest else e :: upsert sid entry rest
  end.

(** The entries of the stored history, when it is a list. *)
Definition stored_history (E : Engine) (b : Browser) : list JSValue :=
  match getSessionHistory E b with
  | JArray history => history
  | _ => []
  end.

(** *** The representation of a session

    The requirements the representation puts on a typed session: maps hold
    each key once, numbers are in canonical form. *)
Definition SessionFeedback_wf (f : SessionFeedback) : Prop :=
  canonical (overallScore f) = true /\
  canonical (ps_behavioral (performanceSummary f)) = true /\
  canonical (ps_technical (performanceSummary f)) = true /\
  canonical (ps_systemDesign (performanceSummary f)) = true.

Definition session_wf (s : InterviewSession) : Prop :=
  Map_wf (answers s) /\ Map_wf (feedback s) /\
  Forall (fun e => canonical (score (snd e)) = true) (feedback s) /\
  (forall f, sessionFeedback s = Some f -> SessionFeedback_wf f).

(** Every timestamp of the session is a valid date. *)
Definition timestamps_valid (s : InterviewSession) : Prop :=
  valid_date (createdAt s) /\
  (forall d, completedAt s = Some d -> valid_date d) /\
  Forall (fun e => valid_date (timestamp (snd e))) (feedback s).

(** The ISO string of a valid date. *)
Definition iso_of (d : Date) : string :=
  match Date_toISOString d with
  | Ok iso => iso
  | Throw _ => ""
  end.

(** The entry [serializeSession] writes for one feedback. *)
Definition feedback_json (entry : string * AnswerFeedback) : JSValue :=
  JArray
    [JString (fst entry);
     JObject
       [("questionId", JString (questionId (snd entry)));
        ("score", JNumber (score (snd entry)));
        ("strengths", js_strings (strengths (snd entry)));
        ("improvements", js_strings (improvements (snd entry)));
        ("timestamp", JString (iso_of (timestamp (snd entry))))]].

(** The object [serializeSession] writes for a session whose timestamps
    are valid dates. *)
Definition session_json (s : InterviewSession) : JSValue :=
  SerializableSession
    (JString (id s))
    (js_ParsedJobDescription (parsedJD s))
    (JArray (map js_InterviewQuestion (questions s)))
    (JArray (map serializable_answer_entry (answers s)))
    (JArray (map feedback_json (feedback s)))
    match sessionFeedback s with
    | Some f => js_SessionFeedback f
    | None => JNull
    end
    (JNumber (number_of_Z (currentQuestionIndex s)))
    (JBool (isComplete s))
    (JString (iso_of (createdAt s)))
    match completedAt s with
    | Some d => JString (iso_of d)
    | None => JNull
    end.

(** A session with two answers, one feedback and the session feedback,
    completed an hour after its creation. *)
Definition sampleSession : InterviewSession :=
  {| id := "550e8400-e29b-41d4-a716-446655440000";
     parsedJD := mockParsedJD;
     questions := mockQuestions;
     answers :=
       [("550e8400-e29b-41d4-a716-446655440001", "Closures are functions...");
        ("550e8400-e29b-41d4-a716-446655440002", "I worked on a project...")];
     feedback := [("550e8400-e29b-41d4-a716-446655440001", mockFeedback)];
     sessionFeedback := Some mockSessionFeedback;
     currentQuestionIndex := 1;
     isComplete := true;
     createdAt := TimeValue 1768467600000;
     completedAt := Some (TimeValue 1768471200000) |}.

(** A session like the one [createSession] returns, but for its
    identifier, which is the empty string. *)
Definition anonymousSession : InterviewSession :=
  SessionManager.createSession "" 1768467600000 mockParsedJD mockQuestions.

(** A well-formed wire text whose cursor is beyond its only question and
    whose answer and feedback are about questions it does not have. *)
Definition inconsistentText : string :=
  quoted
    ("{'id':'s1'," ++
     "'parsedJD':{'roleType':'software','skills':['Go'],'experienceLevel':'mid'," ++
       "'technologies':[],'responsibilities':[],'rawDescription':'Go services'}," ++
     "'questions':[{'id':'q1','type':'technical','question':'Why Go?'," ++
       "'difficulty':'mid','relatedSkills':[]}]," ++
     "'answers':[['q9','an answer to no question']]," ++
     "'feedback':[['q8',{'questionId':'q8','score':5,'strengths':[]," ++
       "'improvements':[],'timestamp':'2026-01-15T10:00:00.000Z'}]]," ++
     "'sessionFeedback':null,'currentQuestionIndex':7,'isComplete':false," ++
     "'createdAt':'2026-01-15T09:00:00.000Z','completedAt':null}").

(** The session that text holds. *)
Definition inconsistentSession : InterviewSession :=
  {| id := "s1";
     parsedJD :=
       {| roleType := software;
          skills := ["Go"];
          experienceLevel := mid;
          technologies := [];
          responsibilities := [];
          rawDescription := "Go services" |};
     questions :=
       [ {| q_id := "q1";
            q_type := technical;
            question := "Why Go?";
            difficulty := mid;
            relatedSkills := [] |} ];
     answers := [("q9", "an answer to no question")];
     feedback :=
       [("q8",
         {| questionId := "q8";
            score := mkNumber 5 0;
            strengths := [];
            improvements := [];
            timestamp := TimeValue 1768471200000 |})];
     sessionFeedback := None;
     currentQuestionIndex := 7;
     isComplete := false;
     createdAt := TimeValue 1768467600000;
     completedAt := None |}.

(** The summary record [saveSessionToHistory] makes of a session whose
    creation and completion dates are valid. *)
Definition history_entry_json (s : InterviewSession) : JSValue :=
  JObject
    [("id", JString (id s));
     ("roleType", JString (RoleType_string (roleType (parsedJD s))));
     ("experienceLevel",
      JString (ExperienceLevel_string (experienceLevel (parsedJD s))));
     ("createdAt", JString (iso_of (createdAt s)));
     ("completedAt",
      match completedAt s with
      | Some d => JString (iso_of d)
      | None => JNull
      end);
     ("overallScore",
      match sessionFeedback s with
      | Some f => JNumber (overallScore f)
      | None => JNull
      end)].

(** The browser after [saveSessionToHistory] for each session of a list in
    turn. *)
Definition save_all (E : Engine) (b : Browser) (sessions : list InterviewSession)
    : Browser :=
  fold_left (saveSessionToHistory E) sessions b.

(** A browser with [window] defined, an empty local storage and room for
    every write. *)
Definition freshBrowser : Browser := mkBrowser true [] (fun _ _ _ => false).

(** What one call changes. *)
Inductive op_effect (s : InterviewSession) : Op -> InterviewSession -> Prop :=
| eff_answers q a :
    In q (question_ids s) ->
    op_effect s (OpStoreAnswer q a)
      (with_answers s
         (Map_set String.eqb q a (Map_new String.eqb (Map_entries (answers s)))))
| eff_feedback f :
    op_effect s (OpStoreFeedback f)
      (with_feedback s
         (Map_set String.eqb (questionId f) f
            (Map_new String.eqb (Map_entries (feedback s)))))
| eff_index op i :
    0 <= i < length_of (questions s) ->
    op_effect s op (with_currentQuestionIndex s i)
| eff_complete now :
    op_effect s (OpCompleteSession now)
      (with_completion s true (Some (TimeValue now)))
| eff_sessionFeedback f :
    op_effect s (OpStoreSessionFeedback f) (with_sessionFeedback s (Some f)).

(** What the round trip says of one value. *)
Definition reads_back (v : JSValue) : Prop :=
  json_wf v = true ->
  forall fuel rest,
    (json_size v <= fuel)%nat -> delimited rest = true ->
    parse_value fuel (JSON_stringify v ++ rest) = POk v rest.

(** ** Vocabulary of the further properties of the manager *)

(** Every question of the session has an answer. *)
Definition all_answered (s : InterviewSession) : Prop :=
  forall q, In q (question_ids s) -> SessionManager.getAnswer s q <> None.

(** [f] applied to the value a call returned. *)
Definition result_map {A B} (f : A -> B) (r : result A) : result B :=
  match r with
  | Ok a => Ok (f a)
  | Throw e => Throw e
  end.

(** ** Storage: sessions in local storage

    A function that writes the store returns the browser it leaves,
    together with its result or its exception: what was written before an
    exception stays written. *)

Definition CURRENT_SESSION : string := "mockmatch:current-session".

(** [STORAGE_KEYS.session(id)]. *)
Definition STORAGE_KEYS_session (id : string) : string :=
  "mockmatch:session:" ++ id.

(** [localStorage.removeItem(key)]. *)
Definition removeItem (b : Browser) (key : string) : Browser :=
  mkBrowser (window_defined b)
    (filter (fun kv => negb (fst kv =? key)%string) (localStorage b))
    (quota_exceeded b).

(** [error.name === 'QuotaExceededError']: the exception of [setItem] is
    the one with this name. *)
Definition is_QuotaExceededError (error : Exn) : bool :=
  match exn_class error with
  | Error => (message error =? "The quota has been exceeded.")%string
  | _ => false
  end.

(** The [catch] clause of [saveSession]. *)
Definition saveSession_catch (error : Exn) : Exn :=
  if is_QuotaExceededError error then
    mkExn Error "Failed to save session: Local storage quota exceeded"
  else error.

Definition saveSession (b : Browser) (session : InterviewSession)
    : Browser * result unit :=
  if negb (window_defined b) then
    (b, throw_new Error "Local storage is not available in server-side context")
  else
    match serializeSession session with
    | Throw error => (b, Throw (saveSession_catch error))
    | Ok serialized =>
        match setItem b (STORAGE_KEYS_session (id session)) serialized with
        | Throw error => (b, Throw (saveSession_catch error))
        | Ok b1 =>
            match setItem b1 CURRENT_SESSION (id session) with
            | Throw error => (b1, Throw (saveSession_catch error))
            | Ok b2 => (b2, Ok tt)
            end
        end
    end.

(** [null] is [None]; an exception is logged and [null] returned. *)
Definition loadSession (E : Engine) (b : Browser) (sessionId : string)
    : option RawSession :=
  if negb (window_defined b) then None
  else
    match getItem b (STORAGE_KEYS_session sessionId) with
    | None => None
    | Some serialized =>
        if (serialized =? "")%string then None
        else
          match deserializeSession E serialized with
          | Ok session => Some session
          | Throw _ => None
          end
    end.

Definition getCurrentSessionId (b : Browser) : option string :=
  if negb (window_defined b) then None
  else getItem b CURRENT_SESSION.

Definition loadCurrentSession (E : Engine) (b : Browser) : option RawSession :=
  match getCurrentSessionId b with
  | None => None
  | Some sessionId =>
      if (sessionId =? "")%string then None else loadSession E b sessionId
  end.

Definition clearCurrentSession (b : Browser) : Browser :=
  if negb (window_defined b) then b
  else removeItem b CURRENT_SESSION.

Definition deleteSession (b : Browser) (sessionId : string) : Browser :=
  if negb (window_defined b) then b
  else removeItem b (STORAGE_KEYS_session sessionId).

(** The string a template literal makes of a value: the conversion of an
    object can throw. *)
Definition template_string (E : Engine) (v : jsval) : result string :=
  match v with
  | None => Ok "undefined"
  | Some x => ToString_or_throw E x
  end.

(** [deleteSession(entry.id)], where [entry.id] is what the stored text
    held: the key is made by the template literal of
    [STORAGE_KEYS.session]. *)
Definition deleteSession_entry (E : Engine) (b : Browser) (sessionId : jsval)
    : Browser * result unit :=
  if negb (window_defined b) then (b, Ok tt)
  else
    match template_string E sessionId with
    | Throw error => (b, Throw error)
    | Ok text => (removeItem b (STORAGE_KEYS_session text), Ok tt)
    end.

(** [history.forEach((entry) => { deleteSession(entry.id); })]: the
    entries are what the stored text held, and [entry.id] is read of each
    in turn. *)
Fixpoint forEach_deleteSession (E : Engine) (b : Browser) (history : list JSValue)
    : Browser * result unit :=
  match history with
  | [] => (b, Ok tt)
  | entry :: rest =>
      match get_property E (Some entry) "id" with
      | Throw error => (b, Throw error)
      | Ok entry_id =>
          match deleteSession_entry E b entry_id with
          | (b1, Throw error) => (b1, Throw error)
          | (b1, Ok _) => forEach_deleteSession E b1 rest
          end
      end
  end.

Definition clearAllSessions (E : Engine) (b : Browser) : Browser * result unit :=
  if negb (window_defined b) then (b, Ok tt)
  else
    match getSessionHistory E b with
    | JArray history =>
        match forEach_deleteSession E b history with
        | (b1, Throw error) => (b1, Throw error)
        | (b1, Ok _) =>
            (removeItem (removeItem b1 SESSION_HISTORY) CURRENT_SESSION, Ok tt)
        end
    | JNull =>
        (b, throw_new TypeError (type_error_message E (ReadPropertyOfNull "forEach")))
    | _ =>
        (b, throw_new TypeError (type_error_message E (NotAFunction "history.forEach")))
    end.

(** ** Vocabulary of the further properties of the storage functions *)

(** One of the dates of the session is the invalid date. *)
Definition has_invalid_timestamp (s : InterviewSession) : Prop :=
  createdAt s = InvalidDate \/ completedAt s = Some InvalidDate \/
  Exists (fun e => timestamp (snd e) = InvalidDate) (feedback s).

(** ** Sample browsers *)

(** No [window]: the code runs on the server. *)
Definition serverSide : Browser := mkBrowser false [] (fun _ _ _ => false).

(** A store that takes no write. *)
Definition fullBrowser : Browser := mkBrowser true [] (fun _ _ _ => true).

(** A store with room for at most [n] characters of values. *)
Definition stored_characters (m : Map string string) : nat :=
  list_sum (map (fun kv => String.length (snd kv)) m).

Definition smallBrowser (n : nat) : Browser :=
  mkBrowser true []
    (fun m k v =>
       (n <? stored_characters (Map_set String.eqb k v m))%nat).

(** The sample session with a creation date that is the invalid date. *)
Definition undatedSession : InterviewSession :=
  mkInterviewSession (id mockSession) (parsedJD mockSession) (questions mockSession)
    (answers mockSession) (feedback mockSession) (sessionFeedback mockSession)
    (currentQuestionIndex mockSession) (isComplete mockSession) InvalidDate
    (completedAt mockSession).

(** Two browsers that differ at most in the entries of the keys [keys]
    of the store. *)
Definition same_but (keys : list string) (b b' : Browser) : Prop :=
  window_defined b' = window_defined b /\
  forall k, ~ In k keys -> getItem b' k = getItem b k.

(** The [id] of a history entry can be made a string. *)
Definition id_converts (entry : JSValue) : bool :=
  match field entry "id" with
  | Some x => converts x
  | None => true
  end.

(** The key under which [clearAllSessions] looks for the session of a
    history entry whose [id] can be made a string. *)
Definition entry_key (entry : JSValue) : string :=
  STORAGE_KEYS_session
    match field entry "id" with
    | Some x => ToString x
    | None => "undefined"
    end.

(** The sample session of the manager under another identifier. *)
Definition otherSession : InterviewSession :=
  SessionManager.createSession "550e8400-e29b-41d4-a716-446655440077"
    1768467600000 mockParsedJD mockQuestions.

(** A browser in which [sampleSession] was saved and put in the history,
    and [otherSession] was saved only. *)
Definition usedBrowser : Browser :=
  fst (saveSession
         (saveSessionToHistory reference_engine
            (fst (saveSession freshBrowser sampleSession)) sampleSession)
         otherSession).

(** A browser whose stored history has one entry, with an [id] that is
    an object with a property [toString]; a session is current. *)
Definition unnamedHistoryBrowser : Browser :=
  mkBrowser true
    [(SESSION_HISTORY, quoted "[{'id':{'toString':1}}]"); (CURRENT_SESSION, "x")]
    (fun _ _ _ => false).

(** A browser whose stored history is the text [[null]]. *)
Definition nullHistoryBrowser : Browser :=
  mkBrowser true [(SESSION_HISTORY, "[null]")] (fun _ _ _ => false).

(** ** The codec and a cursor that is any number

    [serializeSession] for a session object whose cursor is any number.
    [JSON.stringify] writes a finite number with
    [Number.prototype.toString], and writes [null] for NaN and for the
    infinities. *)
Module NumericCodec.

(** The value whose text [JSON.stringify] writes for a number. *)
Definition written (a : Numeric.Number) : JSValue :=
  match a with
  | Numeric.Finite x => JNumber x
  | _ => JNull
  end.

Definition serializable_session (session : Numeric.Session) : result JSValue :=
  let fields := Numeric.fields session in
  let* feedback0 :=
    map_result serializable_feedback_entry (Map_entries (feedback fields)) in
  let* createdAt0 := Date_toISOString (createdAt fields) in
  let* completedAt0 :=
    match completedAt fields with
    | Some d => let* iso := Date_toISOString d in Ok (JString iso)
    | None => Ok JNull
    end in
  Ok (SerializableSession
        (JString (id fields))
        (js_ParsedJobDescription (parsedJD fields))
        (JArray (map js_InterviewQuestion (questions fields)))
        (JArray (map serializable_answer_entry (Map_entries (answers fields))))
        (JArray feedback0)
        match sessionFeedback fields with
        | Some f => js_SessionFeedback f
        | None => JNull
        end
        (written (Numeric.cursor session))
        (JBool (isComplete fields))
        (JString createdAt0)
        completedAt0).

Definition serializeSession (session : Numeric.Session) : result string :=
  let* serializable := serializable_session session in
  Ok (JSON_stringify serializable).

End NumericCodec.

(** The object [serializeSession] writes for a session whose timestamps
    are valid dates and whose cursor is written as [cursor0]. *)
Definition session_json_cursor (s : InterviewSession) (cursor0 : JSValue) : JSValue :=
  SerializableSession
    (JString (id s))
    (js_ParsedJobDescription (parsedJD s))
    (JArray (map js_InterviewQuestion (questions s)))
    (JArray (map serializable_answer_entry (answers s)))
    (JArray (map feedback_json (feedback s)))
    match sessionFeedback s with
    | Some f => js_SessionFeedback f
    | None => JNull
    end
    cursor0
    (JBool (isComplete s))
    (JString (iso_of (createdAt s)))
    match completedAt s with
    | Some d => JString (iso_of d)
    | None => JNull
    end.

(** The run-time value of a typed session, but for its cursor. *)
Definition raw_of_session_cursor (s : InterviewSession) (cursor0 : jsval)
    : RawSession :=
  {| raw_id := raw_id (raw_of_session s);
     raw_parsedJD := raw_parsedJD (raw_of_session s);
     raw_questions := raw_questions (raw_of_session s);
     raw_answers := raw_answers (raw_of_session s);
     raw_feedback := raw_feedback (raw_of_session s);
     raw_sessionFeedback := raw_sessionFeedback (raw_of_session s);
     raw_currentQuestionIndex := cursor0;
     raw_isComplete := raw_isComplete (raw_of_session s);
     raw_createdAt := raw_createdAt (raw_of_session s);
     raw_completedAt := raw_completedAt (raw_of_session s) |}.

(** ** The storage functions on run-time values

    The functions above take a session of the declared type.  At run time
    they also take the sessions that [loadSession] returned, whose fields
    hold whatever the stored text held; [SessionPersistence] passes them
    such sessions.  The functions of this module are the same functions
    of the source, on the run-time value of a session; on the run-time
    value of a typed session they do what the functions above do. *)
Module RunTime.

(** [JSON.stringify] writes [null] for an element of an array that is
    [undefined], and leaves out a property that is. *)
Definition element (v : jsval) : JSValue :=
  match v with
  | Some x => x
  | None => JNull
  end.

Fixpoint properties (l : list (string * jsval)) : list (string * JSValue) :=
  match l with
  | [] => []
  | (k, Some x) :: rest => (k, x) :: properties rest
  | (_, None) :: rest => properties rest
  end.

Definition serializable_feedback_entry (entry : jsval * RawAnswerFeedback)
    : result JSValue :=
  let (id0, feedback0) := entry in
  let* ts := Date_toISOString (raw_timestamp feedback0) in
  Ok (JArray
        [element id0;
         JObject
           (properties
              [("questionId", raw_questionId feedback0);
               ("score", raw_score feedback0);
               ("strengths", raw_strengths feedback0);
               ("improvements", raw_improvements feedback0);
               ("timestamp", Some (JString ts))])]).

Definition serializable_answer_entry (entry : jsval * jsval) : JSValue :=
  JArray [element (fst entry); element (snd entry)].

Definition serializable_session (session : RawSession) : result JSValue :=
  let* feedback0 :=
    map_result serializable_feedback_entry (Map_entries (raw_feedback session)) in
  let* createdAt0 := Date_toISOString (raw_createdAt session) in
  let* completedAt0 :=
    match raw_completedAt session with
    | Some d => let* iso := Date_toISOString d in Ok (JString iso)
    | None => Ok JNull
    end in
  Ok (JObject
        (properties
           [("id", raw_id session);
            ("parsedJD", raw_parsedJD session);
            ("questions", raw_questions session);
            ("answers",
             Some (JArray (map serializable_answer_entry
                             (Map_entries (raw_answers session)))));
            ("feedback", Some (JArray feedback0));
            ("sessionFeedback", raw_sessionFeedback session);
            ("currentQuestionIndex", raw_currentQuestionIndex session);
            ("isComplete", raw_isComplete session);
            ("createdAt", Some (JString createdAt0));
            ("completedAt", Some completedAt0)])).

Definition serializeSession (session : RawSession) : result string :=
  let* serializable := serializable_session session in
  Ok (JSON_stringify serializable).

(** [session.id] is made a string twice: in the template literal of the
    key, and by [setItem] for the value of the current-session entry. *)
Definition saveSession (E : Engine) (b : Browser) (session : RawSession)
    : Browser * result unit :=
  if negb (window_defined b) then
    (b, throw_new Error "Local storage is not available in server-side context")
  else
    match serializeSession session with
    | Throw error => (b, Throw (saveSession_catch error))
    | Ok serialized =>
        match template_string E (raw_id session) with
        | Throw error => (b, Throw (saveSession_catch error))
        | Ok id_text =>
            match setItem b (STORAGE_KEYS_session id_text) serialized with
            | Throw error => (b, Throw (saveSession_catch error))
            | Ok b1 =>
                match setItem b1 CURRENT_SESSION id_text with
                | Throw error => (b1, Throw (saveSession_catch error))
                | Ok b2 => (b2, Ok tt)
                end
            end
        end
    end.

(** [history.findIndex((entry) => entry.id === session.id)]: on the
    values of parsed texts [===] is [same_value_zero]. *)
Fixpoint findIndex_id (E : Engine) (sid : jsval) (entries : list JSValue) (i : Z)
    : result Z :=
  match entries with
  | [] => Ok (-1)
  | entry :: rest =>
      let* entry_id := get_property E (Some entry) "id" in
      if same_value_zero entry_id sid then Ok i
      else findIndex_id E sid rest (i + 1)
  end.

(** [session.sessionFeedback?.overallScore ?? null]. *)
Definition overallScore_or_null (E : Engine) (session : RawSession) : result jsval :=
  match raw_sessionFeedback session with
  | None => Ok (Some JNull)
  | Some JNull => Ok (Some JNull)
  | Some f =>
      let* score0 := get_property E (Some f) "overallScore" in
      Ok (js_nullish score0 (Some JNull))
  end.

Definition historyEntry (E : Engine) (session : RawSession) : result JSValue :=
  let* roleType0 := get_property E (raw_parsedJD session) "roleType" in
  let* experienceLevel0 := get_property E (raw_parsedJD session) "experienceLevel" in
  let* createdAt0 := Date_toISOString (raw_createdAt session) in
  let* completedAt0 :=
    match raw_completedAt session with
    | Some d => let* iso := Date_toISOString d in Ok (JString iso)
    | None => Ok JNull
    end in
  let* overallScore0 := overallScore_or_null E session in
  Ok (JObject
        (properties
           [("id", raw_id session);
            ("roleType", roleType0);
            ("experienceLevel", experienceLevel0);
            ("createdAt", Some (JString createdAt0));
            ("completedAt", Some completedAt0);
            ("overallScore", overallScore0)])).

Definition saveSessionToHistory_try (E : Engine) (b : Browser)
    (session : RawSession) : result Browser :=
  match getSessionHistory E b with
  | JArray history =>
      let* existingIndex := findIndex_id E (raw_id session) history 0 in
      let* entry := historyEntry E session in
      let history' :=
        if existingIndex >=? 0 then array_set history (Z.to_nat existingIndex) entry
        else (history ++ [entry])%list in
      setItem b SESSION_HISTORY (JSON_stringify (JArray history'))
  | JNull =>
      throw_new TypeError (type_error_message E (ReadPropertyOfNull "findIndex"))
  | _ => throw_new TypeError (type_error_message E (NotAFunction "history.findIndex"))
  end.

Definition saveSessionToHistory (E : Engine) (b : Browser)
    (session : RawSession) : Browser :=
  if negb (window_defined b) then b
  else
    match saveSessionToHistory_try E b session with
    | Ok b' => b'
    | Throw _ => b
    end.

End RunTime.

(** A stored text that [deserializeSession] accepts, with a feedback whose
    timestamp is no date. *)
Definition undatedFeedbackText : string :=
  quoted "{'id':'x','parsedJD':{},'questions':[],'feedback':[['q1',{'questionId':'q1','score':8,'timestamp':'soon'}]],'createdAt':'2026-01-15T09:00:00.000Z'}".

(** A browser whose stored history is the text of an object, and one
    whose stored history is no JSON. *)
Definition objectHistoryBrowser : Browser :=
  mkBrowser true [(SESSION_HISTORY, "{}")] (fun _ _ _ => false).

Definition corruptHistoryBrowser : Browser :=
  mkBrowser true [(SESSION_HISTORY, "[{")] (fun _ _ _ => false).

(** ** SessionPersistence

    The state is the object of the class (its two fields) and what it
    acts on: the browser, and the interval timers of the environment.
    [setInterval] starts a timer and returns its identifier, a number
    above zero, which the test [if (this.autoSaveTimer)] takes as true;
    [clearInterval] ends a timer.  The timers the class starts have the
    same callback, so that a timer that fires is one run of that callback
    ([tick]).  The sessions are run-time values; what the methods write to
    the console is not part of the state.  A method that can throw
    returns the state it leaves and its result or exception. *)
Module SessionPersistence.

Record State := mkState {
  browser : Browser;
  intervals : list nat;
  next_interval : nat;
  autoSaveTimer : option nat;
  currentSession : option RawSession
}.

(** [new SessionPersistence()], in an environment where no timer runs. *)
Definition create (b : Browser) : State := mkState b [] 1 None None.

Definition with_browser (st : State) (b : Browser) : State :=
  mkState b (intervals st) (next_interval st) (autoSaveTimer st)
    (currentSession st).

Definition with_autoSaveTimer (st : State) (t : option nat) : State :=
  mkState (browser st) (intervals st) (next_interval st) t (currentSession st).

Definition with_currentSession (st : State) (s : option RawSession) : State :=
  mkState (browser st) (intervals st) (next_interval st) (autoSaveTimer st) s.

Definition setInterval (st : State) : State * nat :=
  (mkState (browser st) (next_interval st :: intervals st)
     (S (next_interval st)) (autoSaveTimer st) (currentSession st),
   next_interval st).

Definition clearInterval (st : State) (t : nat) : State :=
  mkState (browser st) (filter (fun x => negb (x =? t)%nat) (intervals st))
    (next_interval st) (autoSaveTimer st) (currentSession st).

Definition stopAutoSave (st : State) : State :=
  match autoSaveTimer st with
  | Some t => with_autoSaveTimer (clearInterval st t) None
  | None => st
  end.

(** [try { saveSession(session); } catch (error) { console.error(...); }]. *)
Definition try_saveSession (E : Engine) (st : State) (session : RawSession)
    : State :=
  with_browser st (fst (RunTime.saveSession E (browser st) session)).

(** The callback of the timer. *)
Definition autoSave (E : Engine) (st : State) : State :=
  match currentSession st with
  | Some session => try_saveSession E st session
  | None => st
  end.

Definition startAutoSave (E : Engine) (st : State) (session : RawSession)
    : State :=
  let st := stopAutoSave st in
  let st := with_currentSession st (Some session) in
  let (st, timer) := setInterval st in
  let st := with_autoSaveTimer st (Some timer) in
  try_saveSession E st session.

(** A timer fires, when one is running. *)
Definition tick (E : Engine) (st : State) : State :=
  match intervals st with
  | [] => st
  | _ :: _ => autoSave E st
  end.

Definition updateSession (st : State) (session : RawSession) : State :=
  with_currentSession st (Some session).

Definition saveCurrentSession (E : Engine) (st : State) : State * result unit :=
  match currentSession st with
  | Some session =>
      let (b, r) := RunTime.saveSession E (browser st) session in
      (with_browser st b, r)
  | None => (st, Ok tt)
  end.

(** Neither [loadSession] nor [startAutoSave] throws: the [catch] clause
    is not reached. *)
Definition restoreSession (E : Engine) (st : State) (sessionId : string)
    : State * option RawSession :=
  match loadSession E (browser st) sessionId with
  | Some session =>
      (startAutoSave E (with_currentSession st (Some session)) session,
       Some session)
  | None => (st, None)
  end.

Definition restoreCurrentSession (E : Engine) (st : State)
    : State * option RawSession :=
  match loadCurrentSession E (browser st) with
  | Some session =>
      (startAutoSave E (with_currentSession st (Some session)) session,
       Some session)
  | None => (st, None)
  end.

(** The exception of [saveSession] is logged and thrown again; the
    statements after [saveSession] are then not run. *)
Definition completeSession (E : Engine) (st : State) (session : RawSession)
    : State * result unit :=
  match RunTime.saveSession E (browser st) session with
  | (b1, Throw error) => (with_browser st b1, Throw error)
  | (b1, Ok _) =>
      let b2 := RunTime.saveSessionToHistory E b1 session in
      let b3 := clearCurrentSession b2 in
      let st := stopAutoSave (with_browser st b3) in
      (with_currentSession st None, Ok tt)
  end.

Definition getHistory (E : Engine) (st : State) : JSValue :=
  getSessionHistory E (browser st).

Definition loadFromHistory (E : Engine) (st : State) (sessionId : string)
    : option RawSession :=
  loadSession E (browser st) sessionId.

Definition hasSessionInProgress (E : Engine) (st : State) : bool :=
  match loadCurrentSession E (browser st) with
  | Some session => negb (truthy (raw_isComplete session))
  | None => false
  end.

Definition clearSession (st : State) : State :=
  let st := stopAutoSave st in
  let st := with_currentSession st None in
  with_browser st (clearCurrentSession (browser st)).

Definition cleanup (E : Engine) (st : State) : State :=
  stopAutoSave (autoSave E st).

(** The calls of the methods that change the state, and a timer firing,
    as data. *)
Inductive Call :=
| StartAutoSave (session : RawSession)
| StopAutoSave
| UpdateSession (session : RawSession)
| SaveCurrentSession
| RestoreSession (sessionId : string)
| RestoreCurrentSession
| CompleteSession (session : RawSession)
| ClearSession
| Cleanup
| Tick.

(** The state after a call, whether it returned or threw. *)
Definition call (E : Engine) (st : State) (c : Call) : State :=
  match c with
  | StartAutoSave session => startAutoSave E st session
  | StopAutoSave => stopAutoSave st
  | UpdateSession session => updateSession st session
  | SaveCurrentSession => fst (saveCurrentSession E st)
  | RestoreSession sessionId => fst (restoreSession E st sessionId)
  | RestoreCurrentSession => fst (restoreCurrentSession E st)
  | CompleteSession session => fst (completeSession E st session)
  | ClearSession => clearSession st
  | Cleanup => cleanup E st
  | Tick => tick E st
  end.

Definition run (E : Engine) (st : State) (calls : list Call) : State :=
  fold_left (call E) calls st.

(** The timers that run are the one the object holds, if it holds
    one. *)
Definition timers_tracked (st : State) : Prop :=
  intervals st = match autoSaveTimer st with
                 | Some t => [t]
                 | None => []
                 end.

End SessionPersistence.

(** A store that refuses no write. *)
Definition unlimited (b : Browser) : Prop :=
  forall m k v, quota_exceeded b m k v = false.

(** ** The OpenAI client: retries ([src/lib/openai-client.ts])

    [withRetry] awaits each call of [operation] before the next
    statement: the calls are one after the other.  [operation n] is what
    call number [n] (from 0) of the operation does: it fulfils with a
    value, or rejects with (or throws) a value.  Of a value that was
    thrown the code reads [error?.status], [error?.code] and
    [error?.message]; each is [undefined] ([None]) when the value has no
    such property, and also when the value is [null] or [undefined].  The
    status is an HTTP status, an integer; the code and the message are
    strings.  The result gives the number of calls made and the delays
    slept, in order, with the value or the error of the promise. *)
Module OpenAIClient.

Record Thrown := mkThrown {
  status : option Z;
  code : option string;
  error_message : option string
}.

Record OpenAIError := mkOpenAIError {
  oe_message : string;
  originalError : option Thrown;
  retryable : bool
}.

Definition maxAttempts : Z := 3.
Definition baseDelay : Z := 1000.
Definition maxDelay : Z := 10000.

(** [attempt] is the number of an attempt, 1 or more. *)
Definition getBackoffDelay (attempt : Z) : Z :=
  let delay := baseDelay * 2 ^ (attempt - 1) in
  Z.min delay maxDelay.

(** [error?.code === c]. *)
Definition code_is (error : Thrown) (c : string) : bool :=
  match code error with
  | Some x => (x =? c)%string
  | None => false
  end.

(** [error?.status === n]. *)
Definition status_is (error : Thrown) (n : Z) : bool :=
  match status error with
  | Some x => x =? n
  | None => false
  end.

(** [error?.status >= lo && error?.status < hi]: a comparison with
    [undefined] is false. *)
Definition status_within (error : Thrown) (lo hi : Z) : bool :=
  match status error with
  | Some x => (lo <=? x) && (x <? hi)
  | None => false
  end.

Definition isRetryableError (error : Thrown) : bool :=
  if status_is error 429 then true
  else if code_is error "ETIMEDOUT" || code_is error "ECONNABORTED" then true
  else if status_within error 500 600 then true
  else if code_is error "ECONNRESET" || code_is error "ENOTFOUND" ||
          code_is error "ECONNREFUSED" then true
  else false.

(** [error?.message || 'Unknown error']. *)
Definition message_or_unknown (error : Thrown) : string :=
  match error_message error with
  | Some m => if (m =? "")%string then "Unknown error" else m
  | None => "Unknown error"
  end.

Record Run (T : Type) := mkRun {
  calls : nat;
  sleeps : list Z;
  outcome : T + OpenAIError
}.
Arguments mkRun {T} calls sleeps outcome.
Arguments calls {T} r.
Arguments sleeps {T} r.
Arguments outcome {T} r.

(** The [for] loop from [attempt] on; [fuel] is the number of attempts
    that are left, and [done] and [slept] what was called and slept
    before. *)
Fixpoint attempts_from {T : Type} (fuel : nat) (attempt : Z)
    (operation : nat -> T + Thrown) (operationName : string)
    (lastError : option Thrown) (done : nat) (slept : list Z) : Run T :=
  match fuel with
  | O =>
      mkRun done slept
        (inr (mkOpenAIError
                (operationName ++ " failed after " ++ Z_toString maxAttempts ++
                 " attempts")
                lastError false))
  | S rest =>
      if attempt <=? maxAttempts then
        match operation done with
        | inl value => mkRun (S done) slept (inl value)
        | inr error =>
            let shouldRetry := isRetryableError error in
            if (attempt =? maxAttempts) || negb shouldRetry then
              mkRun (S done) slept
                (inr (mkOpenAIError
                        (operationName ++ " failed after " ++ Z_toString attempt ++
                         " attempt(s): " ++ message_or_unknown error)
                        (Some error) shouldRetry))
            else
              let delay := getBackoffDelay attempt in
              attempts_from rest (attempt + 1) operation operationName
                (Some error) (S done) (slept ++ [delay])%list
        end
      else
        mkRun done slept
          (inr (mkOpenAIError
                  (operationName ++ " failed after " ++ Z_toString maxAttempts ++
                   " attempts")
                  lastError false))
  end.

Definition withRetry {T : Type} (operation : nat -> T + Thrown)
    (operationName : string) : Run T :=
  attempts_from (S (Z.to_nat maxAttempts)) 1 operation operationName None 0 [].

(** The error of a rate limit, and an error that is no use retrying. *)
Definition rateLimited : Thrown := mkThrown (Some 429) None (Some "Rate limit reached").
Definition unauthorized : Thrown := mkThrown (Some 401) None (Some "Incorrect API key").

End OpenAIClient.

(** * Proofs *)

(** ** Maps *)

Section MapFacts.
Context {K V : Type}.
Variable key_eqb : K -> K -> bool.
Hypothesis key_eqb_eq : forall a b, key_eqb a b = true <-> a = b.

Lemma key_eqb_refl k : key_eqb k k = true.
Proof. now apply key_eqb_eq. Qed.

Lemma key_eqb_neq a b : a <> b -> key_eqb a b = false.
Proof.
  intros Hne. destruct (key_eqb a b) eqn:Hab; [|reflexivity].
  apply key_eqb_eq in Hab. contradiction.
Qed.

Lemma Map_get_set_same k (v : V) m :
  Map_get key_eqb k (Map_set key_eqb k v m) = Some v.
Proof.
  induction m as [|[k' v'] m IH]; simpl.
  - now rewrite key_eqb_refl.
  - destruct (key_eqb k' k) eqn:Hk; simpl; rewrite Hk; auto.
Qed.

Lemma Map_get_set_other k k' (v : V) m :
  k <> k' -> Map_get key_eqb k' (Map_set key_eqb k v m) = Map_get key_eqb k' m.
Proof.
  intros Hne. induction m as [|[k0 v0] m IH]; simpl.
  - now rewrite key_eqb_neq.
  - destruct (key_eqb k0 k) eqn:Hk; simpl.
    + apply key_eqb_eq in Hk. subst k0. now rewrite key_eqb_neq.
    + now rewrite IH.
Qed.

Lemma Map_keys_set k (v : V) m x :
  In x (Map_keys (Map_set key_eqb k v m)) <-> x = k \/ In x (Map_keys m).
Proof.
  unfold Map_keys. induction m as [|[k0 v0] m IH]; simpl.
  - intuition.
  - destruct (key_eqb k0 k) eqn:Hk; simpl.
    + apply key_eqb_eq in Hk. subst k0. intuition.
    + rewrite IH. intuition.
Qed.

Lemma Map_set_fresh k (v : V) m :
  ~ In k (Map_keys m) -> Map_set key_eqb k v m = (m ++ [(k, v)])%list.
Proof.
  unfold Map_keys. induction m as [|[k0 v0] m IH]; simpl; intros Hn.
  - reflexivity.
  - rewrite key_eqb_neq by intuition. f_equal. apply IH. intuition.
Qed.

Lemma Map_set_length_present k (v : V) m :
  In k (Map_keys m) ->
  List.length (Map_set key_eqb k v m) = List.length m.
Proof.
  unfold Map_keys. induction m as [|[k0 v0] m IH]; simpl; intros Hin.
  - contradiction.
  - destruct (key_eqb k0 k) eqn:Hk; simpl; [reflexivity|].
    f_equal. apply IH. destruct Hin as [->|Hin]; [|assumption].
    now rewrite key_eqb_refl in Hk.
Qed.

Lemma Map_keys_set_present k (v : V) m :
  In k (Map_keys m) -> Map_keys (Map_set key_eqb k v m) = Map_keys m.
Proof.
  unfold Map_keys. induction m as [|[k0 v0] m IH]; simpl; intros Hin.
  - contradiction.
  - destruct (key_eqb k0 k) eqn:Hk; simpl; [reflexivity|].
    f_equal. apply IH. destruct Hin as [->|Hin]; [|assumption].
    now rewrite key_eqb_refl in Hk.
Qed.

Lemma Map_has_In k (m : Map K V) :
  Map_has key_eqb k m = true <-> In k (Map_keys m).
Proof.
  unfold Map_has, Map_keys. induction m as [|[k0 v0] m IH]; simpl.
  - split; [discriminate|contradiction].
  - destruct (key_eqb k0 k) eqn:Hk.
    + apply key_eqb_eq in Hk. intuition.
    + rewrite IH. split; [intuition|].
      intros [->|Hin]; [|assumption]. now rewrite key_eqb_refl in Hk.
Qed.

Lemma Map_keys_dec k (m : Map K V) : In k (Map_keys m) \/ ~ In k (Map_keys m).
Proof.
  destruct (Map_has key_eqb k m) eqn:Hh.
  - left. now apply Map_has_In.
  - right. intros Hin. apply Map_has_In in Hin. congruence.
Qed.

Lemma NoDup_snoc {A} (l : list A) (a : A) :
  NoDup l -> ~ In a l -> NoDup (l ++ [a]).
Proof.
  intros Hl Ha. induction Hl as [|x l Hx Hl IH]; simpl.
  - constructor; [intros []|constructor].
  - constructor.
    + rewrite in_app_iff. simpl. intros [H|[H|[]]]; [contradiction|].
      subst. apply Ha. now left.
    + apply IH. intros H. apply Ha. now right.
Qed.

Lemma Map_set_wf k (v : V) m : Map_wf m -> Map_wf (Map_set key_eqb k v m).
Proof.
  intros Hwf. destruct (Map_keys_dec k m) as [Hin|Hn].
  - unfold Map_wf. now rewrite Map_keys_set_present.
  - rewrite Map_set_fresh by assumption. unfold Map_wf, Map_keys in *.
    rewrite map_app. simpl. now apply NoDup_snoc.
Qed.

Lemma Map_new_from (l acc : list (K * V)) :
  NoDup (Map_keys (acc ++ l)%list) ->
  fold_left (fun m kv => Map_set key_eqb (fst kv) (snd kv) m) l acc
  = (acc ++ l)%list.
Proof.
  revert acc. induction l as [|[k v] l IH]; intros acc Hnd; simpl.
  - now rewrite app_nil_r.
  - assert (Hk : ~ In k (Map_keys acc)).
    { unfold Map_keys in *. rewrite map_app in Hnd. simpl in Hnd.
      apply NoDup_remove_2 in Hnd. rewrite in_app_iff in Hnd. tauto. }
    rewrite Map_set_fresh by assumption.
    rewrite IH; rewrite <- app_assoc; simpl; [reflexivity|assumption].
Qed.

(** Copying a map gives the map. *)
Lemma Map_new_entries (m : Map K V) :
  Map_wf m -> Map_new key_eqb (Map_entries m) = m.
Proof. intros Hwf. unfold Map_new, Map_entries. now rewrite Map_new_from. Qed.

Lemma Map_new_wf_from (l acc : list (K * V)) :
  Map_wf acc ->
  Map_wf (fold_left (fun m kv => Map_set key_eqb (fst kv) (snd kv) m) l acc).
Proof.
  revert acc. induction l as [|[k v] l IH]; intros acc Hwf; simpl.
  - assumption.
  - apply IH. now apply Map_set_wf.
Qed.

Lemma Map_new_wf (l : list (K * V)) : Map_wf (Map_new key_eqb l).
Proof. apply Map_new_wf_from. constructor. Qed.

Lemma Map_new_keys_from (l acc : list (K * V)) x :
  In x (Map_keys (fold_left (fun m kv => Map_set key_eqb (fst kv) (snd kv) m) l acc))
  <-> In x (Map_keys acc) \/ In x (Map_keys l).
Proof.
  revert acc. induction l as [|[k v] l IH]; intros acc; simpl.
  - intuition.
  - rewrite IH, Map_keys_set. intuition.
Qed.

Lemma Map_new_keys (l : list (K * V)) x :
  In x (Map_keys (Map_new key_eqb l)) <-> In x (Map_keys l).
Proof. unfold Map_new. rewrite Map_new_keys_from. simpl. intuition. Qed.
End MapFacts.

(** ** The session manager *)

Import SessionManager.

Lemma question_exists_iff (s : InterviewSession) (q : string) :
  existsb (fun x => (q_id x =? q)%string) (questions s) = true
  <-> In q (question_ids s).
Proof.
  unfold question_ids. rewrite existsb_exists, in_map_iff.
  split; intros [x [H1 H2]]; exists x.
  - apply String.eqb_eq in H2. auto.
  - subst q. rewrite String.eqb_refl. auto.
Qed.

Lemma storeAnswer_known (s : InterviewSession) (q text : string) :
  In q (question_ids s) ->
  storeAnswer s q text
  = Ok (with_answers s
          (Map_set String.eqb q text (Map_new String.eqb (Map_entries (answers s))))).
Proof.
  intros Hin. unfold storeAnswer.
  apply question_exists_iff in Hin. now rewrite Hin.
Qed.

Lemma storeAnswer_unknown (s : InterviewSession) (q text : string) :
  ~ In q (question_ids s) ->
  storeAnswer s q text
  = Throw (mkExn Error ("Question with ID " ++ q ++ " not found in session")).
Proof.
  intros Hn. unfold storeAnswer.
  destruct (existsb _ _) eqn:He; [|reflexivity].
  apply question_exists_iff in He. contradiction.
Qed.

Lemma setCurrentQuestionIndex_in_range (s : InterviewSession) (i : Z) :
  0 <= i < length_of (questions s) ->
  setCurrentQuestionIndex s i = Ok (with_currentQuestionIndex s i).
Proof.
  intros Hi. unfold setCurrentQuestionIndex.
  replace (i <? 0) with false by (symmetry; apply Z.ltb_ge; lia).
  replace (i >=? length_of (questions s)) with false
    by (symmetry; rewrite Z.geb_leb; apply Z.leb_gt; lia).
  reflexivity.
Qed.

Lemma setCurrentQuestionIndex_out_of_range (s : InterviewSession) (i : Z) :
  i < 0 \/ i >= length_of (questions s) ->
  setCurrentQuestionIndex s i
  = Throw (mkExn Error
             ("Invalid question index: " ++ Z_toString i ++
              ". Must be between 0 and " ++
              Z_toString (length_of (questions s) - 1))).
Proof.
  intros Hi. unfold setCurrentQuestionIndex.
  replace ((i <? 0) || (i >=? length_of (questions s))) with true; [reflexivity|].
  symmetry. apply orb_true_iff. rewrite Z.geb_leb, Z.ltb_lt, Z.leb_le. lia.
Qed.

Lemma setCurrentQuestionIndex_Ok (s s' : InterviewSession) (i : Z) :
  setCurrentQuestionIndex s i = Ok s' ->
  0 <= i < length_of (questions s) /\ s' = with_currentQuestionIndex s i.
Proof.
  intros H.
  destruct (Z.lt_ge_cases i 0) as [Hlt|Hge].
  - rewrite setCurrentQuestionIndex_out_of_range in H by lia. discriminate.
  - destruct (Z.lt_ge_cases i (length_of (questions s))) as [Hlt|Hge'].
    + rewrite setCurrentQuestionIndex_in_range in H by lia.
      injection H as <-. split; [lia|reflexivity].
    + rewrite setCurrentQuestionIndex_out_of_range in H by lia. discriminate.
Qed.

Lemma nextQuestion_Ok (s s' : InterviewSession) :
  nextQuestion s = Ok s' ->
  setCurrentQuestionIndex s (currentQuestionIndex s + 1) = Ok s'.
Proof.
  unfold nextQuestion. destruct (_ >=? _); [discriminate|auto].
Qed.

Lemma previousQuestion_Ok (s s' : InterviewSession) :
  previousQuestion s = Ok s' ->
  setCurrentQuestionIndex s (currentQuestionIndex s - 1) = Ok s'.
Proof.
  unfold previousQuestion. destruct (_ <? _); [discriminate|auto].
Qed.

Lemma storeAnswer_Ok (s s' : InterviewSession) (q text : string) :
  storeAnswer s q text = Ok s' ->
  In q (question_ids s) /\
  s' = with_answers s
         (Map_set String.eqb q text (Map_new String.eqb (Map_entries (answers s)))).
Proof.
  intros H. unfold storeAnswer in H.
  destruct (existsb _ _) eqn:He; simpl in H; [|discriminate].
  apply question_exists_iff in He. injection H as <-. auto.
Qed.

Lemma apply_op_effect (s s' : InterviewSession) (op : Op) :
  apply_op s op = Ok s' -> op_effect s op s'.
Proof.
  destruct op; simpl; intros H.
  - apply storeAnswer_Ok in H as [Hin ->]. now constructor.
  - injection H as <-. constructor.
  - apply setCurrentQuestionIndex_Ok in H as [Hi ->]. now constructor.
  - injection H as <-. constructor.
  - injection H as <-. constructor.
  - apply nextQuestion_Ok, setCurrentQuestionIndex_Ok in H as [Hi ->].
    now constructor.
  - apply previousQuestion_Ok, setCurrentQuestionIndex_Ok in H as [Hi ->].
    now constructor.
Qed.

Lemma op_effect_questions s op s' : op_effect s op s' -> questions s' = questions s.
Proof. destruct 1; reflexivity. Qed.

Lemma op_effect_createdAt s op s' : op_effect s op s' -> createdAt s' = createdAt s.
Proof. destruct 1; reflexivity. Qed.

Lemma steps_questions s ops s' : steps s ops s' -> questions s' = questions s.
Proof.
  induction 1 as [|s op s1 ops s2 Hop _ IH]; [reflexivity|].
  rewrite IH. now apply op_effect_questions with op, apply_op_effect.
Qed.

Lemma steps_createdAt s ops s' : steps s ops s' -> createdAt s' = createdAt s.
Proof.
  induction 1 as [|s op s1 ops s2 Hop _ IH]; [reflexivity|].
  rewrite IH. now apply op_effect_createdAt with op, apply_op_effect.
Qed.

(** An invariant of the calls holds of every session they lead to. *)
Lemma steps_invariant (P : InterviewSession -> Prop) (Q : Op -> Prop) :
  (forall s op s', P s -> Q op -> op_effect s op s' -> P s') ->
  forall s ops s', steps s ops s' -> Forall Q ops -> P s -> P s'.
Proof.
  intros Hpres s ops s' Hsteps.
  induction Hsteps as [|s op s1 ops s2 Hop _ IH]; intros HQ HP; [assumption|].
  inversion HQ; subst. apply IH; [assumption|].
  eapply Hpres; eauto using apply_op_effect.
Qed.

Lemma Forall_trivial {A} (l : list A) : Forall (fun _ => True) l.
Proof. induction l; constructor; auto. Qed.

(** Reduce a property of the sessions [Hsteps] leads to, to its
    preservation by one call and to the initial session. *)
Ltac by_steps P HQ Hsteps :=
  refine (steps_invariant P _ _ _ _ _ Hsteps HQ _).

Lemma string_keys_set (V : Type) k (v : V) m x :
  In x (Map_keys (Map_set String.eqb k v (Map_new String.eqb (Map_entries m))))
  <-> x = k \/ In x (Map_keys m).
Proof.
  rewrite (Map_keys_set String.eqb String.eqb_eq).
  unfold Map_entries. now rewrite (Map_new_keys String.eqb String.eqb_eq).
Qed.

Lemma cursor_in_range_steps uuid now jd qs ops s :
  qs <> [] ->
  steps (createSession uuid now jd qs) ops s -> cursor_in_range s.
Proof.
  intros Hqs Hsteps.
  by_steps cursor_in_range (Forall_trivial ops) Hsteps.
  - intros s0 op s' HP _ Heff. unfold cursor_in_range in *.
    destruct Heff; simpl; auto.
  - unfold cursor_in_range, length_of. simpl.
    destruct qs; [contradiction|]. simpl List.length. lia.
Qed.

Lemma answer_keys_valid_steps uuid now jd qs ops s :
  steps (createSession uuid now jd qs) ops s -> answer_keys_valid s.
Proof.
  intros Hsteps.
  by_steps answer_keys_valid (Forall_trivial ops) Hsteps.
  - intros s0 op s' HP _ Heff. unfold answer_keys_valid, question_ids in *.
    destruct Heff; simpl; auto.
    intros k Hk. apply string_keys_set in Hk as [->|Hk]; auto.
  - intros k [].
Qed.

Lemma feedback_keys_valid_steps uuid now jd qs ops s :
  feedback_about (map q_id qs) ops ->
  steps (createSession uuid now jd qs) ops s -> feedback_keys_valid s.
Proof.
  intros Habout Hsteps.
  enough (questions s = qs /\ feedback_keys_valid s) by tauto.
  unfold feedback_about in Habout.
  by_steps (fun s => questions s = qs /\ feedback_keys_valid s) Habout Hsteps.
  - intros s0 op s' [Hq HP] HQ Heff. unfold feedback_keys_valid, question_ids in *.
    destruct Heff; simpl; auto. split; [assumption|].
    intros k Hk. apply string_keys_set in Hk as [->|Hk]; auto.
    now rewrite Hq.
  - split; [reflexivity|]. intros k [].
Qed.

Lemma completion_flag_steps uuid now jd qs ops s :
  steps (createSession uuid now jd qs) ops s -> completion_flag_consistent s.
Proof.
  intros Hsteps.
  by_steps completion_flag_consistent (Forall_trivial ops) Hsteps.
  - intros s0 op s' HP _ Heff. unfold completion_flag_consistent in *.
    destruct Heff; simpl; auto. split; [reflexivity|discriminate].
  - unfold completion_flag_consistent. simpl. split; [congruence|discriminate].
Qed.

Lemma completion_after_creation_steps uuid now jd qs ops s :
  clock_from now ops ->
  steps (createSession uuid now jd qs) ops s -> completion_after_creation s.
Proof.
  intros Hclock Hsteps.
  enough (createdAt s = TimeValue now /\ completion_after_creation s) by tauto.
  unfold clock_from in Hclock.
  by_steps (fun s => createdAt s = TimeValue now /\ completion_after_creation s)
    Hclock Hsteps.
  - intros s0 op s' [Hc HP] HQ Heff. unfold completion_after_creation in *.
    destruct Heff; simpl; auto. split; [assumption|].
    intros t c Ht Hcomp. rewrite Hc in Ht. injection Ht as <-.
    injection Hcomp as <-. assumption.
  - split; [reflexivity|]. intros t c _ Hc. discriminate.
Qed.

(** ** The store: [set] writes the copy, and nothing else *)

Lemma write_same {A : Type} (l : list A) (i : nat) (x : A) :
  (i < List.length l)%nat -> nth_error (Store.write l i x) i = Some x.
Proof.
  revert i. induction l as [|y l IH]; intros [|i] Hi; simpl in *; try lia.
  - reflexivity.
  - apply IH. lia.
Qed.

Lemma write_other {A : Type} (l : list A) (i j : nat) (x : A) :
  i <> j -> nth_error (Store.write l i x) j = nth_error l j.
Proof.
  revert i j. induction l as [|y l IH]; intros [|i] [|j] Hij; simpl;
    try reflexivity; try congruence.
  apply IH. congruence.
Qed.

(** [new Map(m)] followed by [set] on the new object: the new object has
    the entries of the old one and the new entry, and every object that
    was there is as it was. *)
Lemma new_Map_set {V : Type} (maps : list (Map string V)) (m : Store.loc)
    (old : Map string V) (k : string) (v : V) :
  nth_error maps m = Some old ->
  exists maps1 l,
    Store.new_Map maps m = (maps1, l) /\
    nth_error (Store.Map_prototype_set maps1 l k v) l
    = Some (Map_set String.eqb k v (Map_new String.eqb (Map_entries old))) /\
    (forall j x, nth_error maps j = Some x ->
                 nth_error (Store.Map_prototype_set maps1 l k v) j = Some x).
Proof.
  intros Hold. unfold Store.new_Map. rewrite Hold.
  do 2 eexists. split; [reflexivity|].
  assert (Hnew : nth_error (maps ++ [Map_new String.eqb (Map_entries old)])
                   (List.length maps)
                 = Some (Map_new String.eqb (Map_entries old))).
  { rewrite nth_error_app2 by lia. now rewrite Nat.sub_diag. }
  unfold Store.Map_prototype_set. rewrite Hnew. split.
  - apply write_same. rewrite length_app. simpl. lia.
  - intros j x Hj.
    assert (Hlt : (j < List.length maps)%nat)
      by (apply nth_error_Some; congruence).
    rewrite write_other by lia. now rewrite nth_error_app1.
Qed.

Lemma preserved_refl (st : Store.store) : Store.preserved st st.
Proof. split; auto. Qed.

(** [Store.storeAnswer] computes [SessionManager.storeAnswer] on the
    contents, and leaves every object of the store as it was: the session
    it was given still has the content it had. *)
Lemma storeAnswer_refines (st : Store.store) (o : Store.SessionObject)
    (s : InterviewSession) (q text : string) :
  Store.contents st o = Some s ->
  match storeAnswer s q text with
  | Throw e => Store.storeAnswer st o q text = (st, Throw e)
  | Ok s' =>
      exists st' o',
        Store.storeAnswer st o q text = (st', Ok o') /\
        Store.contents st' o' = Some s' /\
        Store.contents st' o = Some s /\
        Store.preserved st st'
  end.
Proof.
  unfold Store.contents. intros Hc.
  destruct (nth_error (Store.answer_maps st) (Store.answers_at o)) as [a|] eqn:Ha;
    [|discriminate].
  destruct (nth_error (Store.feedback_maps st) (Store.feedback_at o)) as [f|] eqn:Hf;
    [|discriminate].
  injection Hc as <-.
  unfold storeAnswer, Store.storeAnswer. cbn [questions with_answers with_feedback].
  destruct (negb _); [reflexivity|].
  destruct (new_Map_set (Store.answer_maps st) (Store.answers_at o) a q text Ha)
    as [maps1 [l [Hnew [Hl Hold]]]].
  rewrite Hnew. do 2 eexists. split; [reflexivity|].
  cbn [Store.answer_maps Store.feedback_maps Store.answers_at Store.feedback_at
       Store.fields].
  rewrite Hl, Hf, (Hold _ _ Ha).
  split; [|split; [reflexivity|split; [exact Hold|auto]]].
  destruct (Store.fields o). reflexivity.
Qed.

Lemma storeFeedback_refines (st : Store.store) (o : Store.SessionObject)
    (s : InterviewSession) (fb : AnswerFeedback) :
  Store.contents st o = Some s ->
  exists st' o',
    Store.storeFeedback st o fb = (st', o') /\
    Store.contents st' o' = Some (storeFeedback s fb) /\
    Store.contents st' o = Some s /\
    Store.preserved st st'.
Proof.
  unfold Store.contents. intros Hc.
  destruct (nth_error (Store.answer_maps st) (Store.answers_at o)) as [a|] eqn:Ha;
    [|discriminate].
  destruct (nth_error (Store.feedback_maps st) (Store.feedback_at o)) as [f|] eqn:Hf;
    [|discriminate].
  injection Hc as <-.
  unfold storeFeedback, Store.storeFeedback.
  destruct (new_Map_set (Store.feedback_maps st) (Store.feedback_at o) f
              (questionId fb) fb Hf) as [maps1 [l [Hnew [Hl Hold]]]].
  rewrite Hnew. do 2 eexists. split; [reflexivity|].
  cbn [Store.answer_maps Store.feedback_maps Store.answers_at Store.feedback_at
       Store.fields].
  rewrite Hl, Ha, (Hold _ _ Hf).
  split; [|split; [reflexivity|split; [auto|exact Hold]]].
  destruct (Store.fields o). reflexivity.
Qed.

(** ** Strings and digits *)

Lemma append_assoc (a b c : string) : (a ++ b) ++ c = a ++ (b ++ c).
Proof. induction a as [|x a IH]; simpl; [reflexivity|now rewrite IH]. Qed.

Lemma append_nil_r (a : string) : a ++ "" = a.
Proof. induction a as [|x a IH]; simpl; [reflexivity|now rewrite IH]. Qed.

Lemma length_append (a b : string) :
  String.length (a ++ b) = (String.length a + String.length b)%nat.
Proof. induction a as [|x a IH]; simpl; [reflexivity|now rewrite IH]. Qed.

Lemma digit_char_code (d : Z) :
  0 <= d <= 9 -> nat_of_ascii (digit_char d) = (48 + Z.to_nat d)%nat.
Proof. intros H. unfold digit_char. apply nat_ascii_embedding. lia. Qed.

Lemma digit_val_char (d : Z) : 0 <= d <= 9 -> digit_val (digit_char d) = d.
Proof. intros H. unfold digit_val. rewrite digit_char_code by assumption. lia. Qed.

Lemma is_digit_char (d : Z) : 0 <= d <= 9 -> is_digit (digit_char d) = true.
Proof.
  intros H. unfold is_digit. rewrite digit_char_code by assumption.
  apply andb_true_iff. split; apply Nat.leb_le; lia.
Qed.

Lemma is_digit_val (c : ascii) : is_digit c = true -> 0 <= digit_val c <= 9.
Proof.
  unfold is_digit, digit_val. intros H. apply andb_true_iff in H as [H1 H2].
  apply Nat.leb_le in H1, H2. lia.
Qed.

Lemma mod10_range (x : Z) : 0 <= x mod 10 <= 9.
Proof. pose proof (Z.mod_pos_bound x 10). lia. Qed.

Lemma digits_value_app (a b : string) (acc : Z) :
  digits_value acc (a ++ b) = digits_value (digits_value acc a) b.
Proof. revert acc. induction a as [|x a IH]; simpl; intros; [reflexivity|apply IH]. Qed.

Lemma all_digits_app (a b : string) :
  all_digits (a ++ b) = all_digits a && all_digits b.
Proof.
  induction a as [|x a IH]; simpl; [reflexivity|].
  now rewrite IH, andb_assoc.
Qed.

Lemma pad_digits_length (n : nat) (x : Z) : String.length (pad_digits n x) = n.
Proof.
  revert x. induction n as [|n IH]; intros x; simpl; [reflexivity|].
  rewrite length_append, IH. simpl. lia.
Qed.

Lemma pad_digits_all (n : nat) (x : Z) : all_digits (pad_digits n x) = true.
Proof.
  revert x. induction n as [|n IH]; intros x; simpl; [reflexivity|].
  rewrite all_digits_app, IH. cbn [all_digits andb].
  rewrite is_digit_char by apply mod10_range. reflexivity.
Qed.

Lemma pow10_pos (n : Z) : 0 <= n -> 0 < 10 ^ n.
Proof. intros. apply Z.pow_pos_nonneg; lia. Qed.

Lemma pow10_S (n : nat) : 10 ^ Z.of_nat (S n) = 10 * 10 ^ Z.of_nat n.
Proof. rewrite Nat2Z.inj_succ. apply Z.pow_succ_r. lia. Qed.

Lemma digits_value_pad (n : nat) (x acc : Z) :
  digits_value acc (pad_digits n x) = acc * 10 ^ Z.of_nat n + x mod 10 ^ Z.of_nat n.
Proof.
  revert x acc. induction n as [|n IH]; intros x acc.
  - simpl. rewrite Z.mod_1_r. lia.
  - cbn [pad_digits]. rewrite digits_value_app, IH. cbn [digits_value].
    rewrite digit_val_char by apply mod10_range.
    rewrite pow10_S.
    rewrite (Z.rem_mul_r x 10 (10 ^ Z.of_nat n)) by (try apply pow10_pos; lia).
    lia.
Qed.

Lemma zeros_all (n : nat) : all_digits (zeros n) = true.
Proof. induction n; simpl; auto. Qed.

Lemma zeros_length (n : nat) : String.length (zeros n) = n.
Proof. induction n; simpl; auto. Qed.

Lemma digits_value_zeros (n : nat) (acc : Z) :
  digits_value acc (zeros n) = acc * 10 ^ Z.of_nat n.
Proof.
  revert acc. induction n as [|n IH]; intros acc.
  - simpl. lia.
  - cbn [zeros digits_value]. rewrite IH, pow10_S.
    change (digit_val "0") with 0. lia.
Qed.

(** The most significant digit comes first. *)
Lemma pad_digits_head (n : nat) (x : Z) :
  pad_digits (S n) x
  = String (digit_char ((x / 10 ^ Z.of_nat n) mod 10)) (pad_digits n x).
Proof.
  revert x. induction n as [|n IH]; intros x.
  - simpl. now rewrite Z.div_1_r.
  - change (pad_digits (S (S n)) x)
      with (pad_digits (S n) (x / 10) ++ String (digit_char (x mod 10)) "").
    rewrite IH. cbn [pad_digits append]. do 2 f_equal.
    rewrite pow10_S, Z.div_div by (try apply pow10_pos; lia). reflexivity.
Qed.

(** *** The number of digits *)

Lemma ndigits_fuel_spec (fuel : nat) (x : Z) :
  1 <= x < 10 ^ Z.of_nat (S fuel) ->
  10 ^ Z.of_nat (ndigits_fuel fuel x - 1) <= x < 10 ^ Z.of_nat (ndigits_fuel fuel x).
Proof.
  revert x. induction fuel as [|fuel IH]; intros x Hx.
  - simpl in *. lia.
  - cbn [ndigits_fuel]. destruct (x <? 10) eqn:Hlt.
    + apply Z.ltb_lt in Hlt. simpl. lia.
    + apply Z.ltb_ge in Hlt.
      assert (Hq : 1 <= x / 10 < 10 ^ Z.of_nat (S fuel)).
      { rewrite (pow10_S (S fuel)) in Hx. split.
        - apply Z.div_le_lower_bound; lia.
        - apply Z.div_lt_upper_bound; lia. }
      specialize (IH _ Hq).
      assert (Hpos : (1 <= ndigits_fuel fuel (x / 10))%nat).
      { destruct fuel; simpl; [lia|]. destruct (_ <? _); lia. }
      replace (S (ndigits_fuel fuel (x / 10)) - 1)%nat
        with (S (ndigits_fuel fuel (x / 10) - 1)) by lia.
      rewrite !pow10_S.
      pose proof (Z.div_mod x 10 ltac:(lia)).
      pose proof (mod10_range x). lia.
Qed.

Lemma pow2_le_pow10 (n : Z) : 0 <= n -> 2 ^ n <= 10 ^ n.
Proof. intros. apply Z.pow_le_mono_l. lia. Qed.

Lemma ndigits_spec (x : Z) :
  1 <= x ->
  10 ^ Z.of_nat (ndigits x - 1) <= x < 10 ^ Z.of_nat (ndigits x).
Proof.
  intros Hx. unfold ndigits. apply ndigits_fuel_spec. split; [assumption|].
  pose proof (Z.log2_spec x ltac:(lia)) as [_ Hlog].
  pose proof (Z.log2_nonneg x).
  rewrite Nat2Z.inj_succ, Z2Nat.id by assumption.
  pose proof (pow2_le_pow10 (Z.succ (Z.log2 x)) ltac:(lia)). lia.
Qed.

Lemma ndigits_pos (x : Z) : (1 <= ndigits x)%nat.
Proof.
  unfold ndigits. destruct (Z.to_nat (Z.log2 x)); simpl; [lia|].
  destruct (_ <? _); lia.
Qed.

Lemma Z_digits_value (x : Z) : 0 <= x -> digits_value 0 (Z_digits x) = x.
Proof.
  intros Hx. unfold Z_digits. rewrite digits_value_pad.
  destruct (Z.eq_dec x 0) as [->|Hne].
  - rewrite Z.mod_0_l; [lia|]. pose proof (pow10_pos (Z.of_nat (ndigits 0))). lia.
  - pose proof (ndigits_spec x ltac:(lia)). rewrite Z.mod_small; lia.
Qed.

Lemma Z_digits_all (x : Z) : all_digits (Z_digits x) = true.
Proof. apply pad_digits_all. Qed.

Lemma Z_digits_length (x : Z) : String.length (Z_digits x) = ndigits x.
Proof. apply pad_digits_length. Qed.

(** The digits of a positive integer start with a digit that is not 0. *)
Lemma Z_digits_head (x : Z) :
  1 <= x ->
  exists d rest,
    Z_digits x = String (digit_char d) rest /\ 1 <= d <= 9 /\
    all_digits rest = true.
Proof.
  intros Hx. unfold Z_digits.
  pose proof (ndigits_spec x Hx) as Hn. pose proof (ndigits_pos x) as Hp.
  destruct (ndigits x) as [|k]; [lia|].
  replace (S k - 1)%nat with k in Hn by lia.
  rewrite pad_digits_head.
  exists ((x / 10 ^ Z.of_nat k) mod 10), (pad_digits k x).
  split; [reflexivity|]. split; [|apply pad_digits_all].
  pose proof (pow10_pos (Z.of_nat k) ltac:(lia)).
  rewrite pow10_S in Hn.
  assert (1 <= x / 10 ^ Z.of_nat k < 10).
  { split; [apply Z.div_le_lower_bound|apply Z.div_lt_upper_bound]; lia. }
  rewrite Z.mod_small; lia.
Qed.

(** ** Numbers: [parse_number] inverts [Number_toString] *)

Lemma span_digits_app (d rest : string) :
  all_digits d = true -> no_digit_ahead rest = true ->
  span_digits (d ++ rest) = (d, rest).
Proof.
  intros Hd Hr. induction d as [|c d IH]; simpl in *.
  - destruct rest as [|c r]; [reflexivity|]. simpl in *.
    destruct (is_digit c); [discriminate|reflexivity].
  - apply andb_true_iff in Hd as [Hc Hd]. rewrite Hc, (IH Hd). reflexivity.
Qed.

Lemma parse_int_part_digits (h : Z) (d rest : string) :
  1 <= h <= 9 -> all_digits d = true -> no_digit_ahead rest = true ->
  parse_int_part (String (digit_char h) d ++ rest)
  = Some (String (digit_char h) d, rest).
Proof.
  intros Hh Hd Hr. cbn [append]. unfold parse_int_part.
  rewrite digit_char_code by lia.
  replace (_ =? 48)%nat with false by (symmetry; apply Nat.eqb_neq; lia).
  rewrite is_digit_char by lia. f_equal.
  change (String (digit_char h) (d ++ rest)) with (String (digit_char h) d ++ rest).
  apply span_digits_app; [|assumption].
  cbn [all_digits]. rewrite is_digit_char by lia. assumption.
Qed.

Lemma parse_int_part_Z (x : Z) (rest : string) :
  1 <= x -> no_digit_ahead rest = true ->
  parse_int_part (Z_digits x ++ rest) = Some (Z_digits x, rest).
Proof.
  intros Hx Hr. destruct (Z_digits_head x Hx) as [h [d [-> [Hh Hd]]]].
  now apply parse_int_part_digits.
Qed.

Lemma delimited_cases (c : ascii) (r : string) :
  delimited (String c r) = true -> c = ","%char \/ c = "]"%char \/ c = "}"%char.
Proof.
  simpl. intros H. rewrite <- (ascii_nat_embedding c).
  apply orb_true_iff in H as [H|H]; [apply orb_true_iff in H as [H|H]|];
    apply Nat.eqb_eq in H; rewrite H; auto.
Qed.

Lemma delimited_no_digit (rest : string) :
  delimited rest = true -> no_digit_ahead rest = true.
Proof.
  destruct rest as [|c r]; [reflexivity|]. intros H.
  apply delimited_cases in H as [->|[->| ->]]; reflexivity.
Qed.

Lemma parse_frac_part_none (rest : string) :
  delimited rest = true -> parse_frac_part rest = POk "" rest.
Proof.
  destruct rest as [|c r]; [reflexivity|]. intros H.
  apply delimited_cases in H as [->|[->| ->]]; reflexivity.
Qed.

Lemma parse_exp_part_none (rest : string) :
  delimited rest = true -> parse_exp_part rest = POk 0 rest.
Proof.
  destruct rest as [|c r]; [reflexivity|]. intros H.
  apply delimited_cases in H as [->|[->| ->]]; reflexivity.
Qed.

Lemma parse_frac_part_digits (c : ascii) (d tail : string) :
  all_digits (String c d) = true -> no_digit_ahead tail = true ->
  parse_frac_part ("." ++ String c d ++ tail) = POk (String c d) tail.
Proof.
  intros Hd Ht. cbn [append]. unfold parse_frac_part.
  change (String c (d ++ tail)) with (String c d ++ tail).
  now rewrite span_digits_app.
Qed.

Lemma parse_frac_part_pad (j : nat) (x : Z) (tail : string) :
  (1 <= j)%nat -> no_digit_ahead tail = true ->
  parse_frac_part ("." ++ pad_digits j x ++ tail) = POk (pad_digits j x) tail.
Proof.
  intros Hj Ht. pose proof (pad_digits_all j x) as Ha.
  destruct j as [|j]; [lia|]. rewrite pad_digits_head in *.
  now apply parse_frac_part_digits.
Qed.

Lemma parse_exp_digits_Z (sign a : Z) (rest : string) :
  0 <= a -> no_digit_ahead rest = true ->
  parse_exp_digits sign (Z_digits a ++ rest) = POk (sign * a) rest.
Proof.
  intros Ha Hr. unfold parse_exp_digits.
  rewrite span_digits_app by (try apply Z_digits_all; assumption).
  rewrite Z_digits_value by assumption.
  unfold Z_digits. pose proof (ndigits_pos a).
  destruct (ndigits a) as [|k]; [lia|]. now rewrite pad_digits_head.
Qed.

(** The exponent part [Number_toString] writes. *)
Lemma parse_exp_part_written (x : Z) (rest : string) :
  no_digit_ahead rest = true ->
  parse_exp_part ("e" ++ (if x <? 0 then "-" else "+") ++ Z_digits (Z.abs x) ++ rest)
  = POk x rest.
Proof.
  intros Hr. cbn [append]. unfold parse_exp_part.
  change ((nat_of_ascii "e" =? 101) || (nat_of_ascii "e" =? 69))%nat with true.
  cbv iota. destruct (x <? 0) eqn:Hx; cbn [append].
  - rewrite parse_exp_digits_Z by (try assumption; lia).
    apply Z.ltb_lt in Hx. f_equal. lia.
  - rewrite parse_exp_digits_Z by (try assumption; lia).
    apply Z.ltb_ge in Hx. f_equal. lia.
Qed.

Lemma strip10_scaled (j fuel : nat) (s e : Z) :
  s mod 10 <> 0 -> (j < fuel)%nat ->
  strip10 fuel (s * 10 ^ Z.of_nat j) e = mkNumber s (e + Z.of_nat j).
Proof.
  intros Hs. revert fuel e. induction j as [|j IH]; intros fuel e Hf.
  - destruct fuel as [|fuel]; [lia|]. cbn [strip10].
    change (10 ^ Z.of_nat 0) with 1. rewrite Z.mul_1_r.
    apply Z.eqb_neq in Hs. rewrite Hs. f_equal. lia.
  - destruct fuel as [|fuel]; [lia|]. cbn [strip10].
    rewrite pow10_S.
    replace (s * (10 * 10 ^ Z.of_nat j)) with (s * 10 ^ Z.of_nat j * 10) by lia.
    rewrite Z.mod_mul, Z.div_mul by lia. cbn [Z.eqb].
    rewrite IH by lia. f_equal. lia.
Qed.

Lemma normalize_scaled (j : nat) (s e : Z) :
  s mod 10 <> 0 ->
  normalize (s * 10 ^ Z.of_nat j) e = mkNumber s (e + Z.of_nat j).
Proof.
  intros Hs. unfold normalize.
  assert (Hs0 : s <> 0) by (intros ->; now apply Hs).
  pose proof (pow10_pos (Z.of_nat j) ltac:(lia)) as Hp.
  replace (_ =? 0) with false by (symmetry; apply Z.eqb_neq; nia).
  apply strip10_scaled; [assumption|].
  assert (Hlog : Z.of_nat j <= Z.log2 (Z.abs (s * 10 ^ Z.of_nat j))).
  { apply Z.log2_le_pow2; [nia|].
    pose proof (pow2_le_pow10 (Z.of_nat j) ltac:(lia)).
    rewrite Z.abs_mul, (Z.abs_eq (10 ^ _)) by lia. nia. }
  lia.
Qed.

Lemma normalize_canonical (m e : Z) :
  m mod 10 <> 0 -> normalize m e = mkNumber m e.
Proof.
  intros Hm. pose proof (normalize_scaled 0 m e Hm) as H.
  change (10 ^ Z.of_nat 0) with 1 in H. rewrite Z.mul_1_r in H.
  rewrite H. f_equal. simpl. lia.
Qed.

Lemma parse_unsigned_parts (text i f s1 s2 rest : string) (x : Z) :
  parse_int_part text = Some (i, s1) ->
  parse_frac_part s1 = POk f s2 ->
  parse_exp_part s2 = POk x rest ->
  parse_unsigned text
  = POk (digits_value 0 (i ++ f), x - Z.of_nat (String.length f)) rest.
Proof. intros Hi Hf Hx. unfold parse_unsigned. now rewrite Hi, Hf, Hx. Qed.

Lemma digits_value_Z_digits (x acc : Z) :
  0 <= x ->
  digits_value acc (Z_digits x) = acc * 10 ^ Z.of_nat (ndigits x) + x.
Proof.
  intros Hx. unfold Z_digits. rewrite digits_value_pad. f_equal.
  destruct (Z.eq_dec x 0) as [->|Hne].
  - apply Z.mod_0_l. pose proof (pow10_pos (Z.of_nat (ndigits 0))). lia.
  - pose proof (ndigits_spec x ltac:(lia)). apply Z.mod_small. lia.
Qed.

(** The digits before and after a decimal point put after the first
    [k - j] of [k] digits. *)
Lemma split_digits (s : Z) (j : nat) :
  1 <= s -> (j < ndigits s)%nat ->
  1 <= s / 10 ^ Z.of_nat j /\
  digits_value 0 (Z_digits (s / 10 ^ Z.of_nat j) ++ pad_digits j s) = s.
Proof.
  intros Hs Hj. pose proof (ndigits_spec s Hs) as [Hlo _].
  pose proof (pow10_pos (Z.of_nat j) ltac:(lia)) as Hp.
  assert (Hle : 10 ^ Z.of_nat j <= s).
  { apply Z.le_trans with (2 := Hlo). apply Z.pow_le_mono_r; lia. }
  assert (Hq : 1 <= s / 10 ^ Z.of_nat j) by (apply Z.div_le_lower_bound; lia).
  split; [assumption|].
  rewrite digits_value_app, Z_digits_value by lia.
  rewrite digits_value_pad.
  pose proof (Z.div_mod s (10 ^ Z.of_nat j) ltac:(lia)). lia.
Qed.

Lemma parse_unsigned_written (s e : Z) (rest : string) :
  1 <= s -> delimited rest = true ->
  exists j : nat,
    parse_unsigned (digits_toString s e ++ rest)
    = POk (s * 10 ^ Z.of_nat j, e - Z.of_nat j) rest.
Proof.
  intros Hs Hrest.
  pose proof (delimited_no_digit rest Hrest) as Hnd.
  pose proof (ndigits_pos s) as Hk.
  unfold digits_toString.
  set (k := Z.of_nat (ndigits s)). set (n := e + k).
  destruct ((k <=? n) && (n <=? 21)) eqn:F1.
  { (* digits and zeros *)
    apply andb_true_iff in F1 as [F1 _]. apply Z.leb_le in F1.
    exists (Z.to_nat (n - k)).
    destruct (Z_digits_head s Hs) as [h [d [Hd [Hh Hall]]]].
    erewrite parse_unsigned_parts; cycle 1.
    - rewrite Hd. cbn [append].
      change (String (digit_char h) ((d ++ zeros (Z.to_nat (n - k))) ++ rest))
        with (String (digit_char h) (d ++ zeros (Z.to_nat (n - k))) ++ rest).
      rewrite parse_int_part_digits; auto.
      rewrite all_digits_app, Hall, zeros_all. reflexivity.
    - now apply parse_frac_part_none.
    - now apply parse_exp_part_none.
    - rewrite append_nil_r.
      change (String (digit_char h) (d ++ zeros (Z.to_nat (n - k))))
        with (String (digit_char h) d ++ zeros (Z.to_nat (n - k))).
      rewrite <- Hd, digits_value_app, Z_digits_value, digits_value_zeros by lia.
      cbn [String.length]. do 2 f_equal. lia. }
  destruct ((0 <? n) && (n <=? 21)) eqn:F2.
  { (* digits, point, digits *)
    apply andb_true_iff in F2 as [F2 F2']. apply Z.ltb_lt in F2.
    rewrite F2', andb_true_r in F1. apply Z.leb_gt in F1.
    exists 0%nat.
    destruct (split_digits s (Z.to_nat (k - n)) Hs ltac:(lia)) as [Hhi Hval].
    rewrite Z2Nat.id in Hhi, Hval by lia.
    rewrite !append_assoc.
    erewrite parse_unsigned_parts; cycle 1.
    - apply parse_int_part_Z; [assumption|reflexivity].
    - apply parse_frac_part_pad; [lia|assumption].
    - now apply parse_exp_part_none.
    - rewrite Hval, pad_digits_length. f_equal. f_equal; lia. }
  destruct ((-6 <? n) && (n <=? 0)) eqn:F3.
  { (* 0, point, zeros, digits *)
    apply andb_true_iff in F3 as [_ F3]. apply Z.leb_le in F3.
    exists 0%nat.
    destruct (Z_digits_head s Hs) as [h [d [Hd [Hh Hall]]]].
    assert (Hz : exists c z, zeros (Z.to_nat (- n)) ++ Z_digits s = String c z).
    { destruct (Z.to_nat (- n)); rewrite Hd; cbn [zeros append]; eauto. }
    destruct Hz as [c [z Hz]].
    assert (Hall' : all_digits (String c z) = true).
    { rewrite <- Hz, all_digits_app, zeros_all, Z_digits_all. reflexivity. }
    change ("0." ++ zeros (Z.to_nat (- n)) ++ Z_digits s)
      with (String "0" ("." ++ zeros (Z.to_nat (- n)) ++ Z_digits s)).
    rewrite Hz. cbn [append].
    change (String "." (String c (z ++ rest))) with ("." ++ String c z ++ rest).
    erewrite parse_unsigned_parts; cycle 1.
    - reflexivity.
    - now apply parse_frac_part_digits.
    - now apply parse_exp_part_none.
    - rewrite <- Hz.
      change ("0" ++ zeros (Z.to_nat (- n)) ++ Z_digits s)
        with (String "0" (zeros (Z.to_nat (- n)) ++ Z_digits s)).
      cbn [digits_value]. rewrite digits_value_app, digits_value_zeros.
      rewrite digits_value_Z_digits by lia.
      rewrite length_append, zeros_length, Z_digits_length.
      change (digit_val "0") with 0. f_equal. f_equal; lia. }
  (* exponent notation *)
  exists 0%nat.
  destruct (k =? 1) eqn:K1.
  - apply Z.eqb_eq in K1. rewrite !append_assoc.
    erewrite parse_unsigned_parts; cycle 1.
    + apply parse_int_part_Z; [assumption|reflexivity].
    + reflexivity.
    + now apply parse_exp_part_written.
    + rewrite append_nil_r, Z_digits_value by lia. cbn [String.length].
      f_equal. f_equal; lia.
  - apply Z.eqb_neq in K1.
    destruct (split_digits s (Z.to_nat (k - 1)) Hs ltac:(lia)) as [Hhi Hval].
    rewrite Z2Nat.id in Hhi, Hval by lia.
    rewrite !append_assoc.
    erewrite parse_unsigned_parts; cycle 1.
    + apply parse_int_part_Z; [assumption|reflexivity].
    + apply parse_frac_part_pad; [lia|reflexivity].
    + now apply parse_exp_part_written.
    + rewrite Hval, pad_digits_length. f_equal. f_equal; lia.
Qed.

Lemma digits_toString_head (s e : Z) :
  1 <= s ->
  exists c r, digits_toString s e = String c r /\ is_digit c = true.
Proof.
  intros Hs. unfold digits_toString.
  assert (Hd : forall x tail, 1 <= x ->
            exists c r, Z_digits x ++ tail = String c r /\ is_digit c = true).
  { intros x tail Hx. destruct (Z_digits_head x Hx) as [h [d [-> [Hh _]]]].
    cbn [append]. do 2 eexists. split; [reflexivity|]. apply is_digit_char. lia. }
  pose proof (ndigits_pos s) as Hk.
  set (k := Z.of_nat (ndigits s)). set (n := e + k).
  destruct ((k <=? n) && (n <=? 21)) eqn:F1; [now apply Hd|].
  destruct ((0 <? n) && (n <=? 21)) eqn:F2.
  { apply andb_true_iff in F2 as [F2 F2']. apply Z.ltb_lt in F2.
    rewrite F2', andb_true_r in F1. apply Z.leb_gt in F1.
    apply Hd.
    destruct (split_digits s (Z.to_nat (k - n)) Hs ltac:(lia)) as [Hhi _].
    now rewrite Z2Nat.id in Hhi by lia. }
  destruct ((-6 <? n) && (n <=? 0)) eqn:F3.
  { cbn [append]. do 2 eexists. split; reflexivity. }
  destruct (k =? 1) eqn:K1; [now apply Hd|].
  apply Z.eqb_neq in K1. apply Hd.
  destruct (split_digits s (Z.to_nat (k - 1)) Hs ltac:(lia)) as [Hhi _].
  now rewrite Z2Nat.id in Hhi by lia.
Qed.

Lemma parse_number_unsigned (c : ascii) (r : string) :
  is_digit c = true ->
  parse_number (String c r)
  = match parse_unsigned (String c r) with
    | POk (m, e) r' => POk (normalize m e) r'
    | PErr r' => PErr r'
    end.
Proof.
  destruct c as [[] [] [] [] [] [] [] []]; intros H; try discriminate H; reflexivity.
Qed.

Lemma canonical_nonzero (x : number) :
  canonical x = true -> mant x <> 0 -> mant x mod 10 <> 0.
Proof.
  unfold canonical. intros H Hm. apply Z.eqb_neq in Hm. rewrite Hm in H.
  apply negb_true_iff, Z.eqb_neq in H. assumption.
Qed.

(** [parse_number] reads what [Number_toString] wrote. *)
Lemma parse_number_written (x : number) (rest : string) :
  canonical x = true -> delimited rest = true ->
  parse_number (Number_toString x ++ rest) = POk x rest.
Proof.
  intros Hc Hrest. destruct x as [m e]. unfold Number_toString. cbn [mant expo].
  destruct (m =? 0) eqn:Hm0.
  - apply Z.eqb_eq in Hm0. subst m. unfold canonical in Hc. simpl in Hc.
    apply Z.eqb_eq in Hc. subst e.
    cbn [append]. rewrite parse_number_unsigned by reflexivity.
    erewrite parse_unsigned_parts;
      [|reflexivity|now apply parse_frac_part_none|now apply parse_exp_part_none].
    reflexivity.
  - apply Z.eqb_neq in Hm0.
    pose proof (canonical_nonzero _ Hc Hm0) as Hm10. cbn [mant] in Hm10.
    destruct (parse_unsigned_written (Z.abs m) e rest ltac:(lia) Hrest) as [j Hj].
    destruct (m <? 0) eqn:Hneg.
    + apply Z.ltb_lt in Hneg. rewrite append_assoc. cbn [append parse_number].
      rewrite Hj.
      replace (- (Z.abs m * 10 ^ Z.of_nat j)) with (m * 10 ^ Z.of_nat j) by lia.
      rewrite normalize_scaled by assumption. f_equal. f_equal. lia.
    + apply Z.ltb_ge in Hneg. cbn [append].
      destruct (digits_toString_head (Z.abs m) e ltac:(lia)) as [c [r [Hcr Hdig]]].
      rewrite Hcr in *. cbn [append] in *.
      rewrite parse_number_unsigned by assumption. rewrite Hj.
      replace (Z.abs m) with m by lia.
      rewrite normalize_scaled by assumption. f_equal. f_equal. lia.
Qed.

Lemma Number_toString_head (x : number) :
  exists c r,
    Number_toString x = String c r /\ (is_digit c = true \/ c = "-"%char).
Proof.
  unfold Number_toString. destruct (mant x =? 0) eqn:Hm0; [now eauto|].
  apply Z.eqb_neq in Hm0.
  destruct (mant x <? 0); cbn [append]; [now eauto|].
  destruct (digits_toString_head (Z.abs (mant x)) (expo x) ltac:(lia))
    as [c [r [-> Hd]]]. eauto.
Qed.

(** ** Strings: [parse_string_body] inverts [escape_string] *)

Lemma parse_escape_char (c : ascii) (tail : string) :
  parse_string_body (escape_char c ++ tail)
  = match parse_string_body tail with
    | POk t r => POk (String c t) r
    | PErr r => PErr r
    end.
Proof.
  destruct c as [[] [] [] [] [] [] [] []]; reflexivity.
Qed.

Lemma parse_string_written (s rest : string) :
  parse_string_body (escape_string s ++ String dquote rest) = POk s rest.
Proof.
  induction s as [|c s IH]; [reflexivity|].
  cbn [escape_string]. rewrite append_assoc, parse_escape_char, IH. reflexivity.
Qed.

Lemma parse_quoted (s rest : string) :
  exists body,
    QuoteJSONString s ++ rest = String dquote body /\
    parse_string_body body = POk s rest.
Proof.
  unfold QuoteJSONString. cbn [append]. eexists. split; [reflexivity|].
  rewrite append_assoc. apply parse_string_written.
Qed.

(** ** JSON: [JSON_parse] inverts [JSON_stringify] *)

(** Induction on JSON values, with the hypothesis for every element of an
    array and every property value of an object. *)
Lemma JSValue_induction (P : JSValue -> Prop) :
  P JNull ->
  (forall b, P (JBool b)) ->
  (forall n, P (JNumber n)) ->
  (forall s, P (JString s)) ->
  (forall elems, Forall P elems -> P (JArray elems)) ->
  (forall props, Forall (fun kv => P (snd kv)) props -> P (JObject props)) ->
  forall v, P v.
Proof.
  intros Hnull Hbool Hnum Hstr Harr Hobj.
  fix IH 1. intros [| b | n | s | elems | props].
  - exact Hnull.
  - apply Hbool.
  - apply Hnum.
  - apply Hstr.
  - apply Harr. induction elems as [|x elems IHl]; constructor; [apply IH|exact IHl].
  - apply Hobj. induction props as [|[k x] props IHl]; constructor;
      [apply IH|exact IHl].
Qed.

Lemma value_start_not_ws (c : ascii) (r : string) :
  value_start c = true -> skip_ws (String c r) = String c r.
Proof.
  destruct c as [[] [] [] [] [] [] [] []]; intros H; try discriminate H; reflexivity.
Qed.

Lemma parse_value_number (f : nat) (c : ascii) (r : string) :
  is_digit c = true \/ c = "-"%char ->
  parse_value (S f) (String c r)
  = match parse_number (String c r) with
    | POk n r' => POk (JNumber n) r'
    | PErr r' => PErr r'
    end.
Proof.
  intros [H| ->]; [|reflexivity].
  destruct c as [[] [] [] [] [] [] [] []]; try discriminate H; reflexivity.
Qed.

Lemma parse_value_array (f : nat) (c : ascii) (r : string) :
  value_start c = true ->
  parse_value (S f) (String "[" (String c r))
  = match parse_elements f (String c r) with
    | POk vs r' => POk (JArray vs) r'
    | PErr r' => PErr r'
    end.
Proof.
  destruct c as [[] [] [] [] [] [] [] []]; intros H; try discriminate H; reflexivity.
Qed.

Lemma JSON_stringify_head (v : JSValue) :
  exists c r, JSON_stringify v = String c r /\ value_start c = true.
Proof.
  destruct v as [| [|] | n | s | elems | props]; try (do 2 eexists; split; reflexivity).
  destruct (Number_toString_head n) as [c [r [Hn Hc]]].
  exists c, r. split; [exact Hn|].
  unfold value_start. destruct Hc as [-> | ->]; reflexivity.
Qed.

Lemma parse_elements_eq (f : nat) (s : string) :
  parse_elements (S f) s
  = match parse_value f s with
    | PErr r => PErr r
    | POk v r =>
        match skip_ws r with
        | String "," r' =>
            match parse_elements f r' with
            | POk vs r'' => POk (v :: vs) r''
            | PErr e => PErr e
            end
        | String "]" r' => POk [v] r'
        | other => PErr other
        end
    end.
Proof. reflexivity. Qed.

Lemma parse_members_eq (f : nat) (body k r2 : string) :
  parse_string_body body = POk k (String ":" r2) ->
  parse_members (S f) (String dquote body)
  = match parse_value f r2 with
    | PErr e => PErr e
    | POk v r3 =>
        match skip_ws r3 with
        | String "," r4 =>
            match parse_members f r4 with
            | POk ms r5 => POk ((k, v) :: ms) r5
            | PErr e => PErr e
            end
        | String "}" r4 => POk [(k, v)] r4
        | other => PErr other
        end
    end.
Proof.
  intros H.
  change (parse_members (S f) (String dquote body))
    with (match parse_string_body body with
          | PErr e => PErr e
          | POk k r1 =>
              match skip_ws r1 with
              | String ":" r2 =>
                  match parse_value f r2 with
                  | PErr e => PErr e
                  | POk v r3 =>
                      match skip_ws r3 with
                      | String "," r4 =>
                          match parse_members f r4 with
                          | POk ms r5 => POk ((k, v) :: ms) r5
                          | PErr e => PErr e
                          end
                      | String "}" r4 => POk [(k, v)] r4
                      | other => PErr other
                      end
                  end
              | other => PErr other
              end
          end).
  rewrite H. reflexivity.
Qed.

Lemma parse_value_object (f : nat) (body : string) :
  parse_value (S f) (String "{" (String dquote body))
  = match parse_members f (String dquote body) with
    | POk ms r => POk (object_of_members ms) r
    | PErr r => PErr r
    end.
Proof. reflexivity. Qed.

Lemma parse_value_string (f : nat) (body : string) :
  parse_value (S f) (String dquote body)
  = match parse_string_body body with
    | POk str r => POk (JString str) r
    | PErr r => PErr r
    end.
Proof. reflexivity. Qed.

Lemma cons_app (c : ascii) (s : string) : String c "" ++ s = String c s.
Proof. reflexivity. Qed.

Lemma skip_ws_comma (r : string) : skip_ws (String "," r) = String "," r.
Proof. reflexivity. Qed.

Lemma parse_elements_written (l : list JSValue) :
  l <> [] -> Forall reads_back l -> forallb json_wf l = true ->
  forall fuel rest,
    (list_sum (map (fun x => S (json_size x)) l) <= fuel)%nat ->
    parse_elements fuel (concat "," (map JSON_stringify l) ++ String "]" rest)
    = POk l rest.
Proof.
  intros Hne Hall. induction Hall as [|x l Hx Hall IH]; [contradiction|].
  intros Hwf fuel rest Hfuel. cbn [map list_sum] in Hfuel.
  cbn [forallb] in Hwf. apply andb_true_iff in Hwf as [Hwx Hwl].
  destruct fuel as [|f]; [simpl in Hfuel; lia|].
  rewrite parse_elements_eq.
  destruct l as [|y l].
  - cbn [map concat]. rewrite Hx by (simpl in *; try reflexivity; auto; lia).
    reflexivity.
  - change (concat "," (map JSON_stringify (x :: y :: l)))
      with (JSON_stringify x ++ "," ++ concat "," (map JSON_stringify (y :: l))).
    rewrite !append_assoc, cons_app.
    rewrite Hx by (simpl in *; try reflexivity; auto; lia).
    rewrite skip_ws_comma. cbv beta iota.
    rewrite IH; [reflexivity|discriminate|assumption|simpl in *; lia].
Qed.

Lemma parse_members_written (l : list (string * JSValue)) :
  l <> [] -> Forall (fun kv => reads_back (snd kv)) l ->
  forallb (fun kv => json_wf (snd kv)) l = true ->
  forall fuel rest,
    (list_sum (map (fun kv => S (json_size (snd kv))) l) <= fuel)%nat ->
    parse_members fuel
      (concat "," (map (stringify_member JSON_stringify) l) ++ String "}" rest)
    = POk l rest.
Proof.
  intros Hne Hall. induction Hall as [|[k x] l Hx Hall IH]; [contradiction|].
  intros Hwf fuel rest Hfuel. cbn [map list_sum snd] in Hfuel.
  cbn [forallb snd] in Hwf. apply andb_true_iff in Hwf as [Hwx Hwl].
  cbn [snd] in Hx.
  destruct fuel as [|f]; [simpl in Hfuel; lia|].
  destruct l as [|y l].
  - cbn [map concat]. unfold stringify_member. cbn [fst snd].
    rewrite !append_assoc, cons_app.
    destruct (parse_quoted k (String ":" (JSON_stringify x ++ String "}" rest)))
      as [body [-> Hbody]].
    rewrite (parse_members_eq _ _ _ _ Hbody).
    rewrite Hx by (simpl in *; try reflexivity; auto; lia).
    reflexivity.
  - change (concat "," (map (stringify_member JSON_stringify) ((k, x) :: y :: l)))
      with (stringify_member JSON_stringify (k, x) ++ "," ++
            concat "," (map (stringify_member JSON_stringify) (y :: l))).
    unfold stringify_member at 1. cbn [fst snd].
    rewrite !append_assoc, !cons_app.
    match goal with
    | |- parse_members _ (QuoteJSONString k ++ ?tail) = _ =>
        destruct (parse_quoted k tail) as [body [-> Hbody]]
    end.
    rewrite (parse_members_eq _ _ _ _ Hbody).
    rewrite Hx by (simpl in *; try reflexivity; auto; lia).
    rewrite skip_ws_comma. cbv beta iota.
    rewrite IH; [reflexivity|discriminate|assumption|simpl in *; lia].
Qed.

Lemma distinct_NoDup (l : list string) : distinct l = true -> NoDup l.
Proof.
  induction l as [|x l IH]; simpl; intros H; constructor;
    apply andb_true_iff in H as [Hx Hl].
  - intros Hin. apply negb_true_iff in Hx.
    assert (existsb (String.eqb x) l = true); [|congruence].
    apply existsb_exists. exists x. split; [assumption|apply String.eqb_refl].
  - auto.
Qed.

Lemma NoDup_distinct (l : list string) : NoDup l -> distinct l = true.
Proof.
  induction 1 as [|x l Hx Hl IH]; simpl; [reflexivity|].
  rewrite IH, andb_true_r. apply negb_true_iff.
  destruct (existsb _ _) eqn:He; [|reflexivity].
  apply existsb_exists in He as [y [Hy Heq]]. apply String.eqb_eq in Heq.
  subst y. contradiction.
Qed.

Lemma object_of_members_wf (props : list (string * JSValue)) :
  distinct (map fst props) = true -> object_of_members props = JObject props.
Proof.
  intros H. unfold object_of_members. f_equal.
  apply (Map_new_entries String.eqb String.eqb_eq). now apply distinct_NoDup.
Qed.

(** [parse_value] reads what [JSON_stringify] wrote. *)
Lemma parse_value_written (v : JSValue) : reads_back v.
Proof.
  induction v as [| b | n | s | elems IH | props IH] using JSValue_induction;
    intros Hwf fuel rest Hfuel Hrest;
    (destruct fuel as [|f]; [simpl in Hfuel; lia|]).
  - reflexivity.
  - destruct b; reflexivity.
  - cbn [JSON_stringify json_wf] in *.
    destruct (Number_toString_head n) as [c [r [Hn Hc]]].
    pose proof (parse_number_written n rest Hwf Hrest) as Hp.
    rewrite Hn in *. cbn [append] in *.
    rewrite parse_value_number by assumption. now rewrite Hp.
  - cbn [JSON_stringify].
    destruct (parse_quoted s rest) as [body [-> Hbody]].
    rewrite parse_value_string, Hbody. reflexivity.
  - cbn [JSON_stringify json_wf json_size] in *.
    destruct elems as [|x elems]; [reflexivity|].
    destruct (JSON_stringify_head x) as [c [r [Hx Hc]]].
    rewrite !append_assoc, !cons_app.
    assert (Hhead : exists r',
               concat "," (map JSON_stringify (x :: elems)) ++ String "]" rest
               = String c r').
    { cbn [map concat]. destruct (map JSON_stringify elems);
        rewrite Hx; cbn [append]; eauto. }
    destruct Hhead as [r' Hhead].
    pose proof (parse_elements_written (x :: elems) ltac:(discriminate) IH Hwf
                  f rest ltac:(lia)) as Hp.
    rewrite Hhead in *.
    rewrite parse_value_array by assumption. now rewrite Hp.
  - cbn [JSON_stringify json_wf json_size] in *.
    apply andb_true_iff in Hwf as [Hkeys Hwf].
    destruct props as [|[k x] props]; [reflexivity|].
    rewrite !append_assoc, !cons_app.
    assert (Hhead : exists body,
               concat "," (map (stringify_member JSON_stringify) ((k, x) :: props))
               ++ String "}" rest = String dquote body).
    { cbn [map]. destruct (map (stringify_member JSON_stringify) props);
        cbn [concat]; unfold stringify_member, QuoteJSONString;
        cbn [append fst]; eauto. }
    destruct Hhead as [body Hhead].
    pose proof (parse_members_written ((k, x) :: props) ltac:(discriminate) IH Hwf
                  f rest ltac:(lia)) as Hp.
    rewrite Hhead in *.
    rewrite parse_value_object, Hp. now rewrite object_of_members_wf.
Qed.

Lemma concat_length_bound {A} (size : A -> nat) (text : A -> string) (l : list A) :
  Forall (fun x => (size x <= String.length (text x))%nat) l ->
  (list_sum (map (fun x => S (size x)) l)
   <= S (String.length (concat "," (map text l))))%nat.
Proof.
  induction 1 as [|x l Hx Hl IH]; [simpl; lia|].
  destruct l as [|y l].
  - simpl in *. lia.
  - cbn [map list_sum fold_right concat] in *.
    rewrite !length_append. cbn [String.length] in *. lia.
Qed.

Lemma json_size_length (v : JSValue) :
  (json_size v <= String.length (JSON_stringify v))%nat.
Proof.
  induction v as [| b | n | s | elems IH | props IH] using JSValue_induction.
  - simpl. lia.
  - destruct b; simpl; lia.
  - cbn [JSON_stringify json_size].
    destruct (Number_toString_head n) as [c [r [-> _]]]. simpl. lia.
  - simpl. lia.
  - cbn [JSON_stringify json_size].
    pose proof (concat_length_bound json_size JSON_stringify elems IH).
    rewrite !length_append. cbn [String.length]. lia.
  - cbn [JSON_stringify json_size].
    assert (IH' : Forall (fun kv => (json_size (snd kv)
                     <= String.length (stringify_member JSON_stringify kv))%nat) props).
    { eapply Forall_impl; [|exact IH]. intros [k x] H. unfold stringify_member.
      rewrite !length_append. cbn [snd] in *. lia. }
    pose proof (concat_length_bound (fun kv => json_size (snd kv))
                  (stringify_member JSON_stringify) props IH').
    rewrite !length_append. cbn [String.length]. lia.
Qed.

(** [JSON.parse(JSON.stringify(v))] is [v]. *)
Lemma JSON_parse_stringify (E : Engine) (v : JSValue) :
  json_wf v = true -> JSON_parse E (JSON_stringify v) = Ok v.
Proof.
  intros Hwf. unfold JSON_parse.
  pose proof (parse_value_written v Hwf (S (2 * String.length (JSON_stringify v))) ""
                ltac:(pose proof (json_size_length v); lia) eq_refl) as H.
  rewrite append_nil_r in H. rewrite H. reflexivity.
Qed.

(** ** What [JSON_parse] returns is well formed *)

Lemma strip10_canonical (fuel : nat) (m e : Z) :
  m <> 0 -> Z.abs m < 2 ^ Z.of_nat fuel -> canonical (strip10 fuel m e) = true.
Proof.
  revert m e. induction fuel as [|f IH]; intros m e Hm Hb.
  - simpl in Hb. lia.
  - cbn [strip10]. destruct (m mod 10 =? 0) eqn:Hmod.
    + apply Z.eqb_eq in Hmod.
      pose proof (Z.div_mod m 10 ltac:(lia)) as Hdm. rewrite Hmod in Hdm.
      rewrite Nat2Z.inj_succ, Z.pow_succ_r in Hb by lia.
      apply IH; lia.
    + unfold canonical. cbn [mant expo].
      apply Z.eqb_neq in Hm. rewrite Hm, Hmod. reflexivity.
Qed.

Lemma normalize_is_canonical (m e : Z) : canonical (normalize m e) = true.
Proof.
  unfold normalize. destruct (m =? 0) eqn:Hm; [reflexivity|].
  apply Z.eqb_neq in Hm. apply strip10_canonical; [assumption|].
  pose proof (Z.log2_spec (Z.abs m) ltac:(lia)) as [_ H].
  pose proof (Z.log2_nonneg (Z.abs m)).
  now rewrite Nat2Z.inj_succ, Z2Nat.id.
Qed.

Lemma parse_number_cases (s : string) :
  parse_number s
  = match parse_unsigned s with
    | POk (m, e) r => POk (normalize m e) r
    | PErr r => PErr r
    end
  \/ exists rest,
       parse_number s
       = match parse_unsigned rest with
         | POk (m, e) r => POk (normalize (- m) e) r
         | PErr r => PErr r
         end.
Proof.
  destruct s as [|c s']; [left; reflexivity|].
  destruct c as [[] [] [] [] [] [] [] []];
    first [left; reflexivity | right; eexists; reflexivity].
Qed.

Lemma parse_number_canonical (s r : string) (n : number) :
  parse_number s = POk n r -> canonical n = true.
Proof.
  intros H. destruct (parse_number_cases s) as [Hc|[rest Hc]];
    rewrite Hc in H; clear Hc;
    match type of H with
    | match ?p with _ => _ end = _ => destruct p as [[m e] r0|]
    end; try discriminate; injection H as <- _; apply normalize_is_canonical.
Qed.

Lemma Map_set_values {V} (P : V -> Prop) k (v : V) (m : Map string V) :
  P v -> Forall (fun kv => P (snd kv)) m ->
  Forall (fun kv => P (snd kv)) (Map_set String.eqb k v m).
Proof.
  intros Hv Hm. induction Hm as [|[k0 v0] m H0 Hm IH]; simpl.
  - constructor; auto.
  - destruct (k0 =? k)%string; constructor; auto.
Qed.

Lemma Map_new_values {V} (P : V -> Prop) (l : list (string * V)) :
  Forall (fun kv => P (snd kv)) l ->
  Forall (fun kv => P (snd kv)) (Map_new String.eqb l).
Proof.
  unfold Map_new. generalize (@nil (string * V)) (Forall_nil (fun kv : string * V => P (snd kv))).
  induction l as [|[k v] l IH]; intros acc Hacc Hl; simpl; [assumption|].
  inversion Hl; subst. apply IH; [|assumption]. now apply Map_set_values.
Qed.

Lemma forallb_Forall {A} (f : A -> bool) (l : list A) :
  forallb f l = true <-> Forall (fun x => f x = true) l.
Proof. rewrite forallb_forall, Forall_forall. reflexivity. Qed.

Lemma object_of_members_is_wf (ms : list (string * JSValue)) :
  forallb (fun kv => json_wf (snd kv)) ms = true ->
  json_wf (object_of_members ms) = true.
Proof.
  intros H. unfold object_of_members. cbn [json_wf]. apply andb_true_iff. split.
  - apply NoDup_distinct. apply (Map_new_wf String.eqb String.eqb_eq).
  - apply forallb_Forall. apply (Map_new_values (fun v => json_wf v = true)).
    now apply forallb_Forall.
Qed.

Lemma parse_value_cases (f : nat) (s r : string) (v : JSValue) :
  parse_value (S f) s = POk v r ->
  v = JNull \/ (exists b, v = JBool b) \/ (exists str, v = JString str) \/
  v = JArray [] \/ v = JObject [] \/
  (exists s' vs, parse_elements f s' = POk vs r /\ v = JArray vs) \/
  (exists s' ms, parse_members f s' = POk ms r /\ v = object_of_members ms) \/
  (exists s' n, parse_number s' = POk n r /\ v = JNumber n).
Proof.
  intros H.
  change (parse_value (S f) s) with
    (match skip_ws s with
     | EmptyString => PErr ""
     | String c rest as s' =>
         match c with
         | "n"%char => parse_word "null" JNull s'
         | "t"%char => parse_word "true" (JBool true) s'
         | "f"%char => parse_word "false" (JBool false) s'
         | "034"%char =>
             match parse_string_body rest with
             | POk str r => POk (JString str) r
             | PErr r => PErr r
             end
         | "["%char =>
             match skip_ws rest with
             | String "]" r => POk (JArray []) r
             | _ =>
                 match parse_elements f rest with
                 | POk vs r => POk (JArray vs) r
                 | PErr r => PErr r
                 end
             end
         | "{"%char =>
             match skip_ws rest with
             | String "}" r => POk (JObject []) r
             | _ =>
                 match parse_members f rest with
                 | POk ms r => POk (object_of_members ms) r
                 | PErr r => PErr r
                 end
             end
         | _ =>
             match parse_number s' with
             | POk n r => POk (JNumber n) r
             | PErr r => PErr r
             end
         end
     end) in H.
  assert (Hnum : forall s',
            match parse_number s' with
            | POk n r => POk (JNumber n) r
            | PErr r => PErr r
            end = POk v r ->
            exists s' n, parse_number s' = POk n r /\ v = JNumber n).
  { intros s' H'. destruct (parse_number s') as [n r'|] eqn:Hn; [|discriminate].
    injection H' as <- <-. eauto. }
  assert (Hword : forall w a s', parse_word w a s' = POk v r -> v = a).
  { intros w a s' H'. unfold parse_word in H'.
    destruct (expect_word w s'); [|discriminate]. now injection H' as <- _. }
  assert (Harr : forall rest,
            match parse_elements f rest with
            | POk vs r => POk (JArray vs) r
            | PErr r => PErr r
            end = POk v r ->
            exists s' vs, parse_elements f s' = POk vs r /\ v = JArray vs).
  { intros rest H'. destruct (parse_elements f rest) as [vs r'|] eqn:Hn; [|discriminate].
    injection H' as <- <-. eauto. }
  assert (Hobj : forall rest,
            match parse_members f rest with
            | POk ms r => POk (object_of_members ms) r
            | PErr r => PErr r
            end = POk v r ->
            exists s' ms, parse_members f s' = POk ms r /\ v = object_of_members ms).
  { intros rest H'. destruct (parse_members f rest) as [ms r'|] eqn:Hn; [|discriminate].
    injection H' as <- <-. eauto. }
  destruct (skip_ws s) as [|c rest]; [discriminate|].
  destruct c as [[] [] [] [] [] [] [] []]; cbv beta iota in H;
    try (apply Hnum in H; tauto);
    try (apply Hword in H; subst v; eauto 10; fail).
  - (* [{] *)
    destruct (skip_ws rest) as [|c r0]; [apply Hobj in H; tauto|].
    destruct c as [[] [] [] [] [] [] [] []]; cbv beta iota in H;
      try (apply Hobj in H; tauto).
    injection H as <- _. tauto.
  - (* [[] *)
    destruct (skip_ws rest) as [|c r0]; [apply Harr in H; tauto|].
    destruct c as [[] [] [] [] [] [] [] []]; cbv beta iota in H;
      try (apply Harr in H; tauto).
    injection H as <- _. tauto.
  - (* a string *)
    destruct (parse_string_body rest); [|discriminate].
    injection H as <- _. eauto 10.
Qed.

Lemma parse_elements_cases (f : nat) (s r : string) (vs : list JSValue) :
  parse_elements (S f) s = POk vs r ->
  exists v r1,
    parse_value f s = POk v r1 /\
    (vs = [v] \/ exists s' vs', parse_elements f s' = POk vs' r /\ vs = v :: vs').
Proof.
  rewrite parse_elements_eq. intros H.
  destruct (parse_value f s) as [v r1|] eqn:Hv; [|discriminate].
  exists v, r1. split; [reflexivity|].
  destruct (skip_ws r1) as [|c r2]; [discriminate|].
  destruct c as [[] [] [] [] [] [] [] []]; cbv beta iota in H; try discriminate H.
  - left. now injection H as <- _.
  - right. destruct (parse_elements f r2) as [vs' r3|] eqn:He; [|discriminate].
    injection H as <- <-. eauto.
Qed.

Lemma parse_members_cases (f : nat) (s r : string) (ms : list (string * JSValue)) :
  parse_members (S f) s = POk ms r ->
  exists k v s1 r1,
    parse_value f s1 = POk v r1 /\
    (ms = [(k, v)] \/
     exists s' ms', parse_members f s' = POk ms' r /\ ms = (k, v) :: ms').
Proof.
  intros H.
  change (parse_members (S f) s) with
    (match skip_ws s with
     | String "034" r0 =>
         match parse_string_body r0 with
         | PErr e => PErr e
         | POk k r1 =>
             match skip_ws r1 with
             | String ":" r2 =>
                 match parse_value f r2 with
                 | PErr e => PErr e
                 | POk v r3 =>
                     match skip_ws r3 with
                     | String "," r4 =>
                         match parse_members f r4 with
                         | POk ms r5 => POk ((k, v) :: ms) r5
                         | PErr e => PErr e
                         end
                     | String "}" r4 => POk [(k, v)] r4
                     | other => PErr other
                     end
                 end
             | other => PErr other
             end
         end
     | other => PErr other
     end) in H.
  destruct (skip_ws s) as [|c r0]; [discriminate|].
  destruct c as [[] [] [] [] [] [] [] []]; cbv beta iota in H; try discriminate H.
  destruct (parse_string_body r0) as [k r1|]; [|discriminate].
  destruct (skip_ws r1) as [|c r2]; [discriminate|].
  destruct c as [[] [] [] [] [] [] [] []]; cbv beta iota in H; try discriminate H.
  destruct (parse_value f r2) as [v r3|] eqn:Hv; [|discriminate].
  exists k, v, r2, r3. split; [exact Hv|].
  destruct (skip_ws r3) as [|c r4]; [discriminate|].
  destruct c as [[] [] [] [] [] [] [] []]; cbv beta iota in H; try discriminate H.
  - left. now injection H as <- _.
  - right. destruct (parse_members f r4) as [ms' r5|] eqn:He; [|discriminate].
    injection H as <- <-. eauto.
Qed.

Lemma parse_wf_fuel (fuel : nat) :
  (forall s v r, parse_value fuel s = POk v r -> json_wf v = true) /\
  (forall s vs r, parse_elements fuel s = POk vs r -> forallb json_wf vs = true) /\
  (forall s ms r, parse_members fuel s = POk ms r ->
                  forallb (fun kv => json_wf (snd kv)) ms = true).
Proof.
  induction fuel as [|f [IHv [IHe IHm]]].
  - repeat split; intros; discriminate.
  - repeat split.
    + intros s v r H. apply parse_value_cases in H.
      destruct H as [->|[[b ->]|[[str ->]|[->|[->|[H|[H|H]]]]]]]; try reflexivity.
      * destruct H as [s' [vs [H ->]]]. cbn [json_wf]. eauto.
      * destruct H as [s' [ms [H ->]]]. apply object_of_members_is_wf. eauto.
      * destruct H as [s' [n [H ->]]]. cbn [json_wf].
        eapply parse_number_canonical; eauto.
    + intros s vs r H. apply parse_elements_cases in H.
      destruct H as [v [r1 [Hv [->|[s' [vs' [H ->]]]]]]]; cbn [forallb];
        rewrite (IHv _ _ _ Hv); [reflexivity|]. eauto.
    + intros s ms r H. apply parse_members_cases in H.
      destruct H as [k [v [s1 [r1 [Hv [->|[s' [ms' [H ->]]]]]]]]]; cbn [forallb snd];
        rewrite (IHv _ _ _ Hv); [reflexivity|]. eauto.
Qed.

(** [JSON_parse] returns well-formed values. *)
Lemma JSON_parse_wf (E : Engine) (text : string) (v : JSValue) :
  JSON_parse E text = Ok v -> json_wf v = true.
Proof.
  unfold JSON_parse. intros H.
  destruct (parse_value _ text) as [v' r|] eqn:Hp; [|discriminate].
  destruct (skip_ws r); [|discriminate]. injection H as <-.
  eapply (proj1 (parse_wf_fuel _)); eauto.
Qed.

(** ** The fuel of [JSON_parse] does not run out *)

Lemma skip_ws_length (s : string) :
  (String.length (skip_ws s) <= String.length s)%nat.
Proof.
  induction s as [|c s IH]; simpl; [lia|].
  destruct (is_ws c); simpl; lia.
Qed.

Ltac parsed IH :=
  repeat match goal with
  | H : PErr _ = POk _ _ |- _ => discriminate H
  | H : POk _ _ = POk _ _ |- _ => injection H as <- <-
  | H : match parse_string_body ?x with _ => _ end = POk _ _ |- _ =>
      let E := fresh "E" in
      destruct (parse_string_body x) eqn:E;
      [apply IH in E; [|cbn [String.length] in *; lia] | discriminate H]
  | H : match ?x with _ => _ end = POk _ _ |- _ => destruct x eqn:?
  end.

Lemma parse_string_body_consumes : consumes parse_string_body.
Proof.
  assert (H : forall n s, (String.length s <= n)%nat ->
              forall k r, parse_string_body s = POk k r ->
                          (String.length r <= String.length s)%nat).
  { induction n as [|n IH]; intros s Hn k r H.
    - destruct s; [discriminate|simpl in Hn; lia].
    - destruct s as [|c s]; [discriminate|].
      cbn [parse_string_body] in H. cbn [String.length] in *.
      destruct (nat_of_ascii c =? 34)%nat; [injection H as _ <-; lia|].
      destruct (nat_of_ascii c =? 92)%nat.
      + destruct s as [|e s]; [discriminate|].
        destruct e as [[] [] [] [] [] [] [] []]; cbv beta iota in H;
          parsed IH; subst; cbn [String.length] in *; lia.
      + destruct (nat_of_ascii c <? 32)%nat; [discriminate|].
        parsed IH. lia. }
  intros s k r. now apply (H (String.length s)).
Qed.

Lemma span_digits_length (s d r : string) :
  span_digits s = (d, r) -> (String.length r <= String.length s)%nat.
Proof.
  revert d r. induction s as [|c s IH]; simpl; intros d r H.
  - injection H as _ <-. simpl. lia.
  - destruct (is_digit c).
    + destruct (span_digits s) as [d0 r0]. injection H as _ <-.
      specialize (IH _ _ eq_refl). lia.
    + injection H as _ <-. simpl. lia.
Qed.

Lemma parse_int_part_length (s i r : string) :
  parse_int_part s = Some (i, r) -> (String.length r <= String.length s)%nat.
Proof.
  destruct s as [|c s]; [discriminate|]. unfold parse_int_part.
  destruct (nat_of_ascii c =? 48)%nat.
  - intros H. injection H as _ <-. simpl. lia.
  - destruct (is_digit c); [|discriminate].
    intros H. apply (span_digits_length (String c s) i r). congruence.
Qed.

Lemma parse_frac_part_consumes : consumes parse_frac_part.
Proof.
  intros s d r H. destruct s as [|c s]; [injection H as _ <-; lia|].
  unfold parse_frac_part in H.
  destruct c as [[] [] [] [] [] [] [] []]; cbv beta iota in H;
    try (injection H as _ <-; lia).
  destruct (span_digits s) as [d0 r0] eqn:Hs. apply span_digits_length in Hs.
  destruct d0; [discriminate|]. injection H as _ <-. simpl. lia.
Qed.

Lemma parse_exp_digits_consumes (sign : Z) : consumes (parse_exp_digits sign).
Proof.
  intros s e r H. unfold parse_exp_digits in H.
  destruct (span_digits s) as [d0 r0] eqn:Hs. apply span_digits_length in Hs.
  destruct d0; [discriminate|]. now injection H as _ <-.
Qed.

Lemma parse_exp_part_consumes : consumes parse_exp_part.
Proof.
  intros s e r H. destruct s as [|c s]; [injection H as _ <-; lia|].
  unfold parse_exp_part in H.
  destruct (_ || _); [|injection H as _ <-; lia].
  destruct s as [|c0 s].
  - apply parse_exp_digits_consumes in H. simpl in *. lia.
  - destruct c0 as [[] [] [] [] [] [] [] []]; cbv beta iota in H;
      apply parse_exp_digits_consumes in H; simpl in *; lia.
Qed.

Lemma parse_unsigned_consumes : consumes parse_unsigned.
Proof.
  intros s [m e] r H. unfold parse_unsigned in H.
  destruct (parse_int_part s) as [[i s1]|] eqn:Hi; [|discriminate].
  apply parse_int_part_length in Hi.
  destruct (parse_frac_part s1) as [f s2|] eqn:Hf; [|discriminate].
  apply parse_frac_part_consumes in Hf.
  destruct (parse_exp_part s2) as [x s3|] eqn:He; [|discriminate].
  apply parse_exp_part_consumes in He.
  injection H as _ _ <-. lia.
Qed.

Lemma parse_number_consumes : consumes parse_number.
Proof.
  intros s n r H.
  assert (Hpos : forall s0,
            match parse_unsigned s0 with
            | POk (m, e) r => POk (normalize m e) r
            | PErr r => PErr r
            end = POk n r ->
            (String.length r <= String.length s0)%nat).
  { intros s0 H0. destruct (parse_unsigned s0) as [[m e] r0|] eqn:Hu; [|discriminate].
    apply parse_unsigned_consumes in Hu. now injection H0 as _ <-. }
  destruct s as [|c s]; [now apply Hpos in H|].
  unfold parse_number in H.
  destruct c as [[] [] [] [] [] [] [] []]; cbv beta iota in H;
    try (now apply Hpos in H).
  destruct (parse_unsigned s) as [[m e] r0|] eqn:Hu; [|discriminate].
  apply parse_unsigned_consumes in Hu. injection H as _ <-. simpl. lia.
Qed.

Lemma expect_word_length (w s r : string) :
  expect_word w s = Some r -> (String.length r <= String.length s)%nat.
Proof.
  revert s. induction w as [|c w IH]; simpl; intros s H.
  - injection H as <-. lia.
  - destruct s as [|c' s]; [discriminate|].
    destruct (Ascii.eqb c c'); [|discriminate].
    apply IH in H. simpl. lia.
Qed.

Lemma parse_word_consumes {A : Type} (w : string) (a : A) :
  consumes (parse_word w a).
Proof.
  intros s x r H. unfold parse_word in H.
  destruct (expect_word w s) as [r0|] eqn:He; [|discriminate].
  apply expect_word_length in He. now injection H as _ <-.
Qed.

(** *** One level of the parser *)

Lemma parse_value_step (f : nat) (s : string) :
  parse_value (S f) s = value_step (parse_elements f) (parse_members f) s.
Proof. reflexivity. Qed.

Lemma parse_elements_step (f : nat) (s : string) :
  parse_elements (S f) s = elements_step (parse_value f) (parse_elements f) s.
Proof. reflexivity. Qed.

Lemma parse_members_step (f : nat) (s : string) :
  parse_members (S f) s = members_step (parse_value f) (parse_members f) s.
Proof. reflexivity. Qed.

Section Steps.
Variables pv pv' : string -> presult JSValue.
Variables pe pe' : string -> presult (list JSValue).
Variables pm pm' : string -> presult (list (string * JSValue)).

Lemma value_step_consumes :
  consumes pe -> consumes pm -> consumes (value_step pe pm).
Proof.
  intros He Hm s v r H. unfold value_step in H.
  pose proof (skip_ws_length s) as Hs.
  destruct (skip_ws s) as [|c rest]; [discriminate|].
  cbn [String.length] in Hs.
  assert (Hnum : match parse_number (String c rest) with
                 | POk n r => POk (JNumber n) r
                 | PErr r => PErr r
                 end = POk v r ->
                 (String.length r <= String.length s)%nat).
  { intros H0. destruct (parse_number _) as [n r0|] eqn:Hn; [|discriminate].
    apply parse_number_consumes in Hn. injection H0 as _ <-.
    cbn [String.length] in Hn. lia. }
  assert (Hword : forall w a, parse_word w a (String c rest) = POk v r ->
                  (String.length r <= String.length s)%nat).
  { intros w a H0. apply parse_word_consumes in H0.
    cbn [String.length] in H0. lia. }
  assert (Harr : match pe rest with
                 | POk vs r => POk (JArray vs) r
                 | PErr r => PErr r
                 end = POk v r ->
                 (String.length r <= String.length s)%nat).
  { intros H0. destruct (pe rest) as [vs r0|] eqn:Hn; [|discriminate].
    apply He in Hn. injection H0 as _ <-. lia. }
  assert (Hobj : match pm rest with
                 | POk ms r => POk (object_of_members ms) r
                 | PErr r => PErr r
                 end = POk v r ->
                 (String.length r <= String.length s)%nat).
  { intros H0. destruct (pm rest) as [ms r0|] eqn:Hn; [|discriminate].
    apply Hm in Hn. injection H0 as _ <-. lia. }
  pose proof (skip_ws_length rest) as Hrest.
  destruct c as [[] [] [] [] [] [] [] []]; cbv beta iota in H;
    try (now apply Hnum in H); try (now apply Hword in H).
  - destruct (skip_ws rest) as [|c r0]; [now apply Hobj|].
    cbn [String.length] in Hrest.
    destruct c as [[] [] [] [] [] [] [] []]; cbv beta iota in H;
      try (now apply Hobj in H).
    injection H as _ <-. lia.
  - destruct (skip_ws rest) as [|c r0]; [now apply Harr|].
    cbn [String.length] in Hrest.
    destruct c as [[] [] [] [] [] [] [] []]; cbv beta iota in H;
      try (now apply Harr in H).
    injection H as _ <-. lia.
  - destruct (parse_string_body rest) as [k r0|] eqn:Hk; [|discriminate].
    apply parse_string_body_consumes in Hk. injection H as _ <-. lia.
Qed.

Lemma elements_step_consumes :
  consumes pv -> consumes pe -> consumes (elements_step pv pe).
Proof.
  intros Hv He s vs r H. unfold elements_step in H.
  destruct (pv s) as [v r1|] eqn:H1; [|discriminate]. apply Hv in H1.
  pose proof (skip_ws_length r1) as Hr1.
  destruct (skip_ws r1) as [|c r2]; [discriminate|].
  cbn [String.length] in Hr1.
  destruct c as [[] [] [] [] [] [] [] []]; cbv beta iota in H; try discriminate H.
  - injection H as _ <-. lia.
  - destruct (pe r2) as [vs' r3|] eqn:H3; [|discriminate]. apply He in H3.
    injection H as _ <-. lia.
Qed.

Lemma members_step_consumes :
  consumes pv -> consumes pm -> consumes (members_step pv pm).
Proof.
  intros Hv Hm s ms r H. unfold members_step in H.
  pose proof (skip_ws_length s) as Hs.
  destruct (skip_ws s) as [|c r0]; [discriminate|].
  cbn [String.length] in Hs.
  destruct c as [[] [] [] [] [] [] [] []]; cbv beta iota in H; try discriminate H.
  destruct (parse_string_body r0) as [k r1|] eqn:H1; [|discriminate].
  apply parse_string_body_consumes in H1.
  pose proof (skip_ws_length r1) as Hr1.
  destruct (skip_ws r1) as [|c r2]; [discriminate|].
  cbn [String.length] in Hr1.
  destruct c as [[] [] [] [] [] [] [] []]; cbv beta iota in H; try discriminate H.
  destruct (pv r2) as [v r3|] eqn:H3; [|discriminate]. apply Hv in H3.
  pose proof (skip_ws_length r3) as Hr3.
  destruct (skip_ws r3) as [|c r4]; [discriminate|].
  cbn [String.length] in Hr3.
  destruct c as [[] [] [] [] [] [] [] []]; cbv beta iota in H; try discriminate H.
  - injection H as _ <-. lia.
  - destruct (pm r4) as [ms' r5|] eqn:H5; [|discriminate]. apply Hm in H5.
    injection H as _ <-. lia.
Qed.

(** A level gives the same result with other parsers of the next level
    when these agree with the first on the shorter texts. *)
Lemma value_step_ext (s : string) :
  (forall x, (String.length x < String.length s)%nat -> pe x = pe' x) ->
  (forall x, (String.length x < String.length s)%nat -> pm x = pm' x) ->
  value_step pe pm s = value_step pe' pm' s.
Proof.
  intros He Hm. unfold value_step.
  pose proof (skip_ws_length s) as Hs.
  destruct (skip_ws s) as [|c rest]; [reflexivity|].
  cbn [String.length] in Hs.
  rewrite (He rest), (Hm rest) by lia. reflexivity.
Qed.

Lemma elements_step_ext (s : string) :
  consumes pv -> pv s = pv' s ->
  (forall x, (String.length x < String.length s)%nat -> pe x = pe' x) ->
  elements_step pv pe s = elements_step pv' pe' s.
Proof.
  intros Hc Hv He. unfold elements_step. rewrite <- Hv.
  destruct (pv s) as [v r1|] eqn:H1; [|reflexivity]. apply Hc in H1.
  pose proof (skip_ws_length r1) as Hr1.
  destruct (skip_ws r1) as [|c r2]; [reflexivity|].
  cbn [String.length] in Hr1.
  rewrite (He r2) by lia. reflexivity.
Qed.

Lemma members_step_ext (s : string) :
  consumes pv ->
  (forall x, (String.length x < String.length s)%nat -> pv x = pv' x) ->
  (forall x, (String.length x < String.length s)%nat -> pm x = pm' x) ->
  members_step pv pm s = members_step pv' pm' s.
Proof.
  intros Hc Hv Hm. unfold members_step.
  pose proof (skip_ws_length s) as Hs.
  destruct (skip_ws s) as [|c r0]; [reflexivity|].
  cbn [String.length] in Hs.
  destruct (parse_string_body r0) as [k r1|] eqn:H1.
  2:{ reflexivity. }
  apply parse_string_body_consumes in H1.
  pose proof (skip_ws_length r1) as Hr1.
  destruct (skip_ws r1) as [|c1 r2]; [reflexivity|].
  cbn [String.length] in Hr1.
  rewrite <- (Hv r2) by lia.
  destruct (pv r2) as [v r3|] eqn:H3.
  2:{ reflexivity. }
  apply Hc in H3.
  pose proof (skip_ws_length r3) as Hr3.
  destruct (skip_ws r3) as [|c3 r4]; [reflexivity|].
  cbn [String.length] in Hr3.
  rewrite (Hm r4) by lia. reflexivity.
Qed.

End Steps.

Lemma parse_consumes (f : nat) :
  consumes (parse_value f) /\ consumes (parse_elements f) /\
  consumes (parse_members f).
Proof.
  induction f as [|f [IHv [IHe IHm]]].
  - repeat split; intros s a r H; discriminate H.
  - split; [|split]; intros s a r H.
    + rewrite parse_value_step in H.
      now apply (value_step_consumes _ _ IHe IHm) in H.
    + rewrite parse_elements_step in H.
      now apply (elements_step_consumes _ _ IHv IHe) in H.
    + rewrite parse_members_step in H.
      now apply (members_step_consumes _ _ IHv IHm) in H.
Qed.

(** With fuel above twice the length of the text, the parsers return what
    they return with any other such fuel: none of their calls finds the
    fuel spent. *)
Lemma parse_fuel (f : nat) :
  (forall f' s,
     (2 * String.length s + 1 <= f)%nat -> (2 * String.length s + 1 <= f')%nat ->
     parse_value f s = parse_value f' s) /\
  (forall f' s,
     (2 * String.length s + 2 <= f)%nat -> (2 * String.length s + 2 <= f')%nat ->
     parse_elements f s = parse_elements f' s) /\
  (forall f' s,
     (2 * String.length s + 2 <= f)%nat -> (2 * String.length s + 2 <= f')%nat ->
     parse_members f s = parse_members f' s).
Proof.
  induction f as [|f [IHv [IHe IHm]]].
  - repeat split; intros; lia.
  - split; [|split]; intros [|f'] s Hf Hf'; try lia.
    + rewrite !parse_value_step. apply value_step_ext; intros x Hx.
      * apply IHe; lia.
      * apply IHm; lia.
    + rewrite !parse_elements_step. apply elements_step_ext.
      * apply parse_consumes.
      * apply IHv; lia.
      * intros x Hx. apply IHe; lia.
    + rewrite !parse_members_step. apply members_step_ext.
      * apply parse_consumes.
      * intros x Hx. apply IHv; lia.
      * intros x Hx. apply IHm; lia.
Qed.

(** The fuel that [JSON_parse] gives is enough: more fuel gives the same
    value, or the same failure at the same place. *)
Lemma parse_value_fuel (fuel : nat) (text : string) :
  (S (2 * String.length text) <= fuel)%nat ->
  parse_value fuel text = parse_value (S (2 * String.length text)) text.
Proof.
  intros H. apply (proj1 (parse_fuel fuel)); lia.
Qed.

(** ** Dates: [Date_parse] inverts [Date_toISOString] *)

Lemma check_from_spec (f : Z -> bool) (n : nat) (lo : Z) :
  check_from f lo n = true -> forall x, lo <= x < lo + Z.of_nat n -> f x = true.
Proof.
  revert lo. induction n as [|k IH]; intros lo H x Hx; [lia|].
  cbn [check_from] in H. apply andb_true_iff in H as [Hk Hrest].
  destruct (Z.eq_dec x lo) as [->|Hne]; [assumption|].
  apply (IH (lo + 1)); [assumption|lia].
Qed.

(** Every day of an era, checked by computation. *)
Lemma civil_ok_era : check_from civil_ok 0 (Z.to_nat 146097) = true.
Proof. vm_compute. reflexivity. Qed.

Lemma civil_of_era_shift (era doe : Z) :
  civil_of_era era doe
  = let '(y, m, d) := civil_of_era 0 doe in (y + 400 * era, m, d).
Proof. unfold civil_of_era. cbv zeta. do 2 f_equal. lia. Qed.

Lemma InLeapYear_shift (y e : Z) : InLeapYear (y + 400 * e) = InLeapYear y.
Proof.
  unfold InLeapYear.
  replace ((y + 400 * e) mod 4) with (y mod 4)
    by (replace (400 * e) with (100 * e * 4) by lia; now rewrite Z.mod_add).
  replace ((y + 400 * e) mod 100) with (y mod 100)
    by (replace (400 * e) with (4 * e * 100) by lia; now rewrite Z.mod_add).
  replace ((y + 400 * e) mod 400) with (y mod 400)
    by (replace (400 * e) with (e * 400) by lia; now rewrite Z.mod_add).
  reflexivity.
Qed.

Lemma DaysInMonth_shift (y m e : Z) : DaysInMonth (y + 400 * e) m = DaysInMonth y m.
Proof. unfold DaysInMonth. now rewrite InLeapYear_shift. Qed.

Lemma days_from_civil_shift (y m d e : Z) :
  days_from_civil (y + 400 * e) m d = days_from_civil y m d + 146097 * e.
Proof.
  unfold days_from_civil. cbv zeta.
  set (y0 := if m <=? 2 then y - 1 else y).
  replace (if m <=? 2 then y + 400 * e - 1 else y + 400 * e) with (y0 + e * 400)
    by (unfold y0; destruct (m <=? 2); lia).
  rewrite Z.div_add, Z.mod_add by lia. lia.
Qed.

(** The calendar date of a day number is a date of the calendar, and
    [days_from_civil] gives the day number back. *)
Lemma civil_from_days_spec (days : Z) :
  let '(y, m, d) := civil_from_days days in
  days_from_civil y m d = days /\
  1 <= m <= 12 /\ 1 <= d <= DaysInMonth y m /\
  400 * ((days + 719468) / 146097) <= y
  <= 400 * ((days + 719468) / 146097) + 400.
Proof.
  unfold civil_from_days. cbv zeta.
  set (z := days + 719468).
  pose proof (Z.mod_pos_bound z 146097 ltac:(lia)) as Hdoe.
  pose proof (Z.div_mod z 146097 ltac:(lia)) as Hz.
  pose proof (check_from_spec civil_ok _ 0 civil_ok_era (z mod 146097)
                ltac:(rewrite Z2Nat.id; lia)) as Hok.
  rewrite civil_of_era_shift. unfold civil_ok in Hok.
  destruct (civil_of_era 0 (z mod 146097)) as [[y m] d].
  repeat (apply andb_true_iff in Hok as [Hok ?]).
  rewrite days_from_civil_shift, DaysInMonth_shift.
  repeat match goal with
         | H : (_ <=? _) = true |- _ => apply Z.leb_le in H
         | H : (_ =? _) = true |- _ => apply Z.eqb_eq in H
         end.
  unfold z in *. lia.
Qed.

(** *** The time within the day *)

Lemma time_within_day (tw : Z) :
  0 <= tw < msPerDay ->
  0 <= tw / 3600000 <= 23 /\
  0 <= tw / 60000 mod 60 <= 59 /\
  0 <= tw / 1000 mod 60 <= 59 /\
  0 <= tw mod 1000 <= 999 /\
  MakeTime (tw / 3600000) (tw / 60000 mod 60) (tw / 1000 mod 60) (tw mod 1000) = tw.
Proof.
  unfold msPerDay, MakeTime. intros Htw.
  pose proof (Z.div_mod tw 1000 ltac:(lia)).
  pose proof (Z.mod_pos_bound tw 1000 ltac:(lia)).
  pose proof (Z.div_mod (tw / 1000) 60 ltac:(lia)).
  pose proof (Z.mod_pos_bound (tw / 1000) 60 ltac:(lia)).
  pose proof (Z.div_mod (tw / 60000) 60 ltac:(lia)).
  pose proof (Z.mod_pos_bound (tw / 60000) 60 ltac:(lia)).
  assert (tw / 60000 = tw / 1000 / 60) by (rewrite Z.div_div; [reflexivity|lia|lia]).
  assert (tw / 3600000 = tw / 60000 / 60) by (rewrite Z.div_div; [reflexivity|lia|lia]).
  lia.
Qed.

(** *** Reading the digits back *)

Lemma take_digits_app (d rest : string) (acc : Z) :
  all_digits d = true ->
  take_digits (String.length d) acc (d ++ rest) = Some (digits_value acc d, rest).
Proof.
  revert acc. induction d as [|c d IH]; intros acc Hd; [reflexivity|].
  cbn [all_digits] in Hd. apply andb_true_iff in Hd as [Hc Hd].
  cbn [String.length append take_digits digits_value]. rewrite Hc. now apply IH.
Qed.

Lemma take_digits_pad (n : nat) (x : Z) (rest : string) :
  0 <= x < 10 ^ Z.of_nat n ->
  take_digits n 0 (pad_digits n x ++ rest) = Some (x, rest).
Proof.
  intros Hx. pose proof (take_digits_app (pad_digits n x) rest 0 (pad_digits_all n x)) as H.
  rewrite pad_digits_length, digits_value_pad in H. rewrite H.
  rewrite Z.mod_small by assumption. reflexivity.
Qed.

Lemma parse_iso_year_digit (c : ascii) (r : string) :
  is_digit c = true -> parse_iso_year (String c r) = take_digits 4 0 (String c r).
Proof.
  destruct c as [[] [] [] [] [] [] [] []]; intros H; try discriminate H; reflexivity.
Qed.

Lemma parse_iso_year_written (y : Z) (rest : string) :
  -1000000 < y < 1000000 ->
  parse_iso_year (iso_year y ++ rest) = Some (y, rest).
Proof.
  intros Hy. unfold iso_year.
  destruct ((0 <=? y) && (y <=? 9999)) eqn:Hr.
  - apply andb_true_iff in Hr as [H0 H1]. apply Z.leb_le in H0, H1.
    pose proof (take_digits_pad 4 y rest ltac:(simpl; lia)) as Ht.
    pose proof (pad_digits_all 4 y) as Hall.
    rewrite pad_digits_head in *. cbn [append] in *.
    cbn [all_digits] in Hall. apply andb_true_iff in Hall as [Hc _].
    now rewrite parse_iso_year_digit.
  - destruct (y <? 0) eqn:Hneg.
    + apply Z.ltb_lt in Hneg. cbn [append]. unfold parse_iso_year.
      rewrite take_digits_pad by (simpl; lia). cbn [obind].
      replace (Z.abs y =? 0) with false by (symmetry; apply Z.eqb_neq; lia).
      f_equal. f_equal. lia.
    + apply Z.ltb_ge in Hneg. cbn [append]. unfold parse_iso_year.
      rewrite take_digits_pad by (simpl; lia). f_equal. f_equal. lia.
Qed.

Lemma expect_char (c : ascii) (rest : string) :
  expect_word (String c "") (String c "" ++ rest) = Some rest.
Proof. cbn [append expect_word]. now rewrite Ascii.eqb_refl. Qed.

Lemma DaysInMonth_bound (y m : Z) : 28 <= DaysInMonth y m <= 31.
Proof.
  unfold DaysInMonth.
  destruct (m =? 2); [destruct (InLeapYear y); lia|].
  destruct (_ || _); lia.
Qed.

Lemma parse_iso_written (y mo d h mi se ms : Z) :
  -1000000 < y < 1000000 ->
  1 <= mo <= 12 -> 1 <= d <= DaysInMonth y mo ->
  0 <= h <= 23 -> 0 <= mi <= 59 -> 0 <= se <= 59 -> 0 <= ms <= 999 ->
  parse_iso
    (iso_year y ++ "-" ++ pad_digits 2 mo ++ "-" ++ pad_digits 2 d ++
     "T" ++ pad_digits 2 h ++ ":" ++ pad_digits 2 mi ++ ":" ++ pad_digits 2 se ++
     "." ++ pad_digits 3 ms ++ "Z")
  = Some (MakeDate (days_from_civil y mo d) (MakeTime h mi se ms)).
Proof.
  intros Hy Hmo Hd Hh Hmi Hse Hms.
  pose proof (DaysInMonth_bound y mo) as Hdim.
  unfold parse_iso.
  rewrite parse_iso_year_written by assumption. cbn [obind].
  repeat (rewrite expect_char; cbn [obind];
          rewrite take_digits_pad by (simpl; lia); cbn [obind]).
  repeat match goal with
         | |- context [?a <=? ?b] =>
             replace (a <=? b) with true by (symmetry; apply Z.leb_le; lia)
         | |- context [?a <? ?b] =>
             replace (a <? b) with true by (symmetry; apply Z.ltb_lt; lia)
         end.
  reflexivity.
Qed.

(** [new Date(d.toISOString())] is [d], for every valid date [d]. *)
Lemma Date_parse_toISOString (E : Engine) (t : Z) :
  - maxTime <= t <= maxTime ->
  exists iso,
    Date_toISOString (TimeValue t) = Ok iso /\ Date_parse E iso = TimeValue t.
Proof.
  intros Ht. unfold Date_toISOString.
  pose proof (civil_from_days_spec (Day t)) as Hc.
  destruct (civil_from_days (Day t)) as [[y m] d].
  destruct Hc as [Hdays [Hm [Hd Hy]]].
  eexists. split; [reflexivity|].
  unfold Day, TimeWithinDay, maxTime, msPerDay in *.
  pose proof (Z.div_mod t 86400000 ltac:(lia)) as Hdm.
  pose proof (Z.mod_pos_bound t 86400000 ltac:(lia)) as Htw.
  pose proof (Z.div_mod (t / 86400000 + 719468) 146097 ltac:(lia)) as Hera.
  pose proof (Z.mod_pos_bound (t / 86400000 + 719468) 146097 ltac:(lia)) as Hdoe.
  destruct (time_within_day (t mod 86400000) Htw) as [Hh [Hmi [Hse [Hms Hmt]]]].
  unfold Date_parse.
  rewrite parse_iso_written by (try assumption; lia).
  rewrite Hdays, Hmt. unfold MakeDate, msPerDay, TimeClip, maxTime.
  replace (t / 86400000 * 86400000 + t mod 86400000) with t by lia.
  destruct (_ && _) eqn:Hclip; [reflexivity|].
  apply andb_false_iff in Hclip as [Hclip|Hclip]; apply Z.leb_gt in Hclip; lia.
Qed.

(** ** The codec *)

Section SerializableSessionProperties.
Variable E : Engine.
Variables a b c d e f g h i j : JSValue.
Let o := Some (SerializableSession a b c d e f g h i j).

Lemma serializable_properties :
  get_property E o "id" = Ok (Some a) /\
  get_property E o "parsedJD" = Ok (Some b) /\
  get_property E o "questions" = Ok (Some c) /\
  get_property E o "answers" = Ok (Some d) /\
  get_property E o "feedback" = Ok (Some e) /\
  get_property E o "sessionFeedback" = Ok (Some f) /\
  get_property E o "currentQuestionIndex" = Ok (Some g) /\
  get_property E o "isComplete" = Ok (Some h) /\
  get_property E o "createdAt" = Ok (Some i) /\
  get_property E o "completedAt" = Ok (Some j).
Proof. repeat split. Qed.
End SerializableSessionProperties.

Lemma map_result_ok {A B} (f : A -> result B) (g : A -> B) (l : list A) :
  Forall (fun x => f x = Ok (g x)) l -> map_result f l = Ok (map g l).
Proof.
  induction 1 as [|x l Hx Hl IH]; [reflexivity|].
  cbn [map_result map]. rewrite Hx, IH. reflexivity.
Qed.

Lemma map_result_map {A B C} (f : B -> result C) (g : A -> B) (l : list A) :
  map_result f (map g l) = map_result (fun x => f (g x)) l.
Proof.
  induction l as [|x l IH]; [reflexivity|].
  cbn [map_result map]. now rewrite IH.
Qed.

Lemma map_option_some {A B} (f : A -> option B) (g : A -> B) (l : list A) :
  Forall (fun x => f x = Some (g x)) l -> map_option f l = Some (map g l).
Proof.
  induction 1 as [|x l Hx Hl IH]; [reflexivity|].
  cbn [map_option map]. rewrite Hx, IH. reflexivity.
Qed.

Lemma map_option_map {A B C} (f : B -> option C) (g : A -> B) (l : list A) :
  map_option f (map g l) = map_option (fun x => f (g x)) l.
Proof.
  induction l as [|x l IH]; [reflexivity|].
  cbn [map_option map]. now rewrite IH.
Qed.

Lemma Forall_all {A} (P : A -> Prop) (l : list A) : (forall x, P x) -> Forall P l.
Proof. intros H. induction l; constructor; auto. Qed.

(** *** Maps of parsed data whose keys are strings *)

Section StringKeys.
Context {V W : Type}.
Variable inj : V -> W.
Let lift (kv : string * V) : jsval * W := (Some (JString (fst kv)), inj (snd kv)).

Lemma Map_set_lift (k : string) (v : V) (m : Map string V) :
  Map_set same_value_zero (Some (JString k)) (inj v) (map lift m)
  = map lift (Map_set String.eqb k v m).
Proof.
  induction m as [|[k0 v0] m IH]; [reflexivity|].
  cbn [map Map_set lift fst snd same_value_zero].
  destruct (k0 =? k)%string; cbn [map lift fst snd]; [reflexivity|].
  now rewrite <- IH.
Qed.

Lemma Map_new_lift_from (l acc : Map string V) :
  fold_left (fun m kv => Map_set same_value_zero (fst kv) (snd kv) m)
    (map lift l) (map lift acc)
  = map lift (fold_left (fun m kv => Map_set String.eqb (fst kv) (snd kv) m) l acc).
Proof.
  revert acc. induction l as [|[k v] l IH]; intros acc; [reflexivity|].
  cbn [map fold_left].
  change (lift (k, v)) with (Some (JString k), inj v). cbn [fst snd].
  rewrite Map_set_lift. apply IH.
Qed.

(** [new Map] of the entries of a map is the map. *)
Lemma Map_new_lift (m : Map string V) :
  Map_wf m -> Map_new same_value_zero (map lift m) = map lift m.
Proof.
  intros Hwf. unfold Map_new.
  change (@nil (jsval * W)) with (map lift []).
  rewrite Map_new_lift_from.
  change (fold_left _ m []) with (Map_new String.eqb (Map_entries m)).
  now rewrite (Map_new_entries String.eqb String.eqb_eq).
Qed.
End StringKeys.

(** *** The objects of typed values are well formed and read back *)

Lemma js_strings_wf (l : list string) : json_wf (js_strings l) = true.
Proof. unfold js_strings. cbn [json_wf]. induction l; simpl; auto. Qed.

Lemma as_strings_js (l : list string) : as_strings (Some (js_strings l)) = Some l.
Proof.
  unfold as_strings, js_strings. rewrite map_option_map.
  rewrite (map_option_some _ (fun x => x)); [now rewrite map_id|].
  now apply Forall_all.
Qed.

Lemma js_ParsedJobDescription_wf (jd : ParsedJobDescription) :
  json_wf (js_ParsedJobDescription jd) = true.
Proof.
  unfold js_ParsedJobDescription. cbn [json_wf map fst snd forallb].
  rewrite !js_strings_wf. reflexivity.
Qed.

Lemma as_ParsedJobDescription_js (jd : ParsedJobDescription) :
  as_ParsedJobDescription (Some (js_ParsedJobDescription jd)) = Some jd.
Proof.
  destruct jd as [r sk l te re raw].
  unfold as_ParsedJobDescription, js_ParsedJobDescription.
  cbn [obind field Map_get String.eqb Ascii.eqb Bool.eqb roleType skills
         experienceLevel technologies responsibilities rawDescription].
  rewrite !as_strings_js. destruct r, l; reflexivity.
Qed.

Lemma js_InterviewQuestion_wf (q : InterviewQuestion) :
  json_wf (js_InterviewQuestion q) = true.
Proof.
  unfold js_InterviewQuestion. cbn [json_wf map fst snd forallb].
  rewrite !js_strings_wf. reflexivity.
Qed.

Lemma as_InterviewQuestion_js (q : InterviewQuestion) :
  as_InterviewQuestion (Some (js_InterviewQuestion q)) = Some q.
Proof.
  destruct q as [i t qu l sk].
  unfold as_InterviewQuestion, js_InterviewQuestion.
  cbn [obind field Map_get String.eqb Ascii.eqb Bool.eqb q_id q_type question
         difficulty relatedSkills].
  rewrite !as_strings_js. destruct t, l; reflexivity.
Qed.

Lemma js_SessionFeedback_wf (f : SessionFeedback) :
  SessionFeedback_wf f -> json_wf (js_SessionFeedback f) = true.
Proof.
  intros [H1 [H2 [H3 H4]]].
  unfold js_SessionFeedback, js_PerformanceSummary.
  cbn [json_wf map fst snd forallb].
  rewrite !js_strings_wf, H1, H2, H3, H4. reflexivity.
Qed.

Lemma as_SessionFeedback_js (f : SessionFeedback) :
  as_SessionFeedback (Some (js_SessionFeedback f)) = Some f.
Proof.
  destruct f as [o [pb pt ps] sa ia re].
  unfold as_SessionFeedback, js_SessionFeedback, as_PerformanceSummary,
    js_PerformanceSummary.
  cbn [obind field Map_get String.eqb Ascii.eqb Bool.eqb overallScore
         performanceSummary strongestAreas improvementAreas recommendations
         ps_behavioral ps_technical ps_systemDesign as_number].
  rewrite !as_strings_js. reflexivity.
Qed.

Lemma Z_of_number_of_Z (z : Z) : Z_of_number (number_of_Z z) = Some z.
Proof.
  unfold number_of_Z, Z_of_number.
  destruct (Z.eq_dec z 0) as [->|Hz]; [reflexivity|].
  assert (Hshape : forall fuel m x,
            0 <= x -> m <> 0 ->
            0 <= expo (strip10 fuel m x) /\
            mant (strip10 fuel m x) * 10 ^ expo (strip10 fuel m x) = m * 10 ^ x).
  { induction fuel as [|fuel IH]; intros m x Hx Hm; cbn [strip10].
    - cbn [mant expo]. auto.
    - destruct (m mod 10 =? 0) eqn:Hmod; [|cbn [mant expo]; auto].
      apply Z.eqb_eq in Hmod.
      pose proof (Z.div_mod m 10 ltac:(lia)) as Hdm. rewrite Hmod in Hdm.
      destruct (IH (m / 10) (x + 1) ltac:(lia) ltac:(lia)) as [H1 H2].
      split; [assumption|]. rewrite H2, Z.pow_add_r by lia.
      change (10 ^ 1) with 10. lia. }
  unfold normalize. replace (z =? 0) with false by (symmetry; now apply Z.eqb_neq).
  destruct (Hshape (S (Z.to_nat (Z.log2 (Z.abs z)))) z 0 ltac:(lia) Hz) as [H1 H2].
  replace (0 <=? _) with true by (symmetry; now apply Z.leb_le).
  rewrite H2. f_equal. simpl. lia.
Qed.

(** *** Timestamps *)

Lemma valid_date_iso (E : Engine) (d : Date) :
  valid_date d ->
  Date_toISOString d = Ok (iso_of d) /\
  Date_parse E (iso_of d) = d /\
  iso_of d <> "".
Proof.
  intros [t [-> Ht]]. destruct (Date_parse_toISOString E t Ht) as [iso [Hiso Hparse]].
  unfold iso_of. rewrite Hiso. repeat split; [assumption|].
  intros ->. unfold Date_toISOString in Hiso.
  destruct (civil_from_days (Day t)) as [[y m] dd].
  injection Hiso as Hiso. apply (f_equal String.length) in Hiso.
  rewrite !length_append in Hiso. simpl in Hiso. lia.
Qed.

(** *** The entries of the feedback *)

Lemma feedback_entry_written (entry : string * AnswerFeedback) :
  valid_date (timestamp (snd entry)) ->
  serializable_feedback_entry entry = Ok (feedback_json entry).
Proof.
  intros Hd. destruct entry as [k fb].
  unfold serializable_feedback_entry, feedback_json. cbn [fst snd] in *.
  destruct (valid_date_iso (mkEngine (fun _ => InvalidDate) (fun _ => "") (fun _ _ => ""))
              _ Hd) as [-> _].
  reflexivity.
Qed.

Lemma feedback_entry_read (E : Engine) (entry : string * AnswerFeedback) :
  valid_date (timestamp (snd entry)) ->
  deserialize_feedback_entry E (feedback_json entry)
  = Ok (Some (JString (fst entry)), raw_of_AnswerFeedback (snd entry)).
Proof.
  intros Hd. destruct entry as [k fb].
  destruct (valid_date_iso E _ Hd) as [_ [Hp _]].
  unfold deserialize_feedback_entry, feedback_json. cbn [fst snd] in *.
  cbn [destructure_pair nth_error bind get_property Map_get String.eqb Ascii.eqb
         Bool.eqb Date_construct converts new_Date].
  rewrite Hp. reflexivity.
Qed.

Lemma feedback_json_wf (entry : string * AnswerFeedback) :
  canonical (score (snd entry)) = true -> json_wf (feedback_json entry) = true.
Proof.
  intros Hc. unfold feedback_json. cbn [json_wf forallb map fst snd].
  rewrite Hc, !js_strings_wf. reflexivity.
Qed.

Lemma forallb_map_true {A} (f : A -> JSValue) (l : list A) :
  Forall (fun x => json_wf (f x) = true) l -> forallb json_wf (map f l) = true.
Proof. induction 1 as [|x l Hx Hl IH]; simpl; [reflexivity|]. now rewrite Hx, IH. Qed.

(** *** The session *)

Lemma serializable_session_written (s : InterviewSession) :
  timestamps_valid s -> serializable_session s = Ok (session_json s).
Proof.
  intros [Hc [Hd Hf]]. unfold serializable_session, Map_entries.
  pose (E0 := mkEngine (fun _ => InvalidDate) (fun _ => "") (fun _ _ => "")).
  rewrite (map_result_ok _ feedback_json).
  2:{ eapply Forall_impl; [|exact Hf]. intros e He. now apply feedback_entry_written. }
  cbn [bind]. destruct (valid_date_iso E0 _ Hc) as [-> _]. cbn [bind].
  unfold session_json. destruct (completedAt s) as [d|].
  - destruct (valid_date_iso E0 d (Hd d eq_refl)) as [-> _]. reflexivity.
  - reflexivity.
Qed.

Lemma session_json_cursor_wf (s : InterviewSession) (cursor0 : JSValue) :
  session_wf s -> json_wf cursor0 = true ->
  json_wf (session_json_cursor s cursor0) = true.
Proof.
  intros [_ [_ [Hscore Hsf]]] Hcur.
  unfold session_json_cursor, SerializableSession.
  cbn [json_wf map fst snd forallb distinct existsb String.eqb Ascii.eqb Bool.eqb
         negb andb orb].
  rewrite js_ParsedJobDescription_wf.
  rewrite (forallb_map_true js_InterviewQuestion)
    by (apply Forall_all, js_InterviewQuestion_wf).
  rewrite (forallb_map_true serializable_answer_entry)
    by (now apply Forall_all).
  rewrite (forallb_map_true feedback_json)
    by (eapply Forall_impl; [|exact Hscore]; intros e He; now apply feedback_json_wf).
  rewrite Hcur.
  destruct (sessionFeedback s) as [f|];
    [rewrite (js_SessionFeedback_wf f (Hsf f eq_refl))|];
    destruct (completedAt s); reflexivity.
Qed.

Lemma NumericCodec_serializable_written (s : InterviewSession)
    (c : Numeric.Number) :
  timestamps_valid s ->
  NumericCodec.serializable_session (Numeric.mkSession s c)
  = Ok (session_json_cursor s (NumericCodec.written c)).
Proof.
  intros [Hc [Hd Hf]].
  unfold NumericCodec.serializable_session, Map_entries. cbn [Numeric.fields].
  pose (E0 := mkEngine (fun _ => InvalidDate) (fun _ => "") (fun _ _ => "")).
  rewrite (map_result_ok _ feedback_json).
  2:{ eapply Forall_impl; [|exact Hf]. intros e He. now apply feedback_entry_written. }
  cbn [bind]. destruct (valid_date_iso E0 _ Hc) as [-> _]. cbn [bind].
  unfold session_json_cursor. destruct (completedAt s) as [d|].
  - destruct (valid_date_iso E0 d (Hd d eq_refl)) as [-> _]. reflexivity.
  - reflexivity.
Qed.

Lemma session_json_wf (s : InterviewSession) :
  session_wf s -> json_wf (session_json s) = true.
Proof.
  intros [_ [_ [Hscore Hsf]]].
  unfold session_json, SerializableSession.
  cbn [json_wf map fst snd forallb distinct existsb String.eqb Ascii.eqb Bool.eqb
         negb andb orb].
  rewrite js_ParsedJobDescription_wf.
  rewrite (forallb_map_true js_InterviewQuestion)
    by (apply Forall_all, js_InterviewQuestion_wf).
  rewrite (forallb_map_true serializable_answer_entry)
    by (now apply Forall_all).
  rewrite (forallb_map_true feedback_json)
    by (eapply Forall_impl; [|exact Hscore]; intros e He; now apply feedback_json_wf).
  unfold number_of_Z. rewrite normalize_is_canonical.
  destruct (sessionFeedback s) as [f|];
    [rewrite (js_SessionFeedback_wf f (Hsf f eq_refl))|];
    destruct (completedAt s); reflexivity.
Qed.

Lemma valid_date_not_NaN (d : Date) : valid_date d -> isNaN_getTime d = false.
Proof. intros [t [-> _]]. reflexivity. Qed.

(** [deserializeSession] reads the object of a session back; a cursor
    that was written as [null] is read as 0. *)
Lemma deserialize_data_session_json (E : Engine) (s : InterviewSession)
    (cursor0 : JSValue) :
  id s <> "" -> timestamps_valid s -> session_wf s ->
  deserialize_data E (session_json_cursor s cursor0)
  = Ok (raw_of_session_cursor s
          (js_nullish (Some cursor0) (Some (JNumber (mkNumber 0 0))))).
Proof.
  intros Hid [Hc [Hd Hf]] [Hwa [Hwf [Hscore Hsf]]].
  unfold deserialize_data.
  unfold deserialize_answers, deserialize_feedback, session_json_cursor.
  match goal with
  | |- context [Some (SerializableSession ?a ?b ?c ?d ?e ?f ?g ?h ?i ?j)] =>
      destruct (serializable_properties E a b c d e f g h i j)
        as [P1 [P2 [P3 [P4 [P5 [P6 [P7 [P8 [P9 P10]]]]]]]]]
  end.
  rewrite P1, P2, P3, P4, P5, P6, P7, P8, P9, P10. cbn [bind].
  cbn [truthy isArray]. apply String.eqb_neq in Hid. rewrite Hid.
  cbn [negb js_or truthy Map_of_iterable].
  (* the answers *)
  rewrite map_result_map.
  rewrite (map_result_ok _ (fun e => (Some (JString (fst e)), Some (JString (snd e)))))
    by (now apply Forall_all).
  cbn [bind]. rewrite (Map_new_lift (fun v => Some (JString v))) by assumption.
  (* the feedback *)
  rewrite map_result_map.
  rewrite (map_result_ok _
             (fun e => (Some (JString (fst e)), raw_of_AnswerFeedback (snd e))))
    by (eapply Forall_impl; [|exact Hf]; intros e He; now apply feedback_entry_read).
  cbn [bind]. rewrite (Map_new_lift raw_of_AnswerFeedback) by assumption.
  (* the timestamps *)
  cbn [Date_construct converts new_Date bind].
  destruct (valid_date_iso E _ Hc) as [_ [-> _]].
  unfold raw_of_session_cursor, raw_of_session.
  cbn [raw_id raw_parsedJD raw_questions raw_answers raw_feedback
         raw_sessionFeedback raw_isComplete raw_createdAt raw_completedAt].
  destruct (completedAt s) as [d|].
  - destruct (valid_date_iso E d (Hd d eq_refl)) as [_ [Hp Hne]].
    cbn [truthy Date_construct converts new_Date bind].
    apply String.eqb_neq in Hne. rewrite Hne, Hp.
    cbn [negb andb bind]. rewrite (valid_date_not_NaN _ Hc).
    rewrite (valid_date_not_NaN _ (Hd d eq_refl)).
    reflexivity.
  - cbn [truthy bind]. rewrite (valid_date_not_NaN _ Hc). reflexivity.
Qed.

Lemma deserialize_try_session_json (E : Engine) (s : InterviewSession) (text : string) :
  id s <> "" -> timestamps_valid s -> session_wf s ->
  JSON_parse E text = Ok (session_json s) ->
  deserialize_try E text = Ok (raw_of_session s).
Proof.
  intros Hid Hts Hwf Hparse.
  unfold deserialize_try. rewrite Hparse. cbn [bind].
  change (session_json s)
    with (session_json_cursor s (JNumber (number_of_Z (currentQuestionIndex s)))).
  now rewrite deserialize_data_session_json.
Qed.

Lemma as_AnswerFeedback_raw (f : AnswerFeedback) :
  as_AnswerFeedback (raw_of_AnswerFeedback f) = Some f.
Proof.
  destruct f as [q sc st im ts].
  unfold as_AnswerFeedback, raw_of_AnswerFeedback.
  cbn [raw_questionId raw_score raw_strengths raw_improvements raw_timestamp
         questionId score strengths improvements timestamp as_string as_number obind].
  rewrite !as_strings_js. reflexivity.
Qed.

(** The typed reading of the run-time value of a session is the session. *)
Lemma as_InterviewSession_raw (s : InterviewSession) :
  as_InterviewSession (raw_of_session s) = Some s.
Proof.
  unfold as_InterviewSession, raw_of_session.
  cbn [raw_id raw_parsedJD raw_questions raw_answers raw_feedback
         raw_sessionFeedback raw_currentQuestionIndex raw_isComplete
         raw_createdAt raw_completedAt as_string as_number as_boolean obind].
  rewrite as_ParsedJobDescription_js. cbn [obind].
  rewrite map_option_map, (map_option_some _ (fun q => q))
    by (apply Forall_all, as_InterviewQuestion_js).
  rewrite map_id. cbn [obind].
  rewrite map_option_map, (map_option_some _ (fun e => e))
    by (apply Forall_all; now intros [k v]).
  rewrite map_id. cbn [obind].
  rewrite map_option_map, (map_option_some _ (fun e => e)).
  2:{ apply Forall_all. intros [k v]. unfold as_feedback_entry. cbn [fst snd as_string obind].
      now rewrite as_AnswerFeedback_raw. }
  rewrite map_id. cbn [obind].
  rewrite Z_of_number_of_Z. cbn [obind].
  destruct s as [i jd qs an fb [sf|] ci ic ca co];
    cbn [id parsedJD questions answers feedback sessionFeedback
           currentQuestionIndex isComplete createdAt completedAt].
  - pose proof (as_SessionFeedback_js sf) as H.
    unfold js_SessionFeedback in *. cbv beta iota. rewrite H. reflexivity.
  - reflexivity.
Qed.

(** *** The checks of [deserializeSession] *)

Lemma get_property_field (E : Engine) (data : JSValue) (name : string) :
  data <> JNull -> get_property E (Some data) name = Ok (field data name).
Proof. destruct data; intros H; try reflexivity. contradiction. Qed.

Lemma JSON_parse_throws (E : Engine) (text : string) (e : Exn) :
  JSON_parse E text = Throw e -> exn_class e = SyntaxError.
Proof.
  unfold JSON_parse, throw_new. intros H.
  destruct (parse_value _ text) as [v r|r].
  - destruct (skip_ws r); [discriminate|]. now injection H as <-.
  - now injection H as <-.
Qed.

Lemma isArray_truthy (v : jsval) : isArray v = true -> truthy v = true.
Proof. destruct v as [[]|]; simpl; congruence. Qed.

(** [new Date(v)] returns the date [new_Date] gives, or throws. *)
Lemma Date_construct_cases (E : Engine) (v : jsval) :
  Date_construct E v = Ok (new_Date E v) \/
  (Date_construct E v
   = Throw (mkExn TypeError (type_error_message E NoPrimitiveValue)) /\
   new_Date E v = InvalidDate /\
   exists x, v = Some x /\ converts x = false).
Proof.
  destruct v as [x|]; [|left; reflexivity].
  unfold Date_construct. destruct (converts x) eqn:Hx; [left; reflexivity|].
  right. split; [reflexivity|]. split; [|eauto].
  destruct x; try discriminate; cbn [new_Date]; now rewrite Hx.
Qed.

Lemma Date_construct_valid (E : Engine) (v : jsval) :
  isNaN_getTime (new_Date E v) = false -> Date_construct E v = Ok (new_Date E v).
Proof.
  intros H. destruct (Date_construct_cases E v) as [Hc|[_ [Hc _]]]; [exact Hc|].
  rewrite Hc in H. discriminate.
Qed.

Lemma Date_construct_Ok (E : Engine) (v : jsval) (d : Date) :
  Date_construct E v = Ok d -> d = new_Date E v.
Proof.
  intros H. destruct (Date_construct_cases E v) as [Hc|[Hc _]];
    rewrite Hc in H; [now injection H|discriminate].
Qed.

(** The run of the [try] block once the value is there, the required
    properties are there and the two maps are built. *)
Lemma deserialize_data_maps (E : Engine) (data : JSValue)
    (a : Map jsval jsval) (f : Map jsval RawAnswerFeedback) :
  data <> JNull ->
  truthy (field data "id") = true ->
  truthy (field data "parsedJD") = true ->
  isArray (field data "questions") = true ->
  deserialize_answers E (Some data) = Ok a ->
  deserialize_feedback E (Some data) = Ok f ->
  deserialize_data E data
  = let* createdAt1 := Date_construct E (field data "createdAt") in
    let* completedAt1 :=
      if truthy (field data "completedAt") then
        let* d := Date_construct E (field data "completedAt") in Ok (Some d)
      else Ok None in
    if isNaN_getTime createdAt1 then
      throw_new Error "Invalid session data: createdAt is not a valid date"
    else if truthy (field data "completedAt") &&
            match completedAt1 with
            | Some d => isNaN_getTime d
            | None => false
            end then
      throw_new Error "Invalid session data: completedAt is not a valid date"
    else
      Ok {| raw_id := field data "id";
            raw_parsedJD := field data "parsedJD";
            raw_questions := field data "questions";
            raw_answers := a;
            raw_feedback := f;
            raw_sessionFeedback := field data "sessionFeedback";
            raw_currentQuestionIndex :=
              js_nullish (field data "currentQuestionIndex")
                (Some (JNumber (mkNumber 0 0)));
            raw_isComplete :=
              js_nullish (field data "isComplete") (Some (JBool false));
            raw_createdAt := createdAt1;
            raw_completedAt := completedAt1 |}.
Proof.
  intros Hnull Hid Hjd Hq Ha Hf.
  unfold deserialize_data.
  rewrite !get_property_field by assumption. cbn [bind].
  rewrite Hid, Hjd, (isArray_truthy _ Hq), Hq, Ha, Hf. cbn [negb bind].
  destruct (Date_construct E (field data "createdAt")) as [c|e]; [|reflexivity].
  cbn [bind].
  destruct (truthy (field data "completedAt")); [|reflexivity].
  destruct (Date_construct E (field data "completedAt")) as [d|e]; reflexivity.
Qed.

(** The same when the two dates are valid or [completedAt] is not
    read. *)
Lemma deserialize_try_dates (E : Engine) (json : string) (data : JSValue)
    (a : Map jsval jsval) (f : Map jsval RawAnswerFeedback) :
  JSON_parse E json = Ok data -> data <> JNull ->
  truthy (field data "id") = true ->
  truthy (field data "parsedJD") = true ->
  isArray (field data "questions") = true ->
  deserialize_answers E (Some data) = Ok a ->
  deserialize_feedback E (Some data) = Ok f ->
  isNaN_getTime (new_Date E (field data "createdAt")) = false ->
  truthy (field data "completedAt") = false \/
  isNaN_getTime (new_Date E (field data "completedAt")) = false ->
  deserialize_try E json
  = Ok {| raw_id := field data "id";
          raw_parsedJD := field data "parsedJD";
          raw_questions := field data "questions";
          raw_answers := a;
          raw_feedback := f;
          raw_sessionFeedback := field data "sessionFeedback";
          raw_currentQuestionIndex :=
            js_nullish (field data "currentQuestionIndex")
              (Some (JNumber (mkNumber 0 0)));
          raw_isComplete :=
            js_nullish (field data "isComplete") (Some (JBool false));
          raw_createdAt := new_Date E (field data "createdAt");
          raw_completedAt :=
            if truthy (field data "completedAt")
            then Some (new_Date E (field data "completedAt")) else None |}.
Proof.
  intros Hparse Hnull Hid Hjd Hq Ha Hf Hc Hd.
  unfold deserialize_try. rewrite Hparse. cbn [bind].
  rewrite (deserialize_data_maps E data a f) by assumption.
  rewrite (Date_construct_valid E _ Hc). cbn [bind].
  destruct (truthy (field data "completedAt")) eqn:Ht.
  - destruct Hd as [Hd|Hd]; [discriminate|].
    rewrite (Date_construct_valid E _ Hd). cbn [bind andb].
    now rewrite Hc, Hd.
  - cbn [bind andb]. now rewrite Hc.
Qed.

Lemma deserialize_data_missing (E : Engine) (data : JSValue) :
  data <> JNull ->
  truthy (field data "id") = false \/ truthy (field data "parsedJD") = false \/
  isArray (field data "questions") = false ->
  deserialize_data E data
  = throw_new Error "Invalid session data: missing required fields".
Proof.
  intros Hnull H.
  unfold deserialize_data.
  rewrite !get_property_field by assumption. cbn [bind].
  destruct (truthy (field data "id")); [|reflexivity].
  destruct (truthy (field data "parsedJD")); [|reflexivity].
  destruct (truthy (field data "questions")); [|reflexivity].
  destruct (isArray (field data "questions")); [|reflexivity].
  destruct H as [H|[H|H]]; discriminate.
Qed.

(** ** The history in local storage *)

Lemma getSessionHistory_wf (E : Engine) (b : Browser) :
  json_wf (getSessionHistory E b) = true.
Proof.
  unfold getSessionHistory.
  destruct (negb (window_defined b)); [reflexivity|].
  destruct (getItem b SESSION_HISTORY) as [text|]; [|reflexivity].
  destruct (text =? "")%string; [reflexivity|].
  destruct (JSON_parse E text) as [v|e] eqn:Hp; [|reflexivity].
  eapply JSON_parse_wf; eauto.
Qed.

Lemma historyEntry_written (s : InterviewSession) :
  valid_date (createdAt s) ->
  (forall d, completedAt s = Some d -> valid_date d) ->
  historyEntry s = Ok (history_entry_json s).
Proof.
  intros Hc Hd. unfold historyEntry, history_entry_json.
  pose (E0 := mkEngine (fun _ => InvalidDate) (fun _ => "") (fun _ _ => "")).
  destruct (valid_date_iso E0 _ Hc) as [-> _]. cbn [bind].
  destruct (completedAt s) as [d|]; [|reflexivity].
  destruct (valid_date_iso E0 d (Hd d eq_refl)) as [-> _]. reflexivity.
Qed.

(** Whatever [historyEntry] returns is a record with the id of the
    session. *)
Lemma historyEntry_shape (s : InterviewSession) (entry : JSValue) :
  historyEntry s = Ok entry ->
  has_id (id s) entry = true /\
  (forall sid, sid <> id s -> has_id sid entry = false) /\
  ((forall f, sessionFeedback s = Some f -> canonical (overallScore f) = true) ->
   json_wf entry = true).
Proof.
  unfold historyEntry. intros H.
  destruct (Date_toISOString (createdAt s)) as [c|]; [|discriminate].
  cbn [bind] in H.
  assert (Hx : exists x, entry = JObject
            [("id", JString (id s));
             ("roleType", JString (RoleType_string (roleType (parsedJD s))));
             ("experienceLevel",
              JString (ExperienceLevel_string (experienceLevel (parsedJD s))));
             ("createdAt", JString c);
             ("completedAt", x);
             ("overallScore",
              match sessionFeedback s with
              | Some f => JNumber (overallScore f)
              | None => JNull
              end)] /\ json_wf x = true).
  { destruct (completedAt s) as [d|].
    - destruct (Date_toISOString d) as [iso|]; [|discriminate].
      cbn [bind] in H. injection H as <-. eauto.
    - cbn [bind] in H. injection H as <-. eauto. }
  destruct Hx as [x [-> Hx]]. split; [|split].
  - unfold has_id. cbn. apply String.eqb_refl.
  - intros sid Hne. unfold has_id. cbn. apply String.eqb_neq. congruence.
  - intros Hcan. cbn [json_wf map fst snd forallb distinct existsb String.eqb
                        Ascii.eqb Bool.eqb negb andb orb].
    rewrite Hx. destruct (sessionFeedback s) as [f|]; [|reflexivity].
    cbn [json_wf]. now rewrite (Hcan f eq_refl).
Qed.

(** The index [findIndex] returns, when it returns, is the place of the
    upsert. *)
Lemma findIndex_upsert (E : Engine) (sid : string) (entry : JSValue)
    (history : list JSValue) (i idx : Z) :
  0 <= i ->
  findIndex_id E sid history i = Ok idx ->
  (idx = -1 \/ i <= idx) /\
  (if idx >=? 0 then array_set history (Z.to_nat (idx - i)) entry
   else (history ++ [entry])%list)
  = upsert sid entry history.
Proof.
  revert i. induction history as [|x l IH]; intros i Hi H.
  - cbn in H. injection H as <-. split; [now left|reflexivity].
  - cbn [findIndex_id] in H.
    destruct (get_property E (Some x) "id") as [xid|] eqn:Hget; [|discriminate].
    cbn [bind] in H.
    assert (Hfield : xid = field x "id").
    { destruct x; cbn in Hget; try discriminate; now injection Hget as <-. }
    cbn [upsert]. unfold has_id. rewrite <- Hfield.
    assert (Hrest : findIndex_id E sid l (i + 1) = Ok idx ->
              (idx = -1 \/ i <= idx) /\
              (if idx >=? 0 then array_set (x :: l) (Z.to_nat (idx - i)) entry
               else ((x :: l) ++ [entry])%list)
              = x :: upsert sid entry l).
    { intros H'. destruct (IH (i + 1) ltac:(lia) H') as [Hidx Hup].
      split; [lia|]. rewrite <- Hup.
      destruct (idx >=? 0) eqn:Hge; [|reflexivity].
      rewrite Z.geb_leb in Hge. apply Z.leb_le in Hge.
      replace (Z.to_nat (idx - i)) with (S (Z.to_nat (idx - (i + 1)))) by lia.
      reflexivity. }
    destruct xid as [[| | |xs| |]|]; auto.
    destruct (xs =? sid)%string; auto.
    injection H as <-. split; [now right|].
    replace (i >=? 0) with true by (symmetry; rewrite Z.geb_leb; now apply Z.leb_le).
    now rewrite Z.sub_diag.
Qed.

Lemma findIndex_no_null (E : Engine) (sid : string) (history : list JSValue) (i : Z) :
  Forall (fun e => e <> JNull) history ->
  exists idx, findIndex_id E sid history i = Ok idx.
Proof.
  intros Hall. revert i. induction Hall as [|x l Hx Hl IH]; intros i.
  - cbn. eauto.
  - cbn [findIndex_id]. rewrite get_property_field by assumption. cbn [bind].
    destruct (field x "id") as [[| | |xs| |]|]; auto.
    destruct (xs =? sid)%string; eauto.
Qed.

Lemma count_id_upsert (sid : string) (entry : JSValue) (history : list JSValue) :
  has_id sid entry = true ->
  count_id sid (upsert sid entry history) = Nat.max 1 (count_id sid history).
Proof.
  intros He. unfold count_id. induction history as [|x l IH].
  - cbn. now rewrite He.
  - cbn [upsert filter]. destruct (has_id sid x) eqn:Hx.
    + cbn [filter]. rewrite He. cbn [List.length]. lia.
    + cbn [filter]. rewrite Hx. exact IH.
Qed.

Lemma count_id_upsert_other (sid sid' : string) (entry : JSValue)
    (history : list JSValue) :
  has_id sid' entry = false -> sid' <> sid ->
  count_id sid' (upsert sid entry history) = count_id sid' history.
Proof.
  intros He Hne. unfold count_id. induction history as [|x l IH].
  - cbn. now rewrite He.
  - cbn [upsert filter]. destruct (has_id sid x) eqn:Hx.
    + cbn [filter]. rewrite He.
      assert (Hx' : has_id sid' x = false).
      { unfold has_id in *. destruct (field x "id") as [[| | |xs| |]|]; try reflexivity.
        apply String.eqb_eq in Hx. subst xs. apply String.eqb_neq. congruence. }
      now rewrite Hx'.
    + cbn [filter]. destruct (has_id sid' x); cbn [List.length]; now rewrite IH.
Qed.

Lemma upsert_wf (sid : string) (entry : JSValue) (history : list JSValue) :
  json_wf entry = true -> forallb json_wf history = true ->
  forallb json_wf (upsert sid entry history) = true.
Proof.
  intros He. induction history as [|x l IH]; cbn [upsert forallb]; intros H.
  - now rewrite He.
  - apply andb_true_iff in H as [Hx Hl]. destruct (has_id sid x); cbn [forallb].
    + now rewrite He, Hl.
    + now rewrite Hx, IH.
Qed.

(** What [getSessionHistory] reads after a write of the history. *)
Lemma getSessionHistory_written (E : Engine) (b b' : Browser) (history : list JSValue) :
  window_defined b = true ->
  forallb json_wf history = true ->
  setItem b SESSION_HISTORY (JSON_stringify (JArray history)) = Ok b' ->
  getSessionHistory E b' = JArray history.
Proof.
  intros Hw Hwf Hset. unfold setItem in Hset.
  destruct (quota_exceeded b _ _ _); [discriminate|]. injection Hset as <-.
  unfold getSessionHistory, getItem. cbn [window_defined localStorage].
  rewrite Hw. cbn [negb].
  rewrite (Map_get_set_same String.eqb String.eqb_eq).
  cbn [JSON_stringify append String.eqb].
  change (String "[" (concat "," (map JSON_stringify history) ++ "]"))
    with (JSON_stringify (JArray history)).
  now rewrite JSON_parse_stringify.
Qed.

(** A call of [saveSessionToHistory] either leaves the browser as it is
    or writes the upsert of the stored history. *)
Lemma saveSessionToHistory_cases (E : Engine) (b : Browser) (s : InterviewSession) :
  (forall f, sessionFeedback s = Some f -> canonical (overallScore f) = true) ->
  saveSessionToHistory E b s = b \/
  exists entry,
    historyEntry s = Ok entry /\
    stored_history E (saveSessionToHistory E b s)
    = upsert (id s) entry (stored_history E b).
Proof.
  intros Hcan. unfold saveSessionToHistory.
  destruct (window_defined b) eqn:Hw; [|now left]. cbn [negb].
  unfold saveSessionToHistory_try, stored_history.
  pose proof (getSessionHistory_wf E b) as Hwf.
  destruct (getSessionHistory E b) as [| | | |history|]; try now left.
  destruct (findIndex_id E (id s) history 0) as [idx|] eqn:Hidx; [|now left].
  cbn [bind].
  destruct (historyEntry s) as [entry|] eqn:Hentry; [|now left].
  cbn [bind].
  destruct (findIndex_upsert E (id s) entry history 0 idx ltac:(lia) Hidx) as [_ Hup].
  rewrite Z.sub_0_r in Hup. rewrite Hup.
  destruct (setItem b SESSION_HISTORY _) as [b'|] eqn:Hset; [|now left].
  right. exists entry. split; [reflexivity|].
  rewrite (getSessionHistory_written E b b' (upsert (id s) entry history) Hw);
    [reflexivity| |exact Hset].
  apply upsert_wf; [|exact Hwf].
  now apply (historyEntry_shape s entry Hentry).
Qed.

Lemma upsert_absent (sid : string) (entry : JSValue) (history : list JSValue) :
  count_id sid history = 0%nat -> upsert sid entry history = (history ++ [entry])%list.
Proof.
  unfold count_id. induction history as [|x l IH]; [reflexivity|].
  cbn [filter upsert]. destruct (has_id sid x); [discriminate|].
  intros H. cbn [app]. now rewrite IH.
Qed.

Lemma upsert_present (sid : string) (entry : JSValue) (history : list JSValue) :
  count_id sid history <> 0%nat ->
  exists before old after,
    history = (before ++ old :: after)%list /\
    has_id sid old = true /\ count_id sid before = 0%nat /\
    upsert sid entry history = (before ++ entry :: after)%list.
Proof.
  unfold count_id. induction history as [|x l IH]; [intros H; now contradiction H|].
  cbn [filter upsert]. destruct (has_id sid x) eqn:Hx.
  - intros _. exists [], x, l. auto.
  - intros H. destruct (IH H) as [before [old [after [-> [Hold [Hb Hup]]]]]].
    exists (x :: before), old, after. cbn [app filter]. rewrite Hx, Hup. auto.
Qed.

Lemma save_count (E : Engine) (b : Browser) (s : InterviewSession) (sid : string) :
  (forall f, sessionFeedback s = Some f -> canonical (overallScore f) = true) ->
  (count_id sid (stored_history E (saveSessionToHistory E b s))
   <= Nat.max 1 (count_id sid (stored_history E b)))%nat.
Proof.
  intros Hcan.
  destruct (saveSessionToHistory_cases E b s Hcan) as [-> | [entry [Hentry ->]]]; [lia|].
  destruct (historyEntry_shape s entry Hentry) as [Hid [Hother _]].
  destruct (string_dec sid (id s)) as [-> | Hne].
  - rewrite count_id_upsert by assumption. lia.
  - rewrite count_id_upsert_other; [lia|now apply Hother|assumption].
Qed.

Lemma save_all_count (E : Engine) (sessions : list InterviewSession) (b : Browser)
    (sid : string) :
  Forall (fun s => forall f, sessionFeedback s = Some f ->
                             canonical (overallScore f) = true) sessions ->
  (count_id sid (stored_history E (save_all E b sessions))
   <= Nat.max 1 (count_id sid (stored_history E b)))%nat.
Proof.
  intros Hall. revert b. induction Hall as [|s l Hs Hl IH]; intros b.
  - unfold save_all. cbn [fold_left]. lia.
  - unfold save_all in *. cbn [fold_left].
    specialize (IH (saveSessionToHistory E b s)).
    pose proof (save_count E b s sid Hs). lia.
Qed.

Import SessionManager.

(** ** Claims about the session manager *)

Lemma steps_run (s : InterviewSession) (ops : list Op) (s' : InterviewSession) :
  run s ops = Ok s' -> steps s ops s'.
Proof.
  revert s. induction ops as [|op ops IH]; simpl; intros s H.
  - injection H as <-. constructor.
  - destruct (apply_op s op) as [s1|e] eqn:Hop; simpl in H; [|discriminate].
    econstructor; eauto.
Qed.

(** C2. [storeAnswer] with an identifier that is not the id of a question
    of the session throws the not-found error; with the id of a question it
    returns the session with [text] stored under that id in the answers
    (inserted, or written over the earlier answer), the other answers and
    every other field as they were.  On the store of objects: the call
    with an unknown id leaves the store as it is; the call with a known id
    makes one new Map and writes that one only, so that every object of the
    store, and with them the session given, has the content it had, and
    the session returned has the content stated above.  The store and the
    exception are all that a call leaves: it reads and writes nothing
    else. *)
Theorem storeAnswer_spec (s : InterviewSession) (q text : string) :
  Map_wf (answers s) ->
  (~ In q (question_ids s) ->
   storeAnswer s q text
   = Throw (mkExn Error ("Question with ID " ++ q ++ " not found in session")))
  /\
  (In q (question_ids s) ->
   exists s',
     storeAnswer s q text = Ok s' /\
     answers s' = Map_set String.eqb q text (answers s) /\
     getAnswer s' q = Some text /\
     (forall k, k <> q -> getAnswer s' k = getAnswer s k) /\
     id s' = id s /\ parsedJD s' = parsedJD s /\ questions s' = questions s /\
     feedback s' = feedback s /\ sessionFeedback s' = sessionFeedback s /\
     currentQuestionIndex s' = currentQuestionIndex s /\
     isComplete s' = isComplete s /\ createdAt s' = createdAt s /\
     completedAt s' = completedAt s)
  /\
  (forall st o,
     Store.contents st o = Some s ->
     (~ In q (question_ids s) ->
      Store.storeAnswer st o q text
      = (st, Throw (mkExn Error ("Question with ID " ++ q ++ " not found in session"))))
     /\
     (In q (question_ids s) ->
      exists st' o' s',
        Store.storeAnswer st o q text = (st', Ok o') /\
        storeAnswer s q text = Ok s' /\
        Store.contents st' o' = Some s' /\
        Store.contents st' o = Some s /\
        Store.preserved st st')).
Proof.
  intros Hwf. split; [|split].
  - intros Hq. now apply storeAnswer_unknown.
  - intros Hq. eexists. split; [now apply storeAnswer_known|].
    rewrite (Map_new_entries String.eqb String.eqb_eq) by assumption.
    unfold getAnswer. simpl. repeat split.
    + apply (Map_get_set_same String.eqb String.eqb_eq).
    + intros k Hk. apply (Map_get_set_other String.eqb String.eqb_eq). congruence.
  - intros st o Hc. pose proof (storeAnswer_refines st o s q text Hc) as Href.
    split; intros Hq.
    + now rewrite (storeAnswer_unknown s q text Hq) in Href.
    + rewrite (storeAnswer_known s q text Hq) in Href.
      destruct Href as [st' [o' [H1 [H2 [H3 H4]]]]].
      exists st', o'. eexists.
      split; [exact H1|]. split; [now apply storeAnswer_known|].
      split; [exact H2|]. split; [exact H3|exact H4].
Qed.

Lemma storeAnswer_spec_witness :
  storeAnswer mockSession "550e8400-e29b-41d4-a716-446655440999" "Some answer"
  = Throw (mkExn Error
      "Question with ID 550e8400-e29b-41d4-a716-446655440999 not found in session")
  /\
  (exists s',
     storeAnswer mockSession "550e8400-e29b-41d4-a716-446655440001" "Closures" = Ok s' /\
     getAnswer s' "550e8400-e29b-41d4-a716-446655440001" = Some "Closures")
  /\
  Store.storeAnswer mockStore mockObject "550e8400-e29b-41d4-a716-446655440999"
    "Some answer"
  = (mockStore,
     Throw (mkExn Error
       "Question with ID 550e8400-e29b-41d4-a716-446655440999 not found in session"))
  /\
  exists st' o',
    Store.storeAnswer mockStore mockObject "550e8400-e29b-41d4-a716-446655440001"
      "Closures" = (st', Ok o') /\
    Store.contents st' mockObject = Some mockSession.
Proof.
  assert (Hunknown : ~ In "550e8400-e29b-41d4-a716-446655440999"
                          (question_ids mockSession)).
  { simpl. intros [H|[H|[H|[]]]]; discriminate. }
  assert (Hknown : In "550e8400-e29b-41d4-a716-446655440001"
                      (question_ids mockSession)).
  { simpl. auto. }
  split; [|split; [|split]].
  - apply (storeAnswer_spec mockSession
             "550e8400-e29b-41d4-a716-446655440999" "Some answer").
    + constructor.
    + exact Hunknown.
  - destruct (storeAnswer_spec mockSession
                "550e8400-e29b-41d4-a716-446655440001" "Closures") as [_ [H _]].
    + constructor.
    + destruct (H Hknown) as [s' [H1 [_ [H2 _]]]]. exists s'. auto.
  - destruct (storeAnswer_spec mockSession
                "550e8400-e29b-41d4-a716-446655440999" "Some answer") as [_ [_ H]].
    + constructor.
    + destruct (H mockStore mockObject eq_refl) as [H1 _]. exact (H1 Hunknown).
  - destruct (storeAnswer_spec mockSession
                "550e8400-e29b-41d4-a716-446655440001" "Closures") as [_ [_ H]].
    + constructor.
    + destruct (H mockStore mockObject eq_refl) as [_ H2].
      destruct (H2 Hknown) as [st' [o' [s' [Hs [_ [_ [Hc _]]]]]]].
      exists st', o'. auto.
Defined.

(** C8. Answering the same question twice: the second text is the answer
    kept, and the answers are as many after the second call as after the
    first. *)
Theorem storeAnswer_overwrite (s : InterviewSession) (q t1 t2 : string) :
  In q (question_ids s) ->
  exists s1 s2,
    storeAnswer s q t1 = Ok s1 /\
    storeAnswer s1 q t2 = Ok s2 /\
    getAnswer s2 q = Some t2 /\
    Map_size (answers s2) = Map_size (answers s1).
Proof.
  intros Hq. do 2 eexists.
  split; [now apply storeAnswer_known|].
  split; [now apply storeAnswer_known|].
  unfold getAnswer. simpl. split.
  - apply (Map_get_set_same String.eqb String.eqb_eq).
  - set (m := Map_set String.eqb q t1 _).
    assert (Hwf : Map_wf m).
    { apply (Map_set_wf String.eqb String.eqb_eq).
      apply (Map_new_wf String.eqb String.eqb_eq). }
    rewrite (Map_new_entries String.eqb String.eqb_eq) by assumption.
    unfold Map_size. f_equal.
    apply (Map_set_length_present String.eqb String.eqb_eq).
    apply (Map_keys_set String.eqb String.eqb_eq). now left.
Qed.

Lemma storeAnswer_overwrite_witness :
  exists s1 s2,
    storeAnswer mockSession "550e8400-e29b-41d4-a716-446655440002" "first" = Ok s1 /\
    storeAnswer s1 "550e8400-e29b-41d4-a716-446655440002" "second" = Ok s2 /\
    getAnswer s2 "550e8400-e29b-41d4-a716-446655440002" = Some "second" /\
    Map_size (answers s2) = Map_size (answers s1).
Proof.
  apply (storeAnswer_overwrite mockSession). simpl. auto.
Defined.

(** *** The index as a number *)

Lemma number_of_Z_value (z : Z) :
  0 <= expo (number_of_Z z) /\
  mant (number_of_Z z) * 10 ^ expo (number_of_Z z) = z.
Proof.
  pose proof (Z_of_number_of_Z z) as H. unfold Z_of_number in H.
  destruct (0 <=? expo (number_of_Z z)) eqn:He; [|discriminate].
  apply Z.leb_le in He. injection H as H. auto.
Qed.

Lemma Numeric_ltb_of_Z (i j : Z) :
  Numeric.number_ltb (number_of_Z i) (number_of_Z j) = (i <? j).
Proof.
  unfold Numeric.number_ltb.
  destruct (number_of_Z_value i) as [Hi Vi], (number_of_Z_value j) as [Hj Vj].
  set (x := number_of_Z i) in *. set (y := number_of_Z j) in *.
  set (e := Z.min (expo x) (expo y)).
  assert (He : 0 <= e) by (unfold e; lia).
  assert (Hp : 0 < 10 ^ e) by now apply pow10_pos.
  assert (Hx : mant x * 10 ^ (expo x - e) * 10 ^ e = i).
  { rewrite <- Z.mul_assoc, <- Z.pow_add_r by (unfold e; lia).
    now replace (expo x - e + e) with (expo x) by lia. }
  assert (Hy : mant y * 10 ^ (expo y - e) * 10 ^ e = j).
  { rewrite <- Z.mul_assoc, <- Z.pow_add_r by (unfold e; lia).
    now replace (expo y - e + e) with (expo y) by lia. }
  destruct (Z.ltb_spec i j) as [H|H].
  - apply Z.ltb_lt. nia.
  - apply Z.ltb_ge. nia.
Qed.

Lemma Numeric_lt_of_Z (i j : Z) :
  Numeric.lt (Numeric.of_Z i) (Numeric.of_Z j) = (i <? j).
Proof. apply Numeric_ltb_of_Z. Qed.

Lemma Numeric_ge_of_Z (i j : Z) :
  Numeric.ge (Numeric.of_Z i) (Numeric.of_Z j) = (i >=? j).
Proof.
  unfold Numeric.ge, Numeric.of_Z. cbn [Numeric.lt].
  rewrite Numeric_ltb_of_Z, Z.geb_leb.
  destruct (Z.ltb_spec i j); [symmetry; apply Z.leb_gt|symmetry; apply Z.leb_le];
    lia.
Qed.

Lemma Numeric_integer_of_Z (i : Z) : Numeric.integer (Numeric.of_Z i) = Some i.
Proof.
  unfold Numeric.integer, Numeric.of_Z.
  replace (normalize (mant (number_of_Z i)) (expo (number_of_Z i)))
    with (number_of_Z i); [apply Z_of_number_of_Z|].
  pose proof (normalize_is_canonical i 0) as Hc. fold (number_of_Z i) in Hc.
  unfold canonical in Hc. destruct (number_of_Z i) as [m e]. cbn [mant expo] in *.
  destruct (m =? 0) eqn:Hm.
  - apply Z.eqb_eq in Hm, Hc. now subst.
  - symmetry. apply normalize_canonical.
    apply negb_true_iff, Z.eqb_neq in Hc. exact Hc.
Qed.

(** On an integer the method on numbers is the method on integers. *)
Lemma Numeric_setCurrentQuestionIndex_of_Z (s : InterviewSession)
    (c : Numeric.Number) (i : Z) :
  Numeric.setCurrentQuestionIndex (Numeric.mkSession s c) (Numeric.of_Z i)
  = match setCurrentQuestionIndex s i with
    | Ok s' => Ok (Numeric.mkSession s (Numeric.of_Z (currentQuestionIndex s')))
    | Throw e => Throw e
    end.
Proof.
  unfold Numeric.setCurrentQuestionIndex, setCurrentQuestionIndex.
  cbn [Numeric.fields]. rewrite Numeric_lt_of_Z, Numeric_ge_of_Z.
  destruct (_ || _); reflexivity.
Qed.

(** C3, as stated, fails twice.  A session created with no question has
    cursor 0 and no question.  And the cursor is a number:
    [setCurrentQuestionIndex] rejects an index [i] with [i < 0] or
    [i >= len(questions)], and of NaN both comparisons are false, so it
    returns a session of five questions with the cursor NaN, which is
    neither [>= 0] nor [< 5]. *)
Lemma cursor_bound_counterexample :
  (reachable (createSession "550e8400-e29b-41d4-a716-446655440000" 1768467600000
                mockParsedJD [])
   /\ ~ cursor_in_range
          (createSession "550e8400-e29b-41d4-a716-446655440000" 1768467600000
             mockParsedJD []))
  /\
  let s := createSession "550e8400-e29b-41d4-a716-446655440000" 1768467600000
             mockParsedJD fiveQuestions in
  length_of (questions s) = 5 /\
  Numeric.setCurrentQuestionIndex
    (Numeric.mkSession s (Numeric.of_Z (currentQuestionIndex s))) Numeric.NaN
  = Ok (Numeric.mkSession s Numeric.NaN) /\
  Numeric.ge Numeric.NaN (Numeric.of_Z 0) = false /\
  Numeric.lt Numeric.NaN (Numeric.of_Z (length_of (questions s))) = false.
Proof.
  split; [split|].
  - exists "550e8400-e29b-41d4-a716-446655440000", 1768467600000, mockParsedJD,
      [], []. constructor.
  - unfold cursor_in_range, length_of. simpl. lia.
  - repeat split.
Qed.

(** C3, amended: the indices are integers and the question list is not
    empty.  Every session reachable from a session that [createSession]
    made of a question list that is not empty, by operations whose indices
    are integers, has its cursor within the questions;
    [setCurrentQuestionIndex s i] for an integer [i] throws its error
    exactly when [i < 0] or [i >= len(questions)], and otherwise returns
    [s] with the cursor at [i] and every other field as it was.  On an
    integer, the guard and the message of the method on numbers are those
    of the method on integers. *)
Theorem cursor_bound_invariant :
  (forall uuid now jd qs ops s,
     qs <> [] ->
     steps (createSession uuid now jd qs) ops s -> cursor_in_range s)
  /\
  (forall s i,
     (i < 0 \/ i >= length_of (questions s)) <->
     setCurrentQuestionIndex s i
     = Throw (mkExn Error
                ("Invalid question index: " ++ Z_toString i ++
                 ". Must be between 0 and " ++
                 Z_toString (length_of (questions s) - 1))))
  /\
  (forall s i,
     0 <= i < length_of (questions s) ->
     exists s',
       setCurrentQuestionIndex s i = Ok s' /\
       currentQuestionIndex s' = i /\
       id s' = id s /\ parsedJD s' = parsedJD s /\ questions s' = questions s /\
       answers s' = answers s /\ feedback s' = feedback s /\
       sessionFeedback s' = sessionFeedback s /\
       isComplete s' = isComplete s /\ createdAt s' = createdAt s /\
       completedAt s' = completedAt s)
  /\
  (forall s c i,
     Numeric.setCurrentQuestionIndex (Numeric.mkSession s c) (Numeric.of_Z i)
     = match setCurrentQuestionIndex s i with
       | Ok s' => Ok (Numeric.mkSession s (Numeric.of_Z (currentQuestionIndex s')))
       | Throw e => Throw e
       end).
Proof.
  split; [|split; [|split]].
  - intros. eapply cursor_in_range_steps; eauto.
  - intros s i. split.
    + apply setCurrentQuestionIndex_out_of_range.
    + intros H.
      destruct (Z.lt_ge_cases i 0) as [Hlt|Hge]; [lia|].
      destruct (Z.lt_ge_cases i (length_of (questions s))) as [Hlt|Hge']; [|lia].
      rewrite setCurrentQuestionIndex_in_range in H by lia. discriminate.
  - intros s i Hi. eexists. split; [now apply setCurrentQuestionIndex_in_range|].
    simpl. repeat split.
  - apply Numeric_setCurrentQuestionIndex_of_Z.
Qed.

Lemma cursor_bound_invariant_witness :
  cursor_in_range
    (with_currentQuestionIndex mockSession 2)
  /\ setCurrentQuestionIndex mockSession 10
     = Throw (mkExn Error "Invalid question index: 10. Must be between 0 and 2")
  /\ exists s', setCurrentQuestionIndex mockSession 1 = Ok s' /\
                currentQuestionIndex s' = 1.
Proof.
  destruct cursor_bound_invariant as [H1 [H2 [H3 _]]].
  split; [|split].
  - apply (H1 "550e8400-e29b-41d4-a716-446655440000" 1768467600000 mockParsedJD
             mockQuestions [OpNextQuestion; OpNextQuestion]).
    + discriminate.
    + apply steps_run. vm_compute. reflexivity.
  - apply (H2 mockSession 10). right. unfold length_of. simpl. lia.
  - destruct (H3 mockSession 1) as [s' [Hs [Hc _]]].
    + unfold length_of. simpl. lia.
    + exists s'. auto.
Defined.

(** C4, as stated, fails: [storeFeedback] takes feedback about a question
    the session does not have, and its [questionId] becomes a key of the
    feedback. *)
Lemma key_validity_counterexample :
  reachable (storeFeedback mockSession foreignFeedback)
  /\ ~ feedback_keys_valid (storeFeedback mockSession foreignFeedback).
Proof.
  split.
  - exists "550e8400-e29b-41d4-a716-446655440000", 1768467600000, mockParsedJD,
      mockQuestions, [OpStoreFeedback foreignFeedback].
    apply steps_run. reflexivity.
  - intros H.
    specialize (H "550e8400-e29b-41d4-a716-446655440999" (or_introl eq_refl)).
    simpl in H. destruct H as [H|[H|[H|[]]]]; discriminate.
Qed.

(** C4, amended.  In every session reachable from [createSession] the keys
    of the answers are ids of questions of the session; the keys of the
    feedback are too when every feedback given to [storeFeedback] was about
    a question of the session. *)
Theorem key_validity_invariant uuid now jd qs ops s :
  steps (createSession uuid now jd qs) ops s ->
  answer_keys_valid s /\
  (feedback_about (map q_id qs) ops -> feedback_keys_valid s).
Proof.
  intros Hsteps. split.
  - eapply answer_keys_valid_steps; eauto.
  - intros Habout. eapply feedback_keys_valid_steps; eauto.
Qed.

Lemma key_validity_invariant_witness :
  exists s,
    run mockSession
      [OpStoreAnswer "550e8400-e29b-41d4-a716-446655440002" "I led a migration";
       OpStoreFeedback mockFeedback] = Ok s /\
    answer_keys_valid s /\ feedback_keys_valid s.
Proof.
  eexists. split; [vm_compute; reflexivity|].
  match goal with |- answer_keys_valid ?s /\ _ =>
    destruct (key_validity_invariant "550e8400-e29b-41d4-a716-446655440000"
                1768467600000 mockParsedJD mockQuestions
                [OpStoreAnswer "550e8400-e29b-41d4-a716-446655440002"
                   "I led a migration";
                 OpStoreFeedback mockFeedback] s) as [Ha Hf]
  end.
  - apply steps_run. vm_compute. reflexivity.
  - split; [exact Ha|]. apply Hf.
    repeat constructor.
Defined.

(** C5.  In every session reachable from [createSession], [completedAt] is
    set exactly when [isComplete] is true; when the clock [completeSession]
    reads is never before the creation time, [completedAt >= createdAt]
    whenever both are set.  [completeSession] sets [isComplete] to true and
    [completedAt] to the clock reading and leaves the other fields as they
    were. *)
Theorem completion_consistency uuid now jd qs ops s :
  steps (createSession uuid now jd qs) ops s ->
  completion_flag_consistent s /\
  (clock_from now ops -> completion_after_creation s) /\
  (forall now' s0,
     let s1 := completeSession now' s0 in
     isComplete s1 = true /\ completedAt s1 = Some (TimeValue now') /\
     id s1 = id s0 /\ parsedJD s1 = parsedJD s0 /\ questions s1 = questions s0 /\
     answers s1 = answers s0 /\ feedback s1 = feedback s0 /\
     sessionFeedback s1 = sessionFeedback s0 /\
     currentQuestionIndex s1 = currentQuestionIndex s0 /\
     createdAt s1 = createdAt s0).
Proof.
  intros Hsteps. split; [|split].
  - eapply completion_flag_steps; eauto.
  - intros Hclock. eapply completion_after_creation_steps; eauto.
  - intros now' s0. simpl. repeat split.
Qed.

Lemma completion_consistency_witness :
  exists s,
    run mockSession [OpNextQuestion; OpCompleteSession 1768471200000] = Ok s /\
    completion_flag_consistent s /\ completion_after_creation s /\
    completedAt s = Some (TimeValue 1768471200000).
Proof.
  eexists. split; [vm_compute; reflexivity|].
  match goal with |- completion_flag_consistent ?s /\ _ =>
    destruct (completion_consistency "550e8400-e29b-41d4-a716-446655440000"
                1768467600000 mockParsedJD mockQuestions
                [OpNextQuestion; OpCompleteSession 1768471200000] s)
      as [Hflag [Hafter _]]
  end.
  - apply steps_run. vm_compute. reflexivity.
  - split; [exact Hflag|]. split; [|reflexivity].
    apply Hafter. repeat constructor. lia.
Defined.




(** ** Claims about the codec *)

(** C1, as stated, fails on a session whose identifier is the empty
    string: it satisfies the three invariants, [serializeSession] writes
    it, and [deserializeSession] rejects the text, because [!data.id] is
    true of the empty string. *)
Lemma round_trip_counterexample :
  cursor_in_range anonymousSession /\
  answer_keys_valid anonymousSession /\
  feedback_keys_valid anonymousSession /\
  completion_flag_consistent anonymousSession /\
  completion_after_creation anonymousSession /\
  exists text,
    serializeSession anonymousSession = Ok text /\
    deserializeSession reference_engine text
    = Throw (mkExn Error
        "Failed to deserialize session: Invalid session data: missing required fields").
Proof.
  split; [|split; [|split; [|split; [|split]]]].
  - unfold cursor_in_range, length_of. simpl. lia.
  - intros k [].
  - intros k [].
  - split; [intros H; now contradiction H|discriminate].
  - intros t c _ H. discriminate H.
  - eexists. split; [vm_compute; reflexivity|]. vm_compute. reflexivity.
Qed.

(** C1, amended.  For every session that satisfies the invariants of the
    data model (the cursor an integer within the questions, the keys of the
    two maps ids of questions, the completion flag set exactly when there
    is a completion date, which is not before the creation date), whose
    identifier is not the empty string, whose timestamps (creation,
    completion, and the timestamp of each answer feedback) are valid dates
    and whose numbers are finite, as every [number] of this development
    is: [serializeSession] returns a text, [deserializeSession] returns a
    session for that text, and that session is the original one:
    identifier, job description, questions, both maps rebuilt from their
    pair-lists in the same order, each timestamp with its milliseconds, the
    session feedback or its absence, cursor and completion flag.
    ([session_wf] only says that the value is a proper representation:
    maps with each key once, numbers in canonical form.) *)
Theorem serialize_round_trip (E : Engine) (s : InterviewSession) :
  cursor_in_range s -> answer_keys_valid s -> feedback_keys_valid s ->
  completion_flag_consistent s -> completion_after_creation s ->
  id s <> "" -> timestamps_valid s -> session_wf s ->
  exists text r,
    serializeSession s = Ok text /\
    deserializeSession E text = Ok r /\
    r = raw_of_session s /\
    as_InterviewSession r = Some s.
Proof.
  intros _ _ _ _ _ Hid Hts Hwf.
  exists (JSON_stringify (session_json s)), (raw_of_session s).
  split; [|split; [|split]].
  - unfold serializeSession. now rewrite serializable_session_written.
  - unfold deserializeSession.
    rewrite (deserialize_try_session_json E s); auto.
    apply JSON_parse_stringify. now apply session_json_wf.
  - reflexivity.
  - apply as_InterviewSession_raw.
Qed.

Lemma sampleSession_wf : session_wf sampleSession.
Proof.
  split; [|split; [|split]].
  - repeat constructor; simpl; intuition discriminate.
  - repeat constructor; simpl; intuition discriminate.
  - repeat constructor.
  - intros f H. injection H as <-. repeat split.
Qed.

Lemma sampleSession_timestamps : timestamps_valid sampleSession.
Proof.
  unfold timestamps_valid, valid_date, maxTime. simpl. split; [|split].
  - eexists. split; [reflexivity|lia].
  - intros d H. injection H as <-. eexists. split; [reflexivity|lia].
  - repeat constructor. eexists. split; [reflexivity|]. simpl. lia.
Qed.

Lemma serialize_round_trip_witness :
  exists text r,
    serializeSession sampleSession = Ok text /\
    deserializeSession reference_engine text = Ok r /\
    r = raw_of_session sampleSession /\
    as_InterviewSession r = Some sampleSession.
Proof.
  apply (serialize_round_trip reference_engine sampleSession).
  - unfold cursor_in_range, length_of. simpl. lia.
  - intros k Hk. simpl in Hk. simpl. tauto.
  - intros k Hk. simpl in Hk. simpl. tauto.
  - split; [reflexivity|discriminate].
  - intros t c Ht Hc. simpl in Ht, Hc. injection Ht as <-. injection Hc as <-. lia.
  - discriminate.
  - exact sampleSession_timestamps.
  - exact sampleSession_wf.
Defined.

(** C6, as stated, fails: a [completedAt] that is the empty string is not
    null and is not a valid timestamp, yet [deserializeSession] returns a
    session, with no completion date: the code tests [data.completedAt]
    for truth before it reads it as a date. *)
Lemma deserialize_errors_counterexample :
  exists data r,
    JSON_parse reference_engine
      (quoted "{'id':'x','parsedJD':{},'questions':[],'createdAt':'2026-01-15T09:00:00.000Z','completedAt':''}")
    = Ok data /\
    field data "completedAt" = Some (JString "") /\
    Date_construct reference_engine (field data "completedAt") = Ok InvalidDate /\
    deserializeSession reference_engine
      (quoted "{'id':'x','parsedJD':{},'questions':[],'createdAt':'2026-01-15T09:00:00.000Z','completedAt':''}")
    = Ok r /\
    raw_completedAt r = None.
Proof.
  do 2 eexists.
  split; [vm_compute; reflexivity|].
  split; [reflexivity|].
  split; [reflexivity|].
  split; [vm_compute; reflexivity|reflexivity].
Qed.

(** C6, amended.  [deserializeSession] is [JSON.parse] and the checks
    that follow it, inside a [try] whose [catch] clause puts "Failed to
    deserialize session: " before the message.  The checks are made in
    this order and the first that fails gives the message:
    (a) [JSON.parse] throws, which it does for a text that is not
        well-formed JSON and with a [SyntaxError] only: the message goes
        on with "Invalid JSON format";
    (b) [JSON.parse] returns a value other than [null] in which [id] or
        [parsedJD] is absent or falsy, or [questions] is not a list: the
        message has "missing required fields";
    (c) the value passes (b), the two maps are built from [answers] and
        [feedback] without an exception, and [new Date] returns for
        [createdAt] and for a truthy [completedAt] (it throws a
        [TypeError] for an object that has a property [toString] of its
        own): when the date of [createdAt] is not valid the message names
        [createdAt]; when it is, and [completedAt] is truthy and its date
        is not valid, the message names [completedAt].  When [new Date]
        throws, the message is that of its [TypeError].
    The two texts of the scenario fail with the first and the second
    cause. *)
Theorem deserialize_errors (E : Engine) :
  (forall json,
     deserializeSession E json
     = deserializeSession_catch
         (let* data := JSON_parse E json in deserialize_data E data))
  /\
  (forall json e, JSON_parse E json = Throw e -> exn_class e = SyntaxError)
  /\
  (forall e,
     exn_class e = SyntaxError ->
     deserializeSession_catch (Throw e)
     = Throw (mkExn Error
         ("Failed to deserialize session: Invalid JSON format - " ++ message e))
     /\ includes "Invalid JSON format"
          ("Failed to deserialize session: Invalid JSON format - " ++ message e)
        = true)
  /\
  (forall data,
     data <> JNull ->
     truthy (field data "id") = false \/ truthy (field data "parsedJD") = false \/
     isArray (field data "questions") = false ->
     deserializeSession_catch (deserialize_data E data)
     = Throw (mkExn Error
         "Failed to deserialize session: Invalid session data: missing required fields"))
  /\
  (forall data a f,
     data <> JNull ->
     truthy (field data "id") = true ->
     truthy (field data "parsedJD") = true ->
     isArray (field data "questions") = true ->
     deserialize_answers E (Some data) = Ok a ->
     deserialize_feedback E (Some data) = Ok f ->
     (Date_construct E (field data "createdAt") = Ok InvalidDate ->
      truthy (field data "completedAt") = false \/
      (exists d, Date_construct E (field data "completedAt") = Ok d) ->
      deserializeSession_catch (deserialize_data E data)
      = Throw (mkExn Error
          "Failed to deserialize session: Invalid session data: createdAt is not a valid date"))
     /\
     (forall t,
        Date_construct E (field data "createdAt") = Ok (TimeValue t) ->
        truthy (field data "completedAt") = true ->
        Date_construct E (field data "completedAt") = Ok InvalidDate ->
        deserializeSession_catch (deserialize_data E data)
        = Throw (mkExn Error
            "Failed to deserialize session: Invalid session data: completedAt is not a valid date"))
     /\
     (forall e,
        Date_construct E (field data "createdAt") = Throw e \/
        ((exists d, Date_construct E (field data "createdAt") = Ok d) /\
         truthy (field data "completedAt") = true /\
         Date_construct E (field data "completedAt") = Throw e) ->
        e = mkExn TypeError (type_error_message E NoPrimitiveValue) /\
        deserializeSession_catch (deserialize_data E data)
        = Throw (mkExn Error ("Failed to deserialize session: " ++ message e))))
  /\
  (exists msg,
     deserializeSession E "{not json" = Throw (mkExn Error msg) /\
     includes "Invalid JSON format" msg = true)
  /\
  deserializeSession E (quoted "{'id':'x'}")
  = Throw (mkExn Error
      "Failed to deserialize session: Invalid session data: missing required fields")
  /\
  includes "missing required fields"
    "Failed to deserialize session: Invalid session data: missing required fields"
  = true
  /\
  includes "createdAt"
    "Failed to deserialize session: Invalid session data: createdAt is not a valid date"
  = true
  /\
  includes "completedAt"
    "Failed to deserialize session: Invalid session data: completedAt is not a valid date"
  = true.
Proof.
  split; [reflexivity|].
  split; [intros json e; apply JSON_parse_throws|].
  split; [|split; [|split; [|split; [|split; [|split; [|split]]]]]].
  - intros e He. split; [|reflexivity].
    unfold deserializeSession_catch. now rewrite He.
  - intros data Hnull H. now rewrite (deserialize_data_missing E data).
  - intros data a f Hnull Hid Hjd Hq Ha Hf.
    rewrite (deserialize_data_maps E data a f) by assumption.
    split; [|split].
    + intros -> Hd. cbn [bind].
      destruct (truthy (field data "completedAt")).
      * destruct Hd as [Hd|[d ->]]; [discriminate|reflexivity].
      * reflexivity.
    + intros t -> -> ->. reflexivity.
    + intros e [He|[[d Hd] [Ht He]]].
      * destruct (Date_construct_cases E (field data "createdAt")) as [Hc|[Hc _]];
          rewrite Hc in He; [discriminate|]. injection He as <-.
        rewrite Hc. split; reflexivity.
      * destruct (Date_construct_cases E (field data "completedAt")) as [Hc|[Hc _]];
          rewrite Hc in He; [discriminate|]. injection He as <-.
        rewrite Hd, Ht, Hc. split; reflexivity.
  - eexists. split; reflexivity.
  - reflexivity.
  - reflexivity.
  - reflexivity.
  - reflexivity.
Qed.

Lemma deserialize_errors_witness :
  deserializeSession_catch
    (deserialize_data reference_engine
       (JObject [("id", JString "123"); ("parsedJD", JObject []);
                 ("questions", JArray []); ("answers", JArray []);
                 ("feedback", JArray []); ("createdAt", JString "invalid-date");
                 ("completedAt", JNull)]))
  = Throw (mkExn Error
      "Failed to deserialize session: Invalid session data: createdAt is not a valid date")
  /\
  deserializeSession_catch
    (deserialize_data reference_engine
       (JObject [("id", JString "123"); ("parsedJD", JObject []);
                 ("questions", JArray []); ("createdAt", JNumber (mkNumber 0 0));
                 ("completedAt", JString "tomorrow")]))
  = Throw (mkExn Error
      "Failed to deserialize session: Invalid session data: completedAt is not a valid date")
  /\
  deserializeSession_catch
    (deserialize_data reference_engine
       (JObject [("id", JString "123"); ("parsedJD", JObject []);
                 ("questions", JArray []);
                 ("createdAt", JObject [("toString", JNumber (mkNumber 1 0))])]))
  = Throw (mkExn Error
      "Failed to deserialize session: Cannot convert object to primitive value")
  /\
  deserializeSession_catch
    (deserialize_data reference_engine
       (JObject [("parsedJD", JObject []); ("questions", JArray [])]))
  = Throw (mkExn Error
      "Failed to deserialize session: Invalid session data: missing required fields")
  /\
  exists msg,
    deserializeSession_catch
      (Throw (mkExn SyntaxError "Unexpected token 'i', 'invalid json' is not valid JSON"))
    = Throw (mkExn Error msg) /\
    includes "Invalid JSON format" msg = true.
Proof.
  destruct (deserialize_errors reference_engine) as [_ [_ [Ha [Hb [Hc _]]]]].
  split; [|split; [|split; [|split]]].
  - match goal with |- deserializeSession_catch (deserialize_data _ ?data) = _ =>
      destruct (Hc data [] [] ltac:(discriminate) eq_refl eq_refl eq_refl
                  eq_refl eq_refl) as [H _]
    end.
    apply H; [reflexivity|left; reflexivity].
  - match goal with |- deserializeSession_catch (deserialize_data _ ?data) = _ =>
      destruct (Hc data [] [] ltac:(discriminate) eq_refl eq_refl eq_refl
                  eq_refl eq_refl) as [_ [H _]]
    end.
    apply (H 0); reflexivity.
  - match goal with |- deserializeSession_catch (deserialize_data _ ?data) = _ =>
      destruct (Hc data [] [] ltac:(discriminate) eq_refl eq_refl eq_refl
                  eq_refl eq_refl) as [_ [_ H]]
    end.
    destruct (H (mkExn TypeError "Cannot convert object to primitive value"))
      as [_ H']; [left; reflexivity|exact H'].
  - apply Hb; [discriminate|left; reflexivity].
  - eexists. apply Ha. reflexivity.
Defined.

(** C10.  [deserializeSession] returns a session as soon as the text is
    JSON, [id] and [parsedJD] are truthy, [questions] is a list, the two
    maps can be built and the dates are valid: the cursor, the keys of the
    maps and the rest of the fields are taken from the text as they are.
    So there is a well-formed text for which it returns a session that
    breaks the invariants of the data model (the cursor is beyond the
    questions, the keys of the answers and of the feedback are ids of no
    question), and on that session [getCurrentQuestion] indexes outside
    the questions and yields [undefined]. *)
Theorem deserialize_does_not_validate (E : Engine) :
  (forall json data a f,
     JSON_parse E json = Ok data -> data <> JNull ->
     truthy (field data "id") = true ->
     truthy (field data "parsedJD") = true ->
     isArray (field data "questions") = true ->
     deserialize_answers E (Some data) = Ok a ->
     deserialize_feedback E (Some data) = Ok f ->
     isNaN_getTime (new_Date E (field data "createdAt")) = false ->
     truthy (field data "completedAt") = false \/
     isNaN_getTime (new_Date E (field data "completedAt")) = false ->
     exists r,
       deserializeSession E json = Ok r /\
       raw_questions r = field data "questions" /\
       raw_answers r = a /\ raw_feedback r = f /\
       raw_currentQuestionIndex r
       = js_nullish (field data "currentQuestionIndex") (Some (JNumber (mkNumber 0 0))))
  /\
  (exists r,
     deserializeSession E inconsistentText = Ok r /\
     as_InterviewSession r = Some inconsistentSession /\
     ~ cursor_in_range inconsistentSession /\
     ~ answer_keys_valid inconsistentSession /\
     ~ feedback_keys_valid inconsistentSession /\
     length_of (questions inconsistentSession)
     <= currentQuestionIndex inconsistentSession /\
     SessionManager.getCurrentQuestion inconsistentSession = None).
Proof.
  split.
  - intros json data a f Hparse Hnull Hid Hjd Hq Ha Hf Hc Hd.
    unfold deserializeSession.
    rewrite (deserialize_try_dates E json data a f) by assumption.
    eexists. split; [reflexivity|]. cbn. auto.
  - eexists. split; [vm_compute; reflexivity|].
    split; [vm_compute; reflexivity|].
    split; [unfold cursor_in_range, length_of; simpl; lia|].
    split; [|split; [|split]].
    + intros H. specialize (H "q9" (or_introl eq_refl)).
      simpl in H. destruct H as [H|[]]. discriminate.
    + intros H. specialize (H "q8" (or_introl eq_refl)).
      simpl in H. destruct H as [H|[]]. discriminate.
    + unfold length_of. simpl. lia.
    + reflexivity.
Qed.

Lemma deserialize_does_not_validate_witness :
  exists r,
    deserializeSession reference_engine
      (quoted "{'id':'x','parsedJD':{},'questions':[],'currentQuestionIndex':-3,'createdAt':0}")
    = Ok r /\
    raw_currentQuestionIndex r = Some (JNumber (mkNumber (-3) 0)).
Proof.
  destruct (deserialize_does_not_validate reference_engine) as [H _].
  destruct (H (quoted "{'id':'x','parsedJD':{},'questions':[],'currentQuestionIndex':-3,'createdAt':0}")
              (JObject [("id", JString "x"); ("parsedJD", JObject []);
                        ("questions", JArray []);
                        ("currentQuestionIndex", JNumber (mkNumber (-3) 0));
                        ("createdAt", JNumber (mkNumber 0 0))])
              [] [])
    as [r [Hr [_ [_ [_ Hc]]]]];
    try (vm_compute; reflexivity).
  - discriminate.
  - left. reflexivity.
  - exists r. split; [exact Hr|exact Hc].
Defined.

(** ** The claim about the history *)

(** C9, as stated, fails: the body of [saveSessionToHistory] is a [try]
    whose [catch] clause logs the exception, and then nothing is stored.
    With the stored history [[null]] the search for the entry of the
    session reads [id] of [null] and throws: the list stays [[null]], with
    no entry of the session, where the upsert has one.  In a store that
    takes no write, and for a session whose creation date is the invalid
    date, the stored history stays empty. *)
Lemma saveSessionToHistory_upsert_counterexample :
  (getSessionHistory reference_engine nullHistoryBrowser = JArray [JNull] /\
   saveSessionToHistory reference_engine nullHistoryBrowser mockSession
   = nullHistoryBrowser /\
   upsert (id mockSession) (history_entry_json mockSession) [JNull]
   = [JNull; history_entry_json mockSession] /\
   count_id (id mockSession)
     (stored_history reference_engine
        (saveSessionToHistory reference_engine nullHistoryBrowser mockSession))
   = 0%nat)
  /\
  (getSessionHistory reference_engine fullBrowser = JArray [] /\
   getSessionHistory reference_engine
     (saveSessionToHistory reference_engine fullBrowser mockSession)
   = JArray [])
  /\
  (historyEntry undatedSession = Throw (mkExn RangeError "Invalid time value") /\
   getSessionHistory reference_engine
     (saveSessionToHistory reference_engine freshBrowser undatedSession)
   = JArray []).
Proof.
  split; [|split].
  - split; [vm_compute; reflexivity|].
    split; [vm_compute; reflexivity|].
    split; vm_compute; reflexivity.
  - split; vm_compute; reflexivity.
  - split; vm_compute; reflexivity.
Qed.

(** C9, amended.  [saveSessionToHistory] makes the summary record of the
    session (id, role type, experience level, creation date as ISO string,
    completion date as ISO string or null, overall score of the session
    feedback or null) when the creation date and a completion date are
    valid dates.  In a browser (there is a [window]) whose stored history
    is a list without a [null] entry and whose store takes the new text,
    it stores the upsert of that record: the first entry with the id of
    the session replaced where it is, or the record appended when no entry
    has that id.  Whatever the browser and the session, a call either
    stores that upsert or stores nothing; so no number of calls brings the
    entries with one id to more than one (or to more than there were
    before the calls).  The overall score is a finite number. *)
Theorem saveSessionToHistory_upsert (E : Engine) :
  (forall s,
     valid_date (createdAt s) ->
     (forall d, completedAt s = Some d -> valid_date d) ->
     historyEntry s = Ok (history_entry_json s))
  /\
  (forall b s history,
     window_defined b = true ->
     getSessionHistory E b = JArray history ->
     Forall (fun e => e <> JNull) history ->
     valid_date (createdAt s) ->
     (forall d, completedAt s = Some d -> valid_date d) ->
     (forall f, sessionFeedback s = Some f -> canonical (overallScore f) = true) ->
     quota_exceeded b (localStorage b) SESSION_HISTORY
       (JSON_stringify (JArray (upsert (id s) (history_entry_json s) history)))
     = false ->
     getSessionHistory E (saveSessionToHistory E b s)
     = JArray (upsert (id s) (history_entry_json s) history))
  /\
  (forall sid entry history,
     (count_id sid history = 0%nat ->
      upsert sid entry history = (history ++ [entry])%list) /\
     (count_id sid history <> 0%nat ->
      exists before old after,
        history = (before ++ old :: after)%list /\
        has_id sid old = true /\ count_id sid before = 0%nat /\
        upsert sid entry history = (before ++ entry :: after)%list))
  /\
  (forall b sessions sid,
     Forall (fun s => forall f, sessionFeedback s = Some f ->
                                canonical (overallScore f) = true) sessions ->
     (count_id sid (stored_history E (save_all E b sessions))
      <= Nat.max 1 (count_id sid (stored_history E b)))%nat)
  /\
  (forall b s,
     (forall f, sessionFeedback s = Some f -> canonical (overallScore f) = true) ->
     saveSessionToHistory E b s = b \/
     exists entry,
       historyEntry s = Ok entry /\
       stored_history E (saveSessionToHistory E b s)
       = upsert (id s) entry (stored_history E b)).
Proof.
  split; [|split; [|split; [|split]]].
  - intros s Hc Hd. now apply historyEntry_written.
  - intros b s history Hw Hhist Hnull Hc Hd Hcan Hquota.
    pose proof (getSessionHistory_wf E b) as Hwf. rewrite Hhist in Hwf.
    pose proof (historyEntry_written s Hc Hd) as Hentry.
    unfold saveSessionToHistory, saveSessionToHistory_try.
    rewrite Hw, Hhist. cbn [negb].
    destruct (findIndex_no_null E (id s) history 0 Hnull) as [idx Hidx].
    rewrite Hidx, Hentry. cbn [bind].
    destruct (findIndex_upsert E (id s) (history_entry_json s) history 0 idx
                ltac:(lia) Hidx) as [_ Hup].
    rewrite Z.sub_0_r in Hup. rewrite Hup.
    destruct (setItem b SESSION_HISTORY _) as [b'|e] eqn:Hset.
    + apply (getSessionHistory_written E b b' _ Hw); [|exact Hset].
      apply upsert_wf; [|exact Hwf].
      now apply (historyEntry_shape s _ Hentry).
    + unfold setItem in Hset. rewrite Hquota in Hset. discriminate.
  - intros sid entry history. split.
    + apply upsert_absent.
    + apply upsert_present.
  - intros b sessions sid Hall. now apply save_all_count.
  - intros b s Hcan. now apply saveSessionToHistory_cases.
Qed.

Lemma saveSessionToHistory_upsert_witness :
  getSessionHistory reference_engine
    (saveSessionToHistory reference_engine freshBrowser mockSession)
  = JArray [history_entry_json mockSession]
  /\
  getSessionHistory reference_engine
    (saveSessionToHistory reference_engine
       (saveSessionToHistory reference_engine freshBrowser mockSession)
       sampleSession)
  = JArray [history_entry_json sampleSession]
  /\
  (count_id (id sampleSession)
     (stored_history reference_engine
        (save_all reference_engine freshBrowser
           [mockSession; sampleSession; sampleSession])) <= 1)%nat.
Proof.
  destruct (saveSessionToHistory_upsert reference_engine)
    as [_ [Hup [_ [Hcount _]]]].
  assert (Hvalid : forall t, - maxTime <= t <= maxTime -> valid_date (TimeValue t)).
  { intros t Ht. exists t. auto. }
  assert (Hrange : - maxTime <= 1768467600000 <= maxTime /\
                   - maxTime <= 1768471200000 <= maxTime).
  { unfold maxTime. lia. }
  split; [|split].
  - apply (Hup freshBrowser mockSession []).
    + reflexivity.
    + reflexivity.
    + constructor.
    + apply Hvalid, Hrange.
    + intros d H. discriminate H.
    + intros f H. discriminate H.
    + reflexivity.
  - apply (Hup (saveSessionToHistory reference_engine freshBrowser mockSession)
               sampleSession [history_entry_json mockSession]).
    + reflexivity.
    + vm_compute. reflexivity.
    + repeat constructor. discriminate.
    + apply Hvalid, Hrange.
    + intros d H. injection H as <-. apply Hvalid, Hrange.
    + intros f H. injection H as <-. reflexivity.
    + reflexivity.
  - apply (Hcount freshBrowser [mockSession; sampleSession; sampleSession]
             (id sampleSession)).
    repeat constructor; intros f H; try discriminate H; injection H as <-; reflexivity.
Defined.

Import SessionManager.

(** ** Further properties of the session manager *)

Lemma Map_get_In {V : Type} (k : string) (m : Map string V) :
  Map_get String.eqb k m <> None <-> In k (Map_keys m).
Proof.
  rewrite <- (Map_has_In String.eqb String.eqb_eq). unfold Map_has.
  destruct (Map_get String.eqb k m); split; congruence.
Qed.

Lemma maps_wf_steps uuid now jd qs ops s :
  steps (createSession uuid now jd qs) ops s ->
  Map_wf (answers s) /\ Map_wf (feedback s).
Proof.
  intros Hsteps.
  by_steps (fun s => Map_wf (answers s) /\ Map_wf (feedback s))
    (Forall_trivial ops) Hsteps.
  - intros s0 op s' [Ha Hf] _ Heff. destruct Heff; simpl; auto.
    + split; [|assumption]. apply (Map_set_wf String.eqb String.eqb_eq).
      apply (Map_new_wf String.eqb String.eqb_eq).
    + split; [assumption|]. apply (Map_set_wf String.eqb String.eqb_eq).
      apply (Map_new_wf String.eqb String.eqb_eq).
  - split; constructor.
Qed.

Lemma steps_fixed s ops s' :
  steps s ops s' ->
  id s' = id s /\ parsedJD s' = parsedJD s /\ questions s' = questions s /\
  createdAt s' = createdAt s.
Proof.
  induction 1 as [|s op s1 ops s2 Hop _ IH]; [auto|].
  apply apply_op_effect in Hop.
  destruct IH as [H1 [H2 [H3 H4]]]. rewrite H1, H2, H3, H4.
  destruct Hop; auto.
Qed.

(** X1.  [storeFeedback] stores the feedback under its [questionId]:
    [getFeedback] then returns it for that id, and returns for every other
    id what it returned before.  The feedback is one more when the id had
    none and as many when it had one, and every other field of the session
    is as it was.  The call does not look at the questions. *)
Theorem storeFeedback_getFeedback (s : InterviewSession) (fb : AnswerFeedback) :
  Map_wf (feedback s) ->
  let s' := storeFeedback s fb in
  getFeedback s' (questionId fb) = Some fb /\
  (forall k, k <> questionId fb -> getFeedback s' k = getFeedback s k) /\
  Map_size (feedback s')
  = (if Map_has String.eqb (questionId fb) (feedback s)
     then Map_size (feedback s) else Map_size (feedback s) + 1) /\
  id s' = id s /\ parsedJD s' = parsedJD s /\ questions s' = questions s /\
  answers s' = answers s /\ sessionFeedback s' = sessionFeedback s /\
  currentQuestionIndex s' = currentQuestionIndex s /\
  isComplete s' = isComplete s /\ createdAt s' = createdAt s /\
  completedAt s' = completedAt s.
Proof.
  intros Hwf s'. subst s'. unfold storeFeedback, getFeedback.
  rewrite (Map_new_entries String.eqb String.eqb_eq) by assumption.
  cbn [feedback with_feedback id parsedJD questions answers sessionFeedback
       currentQuestionIndex isComplete createdAt completedAt].
  split; [apply (Map_get_set_same String.eqb String.eqb_eq)|].
  split.
  { intros k Hk. apply (Map_get_set_other String.eqb String.eqb_eq). congruence. }
  split; [|repeat split].
  unfold Map_size.
  destruct (Map_has String.eqb (questionId fb) (feedback s)) eqn:Hhas.
  - apply (Map_has_In String.eqb String.eqb_eq) in Hhas.
    now rewrite (Map_set_length_present String.eqb String.eqb_eq).
  - rewrite (Map_set_fresh String.eqb String.eqb_eq).
    + rewrite length_app. simpl. lia.
    + intros Hin. apply (Map_has_In String.eqb String.eqb_eq) in Hin. congruence.
Qed.

Lemma storeFeedback_getFeedback_witness :
  getFeedback (storeFeedback mockSession mockFeedback)
    "550e8400-e29b-41d4-a716-446655440001" = Some mockFeedback
  /\ getFeedback (storeFeedback mockSession mockFeedback)
       "550e8400-e29b-41d4-a716-446655440002" = None
  /\ Map_size (feedback (storeFeedback mockSession mockFeedback)) = 1.
Proof.
  destruct (storeFeedback_getFeedback mockSession mockFeedback)
    as [H1 [H2 [H3 _]]].
  - constructor.
  - split; [exact H1|]. split; [|exact H3].
    rewrite H2; [reflexivity|discriminate].
Defined.

(** X2.  No call of the manager changes the identifier, the job
    description, the questions or the creation date: in every session
    reachable from [createSession uuid now jd qs] they are [uuid], [jd],
    [qs] and [now]. *)
Theorem created_fields_fixed uuid now jd qs ops s :
  steps (createSession uuid now jd qs) ops s ->
  id s = uuid /\ parsedJD s = jd /\ questions s = qs /\
  createdAt s = TimeValue now.
Proof.
  intros Hsteps. now apply steps_fixed in Hsteps.
Qed.

Lemma created_fields_fixed_witness :
  exists s,
    run mockSession
      [OpStoreAnswer "550e8400-e29b-41d4-a716-446655440002" "I led a migration";
       OpNextQuestion; OpStoreFeedback foreignFeedback;
       OpStoreSessionFeedback mockSessionFeedback;
       OpCompleteSession 1768471200000] = Ok s /\
    id s = "550e8400-e29b-41d4-a716-446655440000" /\
    parsedJD s = mockParsedJD /\ questions s = mockQuestions /\
    createdAt s = TimeValue 1768467600000.
Proof.
  eexists. split; [vm_compute; reflexivity|].
  apply (created_fields_fixed "550e8400-e29b-41d4-a716-446655440000" 1768467600000
           mockParsedJD mockQuestions
           [OpStoreAnswer "550e8400-e29b-41d4-a716-446655440002" "I led a migration";
            OpNextQuestion; OpStoreFeedback foreignFeedback;
            OpStoreSessionFeedback mockSessionFeedback;
            OpCompleteSession 1768471200000]).
  apply steps_run. vm_compute. reflexivity.
Defined.

Lemma answers_count_bound (s : InterviewSession) :
  Map_wf (answers s) -> answer_keys_valid s ->
  Map_size (answers s) <= length_of (questions s).
Proof.
  intros Hwf Hkeys. unfold Map_size, length_of.
  apply inj_le.
  replace (List.length (answers s)) with (List.length (Map_keys (answers s)))
    by apply length_map.
  replace (List.length (questions s)) with (List.length (question_ids s))
    by apply length_map.
  apply NoDup_incl_length; assumption.
Qed.

(** X3.  In every session reachable from [createSession] the answers are
    no more than the questions. *)
Theorem answers_never_exceed_questions uuid now jd qs ops s :
  steps (createSession uuid now jd qs) ops s ->
  Map_size (answers s) <= length_of (questions s).
Proof.
  intros Hsteps. apply answers_count_bound.
  - now apply maps_wf_steps in Hsteps.
  - now apply answer_keys_valid_steps in Hsteps.
Qed.

Lemma answers_never_exceed_questions_witness :
  exists s,
    run mockSession
      [OpStoreAnswer "550e8400-e29b-41d4-a716-446655440002" "first";
       OpStoreAnswer "550e8400-e29b-41d4-a716-446655440002" "second";
       OpStoreAnswer "550e8400-e29b-41d4-a716-446655440001" "third"] = Ok s /\
    Map_size (answers s) <= length_of (questions s).
Proof.
  eexists. split; [vm_compute; reflexivity|].
  apply (answers_never_exceed_questions "550e8400-e29b-41d4-a716-446655440000"
           1768467600000 mockParsedJD mockQuestions
           [OpStoreAnswer "550e8400-e29b-41d4-a716-446655440002" "first";
            OpStoreAnswer "550e8400-e29b-41d4-a716-446655440002" "second";
            OpStoreAnswer "550e8400-e29b-41d4-a716-446655440001" "third"]).
  apply steps_run. vm_compute. reflexivity.
Defined.

Lemma NoDup_length_lt {A : Type} (l l' : list A) :
  NoDup l -> incl l l' -> ~ NoDup l' -> (List.length l < List.length l')%nat.
Proof.
  intros Hl Hincl Hdup.
  pose proof (NoDup_incl_length Hl Hincl) as Hle.
  destruct (Nat.eq_dec (List.length l) (List.length l')) as [Heq|]; [|lia].
  contradict Hdup. apply NoDup_incl_NoDup with l; [assumption|lia|assumption].
Qed.

(** X4.  [areAllQuestionsAnswered] compares the number of answers with
    the number of questions.  In a session reachable from [createSession]:
    when the ids of the questions are distinct, it returns true exactly
    when every question has an answer; when two questions have the same
    id, it returns false whatever has been answered. *)
Theorem areAllQuestionsAnswered_spec uuid now jd qs ops s :
  steps (createSession uuid now jd qs) ops s ->
  (NoDup (map q_id qs) ->
   (areAllQuestionsAnswered s = true <-> all_answered s)) /\
  (~ NoDup (map q_id qs) -> areAllQuestionsAnswered s = false).
Proof.
  intros Hsteps.
  pose proof (maps_wf_steps _ _ _ _ _ _ Hsteps) as [Hwf _].
  pose proof (answer_keys_valid_steps _ _ _ _ _ _ Hsteps) as Hkeys.
  pose proof (steps_questions _ _ _ Hsteps) as Hq. simpl in Hq.
  assert (Hids : question_ids s = map q_id qs)
    by (unfold question_ids; now rewrite Hq).
  assert (Hsize : Map_size (answers s) = Z.of_nat (List.length (Map_keys (answers s)))).
  { unfold Map_size, Map_keys. now rewrite length_map. }
  assert (Hlen : length_of (questions s) = Z.of_nat (List.length (question_ids s))).
  { unfold length_of, question_ids. now rewrite length_map. }
  unfold areAllQuestionsAnswered. rewrite Hsize, Hlen.
  unfold answer_keys_valid in Hkeys. fold (incl (Map_keys (answers s)) (question_ids s)) in Hkeys.
  split.
  - intros Hnd. rewrite <- Hids in Hnd. rewrite Z.eqb_eq. split.
    + intros Heq q Hin. unfold getAnswer. apply Map_get_In.
      revert q Hin. apply NoDup_length_incl; [assumption|lia|assumption].
    + intros Hall. f_equal. apply Nat.le_antisymm.
      * now apply NoDup_incl_length.
      * apply NoDup_incl_length; [assumption|].
        intros q Hin. apply Map_get_In. now apply Hall.
  - intros Hdup. rewrite <- Hids in Hdup. apply Z.eqb_neq.
    pose proof (NoDup_length_lt _ _ Hwf Hkeys Hdup). lia.
Qed.

Lemma areAllQuestionsAnswered_spec_witness :
  (exists s,
     run mockSession
       [OpStoreAnswer "550e8400-e29b-41d4-a716-446655440001" "Closures";
        OpStoreAnswer "550e8400-e29b-41d4-a716-446655440002" "I led a migration";
        OpStoreAnswer "550e8400-e29b-41d4-a716-446655440003" "A queue and workers"]
     = Ok s /\ all_answered s)
  /\
  (exists s,
     run (createSession "550e8400-e29b-41d4-a716-446655440000" 1768467600000
            mockParsedJD (mockQuestions ++ mockQuestions))
       [OpStoreAnswer "550e8400-e29b-41d4-a716-446655440001" "Closures";
        OpStoreAnswer "550e8400-e29b-41d4-a716-446655440002" "I led a migration";
        OpStoreAnswer "550e8400-e29b-41d4-a716-446655440003" "A queue and workers"]
     = Ok s /\ areAllQuestionsAnswered s = false).
Proof.
  split.
  - eexists. split; [vm_compute; reflexivity|].
    match goal with |- all_answered ?s =>
      destruct (areAllQuestionsAnswered_spec
                  "550e8400-e29b-41d4-a716-446655440000" 1768467600000
                  mockParsedJD mockQuestions
                  [OpStoreAnswer "550e8400-e29b-41d4-a716-446655440001" "Closures";
                   OpStoreAnswer "550e8400-e29b-41d4-a716-446655440002"
                     "I led a migration";
                   OpStoreAnswer "550e8400-e29b-41d4-a716-446655440003"
                     "A queue and workers"] s) as [H _]
    end.
    + apply steps_run. vm_compute. reflexivity.
    + apply H; [|reflexivity].
      repeat constructor; simpl; intuition discriminate.
  - eexists. split; [vm_compute; reflexivity|].
    match goal with |- areAllQuestionsAnswered ?s = false =>
      destruct (areAllQuestionsAnswered_spec
                  "550e8400-e29b-41d4-a716-446655440000" 1768467600000
                  mockParsedJD (mockQuestions ++ mockQuestions)
                  [OpStoreAnswer "550e8400-e29b-41d4-a716-446655440001" "Closures";
                   OpStoreAnswer "550e8400-e29b-41d4-a716-446655440002"
                     "I led a migration";
                   OpStoreAnswer "550e8400-e29b-41d4-a716-446655440003"
                     "A queue and workers"] s) as [_ H]
    end.
    + apply steps_run. vm_compute. reflexivity.
    + apply H. intros Hnd. simpl in Hnd. inversion Hnd as [|x l Hin _]; subst.
      apply Hin. simpl. auto.
Defined.

Lemma array_get_range {A : Type} (l : list A) (i : Z) :
  array_get l i = None <-> ~ (0 <= i < length_of l).
Proof.
  unfold array_get, length_of. destruct (i <? 0) eqn:Hi.
  - apply Z.ltb_lt in Hi. split; [lia|reflexivity].
  - apply Z.ltb_ge in Hi. rewrite nth_error_None. lia.
Qed.

(** X5.  [getCurrentQuestion] indexes the questions with the cursor and
    checks nothing.  For a cursor that is an integer it returns
    [undefined] exactly when the cursor is outside the questions; in a
    session reachable from a [createSession] with a question, by
    operations whose indices are integers, it returns a question of the
    session.  For a cursor that is no integer it returns [undefined]:
    [setCurrentQuestionIndex] lets NaN and a fraction below the number of
    questions through, and the session it returns has no current
    question. *)
Theorem getCurrentQuestion_spec :
  (forall s, getCurrentQuestion s = None <-> ~ cursor_in_range s) /\
  (forall uuid now jd qs ops s,
     qs <> [] ->
     steps (createSession uuid now jd qs) ops s ->
     exists q, getCurrentQuestion s = Some q /\ In q qs) /\
  (forall s i,
     Numeric.getCurrentQuestion (Numeric.mkSession s (Numeric.of_Z i))
     = getCurrentQuestion (with_currentQuestionIndex s i)) /\
  (forall s c,
     Numeric.integer c = None ->
     Numeric.getCurrentQuestion (Numeric.mkSession s c) = None) /\
  (forall s c index,
     In index [Numeric.NaN; Numeric.Finite (mkNumber 5 (-1))] ->
     questions s <> [] ->
     exists s',
       Numeric.setCurrentQuestionIndex (Numeric.mkSession s c) index = Ok s' /\
       Numeric.cursor s' = index /\
       Numeric.getCurrentQuestion s' = None).
Proof.
  split; [|split; [|split; [|split]]].
  - intros s. apply array_get_range.
  - intros uuid now jd qs ops s Hqs Hsteps.
    pose proof (cursor_in_range_steps _ _ _ _ _ _ Hqs Hsteps) as Hc.
    pose proof (steps_questions _ _ _ Hsteps) as Hq. simpl in Hq.
    destruct (getCurrentQuestion s) as [q|] eqn:Hg.
    + exists q. split; [reflexivity|]. rewrite <- Hq.
      unfold getCurrentQuestion, array_get in Hg.
      destruct (_ <? 0); [discriminate|]. eapply nth_error_In; eauto.
    + apply array_get_range in Hg. contradiction.
  - intros s i. unfold Numeric.getCurrentQuestion. cbn [Numeric.cursor].
    now rewrite Numeric_integer_of_Z.
  - intros s c Hc. unfold Numeric.getCurrentQuestion. cbn [Numeric.cursor].
    now rewrite Hc.
  - intros s c index Hin Hqs.
    assert (Hlen : 1 <= length_of (questions s)).
    { unfold length_of. destruct (questions s); [contradiction|]. simpl. lia. }
    destruct Hin as [<-|[<-|[]]].
    + eexists. split; [reflexivity|]. split; reflexivity.
    + exists (Numeric.mkSession s (Numeric.Finite (mkNumber 5 (-1)))).
      split; [|split; reflexivity].
      unfold Numeric.setCurrentQuestionIndex. cbn [Numeric.fields].
      replace (Numeric.lt (Numeric.Finite (mkNumber 5 (-1))) (Numeric.of_Z 0))
        with false by reflexivity.
      replace (Numeric.ge (Numeric.Finite (mkNumber 5 (-1)))
                 (Numeric.of_Z (length_of (questions s)))) with false;
        [reflexivity|].
      symmetry. unfold Numeric.ge, Numeric.of_Z. cbn [Numeric.lt].
      apply negb_false_iff. unfold Numeric.number_ltb.
      destruct (number_of_Z_value (length_of (questions s))) as [He Hv].
      cbn [mant expo].
      replace (Z.min (-1) (expo (number_of_Z (length_of (questions s)))))
        with (-1) by lia.
      apply Z.ltb_lt.
      replace (expo (number_of_Z (length_of (questions s))) - -1)
        with (expo (number_of_Z (length_of (questions s))) + 1) by lia.
      rewrite Z.pow_add_r by lia. change (10 ^ (-1 - -1)) with 1.
      change (10 ^ 1) with 10. nia.
Qed.

Lemma getCurrentQuestion_spec_witness :
  exists s q,
    run mockSession [OpNextQuestion; OpNextQuestion; OpPreviousQuestion] = Ok s /\
    getCurrentQuestion s = Some q /\ In q mockQuestions.
Proof.
  destruct getCurrentQuestion_spec as [_ [H _]].
  eexists.
  match goal with |- exists q, run ?s0 ?ops = Ok ?s /\ _ =>
    assert (Hrun : run s0 ops = Ok s) by (vm_compute; reflexivity);
    destruct (H "550e8400-e29b-41d4-a716-446655440000" 1768467600000
                mockParsedJD mockQuestions ops s) as [q [Hq Hin]];
    [discriminate | apply steps_run; exact Hrun |
     exists q; split; [exact Hrun | split; [exact Hq | exact Hin]]]
  end.
Defined.

(** X6.  On a session whose cursor is an integer within the questions
    [nextQuestion] and [previousQuestion] undo each other: when one
    returns a session, the other returns the first session for it.  (The
    cursor of [InterviewSession] is an integer; on a fraction the sum and
    the difference are rounded, and the property is not stated.) *)
Theorem next_previous_inverse (s s' : InterviewSession) :
  cursor_in_range s ->
  (nextQuestion s = Ok s' -> previousQuestion s' = Ok s) /\
  (previousQuestion s = Ok s' -> nextQuestion s' = Ok s).
Proof.
  unfold cursor_in_range. intros Hc. split; intros H.
  - apply nextQuestion_Ok, setCurrentQuestionIndex_Ok in H as [Hi ->].
    unfold previousQuestion. cbn [currentQuestionIndex with_currentQuestionIndex].
    replace (currentQuestionIndex s + 1 - 1) with (currentQuestionIndex s) by lia.
    replace (currentQuestionIndex s <? 0) with false
      by (symmetry; apply Z.ltb_ge; lia).
    rewrite setCurrentQuestionIndex_in_range by (simpl; lia).
    destruct s; reflexivity.
  - apply previousQuestion_Ok, setCurrentQuestionIndex_Ok in H as [Hi ->].
    unfold nextQuestion. cbn [currentQuestionIndex with_currentQuestionIndex questions].
    replace (currentQuestionIndex s - 1 + 1) with (currentQuestionIndex s) by lia.
    replace (currentQuestionIndex s >=? length_of (questions s)) with false
      by (symmetry; rewrite Z.geb_leb; apply Z.leb_gt; lia).
    rewrite setCurrentQuestionIndex_in_range by (simpl; lia).
    destruct s; reflexivity.
Qed.

Lemma next_previous_inverse_witness :
  previousQuestion (with_currentQuestionIndex mockSession 1) = Ok mockSession.
Proof.
  apply (next_previous_inverse mockSession (with_currentQuestionIndex mockSession 1)).
  - unfold cursor_in_range, length_of. simpl. lia.
  - reflexivity.
Defined.

(** X7.  A complete session stays complete, and completion blocks
    nothing.  No call of the manager turns [isComplete] back to false or
    takes [completedAt] away; and every call but [completeSession] itself
    does on the completed session what it does on the session before its
    completion: it throws the same exception, or returns the same session,
    completed. *)
Theorem completion_is_permanent :
  (forall s ops s',
     steps s ops s' ->
     (isComplete s = true -> isComplete s' = true) /\
     (completedAt s <> None -> completedAt s' <> None))
  /\
  (forall now s op,
     (forall t, op <> OpCompleteSession t) ->
     apply_op (completeSession now s) op
     = result_map (completeSession now) (apply_op s op)).
Proof.
  split.
  - intros s ops s' Hsteps.
    induction Hsteps as [|s op s1 ops s2 Hop _ IH]; [auto|].
    apply apply_op_effect in Hop.
    assert (H1 : (isComplete s = true -> isComplete s1 = true) /\
                 (completedAt s <> None -> completedAt s1 <> None)).
    { destruct Hop; simpl; auto. split; [reflexivity|discriminate]. }
    tauto.
  - intros now s op Hop. destruct op; simpl; try reflexivity.
    + unfold storeAnswer. cbn [questions completeSession with_completion].
      destruct (negb _); reflexivity.
    + unfold setCurrentQuestionIndex. cbn [questions completeSession with_completion].
      destruct (_ || _); reflexivity.
    + now contradiction (Hop now0).
    + unfold nextQuestion, setCurrentQuestionIndex.
      cbn [questions currentQuestionIndex completeSession with_completion].
      destruct (_ >=? _); [reflexivity|]. destruct (_ || _); reflexivity.
    + unfold previousQuestion, setCurrentQuestionIndex.
      cbn [questions currentQuestionIndex completeSession with_completion].
      destruct (_ <? _); [reflexivity|]. destruct (_ || _); reflexivity.
Qed.

Lemma completion_is_permanent_witness :
  exists s,
    run (completeSession 1768471200000 mockSession)
      [OpStoreAnswer "550e8400-e29b-41d4-a716-446655440002" "I led a migration";
       OpNextQuestion; OpStoreSessionFeedback mockSessionFeedback] = Ok s /\
    isComplete s = true /\ completedAt s <> None /\
    apply_op (completeSession 1768471200000 mockSession) OpPreviousQuestion
    = Throw (mkExn Error "Already at the first question").
Proof.
  destruct completion_is_permanent as [Hperm Hfree].
  eexists.
  match goal with |- run ?s0 ?ops = Ok ?s /\ _ =>
    assert (Hrun : run s0 ops = Ok s) by (vm_compute; reflexivity);
    destruct (Hperm s0 ops s (steps_run _ _ _ Hrun)) as [H1 H2]
  end.
  split; [exact Hrun|]. split; [apply H1; reflexivity|].
  split; [apply H2; discriminate|].
  rewrite Hfree; [reflexivity|discriminate].
Defined.

Lemma set_twice_size {V : Type} (m : Map string V) (k1 k2 : string) (v1 v2 : V) :
  Map_wf m ->
  List.length (Map_set String.eqb k2 v2 (Map_set String.eqb k1 v1 m))
  = List.length (Map_set String.eqb k1 v1 (Map_set String.eqb k2 v2 m)).
Proof.
  intros Hwf.
  assert (Hkeys : forall (a b : Map string V),
            Map_wf a -> Map_wf b ->
            (forall x, In x (Map_keys a) <-> In x (Map_keys b)) ->
            List.length a = List.length b).
  { intros a b Ha Hb Hab.
    replace (List.length a) with (List.length (Map_keys a)) by apply length_map.
    replace (List.length b) with (List.length (Map_keys b)) by apply length_map.
    apply Nat.le_antisymm; apply NoDup_incl_length; try assumption;
      intros x Hx; now apply Hab. }
  apply Hkeys.
  - now do 2 apply (Map_set_wf String.eqb String.eqb_eq).
  - now do 2 apply (Map_set_wf String.eqb String.eqb_eq).
  - intros x. rewrite !(Map_keys_set String.eqb String.eqb_eq). tauto.
Qed.

(** X8.  Answers to different questions can be stored in either order:
    the two sessions give the same answer for every id and have as many
    answers (the order of the entries, which [serializeSession] writes,
    is the order of the calls).  Storing an answer and storing feedback
    can be done in either order, with the same session as the result. *)
Theorem stores_commute (s : InterviewSession) :
  (forall q1 a1 q2 a2,
     Map_wf (answers s) -> q1 <> q2 ->
     In q1 (question_ids s) -> In q2 (question_ids s) ->
     exists s12 s21,
       run s [OpStoreAnswer q1 a1; OpStoreAnswer q2 a2] = Ok s12 /\
       run s [OpStoreAnswer q2 a2; OpStoreAnswer q1 a1] = Ok s21 /\
       (forall k, getAnswer s12 k = getAnswer s21 k) /\
       Map_size (answers s12) = Map_size (answers s21) /\
       with_answers s12 (answers s21) = s21)
  /\
  (forall q a fb,
     storeAnswer (storeFeedback s fb) q a
     = result_map (fun s' => storeFeedback s' fb) (storeAnswer s q a)).
Proof.
  split.
  - intros q1 a1 q2 a2 Hwf Hneq H1 H2. cbn [run apply_op].
    rewrite (storeAnswer_known s q1 a1 H1), (storeAnswer_known s q2 a2 H2).
    cbn [bind].
    rewrite storeAnswer_known by exact H2.
    rewrite storeAnswer_known by exact H1.
    cbn [bind]. do 2 eexists. split; [reflexivity|]. split; [reflexivity|].
    unfold getAnswer. cbn [answers with_answers].
    rewrite (Map_new_entries String.eqb String.eqb_eq (answers s)) by assumption.
    rewrite !(Map_new_entries String.eqb String.eqb_eq)
      by now apply (Map_set_wf String.eqb String.eqb_eq).
    split; [|split].
    + intros k.
      destruct (String.eqb_spec k q1) as [->|Hk1];
        [|destruct (String.eqb_spec k q2) as [->|Hk2]].
      * rewrite (Map_get_set_other String.eqb String.eqb_eq) by congruence.
        now rewrite !(Map_get_set_same String.eqb String.eqb_eq).
      * rewrite (Map_get_set_same String.eqb String.eqb_eq).
        rewrite (Map_get_set_other String.eqb String.eqb_eq) by congruence.
        now rewrite (Map_get_set_same String.eqb String.eqb_eq).
      * rewrite !(Map_get_set_other String.eqb String.eqb_eq) by congruence.
        reflexivity.
    + unfold Map_size. f_equal. now apply set_twice_size.
    + reflexivity.
  - intros q a fb. unfold storeAnswer, storeFeedback.
    cbn [questions answers feedback with_feedback with_answers].
    destruct (negb _); reflexivity.
Qed.

Lemma stores_commute_witness :
  exists s12 s21,
    run mockSession
      [OpStoreAnswer "550e8400-e29b-41d4-a716-446655440001" "Closures";
       OpStoreAnswer "550e8400-e29b-41d4-a716-446655440002" "I led a migration"]
    = Ok s12 /\
    run mockSession
      [OpStoreAnswer "550e8400-e29b-41d4-a716-446655440002" "I led a migration";
       OpStoreAnswer "550e8400-e29b-41d4-a716-446655440001" "Closures"]
    = Ok s21 /\
    (forall k, getAnswer s12 k = getAnswer s21 k) /\
    Map_size (answers s12) = Map_size (answers s21) /\
    with_answers s12 (answers s21) = s21.
Proof.
  destruct (stores_commute mockSession) as [H _].
  apply H.
  - constructor.
  - discriminate.
  - simpl. auto.
  - simpl. auto.
Defined.

(** X9.  On the store of objects [storeFeedback] makes one new Map, a
    copy of the feedback of the session with the new entry, and writes
    that one only: every object of the store has the content it had, the
    session given has the content it had, and the session returned has the
    answers Map of the session given (the same object) and the content
    that [SessionManager.storeFeedback] computes. *)
Theorem storeFeedback_copies (st : Store.store) (o : Store.SessionObject)
    (s : InterviewSession) (fb : AnswerFeedback) :
  Store.contents st o = Some s ->
  exists st' o',
    Store.storeFeedback st o fb = (st', o') /\
    Store.contents st' o' = Some (storeFeedback s fb) /\
    Store.contents st' o = Some s /\
    Store.preserved st st' /\
    Store.answers_at o' = Store.answers_at o /\
    Store.answer_maps st' = Store.answer_maps st.
Proof.
  intros Hc.
  destruct (storeFeedback_refines st o s fb Hc) as [st' [o' [H1 [H2 [H3 H4]]]]].
  exists st', o'. repeat split; try assumption; try apply H4.
  - unfold Store.storeFeedback in H1.
    destruct (Store.new_Map _ _). now injection H1 as _ <-.
  - unfold Store.storeFeedback in H1.
    destruct (Store.new_Map _ _). now injection H1 as <- _.
Qed.

Lemma storeFeedback_copies_witness :
  exists st' o',
    Store.storeFeedback mockStore mockObject mockFeedback = (st', o') /\
    Store.contents st' o' = Some (storeFeedback mockSession mockFeedback) /\
    Store.contents st' mockObject = Some mockSession.
Proof.
  destruct (storeFeedback_copies mockStore mockObject mockSession mockFeedback
              eq_refl) as [st' [o' [H1 [H2 [H3 _]]]]].
  exists st', o'. auto.
Defined.

(** ** Further properties of the storage functions *)

(** *** The store *)

Lemma getItem_setItem_same (b b' : Browser) (k v : string) :
  setItem b k v = Ok b' -> getItem b' k = Some v.
Proof.
  unfold setItem, getItem. destruct (quota_exceeded _ _ _ _); [discriminate|].
  intros H. injection H as <-. simpl.
  apply (Map_get_set_same String.eqb String.eqb_eq).
Qed.

Lemma getItem_setItem_other (b b' : Browser) (k k' v : string) :
  setItem b k v = Ok b' -> k' <> k -> getItem b' k' = getItem b k'.
Proof.
  unfold setItem, getItem. destruct (quota_exceeded _ _ _ _); [discriminate|].
  intros H Hk. injection H as <-. simpl.
  apply (Map_get_set_other String.eqb String.eqb_eq). congruence.
Qed.

Lemma setItem_window (b b' : Browser) (k v : string) :
  setItem b k v = Ok b' ->
  window_defined b' = window_defined b /\ quota_exceeded b' = quota_exceeded b.
Proof.
  unfold setItem. destruct (quota_exceeded _ _ _ _); [discriminate|].
  intros H. injection H as <-. auto.
Qed.

Lemma setItem_throws (b : Browser) (k v : string) (e : Exn) :
  setItem b k v = Throw e -> is_QuotaExceededError e = true.
Proof.
  unfold setItem. destruct (quota_exceeded _ _ _ _); [|discriminate].
  intros H. injection H as <-. reflexivity.
Qed.

Lemma Map_get_filter_same {V : Type} (k : string) (m : Map string V) :
  Map_get String.eqb k (filter (fun kv => negb (fst kv =? k)%string) m) = None.
Proof.
  induction m as [|[k0 v0] m IH]; simpl; [reflexivity|].
  destruct (k0 =? k)%string eqn:Hk; simpl; [assumption|]. now rewrite Hk.
Qed.

Lemma Map_get_filter_other {V : Type} (k k' : string) (m : Map string V) :
  k' <> k ->
  Map_get String.eqb k' (filter (fun kv => negb (fst kv =? k)%string) m)
  = Map_get String.eqb k' m.
Proof.
  intros Hk. induction m as [|[k0 v0] m IH]; simpl; [reflexivity|].
  destruct (k0 =? k)%string eqn:Hk0; simpl.
  - apply String.eqb_eq in Hk0. subst k0.
    destruct (String.eqb_spec k k'); [congruence|assumption].
  - destruct (k0 =? k')%string; [reflexivity|assumption].
Qed.

Lemma getItem_removeItem_same (b : Browser) (k : string) :
  getItem (removeItem b k) k = None.
Proof. apply Map_get_filter_same. Qed.

Lemma getItem_removeItem_other (b : Browser) (k k' : string) :
  k' <> k -> getItem (removeItem b k) k' = getItem b k'.
Proof. apply Map_get_filter_other. Qed.

(** *** The keys *)

Lemma session_key_not_current (sid : string) :
  STORAGE_KEYS_session sid <> CURRENT_SESSION.
Proof. unfold STORAGE_KEYS_session, CURRENT_SESSION. simpl. discriminate. Qed.

Lemma session_key_not_history (sid : string) :
  STORAGE_KEYS_session sid <> SESSION_HISTORY.
Proof. unfold STORAGE_KEYS_session, SESSION_HISTORY. simpl. discriminate. Qed.

Lemma current_not_history : CURRENT_SESSION <> SESSION_HISTORY.
Proof. discriminate. Qed.

Lemma session_key_inj (a b : string) :
  STORAGE_KEYS_session a = STORAGE_KEYS_session b -> a = b.
Proof. unfold STORAGE_KEYS_session. simpl. intros H. now injection H. Qed.

(** *** The round trip of the codec, for the storage functions *)

Lemma deserialize_serialized (E : Engine) (s : InterviewSession) :
  id s <> "" -> timestamps_valid s -> session_wf s ->
  exists text,
    serializeSession s = Ok text /\ text <> "" /\
    deserializeSession E text = Ok (raw_of_session s).
Proof.
  intros Hid Hts Hwf.
  exists (JSON_stringify (session_json s)). split; [|split].
  - unfold serializeSession. now rewrite serializable_session_written.
  - unfold session_json. discriminate.
  - unfold deserializeSession.
    rewrite (deserialize_try_session_json E s); auto.
    apply JSON_parse_stringify. now apply session_json_wf.
Qed.

(** *** [serializeSession] and the invalid date *)

Lemma Date_toISOString_cases (d : Date) :
  (d = InvalidDate /\
   Date_toISOString d = Throw (mkExn RangeError "Invalid time value")) \/
  (d <> InvalidDate /\ exists iso, Date_toISOString d = Ok iso).
Proof.
  destruct d as [t|]; [right|left; auto].
  split; [discriminate|]. unfold Date_toISOString.
  destruct (civil_from_days (Day t)) as [[y m] dd]. eauto.
Qed.

Lemma serializable_feedback_cases (l : list (string * AnswerFeedback)) :
  (Exists (fun e => timestamp (snd e) = InvalidDate) l /\
   map_result serializable_feedback_entry l
   = Throw (mkExn RangeError "Invalid time value")) \/
  (~ Exists (fun e => timestamp (snd e) = InvalidDate) l /\
   exists js, map_result serializable_feedback_entry l = Ok js).
Proof.
  induction l as [|[k fb] l IH].
  - right. split; [intros H; inversion H|]. simpl. eauto.
  - cbn [map_result serializable_feedback_entry].
    destruct (Date_toISOString_cases (timestamp fb)) as [[Hd Hi]|[Hd [iso Hi]]];
      rewrite Hi; cbn [bind].
    + left. split; [|reflexivity]. now left.
    + destruct IH as [[Hex Hm]|[Hex [js Hm]]]; rewrite Hm; cbn [bind].
      * left. split; [|reflexivity]. now right.
      * right. split; [|eauto].
        intros H. inversion H; subst; auto.
Qed.

Lemma serializeSession_cases (s : InterviewSession) :
  (has_invalid_timestamp s /\
   serializeSession s = Throw (mkExn RangeError "Invalid time value")) \/
  (~ has_invalid_timestamp s /\ exists text, serializeSession s = Ok text).
Proof.
  unfold serializeSession, serializable_session, has_invalid_timestamp, Map_entries.
  destruct (serializable_feedback_cases (feedback s)) as [[Hf Hm]|[Hf [js Hm]]];
    rewrite Hm; cbn [bind]; [left; tauto|].
  destruct (Date_toISOString_cases (createdAt s)) as [[Hc Hi]|[Hc [iso Hi]]];
    rewrite Hi; cbn [bind]; [left; tauto|].
  destruct (completedAt s) as [d|].
  - destruct (Date_toISOString_cases d) as [[Hd Hj]|[Hd [iso' Hj]]];
      rewrite Hj; cbn [bind].
    + left. subst d. tauto.
    + right. split; [|eauto]. intros [H|[H|H]]; try contradiction.
      injection H as H. contradiction.
  - cbn [bind]. right. split; [|eauto].
    intros [H|[H|H]]; try contradiction. discriminate.
Qed.

(** X10.  [serializeSession] throws exactly when one of the dates of the
    session (creation, completion, the timestamp of a feedback) is the
    invalid date, and what it throws is the [RangeError] of
    [toISOString]; for every other session it returns a text. *)
Theorem serializeSession_throws (s : InterviewSession) :
  (has_invalid_timestamp s <->
   serializeSession s = Throw (mkExn RangeError "Invalid time value")) /\
  (~ has_invalid_timestamp s <-> exists text, serializeSession s = Ok text).
Proof.
  destruct (serializeSession_cases s) as [[H1 H2]|[H1 [text H2]]]; rewrite H2.
  - split; split; try tauto. intros [t Ht]. discriminate.
  - split; split; try tauto; try discriminate. eauto.
Qed.

(** *** [saveSession] and [loadSession] *)

Lemma saveSession_written (b : Browser) (s : InterviewSession) (text : string) :
  window_defined b = true ->
  serializeSession s = Ok text ->
  quota_exceeded b (localStorage b) (STORAGE_KEYS_session (id s)) text = false ->
  quota_exceeded b
    (Map_set String.eqb (STORAGE_KEYS_session (id s)) text (localStorage b))
    CURRENT_SESSION (id s) = false ->
  exists b',
    saveSession b s = (b', Ok tt) /\
    window_defined b' = true /\
    getItem b' (STORAGE_KEYS_session (id s)) = Some text /\
    getItem b' CURRENT_SESSION = Some (id s) /\
    (forall k, k <> STORAGE_KEYS_session (id s) -> k <> CURRENT_SESSION ->
               getItem b' k = getItem b k).
Proof.
  intros Hw Hser Hq1 Hq2. unfold saveSession. rewrite Hw, Hser. cbn [negb].
  destruct (setItem b (STORAGE_KEYS_session (id s)) text) as [b1|e] eqn:H1.
  2:{ unfold setItem in H1. rewrite Hq1 in H1. discriminate. }
  assert (Hb1 : localStorage b1
                = Map_set String.eqb (STORAGE_KEYS_session (id s)) text (localStorage b)
                /\ quota_exceeded b1 = quota_exceeded b).
  { unfold setItem in H1. rewrite Hq1 in H1. injection H1 as <-. auto. }
  destruct (setItem b1 CURRENT_SESSION (id s)) as [b2|e] eqn:H2.
  2:{ unfold setItem in H2. destruct Hb1 as [Hl Hq]. rewrite Hl, Hq, Hq2 in H2.
      discriminate. }
  exists b2. split; [reflexivity|].
  destruct (setItem_window _ _ _ _ H1) as [Hw1 _].
  destruct (setItem_window _ _ _ _ H2) as [Hw2 _].
  split; [congruence|]. split; [|split].
  - rewrite (getItem_setItem_other _ _ _ _ _ H2) by apply session_key_not_current.
    exact (getItem_setItem_same _ _ _ _ H1).
  - exact (getItem_setItem_same _ _ _ _ H2).
  - intros k Hk1 Hk2.
    rewrite (getItem_setItem_other _ _ _ _ _ H2) by assumption.
    now rewrite (getItem_setItem_other _ _ _ _ _ H1).
Qed.

(** X11.  A session saved is the session loaded.  In a browser that
    takes the two writes, [saveSession] of a session with an identifier
    and valid dates (and, as every [InterviewSession] of this development,
    an integer cursor and finite numbers: JSON has no NaN and no infinity,
    and writes [null] for them) returns without an exception; after it [loadSession]
    returns, for the identifier of the session, the session that was
    saved, [getCurrentSessionId] returns that identifier and
    [loadCurrentSession] the session. *)
Theorem saveSession_loadSession (E : Engine) (b : Browser) (s : InterviewSession)
    (text : string) :
  window_defined b = true ->
  id s <> "" -> timestamps_valid s -> session_wf s ->
  serializeSession s = Ok text ->
  quota_exceeded b (localStorage b) (STORAGE_KEYS_session (id s)) text = false ->
  quota_exceeded b
    (Map_set String.eqb (STORAGE_KEYS_session (id s)) text (localStorage b))
    CURRENT_SESSION (id s) = false ->
  exists b',
    saveSession b s = (b', Ok tt) /\
    loadSession E b' (id s) = Some (raw_of_session s) /\
    as_InterviewSession (raw_of_session s) = Some s /\
    getCurrentSessionId b' = Some (id s) /\
    loadCurrentSession E b' = Some (raw_of_session s).
Proof.
  intros Hw Hid Hts Hwf Hser Hq1 Hq2.
  destruct (saveSession_written b s text Hw Hser Hq1 Hq2)
    as [b' [Hsave [Hw' [Hkey [Hcur _]]]]].
  destruct (deserialize_serialized E s Hid Hts Hwf) as [text' [Hser' [Hne Hde]]].
  assert (text' = text) by congruence. subst text'.
  assert (Hload : loadSession E b' (id s) = Some (raw_of_session s)).
  { unfold loadSession. rewrite Hw', Hkey. cbn [negb].
    destruct (String.eqb_spec text ""); [contradiction|]. now rewrite Hde. }
  exists b'. split; [exact Hsave|]. split; [exact Hload|].
  split; [apply as_InterviewSession_raw|].
  unfold loadCurrentSession, getCurrentSessionId. rewrite Hw', Hcur. cbn [negb].
  split; [reflexivity|].
  destruct (String.eqb_spec (id s) ""); [contradiction|]. exact Hload.
Qed.

Lemma saveSession_loadSession_witness :
  exists b',
    saveSession freshBrowser sampleSession = (b', Ok tt) /\
    loadSession reference_engine b' (id sampleSession)
    = Some (raw_of_session sampleSession) /\
    getCurrentSessionId b' = Some "550e8400-e29b-41d4-a716-446655440000".
Proof.
  destruct (saveSession_loadSession reference_engine freshBrowser sampleSession
              (JSON_stringify (session_json sampleSession)))
    as [b' [H1 [H2 [_ [H3 _]]]]].
  - reflexivity.
  - discriminate.
  - unfold timestamps_valid, valid_date, maxTime. simpl. split; [|split].
    + eexists. split; [reflexivity|lia].
    + intros d H. injection H as <-. eexists. split; [reflexivity|lia].
    + repeat constructor. eexists. split; [reflexivity|]. simpl. lia.
  - split; [|split; [|split]].
    + repeat constructor; simpl; intuition discriminate.
    + repeat constructor; simpl; intuition discriminate.
    + repeat constructor.
    + intros f H. injection H as <-. repeat split.
  - vm_compute. reflexivity.
  - reflexivity.
  - reflexivity.
  - exists b'. auto.
Defined.

(** X12.  How [saveSession] fails, and what it leaves.  Without
    [window] it throws and writes nothing.  For a session with an invalid
    date it throws the [RangeError] of [toISOString] and writes nothing.
    When the store refuses the text of the session it throws the quota
    error and writes nothing.  When the store takes the text and refuses
    the identifier of the current session, it throws the quota error and
    the text of the session stays written, while the current-session
    entry is the one of before. *)
Theorem saveSession_failures (b : Browser) (s : InterviewSession) :
  (window_defined b = false ->
   saveSession b s
   = (b, Throw (mkExn Error "Local storage is not available in server-side context")))
  /\
  (window_defined b = true -> has_invalid_timestamp s ->
   saveSession b s = (b, Throw (mkExn RangeError "Invalid time value")))
  /\
  (forall text,
     window_defined b = true -> serializeSession s = Ok text ->
     quota_exceeded b (localStorage b) (STORAGE_KEYS_session (id s)) text = true ->
     saveSession b s
     = (b, Throw (mkExn Error "Failed to save session: Local storage quota exceeded")))
  /\
  (forall text,
     window_defined b = true -> serializeSession s = Ok text ->
     quota_exceeded b (localStorage b) (STORAGE_KEYS_session (id s)) text = false ->
     quota_exceeded b
       (Map_set String.eqb (STORAGE_KEYS_session (id s)) text (localStorage b))
       CURRENT_SESSION (id s) = true ->
     exists b1,
       saveSession b s
       = (b1, Throw (mkExn Error "Failed to save session: Local storage quota exceeded"))
       /\ getItem b1 (STORAGE_KEYS_session (id s)) = Some text
       /\ (forall k, k <> STORAGE_KEYS_session (id s) -> getItem b1 k = getItem b k)).
Proof.
  split; [|split; [|split]].
  - intros Hw. unfold saveSession. now rewrite Hw.
  - intros Hw Hinv. unfold saveSession. rewrite Hw. cbn [negb].
    destruct (serializeSession_cases s) as [[_ Hs]|[Hn _]]; [|contradiction].
    now rewrite Hs.
  - intros text Hw Hser Hq. unfold saveSession, setItem.
    rewrite Hw, Hser, Hq. reflexivity.
  - intros text Hw Hser Hq1 Hq2. unfold saveSession. rewrite Hw, Hser. cbn [negb].
    destruct (setItem b (STORAGE_KEYS_session (id s)) text) as [b1|e] eqn:H1.
    2:{ unfold setItem in H1. rewrite Hq1 in H1. discriminate. }
    exists b1.
    assert (H2 : setItem b1 CURRENT_SESSION (id s)
                 = Throw (mkExn Error "The quota has been exceeded.")).
    { unfold setItem in *. rewrite Hq1 in H1. injection H1 as <-. simpl.
      now rewrite Hq2. }
    rewrite H2. split; [reflexivity|]. split.
    + exact (getItem_setItem_same _ _ _ _ H1).
    + intros k Hk. now apply (getItem_setItem_other _ _ _ _ _ H1).
Qed.

Lemma saveSession_failures_witness :
  saveSession serverSide mockSession
  = (serverSide,
     Throw (mkExn Error "Local storage is not available in server-side context"))
  /\ saveSession freshBrowser undatedSession
     = (freshBrowser, Throw (mkExn RangeError "Invalid time value"))
  /\ saveSession fullBrowser mockSession
     = (fullBrowser,
        Throw (mkExn Error "Failed to save session: Local storage quota exceeded"))
  /\ exists b1,
       saveSession (smallBrowser (String.length (JSON_stringify (session_json mockSession))))
         mockSession
       = (b1, Throw (mkExn Error "Failed to save session: Local storage quota exceeded"))
       /\ getItem b1 (STORAGE_KEYS_session (id mockSession))
          = Some (JSON_stringify (session_json mockSession)).
Proof.
  split; [|split; [|split]].
  - apply (saveSession_failures serverSide mockSession). reflexivity.
  - apply (saveSession_failures freshBrowser undatedSession).
    + reflexivity.
    + left. reflexivity.
  - apply (saveSession_failures fullBrowser mockSession)
      with (text := JSON_stringify (session_json mockSession)).
    + reflexivity.
    + vm_compute. reflexivity.
    + reflexivity.
  - destruct (saveSession_failures
                (smallBrowser (String.length (JSON_stringify (session_json mockSession))))
                mockSession) as [_ [_ [_ H]]].
    destruct (H (JSON_stringify (session_json mockSession))) as [b1 [H1 [H2 _]]].
    + reflexivity.
    + vm_compute. reflexivity.
    + vm_compute. reflexivity.
    + vm_compute. reflexivity.
    + exists b1. auto.
Defined.

(** *** What the functions read *)

Lemma loadSession_reads (E : Engine) (b b' : Browser) (sid : string) :
  window_defined b' = window_defined b ->
  getItem b' (STORAGE_KEYS_session sid) = getItem b (STORAGE_KEYS_session sid) ->
  loadSession E b' sid = loadSession E b sid.
Proof. intros Hw Hk. unfold loadSession. now rewrite Hw, Hk. Qed.

Lemma getCurrentSessionId_reads (b b' : Browser) :
  window_defined b' = window_defined b ->
  getItem b' CURRENT_SESSION = getItem b CURRENT_SESSION ->
  getCurrentSessionId b' = getCurrentSessionId b.
Proof. intros Hw Hk. unfold getCurrentSessionId. now rewrite Hw, Hk. Qed.

Lemma getSessionHistory_reads (E : Engine) (b b' : Browser) :
  window_defined b' = window_defined b ->
  getItem b' SESSION_HISTORY = getItem b SESSION_HISTORY ->
  getSessionHistory E b' = getSessionHistory E b.
Proof. intros Hw Hk. unfold getSessionHistory. now rewrite Hw, Hk. Qed.

Lemma same_but_refl (keys : list string) (b : Browser) : same_but keys b b.
Proof. split; auto. Qed.

Lemma same_but_setItem (b b' : Browser) (k v : string) :
  setItem b k v = Ok b' -> same_but [k] b b'.
Proof.
  intros H. split; [apply (setItem_window _ _ _ _ H)|].
  intros k' Hk. apply (getItem_setItem_other _ _ _ _ _ H). simpl in Hk. intuition.
Qed.

Lemma same_but_removeItem (b : Browser) (k : string) :
  same_but [k] b (removeItem b k).
Proof.
  split; [reflexivity|].
  intros k' Hk. apply getItem_removeItem_other. simpl in Hk. intuition.
Qed.

Lemma same_but_trans (k1 k2 : list string) (b1 b2 b3 : Browser) :
  same_but k1 b1 b2 -> same_but k2 b2 b3 -> same_but (k1 ++ k2) b1 b3.
Proof.
  intros [Hw1 H1] [Hw2 H2]. split; [congruence|].
  intros k Hk. rewrite H2, H1; auto; intros Hin; apply Hk, in_or_app; auto.
Qed.

Lemma same_but_weaken (k1 k2 : list string) (b b' : Browser) :
  incl k1 k2 -> same_but k1 b b' -> same_but k2 b b'.
Proof. intros Hincl [Hw H]. split; [assumption|]. intros k Hk. apply H. auto. Qed.

Lemma saveSession_same_but (b : Browser) (s : InterviewSession) :
  same_but [STORAGE_KEYS_session (id s); CURRENT_SESSION] b (fst (saveSession b s)).
Proof.
  unfold saveSession. destruct (negb (window_defined b)); [apply same_but_refl|].
  destruct (serializeSession s) as [text|e]; [|apply same_but_refl].
  destruct (setItem b _ text) as [b1|e] eqn:H1; [|apply same_but_refl].
  apply same_but_setItem in H1.
  destruct (setItem b1 CURRENT_SESSION (id s)) as [b2|e] eqn:H2; cbn [fst].
  - apply same_but_setItem in H2.
    exact (same_but_trans _ _ _ _ _ H1 H2).
  - eapply same_but_weaken; [|exact H1]. intros k [<-|[]]. now left.
Qed.

Lemma saveSessionToHistory_same_but (E : Engine) (b : Browser) (s : InterviewSession) :
  same_but [SESSION_HISTORY] b (saveSessionToHistory E b s).
Proof.
  unfold saveSessionToHistory.
  destruct (negb (window_defined b)); [apply same_but_refl|].
  destruct (saveSessionToHistory_try E b s) as [b'|e] eqn:Htry; [|apply same_but_refl].
  unfold saveSessionToHistory_try in Htry.
  destruct (getSessionHistory E b) as [| | | |history|]; try discriminate.
  destruct (findIndex_id E (id s) history 0) as [idx|]; [|discriminate].
  cbn [bind] in Htry.
  destruct (historyEntry s) as [entry|]; [|discriminate].
  cbn [bind] in Htry. now apply same_but_setItem in Htry.
Qed.

(** X13.  The functions that save write their own keys only.
    [saveSession] leaves every entry of the store but the entry of the
    session and the current-session entry as it was: the other sessions
    load as before and the history is the same.  [saveSessionToHistory]
    leaves every entry but the history: every session loads as before and
    the current session is the same.  No identifier makes the key of a
    session one of the two fixed keys, and different identifiers make
    different keys. *)
Theorem saves_write_their_keys (E : Engine) (b : Browser) (s : InterviewSession) :
  (forall k, k <> STORAGE_KEYS_session (id s) -> k <> CURRENT_SESSION ->
             getItem (fst (saveSession b s)) k = getItem b k) /\
  (forall sid, sid <> id s ->
               loadSession E (fst (saveSession b s)) sid = loadSession E b sid) /\
  getSessionHistory E (fst (saveSession b s)) = getSessionHistory E b /\
  (forall k, k <> SESSION_HISTORY ->
             getItem (saveSessionToHistory E b s) k = getItem b k) /\
  (forall sid, loadSession E (saveSessionToHistory E b s) sid = loadSession E b sid) /\
  getCurrentSessionId (saveSessionToHistory E b s) = getCurrentSessionId b /\
  (forall sid, STORAGE_KEYS_session sid <> CURRENT_SESSION /\
               STORAGE_KEYS_session sid <> SESSION_HISTORY) /\
  (forall sid sid', STORAGE_KEYS_session sid = STORAGE_KEYS_session sid' -> sid = sid').
Proof.
  destruct (saveSession_same_but b s) as [Hw1 H1].
  destruct (saveSessionToHistory_same_but E b s) as [Hw2 H2].
  split; [|split; [|split; [|split; [|split; [|split; [|split]]]]]].
  - intros k Hk1 Hk2. apply H1. simpl. intuition.
  - intros sid Hsid. apply loadSession_reads; [assumption|]. apply H1.
    pose proof (session_key_not_current sid) as Hcur.
    simpl. intros [Hk|[Hk|[]]]; [|congruence].
    apply session_key_inj in Hk. congruence.
  - apply getSessionHistory_reads; [assumption|]. apply H1.
    pose proof (session_key_not_history (id s)) as Hk1.
    pose proof current_not_history as Hk2.
    simpl. intros [Hk|[Hk|[]]]; congruence.
  - intros k Hk. apply H2. simpl. intuition.
  - intros sid. apply loadSession_reads; [assumption|]. apply H2.
    pose proof (session_key_not_history sid). simpl. intuition.
  - apply getCurrentSessionId_reads; [assumption|]. apply H2.
    pose proof current_not_history. simpl. intuition.
  - intros sid. split; [apply session_key_not_current|apply session_key_not_history].
  - apply session_key_inj.
Qed.

Lemma deleteSession_same_but (b : Browser) (sid : string) :
  same_but [STORAGE_KEYS_session sid] b (deleteSession b sid).
Proof.
  unfold deleteSession. destruct (negb (window_defined b));
    [apply same_but_refl|apply same_but_removeItem].
Qed.

Lemma loadSession_deleted (E : Engine) (b : Browser) (sid : string) :
  loadSession E (deleteSession b sid) sid = None.
Proof.
  unfold loadSession, deleteSession.
  destruct (window_defined b) eqn:Hw; cbn [negb]; [|now rewrite Hw].
  rewrite getItem_removeItem_same.
  now destruct (negb _).
Qed.

(** X14.  [deleteSession] removes the entry of one session and nothing
    else: [loadSession] then returns [null] for that identifier and what
    it returned before for every other one; the history and the
    current-session entry are as they were, so that after the deletion of
    the current session [getCurrentSessionId] still returns its identifier
    while [loadCurrentSession] returns [null].  [clearCurrentSession]
    removes the current-session entry and nothing else: every session
    loads as before. *)
Theorem removals_spec (E : Engine) (b : Browser) (sid : string) :
  loadSession E (deleteSession b sid) sid = None /\
  (forall sid', sid' <> sid ->
     loadSession E (deleteSession b sid) sid' = loadSession E b sid') /\
  getSessionHistory E (deleteSession b sid) = getSessionHistory E b /\
  getCurrentSessionId (deleteSession b sid) = getCurrentSessionId b /\
  (getCurrentSessionId b = Some sid ->
   loadCurrentSession E (deleteSession b sid) = None) /\
  getCurrentSessionId (clearCurrentSession b) = None /\
  loadCurrentSession E (clearCurrentSession b) = None /\
  (forall sid', loadSession E (clearCurrentSession b) sid' = loadSession E b sid') /\
  getSessionHistory E (clearCurrentSession b) = getSessionHistory E b.
Proof.
  destruct (deleteSession_same_but b sid) as [Hw H].
  assert (Hcur : getCurrentSessionId (deleteSession b sid) = getCurrentSessionId b).
  { apply getCurrentSessionId_reads; [assumption|]. apply H.
    pose proof (session_key_not_current sid). simpl. intuition. }
  assert (Hclear : same_but [CURRENT_SESSION] b (clearCurrentSession b)).
  { unfold clearCurrentSession. destruct (negb (window_defined b));
      [apply same_but_refl|apply same_but_removeItem]. }
  assert (Hnone : getCurrentSessionId (clearCurrentSession b) = None).
  { unfold getCurrentSessionId, clearCurrentSession.
    destruct (window_defined b) eqn:Hwb; cbn [negb]; [|now rewrite Hwb].
    rewrite getItem_removeItem_same. now destruct (negb _). }
  destruct Hclear as [Hwc Hc].
  split; [apply loadSession_deleted|].
  split; [|split; [|split; [|split; [|split; [|split; [|split]]]]]].
  - intros sid' Hsid. apply loadSession_reads; [assumption|]. apply H.
    simpl. intros [Hk|[]]. apply session_key_inj in Hk. congruence.
  - apply getSessionHistory_reads; [assumption|]. apply H.
    pose proof (session_key_not_history sid). simpl. intuition.
  - exact Hcur.
  - intros Hb. unfold loadCurrentSession. rewrite Hcur, Hb.
    destruct (sid =? "")%string; [reflexivity|apply loadSession_deleted].
  - exact Hnone.
  - unfold loadCurrentSession. now rewrite Hnone.
  - intros sid'. apply loadSession_reads; [assumption|]. apply Hc.
    pose proof (session_key_not_current sid'). simpl. intuition.
  - apply getSessionHistory_reads; [assumption|]. apply Hc.
    pose proof current_not_history. simpl. intuition.
Qed.

Lemma removals_spec_witness :
  exists b',
    saveSession freshBrowser sampleSession = (b', Ok tt) /\
    getCurrentSessionId (deleteSession b' (id sampleSession))
    = Some (id sampleSession) /\
    loadCurrentSession reference_engine (deleteSession b' (id sampleSession)) = None.
Proof.
  eexists. split; [vm_compute; reflexivity|].
  match goal with |- getCurrentSessionId (deleteSession ?b ?sid) = _ /\ _ =>
    destruct (removals_spec reference_engine b sid) as [_ [_ [_ [H1 [H2 _]]]]]
  end.
  split.
  - rewrite H1. reflexivity.
  - apply H2. reflexivity.
Defined.

(** *** [clearAllSessions] *)

Lemma deleteSession_getItem (b : Browser) (sid k : string) :
  window_defined b = true ->
  window_defined (deleteSession b sid) = true /\
  getItem (deleteSession b sid) k
  = if (k =? STORAGE_KEYS_session sid)%string then None else getItem b k.
Proof.
  intros Hw. unfold deleteSession. rewrite Hw. cbn [negb]. split; [exact Hw|].
  destruct (String.eqb_spec k (STORAGE_KEYS_session sid)) as [->|Hk].
  - apply getItem_removeItem_same.
  - now apply getItem_removeItem_other.
Qed.

Lemma JSValue_eq_null (v : JSValue) : v = JNull \/ v <> JNull.
Proof. destruct v; [now left|right; discriminate..]. Qed.

Lemma deleteSession_entry_converts (E : Engine) (b : Browser) (entry : JSValue) :
  id_converts entry = true ->
  deleteSession_entry E b (field entry "id")
  = (if negb (window_defined b) then b else removeItem b (entry_key entry), Ok tt).
Proof.
  unfold id_converts, deleteSession_entry, entry_key, template_string,
    ToString_or_throw.
  intros H. destruct (window_defined b); cbn [negb]; [|reflexivity].
  destruct (field entry "id") as [x|]; [now rewrite H|reflexivity].
Qed.

Lemma deleteSession_entry_throws (E : Engine) (b : Browser) (entry : JSValue) :
  window_defined b = true -> id_converts entry = false ->
  deleteSession_entry E b (field entry "id")
  = (b, Throw (mkExn TypeError (type_error_message E NoPrimitiveValue))).
Proof.
  unfold id_converts, deleteSession_entry, template_string, ToString_or_throw.
  intros Hw H. rewrite Hw. cbn [negb].
  destruct (field entry "id") as [x|]; [now rewrite H|discriminate].
Qed.

Lemma forEach_deleteSession_entries (E : Engine) (history : list JSValue) :
  Forall (fun e => e <> JNull /\ id_converts e = true) history ->
  forall b,
    window_defined b = true ->
    exists b1,
      forEach_deleteSession E b history = (b1, Ok tt) /\
      window_defined b1 = true /\
      forall k,
        getItem b1 k
        = if existsb (String.eqb k) (map entry_key history) then None
          else getItem b k.
Proof.
  induction 1 as [|entry rest [Hentry Hconv] _ IH]; intros b Hw.
  - exists b. cbn. auto.
  - cbn [forEach_deleteSession]. rewrite get_property_field by assumption.
    rewrite deleteSession_entry_converts by assumption. rewrite Hw. cbn [negb].
    assert (Hw' : window_defined (removeItem b (entry_key entry)) = true)
      by exact Hw.
    destruct (IH _ Hw') as [b1 [H1 [Hw1 Hget]]].
    exists b1. split; [exact H1|]. split; [exact Hw1|].
    intros k. rewrite Hget. cbn [map existsb].
    destruct (String.eqb_spec k (entry_key entry)) as [->|Hk]; cbn [orb].
    + rewrite getItem_removeItem_same. now destruct (existsb _ _).
    + now rewrite getItem_removeItem_other.
Qed.

Lemma forEach_deleteSession_app (E : Engine) (l1 l2 : list JSValue) (b : Browser) :
  forEach_deleteSession E b (l1 ++ l2)
  = match forEach_deleteSession E b l1 with
    | (b1, Ok _) => forEach_deleteSession E b1 l2
    | (b1, Throw e) => (b1, Throw e)
    end.
Proof.
  revert b. induction l1 as [|entry l1 IH]; intros b; [reflexivity|].
  cbn [app forEach_deleteSession].
  destruct (get_property E (Some entry) "id") as [entry_id|]; [|reflexivity].
  destruct (deleteSession_entry E b entry_id) as [b1 [u|e]]; [apply IH|reflexivity].
Qed.

Lemma existsb_eqb_In (k : string) (l : list string) :
  existsb (String.eqb k) l = true <-> In k l.
Proof.
  rewrite existsb_exists. split.
  - intros [x [Hin Hx]]. apply String.eqb_eq in Hx. now subst.
  - intros Hin. exists k. split; [assumption|apply String.eqb_refl].
Qed.

(** X15.  [clearAllSessions] removes the sessions that the history
    lists, then the history and the current-session entry.  The key of a
    session is made of the [id] of its entry by a template literal, which
    throws a [TypeError] for an [id] that is an object with a property
    [toString] of its own.  When the stored history is a list without
    [null] whose ids can be made strings: the function returns, the
    history is then empty, there is no current session, no session of an
    entry of the history loads any more, and every other entry of the
    store is as it was, a session that was saved and is not in the history
    among them.  When the list has a [null], or an entry whose [id] cannot
    be made a string, the [TypeError] leaves the function at the first
    such entry: the sessions of the entries before it are removed, the
    history and the current-session entry stay.  When the stored history
    is not a list, the function throws a [TypeError] and removes
    nothing. *)
Theorem clearAllSessions_spec (E : Engine) (b : Browser) :
  window_defined b = true ->
  (forall history,
     getSessionHistory E b = JArray history ->
     Forall (fun e => e <> JNull /\ id_converts e = true) history ->
     exists b',
       clearAllSessions E b = (b', Ok tt) /\
       getSessionHistory E b' = JArray [] /\
       getCurrentSessionId b' = None /\
       (forall entry sid,
          In entry history -> field entry "id" = Some (JString sid) ->
          loadSession E b' sid = None) /\
       (forall k,
          k <> SESSION_HISTORY -> k <> CURRENT_SESSION ->
          ~ In k (map entry_key history) -> getItem b' k = getItem b k))
  /\
  (forall before bad after,
     getSessionHistory E b = JArray (before ++ bad :: after) ->
     Forall (fun e => e <> JNull /\ id_converts e = true) before ->
     bad = JNull \/ id_converts bad = false ->
     exists b1,
       clearAllSessions E b
       = (b1, Throw (mkExn TypeError
                       (type_error_message E
                          match bad with
                          | JNull => ReadPropertyOfNull "id"
                          | _ => NoPrimitiveValue
                          end)))
       /\ getItem b1 SESSION_HISTORY = getItem b SESSION_HISTORY
       /\ getItem b1 CURRENT_SESSION = getItem b CURRENT_SESSION
       /\ (forall entry, In entry before -> getItem b1 (entry_key entry) = None))
  /\
  ((forall history, getSessionHistory E b <> JArray history) ->
   exists e, clearAllSessions E b = (b, Throw e) /\ exn_class e = TypeError).
Proof.
  intros Hw. split; [|split].
  - intros history Hhist Hnull. unfold clearAllSessions. rewrite Hw, Hhist. cbn [negb].
    destruct (forEach_deleteSession_entries E history Hnull b Hw)
      as [b1 [H1 [Hw1 Hget]]].
    rewrite H1. eexists. split; [reflexivity|].
    set (b' := removeItem (removeItem b1 SESSION_HISTORY) CURRENT_SESSION).
    assert (Hw' : window_defined b' = true) by exact Hw1.
    assert (Hhist' : getItem b' SESSION_HISTORY = None).
    { unfold b'. rewrite getItem_removeItem_other
        by (intros H; symmetry in H; now apply current_not_history in H).
      apply getItem_removeItem_same. }
    assert (Hcur' : getItem b' CURRENT_SESSION = None)
      by apply getItem_removeItem_same.
    assert (Hother : forall k, k <> SESSION_HISTORY -> k <> CURRENT_SESSION ->
                               getItem b' k = getItem b1 k).
    { intros k Hk1 Hk2. unfold b'.
      now rewrite !getItem_removeItem_other by assumption. }
    split; [|split; [|split]].
    + unfold getSessionHistory. now rewrite Hw', Hhist'.
    + unfold getCurrentSessionId. now rewrite Hw', Hcur'.
    + intros entry sid Hin Hid. unfold loadSession. rewrite Hw'. cbn [negb].
      rewrite Hother
        by (apply session_key_not_history || apply session_key_not_current).
      rewrite Hget.
      replace (existsb _ _) with true; [reflexivity|].
      symmetry. apply existsb_eqb_In, in_map_iff. exists entry.
      split; [|assumption]. unfold entry_key. now rewrite Hid.
    + intros k Hk1 Hk2 Hk3. rewrite Hother by assumption. rewrite Hget.
      destruct (existsb _ _) eqn:Hex; [|reflexivity].
      apply existsb_eqb_In in Hex. contradiction.
  - intros before bad after Hhist Hgood Hbad. unfold clearAllSessions.
    rewrite Hw, Hhist. cbn [negb].
    destruct (forEach_deleteSession_entries E before Hgood b Hw)
      as [b1 [H1 [Hw1 Hget]]].
    rewrite forEach_deleteSession_app, H1. cbn [forEach_deleteSession].
    exists b1. split.
    { destruct (JSValue_eq_null bad) as [->|Hn]; [reflexivity|].
      destruct Hbad as [Hbad|Hbad]; [contradiction|].
      rewrite get_property_field by assumption.
      rewrite deleteSession_entry_throws by assumption.
      destruct bad; try reflexivity. contradiction. }
    assert (Hfixed : forall k, (forall sid, STORAGE_KEYS_session sid <> k) ->
                               getItem b1 k = getItem b k).
    { intros k Hk. rewrite Hget.
      destruct (existsb _ _) eqn:Hex; [|reflexivity].
      apply existsb_eqb_In, in_map_iff in Hex. destruct Hex as [entry [Hkey _]].
      unfold entry_key in Hkey. now apply Hk in Hkey. }
    split; [apply Hfixed, session_key_not_history|].
    split; [apply Hfixed, session_key_not_current|].
    intros entry Hin. rewrite Hget.
    replace (existsb _ _) with true; [reflexivity|].
    symmetry. apply existsb_eqb_In, in_map_iff. eauto.
  - intros Hnot. unfold clearAllSessions. rewrite Hw. cbn [negb].
    destruct (getSessionHistory E b) as [| | | |history|] eqn:Hh;
      try (eexists; split; reflexivity).
    now contradiction (Hnot history).
Qed.

Lemma clearAllSessions_spec_witness :
  (exists b',
     clearAllSessions reference_engine usedBrowser = (b', Ok tt) /\
     getSessionHistory reference_engine b' = JArray [] /\
     loadSession reference_engine b' (id sampleSession) = None /\
     getItem b' (STORAGE_KEYS_session (id otherSession))
     = getItem usedBrowser (STORAGE_KEYS_session (id otherSession)))
  /\
  (exists b1,
     clearAllSessions reference_engine nullHistoryBrowser
     = (b1, Throw (mkExn TypeError "Cannot read properties of null (reading 'id')"))
     /\ getItem b1 SESSION_HISTORY = Some "[null]")
  /\
  (exists b1,
     clearAllSessions reference_engine unnamedHistoryBrowser
     = (b1, Throw (mkExn TypeError "Cannot convert object to primitive value"))
     /\ getItem b1 SESSION_HISTORY = getItem unnamedHistoryBrowser SESSION_HISTORY
     /\ getItem b1 CURRENT_SESSION = Some "x").
Proof.
  split; [|split].
  - destruct (clearAllSessions_spec reference_engine usedBrowser eq_refl)
      as [H _].
    destruct (H [history_entry_json sampleSession]) as [b' [H1 [H2 [_ [H3 H4]]]]].
    + vm_compute. reflexivity.
    + repeat constructor. discriminate.
    + exists b'. split; [exact H1|]. split; [exact H2|]. split.
      * apply (H3 (history_entry_json sampleSession)); [now left|reflexivity].
      * apply H4; [discriminate|discriminate|].
        simpl. intros [Hk|[]]. vm_compute in Hk. discriminate.
  - destruct (clearAllSessions_spec reference_engine nullHistoryBrowser eq_refl)
      as [_ [H _]].
    destruct (H [] JNull []) as [b1 [H1 [H2 _]]].
    + vm_compute. reflexivity.
    + constructor.
    + now left.
    + exists b1. split; [exact H1|]. rewrite H2. reflexivity.
  - destruct (clearAllSessions_spec reference_engine unnamedHistoryBrowser eq_refl)
      as [_ [H _]].
    destruct (H [] (JObject [("id", JObject [("toString", JNumber (mkNumber 1 0))])])
                []) as [b1 [H1 [H2 [H3 _]]]].
    + vm_compute. reflexivity.
    + constructor.
    + right. reflexivity.
    + exists b1. split; [exact H1|]. split; [exact H2|]. rewrite H3. reflexivity.
Defined.

(** *** What [deserializeSession] returns *)

Lemma js_nullish_defined (a b : jsval) :
  b <> None -> b <> Some JNull ->
  js_nullish a b <> None /\ js_nullish a b <> Some JNull.
Proof. destruct a as [[]|]; simpl; intros H1 H2; split; congruence. Qed.

Lemma deserializeSession_Ok_fields (E : Engine) (json : string) (r : RawSession) :
  deserializeSession E json = Ok r ->
  truthy (raw_id r) = true /\ truthy (raw_parsedJD r) = true /\
  isArray (raw_questions r) = true /\
  isNaN_getTime (raw_createdAt r) = false /\
  (forall d, raw_completedAt r = Some d -> isNaN_getTime d = false) /\
  raw_currentQuestionIndex r <> None /\
  raw_currentQuestionIndex r <> Some JNull /\
  raw_isComplete r <> None /\ raw_isComplete r <> Some JNull.
Proof.
  intros H. unfold deserializeSession, deserializeSession_catch in H.
  destruct (deserialize_try E json) as [r0|e] eqn:Htry.
  2:{ destruct (exn_class e); discriminate. }
  injection H as <-. unfold deserialize_try in Htry.
  destruct (JSON_parse E json) as [data|]; [|discriminate].
  cbn [bind] in Htry. unfold deserialize_data in Htry.
  assert (Hnull : data <> JNull) by (intros ->; discriminate).
  rewrite !get_property_field in Htry by assumption. cbn [bind] in Htry.
  destruct (truthy (field data "id")) eqn:Hid; [|discriminate].
  destruct (truthy (field data "parsedJD")) eqn:Hjd; [|discriminate].
  destruct (truthy (field data "questions")); [|discriminate].
  destruct (isArray (field data "questions")) eqn:Hq; [|discriminate].
  cbn [negb] in Htry.
  destruct (deserialize_answers E (Some data)); [|discriminate].
  destruct (deserialize_feedback E (Some data)); [|discriminate].
  cbn [bind] in Htry.
  destruct (Date_construct E (field data "createdAt")) as [created|];
    [|discriminate].
  cbn [bind] in Htry.
  destruct (truthy (field data "completedAt")) eqn:Ht.
  2:{ cbn [bind andb] in Htry.
      destruct (isNaN_getTime created) eqn:Hc; [discriminate|].
      injection Htry as <-. cbn.
      repeat split; try assumption; try (apply js_nullish_defined; discriminate).
      intros d Hsome. discriminate. }
  destruct (Date_construct E (field data "completedAt")) as [completed|];
    [|discriminate].
  cbn [bind andb] in Htry.
  destruct (isNaN_getTime created) eqn:Hc; [discriminate|].
  - destruct (isNaN_getTime completed) eqn:Hd; [discriminate|].
    injection Htry as <-. cbn.
    repeat split; try assumption; try (apply js_nullish_defined; discriminate).
    intros d Hsome. now injection Hsome as <-.
Qed.

Lemma deserializeSession_Ok_dates (E : Engine) (json : string) (r : RawSession) :
  deserializeSession E json = Ok r ->
  isNaN_getTime (raw_createdAt r) = false /\
  (forall d, raw_completedAt r = Some d -> isNaN_getTime d = false).
Proof.
  intros H. apply deserializeSession_Ok_fields in H. tauto.
Qed.

(** X16.  What [deserializeSession] guarantees.  A session it returns
    has a truthy [id] and a truthy [parsedJD], a list as [questions], a
    valid creation date, a completion date that is [null] or valid, and a
    cursor and a completion flag that are not [null] or [undefined]; the
    other fields are not looked at.  An exception it throws is an [Error]
    whose message starts with "Failed to deserialize session: ", whatever
    was thrown inside. *)
Theorem deserializeSession_guarantees (E : Engine) (json : string) :
  (forall r,
     deserializeSession E json = Ok r ->
     truthy (raw_id r) = true /\ truthy (raw_parsedJD r) = true /\
     isArray (raw_questions r) = true /\
     isNaN_getTime (raw_createdAt r) = false /\
     (forall d, raw_completedAt r = Some d -> isNaN_getTime d = false) /\
     raw_currentQuestionIndex r <> None /\
     raw_currentQuestionIndex r <> Some JNull /\
     raw_isComplete r <> None /\ raw_isComplete r <> Some JNull)
  /\
  (forall e,
     deserializeSession E json = Throw e ->
     exn_class e = Error /\
     exists cause, message e = "Failed to deserialize session: " ++ cause).
Proof.
  split.
  - apply deserializeSession_Ok_fields.
  - intros e H. unfold deserializeSession, deserializeSession_catch in H.
    destruct (deserialize_try E json) as [r0|e0]; [discriminate|].
    destruct (exn_class e0); injection H as <-;
      (split; [reflexivity|eexists; reflexivity]).
Qed.

Lemma deserializeSession_guarantees_witness :
  (exists r,
     deserializeSession reference_engine inconsistentText = Ok r /\
     truthy (raw_id r) = true /\ isNaN_getTime (raw_createdAt r) = false)
  /\
  (exists e,
     deserializeSession reference_engine "null" = Throw e /\
     exn_class e = Error /\
     exists cause, message e = "Failed to deserialize session: " ++ cause).
Proof.
  destruct (deserializeSession_guarantees reference_engine inconsistentText)
    as [H1 _].
  destruct (deserializeSession_guarantees reference_engine "null") as [_ H2].
  split.
  - eexists. split; [vm_compute; reflexivity|].
    match goal with |- truthy (raw_id ?r) = _ /\ _ =>
      destruct (H1 r) as [Ha [_ [_ [Hb _]]]]; [vm_compute; reflexivity|]
    end.
    split; [exact Ha|exact Hb].
  - eexists. split; [vm_compute; reflexivity|].
    match goal with |- exn_class ?e = _ /\ _ => apply (H2 e) end.
    vm_compute. reflexivity.
Defined.

Lemma removals_frame (E : Engine) (b : Browser) :
  getCurrentSessionId (clearCurrentSession b) = None /\
  (forall sid, loadSession E (clearCurrentSession b) sid = loadSession E b sid) /\
  getSessionHistory E (clearCurrentSession b) = getSessionHistory E b.
Proof.
  assert (Hclear : same_but [CURRENT_SESSION] b (clearCurrentSession b)).
  { unfold clearCurrentSession. destruct (negb (window_defined b));
      [apply same_but_refl|apply same_but_removeItem]. }
  destruct Hclear as [Hwc Hc].
  split; [|split].
  - unfold getCurrentSessionId, clearCurrentSession.
    destruct (window_defined b) eqn:Hwb; cbn [negb]; [|now rewrite Hwb].
    rewrite getItem_removeItem_same. now destruct (negb _).
  - intros sid'. apply loadSession_reads; [assumption|]. apply Hc.
    pose proof (session_key_not_current sid'). simpl. intuition.
  - apply getSessionHistory_reads; [assumption|]. apply Hc.
    pose proof current_not_history. simpl. intuition.
Qed.

(** ** The storage functions on run-time values *)

Lemma RunTime_feedback_entries (l : list (string * AnswerFeedback)) :
  map_result RunTime.serializable_feedback_entry
    (map (fun e => (Some (JString (fst e)), raw_of_AnswerFeedback (snd e))) l)
  = map_result serializable_feedback_entry l.
Proof.
  induction l as [|[k fb] l IH]; [reflexivity|].
  cbn [map map_result fst snd]. rewrite IH.
  unfold RunTime.serializable_feedback_entry, serializable_feedback_entry.
  cbn [raw_of_AnswerFeedback raw_timestamp raw_questionId raw_score raw_strengths
       raw_improvements].
  destruct (Date_toISOString (timestamp fb)); reflexivity.
Qed.

Lemma RunTime_answer_entries (l : list (string * string)) :
  map RunTime.serializable_answer_entry
    (map (fun e => (Some (JString (fst e)), Some (JString (snd e)))) l)
  = map serializable_answer_entry l.
Proof. rewrite map_map. apply map_ext. intros [k v]. reflexivity. Qed.

Lemma RunTime_serializeSession (s : InterviewSession) :
  RunTime.serializeSession (raw_of_session s) = serializeSession s.
Proof.
  unfold RunTime.serializeSession, serializeSession. f_equal.
  unfold RunTime.serializable_session, serializable_session, Map_entries.
  cbn [raw_of_session raw_feedback raw_answers raw_createdAt raw_completedAt
       raw_id raw_parsedJD raw_questions raw_sessionFeedback
       raw_currentQuestionIndex raw_isComplete].
  rewrite RunTime_feedback_entries, RunTime_answer_entries.
  destruct (map_result serializable_feedback_entry (feedback s)); [|reflexivity].
  cbn [bind].
  destruct (Date_toISOString (createdAt s)); [|reflexivity]. cbn [bind].
  destruct (completedAt s) as [d|]; [destruct (Date_toISOString d)|]; reflexivity.
Qed.

Lemma RunTime_saveSession (E : Engine) (b : Browser) (s : InterviewSession) :
  RunTime.saveSession E b (raw_of_session s) = saveSession b s.
Proof.
  unfold RunTime.saveSession, saveSession.
  now rewrite RunTime_serializeSession.
Qed.

Lemma RunTime_findIndex_id (E : Engine) (sid : string) (history : list JSValue) (i : Z) :
  RunTime.findIndex_id E (Some (JString sid)) history i = findIndex_id E sid history i.
Proof.
  revert i. induction history as [|entry rest IH]; intros i; [reflexivity|].
  cbn [RunTime.findIndex_id findIndex_id].
  destruct (get_property E (Some entry) "id") as [v|]; [|reflexivity]. cbn [bind].
  destruct v as [[| | |x| |]|]; cbn [same_value_zero]; try apply IH.
  destruct (x =? sid)%string; [reflexivity|apply IH].
Qed.

Lemma RunTime_historyEntry (E : Engine) (s : InterviewSession) :
  RunTime.historyEntry E (raw_of_session s) = historyEntry s.
Proof.
  unfold RunTime.historyEntry, historyEntry, RunTime.overallScore_or_null.
  cbn [raw_of_session raw_parsedJD raw_createdAt raw_completedAt raw_id
       raw_sessionFeedback get_property js_ParsedJobDescription Map_get bind].
  cbn.
  destruct (Date_toISOString (createdAt s)); [|reflexivity]. cbn [bind].
  destruct (completedAt s) as [d|]; [destruct (Date_toISOString d)|];
    cbn [bind]; try reflexivity; destruct (sessionFeedback s); reflexivity.
Qed.

Lemma RunTime_saveSessionToHistory (E : Engine) (b : Browser) (s : InterviewSession) :
  RunTime.saveSessionToHistory E b (raw_of_session s) = saveSessionToHistory E b s.
Proof.
  unfold RunTime.saveSessionToHistory, saveSessionToHistory.
  unfold RunTime.saveSessionToHistory_try, saveSessionToHistory_try.
  cbn [raw_of_session raw_id].
  destruct (negb (window_defined b)); [reflexivity|].
  destruct (getSessionHistory E b); try reflexivity.
  now rewrite RunTime_findIndex_id, RunTime_historyEntry.
Qed.

Lemma RunTime_feedback_cases (l : list (jsval * RawAnswerFeedback)) :
  (Exists (fun e => raw_timestamp (snd e) = InvalidDate) l /\
   map_result RunTime.serializable_feedback_entry l
   = Throw (mkExn RangeError "Invalid time value")) \/
  (~ Exists (fun e => raw_timestamp (snd e) = InvalidDate) l /\
   exists js, map_result RunTime.serializable_feedback_entry l = Ok js).
Proof.
  induction l as [|[k fb] l IH].
  - right. split; [intros H; inversion H|]. simpl. eauto.
  - cbn [map_result RunTime.serializable_feedback_entry].
    destruct (Date_toISOString_cases (raw_timestamp fb)) as [[Hd Hi]|[Hd [iso Hi]]];
      rewrite Hi; cbn [bind].
    + left. split; [|reflexivity]. now left.
    + destruct IH as [[Hex Hm]|[Hex [js Hm]]]; rewrite Hm; cbn [bind].
      * left. split; [|reflexivity]. now right.
      * right. split; [|eauto].
        intros H. inversion H; subst; auto.
Qed.

(** X17.  A session that was saved and loaded is saved again as the same
    text: for a session with an identifier and valid dates, whose cursor
    is an integer and whose numbers are finite (as those of every
    [InterviewSession] of this development are), [serializeSession] of
    what [deserializeSession] returns for its text is that text. *)
Theorem restored_session_same_text (E : Engine) (s : InterviewSession) :
  id s <> "" -> timestamps_valid s -> session_wf s ->
  exists text r,
    serializeSession s = Ok text /\
    deserializeSession E text = Ok r /\
    RunTime.serializeSession r = Ok text.
Proof.
  intros Hid Hts Hwf.
  destruct (deserialize_serialized E s Hid Hts Hwf) as [text [H1 [_ H2]]].
  exists text, (raw_of_session s).
  split; [exact H1|]. split; [exact H2|].
  now rewrite RunTime_serializeSession.
Qed.

Lemma restored_session_same_text_witness :
  exists text r,
    serializeSession sampleSession = Ok text /\
    deserializeSession reference_engine text = Ok r /\
    RunTime.serializeSession r = Ok text.
Proof.
  apply (restored_session_same_text reference_engine sampleSession).
  - discriminate.
  - unfold timestamps_valid, valid_date, maxTime. simpl. split; [|split].
    + eexists. split; [reflexivity|lia].
    + intros d H. injection H as <-. eexists. split; [reflexivity|lia].
    + repeat constructor. eexists. split; [reflexivity|]. simpl. lia.
  - split; [|split; [|split]].
    + repeat constructor; simpl; intuition discriminate.
    + repeat constructor; simpl; intuition discriminate.
    + repeat constructor.
    + intros f H. injection H as <-. repeat split.
Defined.

(** X18.  [deserializeSession] does not check the timestamps of the
    feedback, and [serializeSession] needs them: a session that
    [deserializeSession] returned is serialized again exactly when the
    timestamp of each of its feedback is a valid date; when one is not,
    [serializeSession] throws the [RangeError] of [toISOString], and so
    does [saveSession], which writes nothing. *)
Theorem loaded_session_saved_again (E : Engine) (json : string) (r : RawSession) :
  deserializeSession E json = Ok r ->
  (Exists (fun e => raw_timestamp (snd e) = InvalidDate) (raw_feedback r) ->
   RunTime.serializeSession r = Throw (mkExn RangeError "Invalid time value") /\
   forall b, window_defined b = true ->
             RunTime.saveSession E b r
             = (b, Throw (mkExn RangeError "Invalid time value")))
  /\
  (~ Exists (fun e => raw_timestamp (snd e) = InvalidDate) (raw_feedback r) ->
   exists text, RunTime.serializeSession r = Ok text).
Proof.
  intros Hde.
  destruct (deserializeSession_Ok_dates E json r Hde) as [Hc Hd].
  assert (Hser : (Exists (fun e => raw_timestamp (snd e) = InvalidDate) (raw_feedback r)
                  /\ RunTime.serializeSession r
                     = Throw (mkExn RangeError "Invalid time value")) \/
                 (~ Exists (fun e => raw_timestamp (snd e) = InvalidDate) (raw_feedback r)
                  /\ exists text, RunTime.serializeSession r = Ok text)).
  { unfold RunTime.serializeSession, RunTime.serializable_session, Map_entries.
    destruct (RunTime_feedback_cases (raw_feedback r)) as [[Hf Hm]|[Hf [js Hm]]];
      rewrite Hm; cbn [bind]; [left; tauto|].
    destruct (Date_toISOString_cases (raw_createdAt r)) as [[Hi _]|[_ [iso Hi]]].
    { rewrite Hi in Hc. discriminate. }
    rewrite Hi. cbn [bind].
    destruct (raw_completedAt r) as [d|].
    - destruct (Date_toISOString_cases d) as [[Hj _]|[_ [iso' Hj]]].
      { specialize (Hd d eq_refl). rewrite Hj in Hd. discriminate. }
      rewrite Hj. cbn [bind]. right. split; [assumption|eauto].
    - cbn [bind]. right. split; [assumption|eauto]. }
  split.
  - intros Hex. destruct Hser as [[_ Hs]|[Hn _]]; [|contradiction].
    split; [exact Hs|]. intros b Hw. unfold RunTime.saveSession.
    now rewrite Hw, Hs.
  - intros Hn. destruct Hser as [[Hex _]|[_ Hs]]; [contradiction|exact Hs].
Qed.

Lemma loaded_session_saved_again_witness :
  exists r,
    deserializeSession reference_engine undatedFeedbackText = Ok r /\
    RunTime.saveSession reference_engine freshBrowser r
    = (freshBrowser, Throw (mkExn RangeError "Invalid time value")).
Proof.
  eexists. split; [vm_compute; reflexivity|].
  match goal with |- RunTime.saveSession _ _ ?r = _ =>
    destruct (loaded_session_saved_again reference_engine undatedFeedbackText r)
      as [H _]; [vm_compute; reflexivity|]
  end.
  apply H; [|reflexivity].
  left. reflexivity.
Defined.

(** *** A cursor that is no finite number *)

Lemma JSON_stringify_inj (v w : JSValue) :
  json_wf v = true -> json_wf w = true ->
  JSON_stringify v = JSON_stringify w -> v = w.
Proof.
  intros Hv Hw H.
  pose (E0 := mkEngine (fun _ => InvalidDate) (fun _ => "") (fun _ _ => "")).
  pose proof (JSON_parse_stringify E0 v Hv) as Pv.
  pose proof (JSON_parse_stringify E0 w Hw) as Pw.
  rewrite H in Pv. congruence.
Qed.

(** X26.  The cursor of a session is a number, and [serializeSession]
    writes it with [JSON.stringify]: a cursor that is an integer is written
    as that integer (the function on numbers is then the function on
    integers), and a cursor that is NaN or an infinity is written as
    [null].  For a session with an identifier and valid dates whose cursor
    is NaN or an infinity [deserializeSession] reads the text back as the
    session with the cursor 0, [data.currentQuestionIndex ?? 0]: the
    session loaded is not the session saved, and saved again it is
    another text. *)
Theorem cursor_not_restored (E : Engine) (s : InterviewSession) (c : Numeric.Number) :
  (forall i,
     NumericCodec.serializeSession (Numeric.mkSession s (Numeric.of_Z i))
     = serializeSession (with_currentQuestionIndex s i))
  /\
  (id s <> "" -> timestamps_valid s -> session_wf s ->
   c = Numeric.NaN \/ (exists negative, c = Numeric.Infinity negative) ->
   exists text r,
     NumericCodec.serializeSession (Numeric.mkSession s c) = Ok text /\
     deserializeSession E text = Ok r /\
     r = raw_of_session (with_currentQuestionIndex s 0) /\
     as_InterviewSession r = Some (with_currentQuestionIndex s 0) /\
     RunTime.serializeSession r <> Ok text).
Proof.
  split; [intros i; reflexivity|].
  intros Hid Hts Hwf Hc.
  assert (Hw : NumericCodec.written c = JNull)
    by (destruct Hc as [->|[n ->]]; reflexivity).
  exists (JSON_stringify (session_json_cursor s JNull)),
    (raw_of_session (with_currentQuestionIndex s 0)).
  split; [|split; [|split; [reflexivity|split]]].
  - unfold NumericCodec.serializeSession.
    rewrite NumericCodec_serializable_written by assumption. now rewrite Hw.
  - unfold deserializeSession, deserialize_try.
    rewrite JSON_parse_stringify by (now apply session_json_cursor_wf).
    cbn [bind]. now rewrite deserialize_data_session_json.
  - apply as_InterviewSession_raw.
  - rewrite RunTime_serializeSession. unfold serializeSession.
    rewrite serializable_session_written by exact Hts. cbn [bind].
    intros H.
    apply (f_equal (fun r => match r with Ok x => x | Throw _ => "" end)) in H.
    cbv beta iota in H.
    apply JSON_stringify_inj in H.
    + discriminate H.
    + apply session_json_wf. exact Hwf.
    + now apply session_json_cursor_wf.
Qed.

Lemma cursor_not_restored_witness :
  exists text r,
    NumericCodec.serializeSession (Numeric.mkSession sampleSession Numeric.NaN)
    = Ok text /\
    deserializeSession reference_engine text = Ok r /\
    raw_currentQuestionIndex r = Some (JNumber (mkNumber 0 0)) /\
    RunTime.serializeSession r <> Ok text.
Proof.
  destruct (cursor_not_restored reference_engine sampleSession Numeric.NaN)
    as [_ H].
  destruct H as [text [r [H1 [H2 [H3 [_ H4]]]]]].
  - discriminate.
  - unfold timestamps_valid, valid_date, maxTime. simpl. split; [|split].
    + eexists. split; [reflexivity|lia].
    + intros d H. injection H as <-. eexists. split; [reflexivity|lia].
    + repeat constructor. eexists. split; [reflexivity|]. simpl. lia.
  - split; [|split; [|split]].
    + repeat constructor; simpl; intuition discriminate.
    + repeat constructor; simpl; intuition discriminate.
    + repeat constructor.
    + intros f H. injection H as <-. repeat split.
  - now left.
  - exists text, r. split; [exact H1|]. split; [exact H2|]. split; [|exact H4].
    rewrite H3. reflexivity.
Defined.

(** ** Further properties of the history *)

Lemma findIndex_id_null (E : Engine) (sid : string) (before after : list JSValue)
    (i : Z) :
  Forall (fun e => e <> JNull /\ has_id sid e = false) before ->
  findIndex_id E sid (before ++ JNull :: after) i
  = Throw (mkExn TypeError (type_error_message E (ReadPropertyOfNull "id"))).
Proof.
  intros Hall. revert i. induction Hall as [|e l [Hnull Hid] _ IH]; intros i.
  - reflexivity.
  - cbn [app findIndex_id]. rewrite get_property_field by assumption. cbn [bind].
    unfold has_id in Hid.
    destruct (field e "id") as [[| | |x| |]|]; try apply IH.
    rewrite Hid. apply IH.
Qed.

Lemma historyEntry_invalid (s : InterviewSession) :
  createdAt s = InvalidDate \/ completedAt s = Some InvalidDate ->
  historyEntry s = Throw (mkExn RangeError "Invalid time value").
Proof.
  unfold historyEntry. intros [H|H].
  - rewrite H. reflexivity.
  - rewrite H. destruct (Date_toISOString (createdAt s)) as [iso|e] eqn:Hc.
    + reflexivity.
    + destruct (createdAt s); [|now injection Hc as <-].
      unfold Date_toISOString in Hc.
      destruct (civil_from_days (Day t)) as [[y m] d]. discriminate.
Qed.

(** X19.  [saveSessionToHistory] never throws, and in each of these
    cases it writes nothing, without a sign to its caller: there is no
    [window]; the stored history is the JSON of a value that is not a
    list; the stored list has a [null] before any entry of the session;
    the creation date or the completion date of the session is the
    invalid date; the store refuses the write.  A stored history that is
    not JSON is read as the empty list, so that the next session saved is
    then the only entry. *)
Theorem saveSessionToHistory_silent (E : Engine) (b : Browser) (s : InterviewSession) :
  (window_defined b = false -> saveSessionToHistory E b s = b) /\
  ((forall history, getSessionHistory E b <> JArray history) ->
   saveSessionToHistory E b s = b) /\
  (forall before after,
     getSessionHistory E b = JArray (before ++ JNull :: after) ->
     Forall (fun e => e <> JNull /\ has_id (id s) e = false) before ->
     saveSessionToHistory E b s = b) /\
  (createdAt s = InvalidDate \/ completedAt s = Some InvalidDate ->
   saveSessionToHistory E b s = b) /\
  ((forall text, quota_exceeded b (localStorage b) SESSION_HISTORY text = true) ->
   saveSessionToHistory E b s = b) /\
  (forall text e,
     window_defined b = true ->
     getItem b SESSION_HISTORY = Some text -> JSON_parse E text = Throw e ->
     valid_date (createdAt s) ->
     (forall d, completedAt s = Some d -> valid_date d) ->
     (forall f, sessionFeedback s = Some f -> canonical (overallScore f) = true) ->
     quota_exceeded b (localStorage b) SESSION_HISTORY
       (JSON_stringify (JArray [history_entry_json s])) = false ->
     getSessionHistory E b = JArray [] /\
     getSessionHistory E (saveSessionToHistory E b s)
     = JArray [history_entry_json s]).
Proof.
  split; [|split; [|split; [|split; [|split]]]].
  - intros Hw. unfold saveSessionToHistory. now rewrite Hw.
  - intros Hnot. unfold saveSessionToHistory, saveSessionToHistory_try.
    destruct (negb (window_defined b)); [reflexivity|].
    destruct (getSessionHistory E b) as [| | | |history|]; try reflexivity.
    now contradiction (Hnot history).
  - intros before after Hhist Hall.
    unfold saveSessionToHistory, saveSessionToHistory_try.
    destruct (negb (window_defined b)); [reflexivity|].
    rewrite Hhist, findIndex_id_null by assumption. reflexivity.
  - intros Hinv. unfold saveSessionToHistory, saveSessionToHistory_try.
    destruct (negb (window_defined b)); [reflexivity|].
    rewrite (historyEntry_invalid s Hinv).
    destruct (getSessionHistory E b) as [| | | |history|]; try reflexivity.
    destruct (findIndex_id E (id s) history 0); reflexivity.
  - intros Hq. unfold saveSessionToHistory, saveSessionToHistory_try, setItem.
    destruct (negb (window_defined b)); [reflexivity|].
    destruct (getSessionHistory E b) as [| | | |history|]; try reflexivity.
    destruct (findIndex_id E (id s) history 0); [|reflexivity]. cbn [bind].
    destruct (historyEntry s); [|reflexivity]. cbn [bind].
    now rewrite Hq.
  - intros text e Hw Hget Hparse Hc Hd Hcan Hq.
    assert (Hempty : getSessionHistory E b = JArray []).
    { unfold getSessionHistory. rewrite Hw, Hget, Hparse. cbn [negb].
      now destruct (text =? "")%string. }
    split; [exact Hempty|].
    unfold saveSessionToHistory, saveSessionToHistory_try.
    rewrite Hw, Hempty. cbn [negb findIndex_id bind].
    rewrite (historyEntry_written s Hc Hd). cbn [bind].
    change (if -1 >=? 0 then _ else _) with [history_entry_json s].
    destruct (setItem b SESSION_HISTORY _) as [b'|e'] eqn:Hset.
    + apply (getSessionHistory_written E b b' _ Hw); [|exact Hset].
      cbn [forallb]. rewrite andb_true_r.
      now apply (historyEntry_shape s _ (historyEntry_written s Hc Hd)).
    + unfold setItem in Hset. rewrite Hq in Hset. discriminate.
Qed.

Lemma saveSessionToHistory_silent_witness :
  saveSessionToHistory reference_engine serverSide mockSession = serverSide /\
  saveSessionToHistory reference_engine objectHistoryBrowser mockSession
  = objectHistoryBrowser /\
  saveSessionToHistory reference_engine nullHistoryBrowser mockSession
  = nullHistoryBrowser /\
  saveSessionToHistory reference_engine freshBrowser undatedSession = freshBrowser /\
  saveSessionToHistory reference_engine fullBrowser mockSession = fullBrowser /\
  getSessionHistory reference_engine
    (saveSessionToHistory reference_engine corruptHistoryBrowser mockSession)
  = JArray [history_entry_json mockSession].
Proof.
  split; [|split; [|split; [|split; [|split]]]].
  - destruct (saveSessionToHistory_silent reference_engine serverSide mockSession)
      as [H _].
    apply H. reflexivity.
  - destruct (saveSessionToHistory_silent reference_engine objectHistoryBrowser
                mockSession) as [_ [H _]].
    apply H. intros history Hh. vm_compute in Hh. discriminate.
  - destruct (saveSessionToHistory_silent reference_engine nullHistoryBrowser
                mockSession) as [_ [_ [H _]]].
    apply (H [] []); [vm_compute; reflexivity|constructor].
  - destruct (saveSessionToHistory_silent reference_engine freshBrowser
                undatedSession) as [_ [_ [_ [H _]]]].
    apply H. left. reflexivity.
  - destruct (saveSessionToHistory_silent reference_engine fullBrowser mockSession)
      as [_ [_ [_ [_ [H _]]]]].
    apply H. intros text. reflexivity.
  - destruct (saveSessionToHistory_silent reference_engine corruptHistoryBrowser
                mockSession) as [_ [_ [_ [_ [_ H]]]]].
    destruct (H "[{" (mkExn SyntaxError "Unexpected end of JSON input"))
      as [_ H2].
    + reflexivity.
    + reflexivity.
    + reflexivity.
    + exists 1768467600000. split; [reflexivity|unfold maxTime; lia].
    + intros d Hd. discriminate.
    + intros f Hf. discriminate.
    + reflexivity.
    + exact H2.
Defined.

(** The history after [saveSessionToHistory], in a browser that holds a
    history list and takes the write. *)
Lemma saveSessionToHistory_written (E : Engine) (b : Browser) (s : InterviewSession)
    (history : list JSValue) :
  window_defined b = true ->
  getSessionHistory E b = JArray history ->
  Forall (fun e => e <> JNull) history ->
  valid_date (createdAt s) ->
  (forall d, completedAt s = Some d -> valid_date d) ->
  (forall f, sessionFeedback s = Some f -> canonical (overallScore f) = true) ->
  quota_exceeded b (localStorage b) SESSION_HISTORY
    (JSON_stringify (JArray (upsert (id s) (history_entry_json s) history)))
  = false ->
  getSessionHistory E (saveSessionToHistory E b s)
  = JArray (upsert (id s) (history_entry_json s) history).
Proof.
  intros Hw Hhist Hnull Hc Hd Hcan Hquota.
  pose proof (getSessionHistory_wf E b) as Hwf. rewrite Hhist in Hwf.
  pose proof (historyEntry_written s Hc Hd) as Hentry.
  unfold saveSessionToHistory, saveSessionToHistory_try.
  rewrite Hw, Hhist. cbn [negb].
  destruct (findIndex_no_null E (id s) history 0 Hnull) as [idx Hidx].
  rewrite Hidx, Hentry. cbn [bind].
  destruct (findIndex_upsert E (id s) (history_entry_json s) history 0 idx
              ltac:(lia) Hidx) as [_ Hup].
  rewrite Z.sub_0_r in Hup. rewrite Hup.
  destruct (setItem b SESSION_HISTORY _) as [b'|e] eqn:Hset.
  - apply (getSessionHistory_written E b b' _ Hw); [|exact Hset].
    apply upsert_wf; [|exact Hwf].
    now apply (historyEntry_shape s _ Hentry).
  - unfold setItem in Hset. rewrite Hquota in Hset. discriminate.
Qed.

Lemma saveSessionToHistory_quota (E : Engine) (b : Browser) (s : InterviewSession) :
  quota_exceeded (saveSessionToHistory E b s) = quota_exceeded b.
Proof.
  unfold saveSessionToHistory.
  destruct (negb (window_defined b)); [reflexivity|].
  destruct (saveSessionToHistory_try E b s) as [b'|e] eqn:Htry; [|reflexivity].
  unfold saveSessionToHistory_try in Htry.
  destruct (getSessionHistory E b) as [| | | |history|]; try discriminate.
  destruct (findIndex_id E (id s) history 0) as [idx|]; [|discriminate].
  cbn [bind] in Htry.
  destruct (historyEntry s) as [entry|]; [|discriminate].
  cbn [bind] in Htry. now apply setItem_window in Htry.
Qed.

Import SessionPersistence.

(** ** Properties of SessionPersistence *)

Lemma stopAutoSave_tracked (st : State) :
  timers_tracked st ->
  intervals (stopAutoSave st) = [] /\ autoSaveTimer (stopAutoSave st) = None /\
  browser (stopAutoSave st) = browser st /\
  currentSession (stopAutoSave st) = currentSession st /\
  next_interval (stopAutoSave st) = next_interval st.
Proof.
  unfold timers_tracked, stopAutoSave. intros H.
  destruct (autoSaveTimer st) as [t|] eqn:Ht.
  - cbn. rewrite H. cbn. rewrite Nat.eqb_refl. cbn. auto.
  - rewrite Ht. auto.
Qed.

Lemma startAutoSave_tracked (E : Engine) (st : State) (session : RawSession) :
  timers_tracked st ->
  intervals (startAutoSave E st session) = [next_interval st] /\
  autoSaveTimer (startAutoSave E st session) = Some (next_interval st) /\
  currentSession (startAutoSave E st session) = Some session /\
  browser (startAutoSave E st session)
  = fst (RunTime.saveSession E (browser st) session).
Proof.
  intros H. destruct (stopAutoSave_tracked st H) as [H1 [H2 [H3 [H4 H5]]]].
  unfold startAutoSave, setInterval, try_saveSession. cbn.
  rewrite H1, H3, H5. auto.
Qed.

Lemma call_tracked (E : Engine) (st : State) (c : Call) :
  timers_tracked st -> timers_tracked (call E st c).
Proof.
  intros H. destruct c; cbn [call].
  - destruct (startAutoSave_tracked E st session H) as [H1 [H2 _]].
    unfold timers_tracked. now rewrite H1, H2.
  - destruct (stopAutoSave_tracked st H) as [H1 [H2 _]].
    unfold timers_tracked. now rewrite H1, H2.
  - exact H.
  - unfold saveCurrentSession. destruct (currentSession st); [|exact H].
    destruct (RunTime.saveSession _ _ _). exact H.
  - unfold restoreSession. destruct (loadSession _ _ _) as [session|]; [|exact H].
    cbn [fst].
    destruct (startAutoSave_tracked E (with_currentSession st (Some session))
                session H) as [H1 [H2 _]].
    unfold timers_tracked. now rewrite H1, H2.
  - unfold restoreCurrentSession.
    destruct (loadCurrentSession _ _) as [session|]; [|exact H].
    cbn [fst].
    destruct (startAutoSave_tracked E (with_currentSession st (Some session))
                session H) as [H1 [H2 _]].
    unfold timers_tracked. now rewrite H1, H2.
  - unfold completeSession.
    destruct (RunTime.saveSession _ _ _) as [b1 [u|e]]; [|exact H].
    cbn [fst].
    match goal with |- timers_tracked (with_currentSession (stopAutoSave ?s) None) =>
      destruct (stopAutoSave_tracked s H) as [H1 [H2 _]]
    end.
    unfold timers_tracked. cbn. now rewrite H1, H2.
  - unfold clearSession.
    destruct (stopAutoSave_tracked st H) as [H1 [H2 _]].
    unfold timers_tracked. cbn. now rewrite H1, H2.
  - unfold cleanup.
    assert (Ha : timers_tracked (autoSave E st)).
    { unfold autoSave. destruct (currentSession st); exact H. }
    destruct (stopAutoSave_tracked _ Ha) as [H1 [H2 _]].
    unfold timers_tracked. now rewrite H1, H2.
  - unfold tick. destruct (intervals st) eqn:Hi; [exact H|].
    unfold autoSave. destruct (currentSession st); exact H.
Qed.

Lemma run_tracked (E : Engine) (calls : list Call) (st : State) :
  timers_tracked st -> timers_tracked (run E st calls).
Proof.
  revert st. induction calls as [|c calls IH]; intros st H; [exact H|].
  apply IH. now apply call_tracked.
Qed.

(** X20.  One timer at most.  Whatever methods of a
    [SessionPersistence] are called, in whatever order and with timers
    firing in between, the timers that run are the one the object holds in
    [autoSaveTimer], or none: [startAutoSave] ends the timer of before,
    and [stopAutoSave], [clearSession] and [cleanup] leave no timer
    running, after which a tick saves nothing. *)
Theorem one_timer_at_most (E : Engine) (b : Browser) (calls : list Call) :
  let st := run E (create b) calls in
  timers_tracked st /\
  (List.length (intervals st) <= 1)%nat /\
  intervals (stopAutoSave st) = [] /\
  intervals (clearSession st) = [] /\
  intervals (cleanup E st) = [] /\
  tick E (stopAutoSave st) = stopAutoSave st.
Proof.
  intros st.
  assert (H : timers_tracked st) by (apply run_tracked; reflexivity).
  destruct (stopAutoSave_tracked st H) as [H1 _].
  split; [exact H|]. split; [|split; [|split; [|split]]].
  - rewrite H. destruct (autoSaveTimer st); simpl; lia.
  - exact H1.
  - unfold clearSession. cbn. exact H1.
  - unfold cleanup.
    assert (Ha : timers_tracked (autoSave E st)).
    { unfold autoSave. destruct (currentSession st); exact H. }
    now destruct (stopAutoSave_tracked _ Ha).
  - unfold tick. now rewrite H1.
Qed.

(** *** Saving in a store with room *)

Lemma saveSession_quota (b : Browser) (s : InterviewSession) :
  quota_exceeded (fst (saveSession b s)) = quota_exceeded b.
Proof.
  unfold saveSession. destruct (negb (window_defined b)); [reflexivity|].
  destruct (serializeSession s) as [text|e]; [|reflexivity].
  destruct (setItem b _ text) as [b1|e] eqn:H1; [|reflexivity].
  destruct (setItem_window _ _ _ _ H1) as [_ Hq1].
  destruct (setItem b1 CURRENT_SESSION (id s)) as [b2|e] eqn:H2; cbn [fst];
    [|exact Hq1].
  destruct (setItem_window _ _ _ _ H2) as [_ Hq2]. congruence.
Qed.

Lemma save_then_load (E : Engine) (b : Browser) (s : InterviewSession) :
  window_defined b = true -> unlimited b ->
  id s <> "" -> timestamps_valid s -> session_wf s ->
  exists b',
    saveSession b s = (b', Ok tt) /\
    window_defined b' = true /\ unlimited b' /\
    loadSession E b' (id s) = Some (raw_of_session s) /\
    getCurrentSessionId b' = Some (id s) /\
    loadCurrentSession E b' = Some (raw_of_session s) /\
    getSessionHistory E b' = getSessionHistory E b.
Proof.
  intros Hw Hroom Hid Hts Hwf.
  destruct (deserialize_serialized E s Hid Hts Hwf) as [text [Hser [Hne Hde]]].
  destruct (saveSession_written b s text Hw Hser (Hroom _ _ _) (Hroom _ _ _))
    as [b' [Hsave [Hw' [Hkey [Hcur Hother]]]]].
  assert (Hload : loadSession E b' (id s) = Some (raw_of_session s)).
  { unfold loadSession. rewrite Hw', Hkey. cbn [negb].
    destruct (String.eqb_spec text ""); [contradiction|]. now rewrite Hde. }
  exists b'. split; [exact Hsave|]. split; [exact Hw'|].
  split; [|split; [exact Hload|split; [|split]]].
  - intros m k v. replace b' with (fst (saveSession b s)) by now rewrite Hsave.
    rewrite saveSession_quota. apply Hroom.
  - unfold getCurrentSessionId. now rewrite Hw', Hcur.
  - unfold loadCurrentSession, getCurrentSessionId. rewrite Hw', Hcur. cbn [negb].
    destruct (String.eqb_spec (id s) ""); [contradiction|]. exact Hload.
  - apply getSessionHistory_reads; [congruence|].
    apply Hother; [|intros H; symmetry in H; now apply current_not_history in H].
    intros H. symmetry in H. now apply session_key_not_history in H.
Qed.

Lemma session_wf_score (s : InterviewSession) :
  session_wf s ->
  forall f, sessionFeedback s = Some f -> canonical (overallScore f) = true.
Proof. intros [_ [_ [_ H]]] f Hf. now apply H in Hf as [Hf _]. Qed.

(** X21.  [completeSession] of the class, for a session with an
    identifier and valid dates (and, as every [InterviewSession] of this
    development, an integer cursor and finite numbers), in a browser with
    room that holds a history list without [null]: it returns without an exception; after it the session
    is stored and loads as it was given, the history holds its entry (in
    the place of the entry it had, or last), there is no current session,
    [hasSessionInProgress] is false, no timer runs and the object holds no
    session.  When [saveSession] throws, [completeSession] throws the same
    exception and the rest is not done: the history is as it was, and the
    timer and the session of the object stay. *)
Theorem completeSession_flow (E : Engine) (st : State) (s : InterviewSession) :
  (forall history,
     window_defined (browser st) = true -> unlimited (browser st) ->
     timers_tracked st ->
     id s <> "" -> timestamps_valid s -> session_wf s ->
     getSessionHistory E (browser st) = JArray history ->
     Forall (fun e => e <> JNull) history ->
     exists st',
       completeSession E st (raw_of_session s) = (st', Ok tt) /\
       loadSession E (browser st') (id s) = Some (raw_of_session s) /\
       getSessionHistory E (browser st')
       = JArray (upsert (id s) (history_entry_json s) history) /\
       getCurrentSessionId (browser st') = None /\
       hasSessionInProgress E st' = false /\
       intervals st' = [] /\ autoSaveTimer st' = None /\
       currentSession st' = None)
  /\
  (forall b1 e,
     saveSession (browser st) s = (b1, Throw e) ->
     completeSession E st (raw_of_session s) = (with_browser st b1, Throw e) /\
     getSessionHistory E b1 = getSessionHistory E (browser st) /\
     intervals (with_browser st b1) = intervals st /\
     autoSaveTimer (with_browser st b1) = autoSaveTimer st /\
     currentSession (with_browser st b1) = currentSession st).
Proof.
  split.
  - intros history Hw Hroom Htr Hid Hts Hwf Hhist Hnull.
    destruct (save_then_load E (browser st) s Hw Hroom Hid Hts Hwf)
      as [b1 [Hsave [Hw1 [Hroom1 [Hload [_ [_ Hh1]]]]]]].
    unfold completeSession.
    rewrite RunTime_saveSession, Hsave, RunTime_saveSessionToHistory.
    set (b2 := saveSessionToHistory E b1 s).
    set (b3 := clearCurrentSession b2).
    destruct (stopAutoSave_tracked (with_browser st b3) Htr)
      as [Hi [Ht [Hb _]]].
    exists (with_currentSession (stopAutoSave (with_browser st b3)) None).
    split; [reflexivity|].
    assert (Hbr : browser (with_currentSession (stopAutoSave (with_browser st b3)) None)
                  = b3) by exact Hb.
    unfold hasSessionInProgress. rewrite Hbr.
    cbn [intervals autoSaveTimer currentSession with_currentSession].
    rewrite Hi, Ht.
    destruct Hts as [Hc [Hd _]].
    assert (Hh2 : getSessionHistory E b2
                  = JArray (upsert (id s) (history_entry_json s) history)).
    { apply saveSessionToHistory_written; auto.
      - congruence.
      - now apply session_wf_score. }
    destruct (saveSessionToHistory_same_but E b1 s) as [Hw2 Hk2].
    fold b2 in Hw2, Hk2.
    pose proof (removals_frame E b2) as [Hnone [Hsame Hhsame]].
    fold b3 in Hnone, Hsame, Hhsame.
    split; [|split; [|split; [|split]]].
    + rewrite Hsame, <- Hload. apply loadSession_reads; [assumption|].
      apply Hk2. pose proof (session_key_not_history (id s)). simpl. intuition.
    + now rewrite Hhsame.
    + exact Hnone.
    + unfold loadCurrentSession. now rewrite Hnone.
    + auto.
  - intros b1 e Hsave. unfold completeSession.
    rewrite RunTime_saveSession, Hsave. split; [reflexivity|].
    split; [|auto].
    pose proof (saveSession_same_but (browser st) s) as [Hw1 Hk1].
    rewrite Hsave in Hw1, Hk1. cbn [fst] in Hw1, Hk1.
    apply getSessionHistory_reads; [assumption|]. apply Hk1.
    pose proof (session_key_not_history (id s)) as Hk2.
    pose proof current_not_history as Hk3.
    simpl. intros [Hk|[Hk|[]]]; congruence.
Qed.

Lemma completeSession_flow_witness :
  exists st',
    completeSession reference_engine
      (startAutoSave reference_engine (create freshBrowser)
         (raw_of_session mockSession))
      (raw_of_session sampleSession) = (st', Ok tt) /\
    loadSession reference_engine (browser st') (id sampleSession)
    = Some (raw_of_session sampleSession) /\
    getSessionHistory reference_engine (browser st')
    = JArray [history_entry_json sampleSession] /\
    hasSessionInProgress reference_engine st' = false /\
    intervals st' = [].
Proof.
  destruct (completeSession_flow reference_engine
              (startAutoSave reference_engine (create freshBrowser)
         (raw_of_session mockSession))
              sampleSession) as [H _].
  destruct (H []) as [st' [H1 [H2 [H3 [_ [H4 [H5 _]]]]]]].
  - vm_compute. reflexivity.
  - intros m k v. vm_compute. reflexivity.
  - vm_compute. reflexivity.
  - discriminate.
  - exact sampleSession_timestamps.
  - exact sampleSession_wf.
  - vm_compute. reflexivity.
  - constructor.
  - exists st'. auto.
Defined.

(** X22.  The timer saves the session the object holds then.  After
    [startAutoSave] and an [updateSession] with a later version of the
    session, a timer firing saves that version: in a browser with room,
    and for a version with an identifier and valid dates (and, as every
    [InterviewSession] of this development, an integer cursor and finite
    numbers), [loadSession] then returns it, it is the current session, and
    [hasSessionInProgress] is true exactly when it is not complete. *)
Theorem autoSave_saves_latest (E : Engine) (st : State) (s s' : InterviewSession) :
  window_defined (browser st) = true -> unlimited (browser st) ->
  timers_tracked st ->
  id s' <> "" -> timestamps_valid s' -> session_wf s' ->
  let st1 := startAutoSave E st (raw_of_session s) in
  let st2 := tick E (updateSession st1 (raw_of_session s')) in
  loadSession E (browser st2) (id s') = Some (raw_of_session s') /\
  getCurrentSessionId (browser st2) = Some (id s') /\
  hasSessionInProgress E st2 = negb (isComplete s') /\
  currentSession st2 = Some (raw_of_session s') /\
  intervals st2 = intervals st1.
Proof.
  intros Hw Hroom Htr Hid Hts Hwf st1 st2.
  destruct (startAutoSave_tracked E st (raw_of_session s) Htr) as [Hi [_ [_ Hb]]].
  fold st1 in Hi, Hb. rewrite RunTime_saveSession in Hb.
  assert (Hw1 : window_defined (browser st1) = true).
  { rewrite Hb. destruct (saveSession_same_but (browser st) s) as [Hw' _].
    congruence. }
  assert (Hroom1 : unlimited (browser st1)).
  { intros m k v. rewrite Hb, saveSession_quota. apply Hroom. }
  destruct (save_then_load E (browser st1) s' Hw1 Hroom1 Hid Hts Hwf)
    as [b2 [Hsave [_ [_ [Hload [Hcur [Hlc _]]]]]]].
  assert (Hst2 : st2 = with_browser (updateSession st1 (raw_of_session s')) b2).
  { unfold st2, tick, updateSession. cbn [intervals with_currentSession].
    rewrite Hi. unfold autoSave, try_saveSession.
    cbn [currentSession browser with_currentSession].
    now rewrite RunTime_saveSession, Hsave. }
  rewrite Hst2. unfold hasSessionInProgress. cbn [browser with_browser].
  rewrite Hlc. cbn. auto.
Qed.

Lemma autoSave_saves_latest_witness :
  loadSession reference_engine
    (browser (tick reference_engine (updateSession
                      (startAutoSave reference_engine (create freshBrowser)
         (raw_of_session mockSession))
                      (raw_of_session sampleSession))))
    (id sampleSession)
  = Some (raw_of_session sampleSession)
  /\ hasSessionInProgress reference_engine
       (tick reference_engine (updateSession
                (startAutoSave reference_engine (create freshBrowser)
         (raw_of_session mockSession))
                (raw_of_session sampleSession)))
     = false.
Proof.
  destruct (autoSave_saves_latest reference_engine (create freshBrowser)
              mockSession sampleSession) as [H1 [_ [H2 _]]].
  - reflexivity.
  - intros m k v. reflexivity.
  - reflexivity.
  - discriminate.
  - exact sampleSession_timestamps.
  - exact sampleSession_wf.
  - split; [exact H1|exact H2].
Defined.

(** X23.  A session saved is restored after the page is loaded again.
    In a browser with room, after [saveSession] of a session with an
    identifier and valid dates (and, as every [InterviewSession] of this
    development, an integer cursor and finite numbers), a new
    [SessionPersistence] restores it:
    [restoreCurrentSession] and [restoreSession] with its identifier
    return the session, the object then holds it, one timer runs, and the
    session is still stored.  After [deleteSession] of it, both return
    [null] and start no timer. *)
Theorem restore_after_reload (E : Engine) (b : Browser) (s : InterviewSession) :
  window_defined b = true -> unlimited b ->
  id s <> "" -> timestamps_valid s -> session_wf s ->
  let b' := fst (saveSession b s) in
  (exists st',
     restoreCurrentSession E (create b') = (st', Some (raw_of_session s)) /\
     restoreSession E (create b') (id s) = (st', Some (raw_of_session s)) /\
     currentSession st' = Some (raw_of_session s) /\
     intervals st' = [1%nat] /\ autoSaveTimer st' = Some 1%nat /\
     loadSession E (browser st') (id s) = Some (raw_of_session s))
  /\
  restoreSession E (create (deleteSession b' (id s))) (id s)
  = (create (deleteSession b' (id s)), None)
  /\
  restoreCurrentSession E (create (deleteSession b' (id s)))
  = (create (deleteSession b' (id s)), None).
Proof.
  intros Hw Hroom Hid Hts Hwf b'.
  destruct (save_then_load E b s Hw Hroom Hid Hts Hwf)
    as [b1 [Hsave [Hw1 [Hroom1 [Hload [Hcur [Hlc _]]]]]]].
  assert (Hb' : b' = b1) by (unfold b'; now rewrite Hsave).
  rewrite Hb'. split; [|split].
  - unfold restoreCurrentSession, restoreSession. cbn [browser create].
    rewrite Hlc, Hload. eexists. split; [reflexivity|]. split; [reflexivity|].
    destruct (startAutoSave_tracked E
                (with_currentSession (create b1) (Some (raw_of_session s)))
                (raw_of_session s) eq_refl) as [Hi [Ht [Hc Hb]]].
    rewrite Hi, Ht, Hc, Hb. cbn [with_currentSession create browser next_interval].
    repeat split.
    rewrite RunTime_saveSession.
    destruct (save_then_load E b1 s Hw1 Hroom1 Hid Hts Hwf)
      as [b2 [Hsave2 [_ [_ [Hload2 _]]]]].
    now rewrite Hsave2.
  - unfold restoreSession. cbn [browser create].
    now rewrite loadSession_deleted.
  - unfold restoreCurrentSession. cbn [browser create].
    unfold loadCurrentSession.
    destruct (deleteSession_same_but b1 (id s)) as [Hwd Hkd].
    rewrite (getCurrentSessionId_reads b1 (deleteSession b1 (id s)) Hwd), Hcur.
    + destruct (String.eqb_spec (id s) ""); [contradiction|].
      now rewrite loadSession_deleted.
    + apply Hkd. pose proof (session_key_not_current (id s)). simpl. intuition.
Qed.

Lemma restore_after_reload_witness :
  exists st',
    restoreCurrentSession reference_engine
      (create (fst (saveSession freshBrowser sampleSession)))
    = (st', Some (raw_of_session sampleSession)) /\
    intervals st' = [1%nat].
Proof.
  destruct (restore_after_reload reference_engine freshBrowser sampleSession)
    as [[st' [H1 [_ [_ [H2 _]]]]] _].
  - reflexivity.
  - intros m k v. reflexivity.
  - discriminate.
  - exact sampleSession_timestamps.
  - exact sampleSession_wf.
  - exists st'. auto.
Defined.

(** ** Properties of the retries of the OpenAI client *)

Lemma backoff_small (a : Z) :
  1 <= a <= 4 ->
  OpenAIClient.getBackoffDelay a = 1000 * 2 ^ (a - 1).
Proof.
  intros Ha. assert (H : a = 1 \/ a = 2 \/ a = 3 \/ a = 4) by lia.
  destruct H as [ -> | [ -> | [ -> | -> ] ] ]; reflexivity.
Qed.

Lemma backoff_large (a : Z) :
  5 <= a -> OpenAIClient.getBackoffDelay a = 10000.
Proof.
  intros Ha. unfold OpenAIClient.getBackoffDelay, OpenAIClient.baseDelay,
    OpenAIClient.maxDelay.
  assert (H : 2 ^ 4 <= 2 ^ (a - 1)) by (apply Z.pow_le_mono_r; lia).
  change (2 ^ 4) with 16 in H. apply Z.min_r. lia.
Qed.

(** X24.  The delay before the retry that follows attempt [a] is
    [1000 * 2 ^ (a - 1)] milliseconds for the attempts 1 to 4 and 10000
    from attempt 5 on: it is never under 1000 nor over 10000, and never
    shorter for a later attempt. *)
Theorem getBackoffDelay_spec (a : Z) :
  1 <= a ->
  OpenAIClient.getBackoffDelay a
  = (if a <=? 4 then 1000 * 2 ^ (a - 1) else 10000) /\
  1000 <= OpenAIClient.getBackoffDelay a <= 10000 /\
  (forall a', a <= a' ->
     OpenAIClient.getBackoffDelay a <= OpenAIClient.getBackoffDelay a').
Proof.
  intros Ha.
  assert (Hrange : forall x, 1 <= x ->
            1000 <= OpenAIClient.getBackoffDelay x <= 10000).
  { intros x Hx. destruct (Z_le_gt_dec x 4) as [H4|H4].
    - rewrite backoff_small by lia.
      assert (H : x = 1 \/ x = 2 \/ x = 3 \/ x = 4) by lia.
      destruct H as [ -> | [ -> | [ -> | -> ] ] ]; simpl; lia.
    - rewrite backoff_large by lia. lia. }
  split; [|split].
  - destruct (a <=? 4) eqn:H4.
    + apply Z.leb_le in H4. apply backoff_small. lia.
    + apply Z.leb_gt in H4. apply backoff_large. lia.
  - now apply Hrange.
  - intros a' Ha'. destruct (Z_le_gt_dec a' 4) as [H4|H4].
    + rewrite !backoff_small by lia.
      apply Z.mul_le_mono_nonneg_l; [lia|]. apply Z.pow_le_mono_r; lia.
    + rewrite (backoff_large a') by lia. apply Hrange. lia.
Qed.

Lemma getBackoffDelay_spec_witness :
  OpenAIClient.getBackoffDelay 3 = 4000 /\
  OpenAIClient.getBackoffDelay 2 <= OpenAIClient.getBackoffDelay 7.
Proof.
  destruct (getBackoffDelay_spec 3) as [H1 _]; [lia|].
  destruct (getBackoffDelay_spec 2) as [_ [_ H2]]; [lia|].
  split; [exact H1|apply H2; lia].
Defined.

Ltac shape :=
  cbn [OpenAIClient.calls OpenAIClient.sleeps OpenAIClient.outcome
       OpenAIClient.originalError OpenAIClient.retryable OpenAIClient.oe_message
       Nat.sub firstn app].

(** X25.  [withRetry] calls the operation once, twice or three times,
    each call after the one before has rejected with a retryable error,
    and sleeps 1000 ms after the first rejection and 2000 ms after the
    second: 3000 ms at most, the limit of 10000 ms is not reached.  Its
    promise is fulfilled with the value of the last call made when that
    call was fulfilled.  It is rejected otherwise, with an [OpenAIError]
    that holds the value the last call was rejected with, says whether
    that value is retryable, and has the message "<name> failed after <n>
    attempt(s): <message>"; the last call is then the third, or its error
    is not retryable.  The error of the statement after the loop is never
    the result. *)
Theorem withRetry_spec {T : Type} (operation : nat -> T + OpenAIClient.Thrown)
    (operationName : string) :
  let r := OpenAIClient.withRetry operation operationName in
  (1 <= OpenAIClient.calls r <= 3)%nat /\
  OpenAIClient.sleeps r = firstn (OpenAIClient.calls r - 1) [1000; 2000] /\
  (forall n, (n < OpenAIClient.calls r - 1)%nat ->
     exists e, operation n = inr e /\ OpenAIClient.isRetryableError e = true) /\
  match OpenAIClient.outcome r with
  | inl value => operation (OpenAIClient.calls r - 1)%nat = inl value
  | inr err =>
      exists e,
        operation (OpenAIClient.calls r - 1)%nat = inr e /\
        OpenAIClient.originalError err = Some e /\
        OpenAIClient.retryable err = OpenAIClient.isRetryableError e /\
        (OpenAIClient.calls r = 3%nat \/ OpenAIClient.isRetryableError e = false) /\
        OpenAIClient.oe_message err
        = operationName ++ " failed after " ++
          Z_toString (Z.of_nat (OpenAIClient.calls r)) ++ " attempt(s): " ++
          OpenAIClient.message_or_unknown e
  end.
Proof.
  intros r. subst r. unfold OpenAIClient.withRetry.
  change (S (Z.to_nat OpenAIClient.maxAttempts)) with 4%nat.
  cbn [OpenAIClient.attempts_from].
  change (1 <=? OpenAIClient.maxAttempts) with true.
  change (1 =? OpenAIClient.maxAttempts) with false.
  change (1 + 1 <=? OpenAIClient.maxAttempts) with true.
  change (1 + 1 =? OpenAIClient.maxAttempts) with false.
  change (1 + 1 + 1 <=? OpenAIClient.maxAttempts) with true.
  change (1 + 1 + 1 =? OpenAIClient.maxAttempts) with true.
  cbv iota. cbn [orb].
  destruct (operation 0%nat) as [v0|e0] eqn:H0.
  { shape. split; [lia|]. split; [reflexivity|]. split; [|exact H0].
    intros n Hn. lia. }
  destruct (OpenAIClient.isRetryableError e0) eqn:R0; cbn [negb].
  2:{ shape. split; [lia|]. split; [reflexivity|]. split; [intros n Hn; lia|].
      exists e0. rewrite R0. repeat split; auto. }
  assert (Hfirst : forall n, (n < 1)%nat ->
            exists e, operation n = inr e /\ OpenAIClient.isRetryableError e = true).
  { intros n Hn. assert (n = 0%nat) by lia. subst. eauto. }
  destruct (operation 1%nat) as [v1|e1] eqn:H1.
  { shape. split; [lia|]. split; [reflexivity|]. split; [exact Hfirst|exact H1]. }
  destruct (OpenAIClient.isRetryableError e1) eqn:R1; cbn [negb].
  2:{ shape. split; [lia|]. split; [reflexivity|]. split; [exact Hfirst|].
      exists e1. rewrite R1. repeat split; auto. }
  assert (Hprev : forall n, (n < 2)%nat ->
            exists e, operation n = inr e /\ OpenAIClient.isRetryableError e = true).
  { intros n Hn. assert (Hc : n = 0%nat \/ n = 1%nat) by lia.
    destruct Hc as [ -> | -> ]; eauto. }
  destruct (operation 2%nat) as [v2|e2] eqn:H2.
  { shape. split; [lia|]. split; [reflexivity|]. split; [exact Hprev|exact H2]. }
  shape. split; [lia|]. split; [reflexivity|]. split; [exact Hprev|].
  exists e2. repeat split; auto.
Qed.

Lemma withRetry_spec_witness :
  OpenAIClient.outcome
    (OpenAIClient.withRetry
       (fun n => if (n <? 2)%nat then inr OpenAIClient.rateLimited else inl "parsed")
       "Job description parsing")
  = inl "parsed"
  /\
  exists err,
    OpenAIClient.outcome
      (OpenAIClient.withRetry
         (fun _ : nat => @inr string _ OpenAIClient.unauthorized)
         "Job description parsing")
    = inr err /\
    OpenAIClient.oe_message err
    = "Job description parsing failed after 1 attempt(s): Incorrect API key".
Proof.
  split.
  - pose proof (withRetry_spec
                  (fun n => if (n <? 2)%nat then inr OpenAIClient.rateLimited
                            else inl "parsed")
                  "Job description parsing") as [_ [_ [_ H]]].
    destruct (OpenAIClient.outcome _) as [value|err] eqn:Hout.
    + vm_compute in Hout. symmetry. exact Hout.
    + vm_compute in Hout. discriminate.
  - pose proof (withRetry_spec
                  (fun _ : nat => @inr string _ OpenAIClient.unauthorized)
                  "Job description parsing") as [_ [_ [_ H]]].
    destruct (OpenAIClient.outcome _) as [value|err] eqn:Hout.
    + vm_compute in Hout. discriminate.
    + exists err. split; [reflexivity|].
      destruct H as [e [He [_ [_ [_ Hm]]]]].
      rewrite Hm. injection He as <-. vm_compute. reflexivity.
Defined.
